(** * Reconciliation engine of ledger-live-common

    A shallow embedding of [src/libs/ledger-live-common/src/reconciliation.ts]
    (the minimal operations builder, its step builder, the balance-history
    invalidator and the account / sub-account patcher) and of the decoders
    and encoders of the account serialisation module that it calls
    ([fromOperationRaw], [fromSubAccountRaw], [fromAccountRaw] and their
    inverses), followed by the properties that the specification states
    about them.

    JavaScript objects have an identity.  The reconciliation code relies on
    it ([!==] between arrays and between accounts), and it mutates arrays in
    place ([push]) that can be reached through two names.  Arrays of
    operations therefore live in a store indexed by references; every other
    object carries the reference it was allocated at. *)

From Stdlib Require Import ZArith Lia.
From stdpp Require Import base option list gmap strings.

Local Open Scope Z_scope.

(** ** References, operations and the store *)

Definition loc := nat.

(** [extra]: a record of keys and printed values. *)
Definition Extra := list (string * string).

(** [Operation]: the fields the engine reads ([id], [hash], [blockHeight]);
    [op_value] and [op_fee] stand for the payload compared by [sameOp];
    [op_accountId], [op_extra] and the four optional fields of an NFT
    operation are the fields the decoder of the serialisation module reads
    and writes.  [op_ref] is the identity of the object. *)
Record Operation := mkOperation {
  op_ref : loc;
  op_id : string;
  op_hash : string;
  op_blockHeight : option Z;
  op_value : Z;
  op_fee : Z;
  op_accountId : string;
  op_extra : option Extra;
  op_contract : option string;
  op_operator : option string;
  op_standard : option string;
  op_tokenId : option string
}.

#[global] Instance Operation_eq_dec : EqDecision Operation.
Proof. solve_decision. Defined.

(** What the engine asks of its environment, in order. *)
Inductive Event :=
| EvSameOp (existingOp newOp : Operation)
| EvWarn (newOp existingOp : Operation) (msg : string)
| EvMerge (group : list Operation).

Record World := mkWorld {
  w_arrays : gmap loc (list Operation);
  w_next : loc;
  w_log : list Event
}.

Inductive Res (A : Type) :=
| Ok (a : A)
| Throw (msg : string).
Arguments Ok {A} a.
Arguments Throw {A} msg.

Definition M (A : Type) : Type := World → Res (A * World).

Definition ret {A} (a : A) : M A := λ w, Ok (a, w).

Definition bind {A B} (m : M A) (k : A → M B) : M B :=
  λ w, match m w with
       | Ok (a, w') => k a w'
       | Throw e => Throw e
       end.

Definition throw {A} (msg : string) : M A := λ _, Throw msg.

Notation "x <- m ;; k" := (bind m (λ x, k))
  (at level 100, m at next level, right associativity).
Notation "m ;;; k" := (bind m (λ _, k))
  (at level 100, right associativity).

(** The array stored at [l]. *)
Definition items (w : World) (l : loc) : list Operation :=
  default [] (w_arrays w !! l).

Definition w_alloc (xs : list Operation) (w : World) : World :=
  {| w_arrays := <[w_next w := xs]> (w_arrays w);
     w_next := S (w_next w);
     w_log := w_log w |}.

Definition w_push (l : loc) (x : Operation) (w : World) : World :=
  {| w_arrays := <[l := items w l ++ [x]]> (w_arrays w);
     w_next := w_next w;
     w_log := w_log w |}.

Definition w_bump (w : World) : World :=
  {| w_arrays := w_arrays w;
     w_next := S (w_next w);
     w_log := w_log w |}.

Definition w_emit (e : Event) (w : World) : World :=
  {| w_arrays := w_arrays w;
     w_next := w_next w;
     w_log := w_log w ++ [e] |}.

Definition readArray (l : loc) : M (list Operation) :=
  λ w, Ok (items w l, w).

(** An array literal or the result of [concat] / [slice]: a new reference. *)
Definition newArray (xs : list Operation) : M loc :=
  λ w, Ok (w_next w, w_alloc xs w).

(** [a.push(x)]: the array at [l] changes for every holder of [l]. *)
Definition push (l : loc) (x : Operation) : M () :=
  λ w, Ok ((), w_push l x w).

(** A new object that is not an array: only its identity is recorded. *)
Definition newObject : M loc :=
  λ w, Ok (w_next w, w_bump w).

Definition emit (e : Event) : M () :=
  λ w, Ok ((), w_emit e w).

(** ** Array primitives of the host language *)

(** [ops.find(p)]. *)
Fixpoint Array_find {A} (p : A → bool) (xs : list A) : option A :=
  match xs with
  | [] => None
  | x :: xs' => if p x then Some x else Array_find p xs'
  end.

(** [ops.indexOf(x)] on objects: strict equality is identity; [-1] when
    absent. *)
Fixpoint Array_indexOf_from (k : Z) (xs : list Operation) (x : Operation) : Z :=
  match xs with
  | [] => -1
  | y :: xs' =>
      if bool_decide (op_ref y = op_ref x) then k
      else Array_indexOf_from (k + 1) xs' x
  end.

Definition Array_indexOf (xs : list Operation) (x : Operation) : Z :=
  Array_indexOf_from 0 xs x.

(** [xs.slice(j)]: a negative [j] counts from the end. *)
Definition Array_slice {A} (xs : list A) (j : Z) : list A :=
  if decide (j < 0)
  then drop (Z.to_nat (Z.max 0 (Z.of_nat (length xs) + j))) xs
  else drop (Z.to_nat j) xs.

Definition Array_length {A} (xs : list A) : Z := Z.of_nat (length xs).

(** ** The step builder *)

Record StepBuilderState := mkState {
  operations : loc;
  existingOps : loc;
  immutableOpCmpDoneOnce : bool;
  finished : bool
}.

Definition findExistingOp (ops : list Operation) (op : Operation) : option Operation :=
  Array_find (λ o, bool_decide (op_id o = op_id op)) ops.

Definition op_mismatch_msg : string := "op mismatch. doing a full clear cache.".

Section Builder.

(** [sameOp] belongs to the bridge helpers; it is a parameter here. *)
Variable sameOp : Operation → Operation → bool.

(** The second half of [stepBuilder], from [if (existingOp)] on. *)
Definition stepBuilder_tail (state : StepBuilderState)
    (existingOp : option Operation) (newOp : Operation) (i : Z)
    : M StepBuilderState :=
  match existingOp with
  | Some existingOp =>
      existing <- readArray (existingOps state) ;;
      let j := Array_indexOf existing existingOp in
      let rest := Array_slice existing j in
      if decide (Array_length rest > i + 1) then
        push (operations state) existingOp ;;;
        ret state
      else
        pushed <- readArray (operations state) ;;
        if decide (Array_length pushed = 0 ∧ j = 0) then
          ret {| operations := existingOps state;
                 existingOps := existingOps state;
                 immutableOpCmpDoneOnce := immutableOpCmpDoneOnce state;
                 finished := true |}
        else
          r <- newArray (pushed ++ rest) ;;
          ret {| operations := r;
                 existingOps := existingOps state;
                 immutableOpCmpDoneOnce := immutableOpCmpDoneOnce state;
                 finished := true |}
  | None =>
      push (operations state) newOp ;;;
      ret state
  end.

Definition setCmpDone (state : StepBuilderState) : StepBuilderState :=
  {| operations := operations state;
     existingOps := existingOps state;
     immutableOpCmpDoneOnce := true;
     finished := finished state |}.

Definition stepBuilder (state : StepBuilderState) (newOp : Operation) (i : Z)
    : M StepBuilderState :=
  existing <- readArray (existingOps state) ;;
  let existingOp := findExistingOp existing newOp in
  match existingOp with
  | Some e =>
      if negb (immutableOpCmpDoneOnce state) then
        if bool_decide (op_blockHeight e ≠ op_blockHeight newOp) then
          push (operations state) newOp ;;;
          ret state
        else
          let state := setCmpDone state in
          emit (EvSameOp e newOp) ;;;
          if negb (sameOp e newOp) then
            emit (EvWarn newOp e op_mismatch_msg) ;;;
            fresh <- newArray [] ;;
            push (operations state) newOp ;;;
            ret {| operations := operations state;
                   existingOps := fresh;
                   immutableOpCmpDoneOnce := true;
                   finished := finished state |}
          else stepBuilder_tail state existingOp newOp i
      else stepBuilder_tail state existingOp newOp i
  | None => stepBuilder_tail state existingOp newOp i
  end.

(** ** The two builders *)

Section Walk.
Context {CO : Type}.
Variable coreOperations : list CO.

(** The body of [for (let i = length - 1; i >= 0; i--)] of the
    synchronous builder, with [n = i + 1] indices left. *)
Fixpoint syncLoop (buildOp : CO → option Operation) (n : nat)
    (state : StepBuilderState) : M StepBuilderState :=
  match n with
  | O => ret state
  | S i =>
      match coreOperations !! i ≫= buildOp with
      | None => syncLoop buildOp i state
      | Some newOp =>
          state <- stepBuilder state newOp (Z.of_nat i) ;;
          if finished state then ret state
          else syncLoop buildOp i state
      end
  end.

Definition initialState (existingOperations : loc) : M StepBuilderState :=
  fresh <- newArray [] ;;
  ret {| finished := false;
         operations := fresh;
         existingOps := existingOperations;
         immutableOpCmpDoneOnce := false |}.

Definition minimalOperationsBuilderSync (existingOperations : loc)
    (buildOp : CO → option Operation) : M loc :=
  existing <- readArray existingOperations ;;
  if decide (Array_length existing = 0 ∧ Array_length coreOperations = 0)
  then ret existingOperations
  else
    state <- initialState existingOperations ;;
    state <- syncLoop buildOp (length coreOperations) state ;;
    ret (operations state).

(** [buildOp] is code of the caller.  The loop above takes a callback
    without effects; [patchOperations] hands the synchronous builder a
    decoder that builds a new object on every call and can throw.
    [syncLoopM] and [minimalOperationsBuilderSyncM] are the same loop and
    the same function with the callback run in the store: it is called
    once per index, just before the step, and an exception of the
    callback ends the call. *)
Fixpoint syncLoopM (buildOp : CO → M (option Operation)) (n : nat)
    (state : StepBuilderState) : M StepBuilderState :=
  match n with
  | O => ret state
  | S i =>
      match coreOperations !! i with
      | None => syncLoopM buildOp i state
      | Some coreOperation =>
          newOp <- buildOp coreOperation ;;
          match newOp with
          | None => syncLoopM buildOp i state
          | Some newOp =>
              state <- stepBuilder state newOp (Z.of_nat i) ;;
              if finished state then ret state
              else syncLoopM buildOp i state
          end
      end
  end.

Definition minimalOperationsBuilderSyncM (existingOperations : loc)
    (buildOp : CO → M (option Operation)) : M loc :=
  existing <- readArray existingOperations ;;
  if decide (Array_length existing = 0 ∧ Array_length coreOperations = 0)
  then ret existingOperations
  else
    state <- initialState existingOperations ;;
    state <- syncLoopM buildOp (length coreOperations) state ;;
    ret (operations state).

(** The asynchronous builder awaits each [buildOp] before the next
    index, so it is the same sequential walk; [acc] is the local
    [operationWithSameHash]. *)
Fixpoint asyncLoop (buildOp : CO → option Operation)
    (mergeSameHashOps : option (list Operation → Operation))
    (n : nat) (acc : list Operation) (state : StepBuilderState)
    : M (list Operation * StepBuilderState) :=
  match n with
  | O => ret (acc, state)
  | S i =>
      match coreOperations !! i ≫= buildOp with
      | None => asyncLoop buildOp mergeSameHashOps i acc state
      | Some op =>
          match mergeSameHashOps with
          | Some merge =>
              if bool_decide (Array_length acc = 0) ||
                 bool_decide (op_hash <$> head acc = Some (op_hash op))
              then asyncLoop buildOp mergeSameHashOps i (acc ++ [op]) state
              else
                emit (EvMerge acc) ;;;
                let newOp := merge acc in
                state <- stepBuilder state newOp (Z.of_nat i) ;;
                if finished state then ret ([op], state)
                else asyncLoop buildOp mergeSameHashOps i [op] state
          | None =>
              state <- stepBuilder state op (Z.of_nat i) ;;
              if finished state then ret (acc, state)
              else asyncLoop buildOp mergeSameHashOps i acc state
          end
      end
  end.

Definition minimalOperationsBuilder (existingOperations : loc)
    (buildOp : CO → option Operation)
    (mergeSameHashOps : option (list Operation → Operation)) : M loc :=
  existing <- readArray existingOperations ;;
  if decide (Array_length existing = 0 ∧ Array_length coreOperations = 0)
  then ret existingOperations
  else
    state <- initialState existingOperations ;;
    walked <- asyncLoop buildOp mergeSameHashOps
                (length coreOperations) [] state ;;
    let acc := walked.1 in
    let state := walked.2 in
    if finished state then ret (operations state)
    else
      match mergeSameHashOps with
      | Some merge =>
          if decide (Array_length acc ≠ 0) then
            emit (EvMerge acc) ;;;
            state <- stepBuilder state (merge acc) 0 ;;
            ret (operations state)
          else ret (operations state)
      | None => ret (operations state)
      end.

End Walk.

End Builder.


(** ** What one call of the step builder does

    The outcomes of [stepBuilder], one constructor per path through the
    function.  [Checked] is the first [if]: either the one-shot comparison
    was done before, or it is done now and succeeds. *)

Definition finishedWith (state : StepBuilderState) (ops : loc) : StepBuilderState :=
  {| operations := ops;
     existingOps := existingOps state;
     immutableOpCmpDoneOnce := immutableOpCmpDoneOnce state;
     finished := true |}.

Definition clearedState (state : StepBuilderState) (fresh : loc) : StepBuilderState :=
  {| operations := operations state;
     existingOps := fresh;
     immutableOpCmpDoneOnce := true;
     finished := finished state |}.

Section Outcomes.

Variable sameOp : Operation → Operation → bool.

Inductive Checked (state : StepBuilderState) (e newOp : Operation) (w : World)
  : StepBuilderState → World → Prop :=
| checked_before :
    immutableOpCmpDoneOnce state = true →
    Checked state e newOp w state w
| checked_now :
    immutableOpCmpDoneOnce state = false →
    op_blockHeight e = op_blockHeight newOp →
    sameOp e newOp = true →
    Checked state e newOp w (setCmpDone state) (w_emit (EvSameOp e newOp) w).

Inductive StepOutcome (state : StepBuilderState) (newOp : Operation) (i : Z)
    (w : World) : StepBuilderState → World → Prop :=
| step_new :
    findExistingOp (items w (existingOps state)) newOp = None →
    StepOutcome state newOp i w state (w_push (operations state) newOp w)
| step_blockHeight e :
    findExistingOp (items w (existingOps state)) newOp = Some e →
    immutableOpCmpDoneOnce state = false →
    op_blockHeight e ≠ op_blockHeight newOp →
    StepOutcome state newOp i w state (w_push (operations state) newOp w)
| step_mismatch e w1 :
    findExistingOp (items w (existingOps state)) newOp = Some e →
    immutableOpCmpDoneOnce state = false →
    op_blockHeight e = op_blockHeight newOp →
    sameOp e newOp = false →
    w1 = w_emit (EvWarn newOp e op_mismatch_msg) (w_emit (EvSameOp e newOp) w) →
    StepOutcome state newOp i w
      (clearedState state (w_next w1))
      (w_push (operations state) newOp (w_alloc [] w1))
| step_keep e state1 w1 :
    findExistingOp (items w (existingOps state)) newOp = Some e →
    Checked state e newOp w state1 w1 →
    Array_length (Array_slice (items w (existingOps state))
                    (Array_indexOf (items w (existingOps state)) e)) > i + 1 →
    StepOutcome state newOp i w state1 (w_push (operations state) e w1)
| step_finish_same e state1 w1 :
    findExistingOp (items w (existingOps state)) newOp = Some e →
    Checked state e newOp w state1 w1 →
    ¬ Array_length (Array_slice (items w (existingOps state))
                      (Array_indexOf (items w (existingOps state)) e)) > i + 1 →
    Array_length (items w (operations state)) = 0 →
    Array_indexOf (items w (existingOps state)) e = 0 →
    StepOutcome state newOp i w (finishedWith state1 (existingOps state)) w1
| step_finish_concat e state1 w1 :
    findExistingOp (items w (existingOps state)) newOp = Some e →
    Checked state e newOp w state1 w1 →
    ¬ Array_length (Array_slice (items w (existingOps state))
                      (Array_indexOf (items w (existingOps state)) e)) > i + 1 →
    ¬ (Array_length (items w (operations state)) = 0 ∧
       Array_indexOf (items w (existingOps state)) e = 0) →
    StepOutcome state newOp i w
      (finishedWith state1 (w_next w1))
      (w_alloc (items w (operations state) ++
                Array_slice (items w (existingOps state))
                  (Array_indexOf (items w (existingOps state)) e)) w1).

End Outcomes.

(** ** Vocabulary of the properties of the walk *)

(** The number of full comparisons requested so far. *)
Fixpoint sameOpCalls (log : list Event) : nat :=
  match log with
  | [] => O
  | EvSameOp _ _ :: log' => S (sameOpCalls log')
  | _ :: log' => sameOpCalls log'
  end.

(** The groups handed to the merger so far, oldest call first. *)
Fixpoint mergedGroups (log : list Event) : list (list Operation) :=
  match log with
  | [] => []
  | EvMerge g :: log' => g :: mergedGroups log'
  | _ :: log' => mergedGroups log'
  end.

(** [existingOperations] is an array that exists when the builder is
    called. *)
Definition allocated (w : World) (l : loc) : Prop := (l < w_next w)%nat.

(** What holds of a walk between two steps, for a call that started in
    [w0] on the cache [ex]: arrays that existed at the call are untouched,
    the output under construction is an array of this call, and the window
    is either the cache itself or the empty array that replaced it. *)
Record WalkInv (w0 : World) (ex : loc) (state : StepBuilderState) (w : World)
  : Prop := {
  inv_next : (w_next w0 ≤ w_next w)%nat;
  inv_frame : ∀ l, (l < w_next w0)%nat → items w l = items w0 l;
  inv_output :
    finished state = false →
    (w_next w0 ≤ operations state < w_next w)%nat;
  inv_window :
    existingOps state = ex ∨
    ((w_next w0 ≤ existingOps state < w_next w)%nat ∧
     items w (existingOps state) = [] ∧
     existingOps state ≠ operations state ∧
     immutableOpCmpDoneOnce state = true);
  inv_calls :
    (sameOpCalls (w_log w) ≤
     sameOpCalls (w_log w0) + (if immutableOpCmpDoneOnce state then 1 else 0))%nat
}.

(** The window has been emptied by the fail-safe. *)
Definition Cleared (state : StepBuilderState) (w : World) : Prop :=
  items w (existingOps state) = [] ∧ existingOps state ≠ operations state.

Section WalkVocabulary.

Variable sameOp : Operation → Operation → bool.

(** [state'], [w'] are the result of a step that stopped the walk: a step
    on a cached operation [e] found by id, at window position [j], whose
    cached suffix [rest] has at most [i + 1] entries. *)
Definition FinishingStep (w0 : World) (ex : loc)
    (state' : StepBuilderState) (w' : World) : Prop :=
  ∃ state newOp i e w,
    WalkInv w0 ex state w ∧
    finished state = false ∧
    existingOps state = ex ∧
    stepBuilder sameOp state newOp i w = Ok (state', w') ∧
    findExistingOp (items w0 ex) newOp = Some e ∧
    let j := Array_indexOf (items w0 ex) e in
    let rest := Array_slice (items w0 ex) j in
    let pushed := items w (operations state) in
    Array_length rest ≤ i + 1 ∧
    ((pushed = [] ∧ j = 0 ∧ operations state' = ex) ∨
     (¬ (pushed = [] ∧ j = 0) ∧
      ¬ allocated w0 (operations state') ∧
      items w' (operations state') = pushed ++ rest ∧
      ∀ k x, rest !! k = Some x → items w0 ex !! (Z.to_nat j + k)%nat = Some x)).

End WalkVocabulary.

Section WalkEnds.

Variable sameOp : Operation → Operation → bool.

(** How a call of a builder that started in [w] on the cache [ex] can end
    with the reference [r] in the world [w']: by the early exit, by running
    out of raw records, or by a finishing step. *)
Inductive WalkEnd {CO} (coreOperations : list CO) (w : World) (ex : loc)
    (r : loc) (w' : World) : Prop :=
| end_early :
    items w ex = [] → coreOperations = [] → r = ex → w' = w →
    WalkEnd coreOperations w ex r w'
| end_exhausted state' :
    ¬ (items w ex = [] ∧ coreOperations = []) →
    finished state' = false →
    WalkInv w ex state' w' →
    operations state' = r →
    WalkEnd coreOperations w ex r w'
| end_finished state' :
    ¬ (items w ex = [] ∧ coreOperations = []) →
    finished state' = true →
    WalkInv w ex state' w' →
    FinishingStep sameOp w ex state' w' →
    operations state' = r →
    WalkEnd coreOperations w ex r w'.

End WalkEnds.

Section WalkHeads.

Variable sameOp : Operation → Operation → bool.
Context {CO : Type}.
Variables (coreOperations : list CO) (buildOp : CO → option Operation).
Variables (w : World) (existingOperations : loc).

(** The heads of the [for] loop of [minimalOperationsBuilderSync] in the
    call that started in [w] on [existingOperations]: [Walked n state w1]
    says that the loop comes to index [n - 1] (to its exit when [n = 0])
    with the state [state] in the store [w1].  The loop is entered with
    the initial state at [length coreOperations]; it goes on from an
    index whose record is skipped, and from an index whose step does not
    set [finished]. *)
Inductive Walked : nat → StepBuilderState → World → Prop :=
| walked_start state w1 :
    initialState existingOperations w = Ok (state, w1) →
    Walked (length coreOperations) state w1
| walked_skip n state w1 :
    Walked (S n) state w1 →
    coreOperations !! n ≫= buildOp = None →
    Walked n state w1
| walked_step n state w1 newOp state' w' :
    Walked (S n) state w1 →
    coreOperations !! n ≫= buildOp = Some newOp →
    stepBuilder sameOp state newOp (Z.of_nat n) w1 = Ok (state', w') →
    finished state' = false →
    Walked n state' w'.

(** The same for the loop of [minimalOperationsBuilder], which also
    carries [operationWithSameHash]: with a merger a record is either
    added to the accumulated group, or it starts the next group and the
    merged group takes a step; without one every record takes a step. *)
Inductive WalkedAsync (mergeSameHashOps : option (list Operation → Operation))
  : nat → list Operation → StepBuilderState → World → Prop :=
| walkedAsync_start state w1 :
    initialState existingOperations w = Ok (state, w1) →
    WalkedAsync mergeSameHashOps (length coreOperations) [] state w1
| walkedAsync_skip n acc state w1 :
    WalkedAsync mergeSameHashOps (S n) acc state w1 →
    coreOperations !! n ≫= buildOp = None →
    WalkedAsync mergeSameHashOps n acc state w1
| walkedAsync_accumulate n acc state w1 op :
    WalkedAsync mergeSameHashOps (S n) acc state w1 →
    coreOperations !! n ≫= buildOp = Some op →
    is_Some mergeSameHashOps →
    bool_decide (Array_length acc = 0) ||
      bool_decide (op_hash <$> head acc = Some (op_hash op)) = true →
    WalkedAsync mergeSameHashOps n (acc ++ [op]) state w1
| walkedAsync_release n acc state w1 op merge state' w' :
    WalkedAsync mergeSameHashOps (S n) acc state w1 →
    coreOperations !! n ≫= buildOp = Some op →
    mergeSameHashOps = Some merge →
    bool_decide (Array_length acc = 0) ||
      bool_decide (op_hash <$> head acc = Some (op_hash op)) = false →
    stepBuilder sameOp state (merge acc) (Z.of_nat n)
      (w_emit (EvMerge acc) w1) = Ok (state', w') →
    finished state' = false →
    WalkedAsync mergeSameHashOps n [op] state' w'
| walkedAsync_step n acc state w1 op state' w' :
    WalkedAsync mergeSameHashOps (S n) acc state w1 →
    coreOperations !! n ≫= buildOp = Some op →
    mergeSameHashOps = None →
    stepBuilder sameOp state op (Z.of_nat n) w1 = Ok (state', w') →
    finished state' = false →
    WalkedAsync mergeSameHashOps n acc state' w'.

(** [stepBuilder (state, newOp, i)] is called in the store [w1]: by the
    synchronous builder in its loop, by the asynchronous builder in its
    loop on a record (no merger) or on a released group, and after its
    loop on the last group. *)
Inductive StepCallSync
  : StepBuilderState → Operation → Z → World → Prop :=
| callSync_record n state w1 newOp :
    Walked (S n) state w1 →
    coreOperations !! n ≫= buildOp = Some newOp →
    StepCallSync state newOp (Z.of_nat n) w1.

Inductive StepCallAsync (mergeSameHashOps : option (list Operation → Operation))
  : StepBuilderState → Operation → Z → World → Prop :=
| callAsync_record n acc state w1 op :
    WalkedAsync mergeSameHashOps (S n) acc state w1 →
    coreOperations !! n ≫= buildOp = Some op →
    mergeSameHashOps = None →
    StepCallAsync mergeSameHashOps state op (Z.of_nat n) w1
| callAsync_release n acc state w1 op merge :
    WalkedAsync mergeSameHashOps (S n) acc state w1 →
    coreOperations !! n ≫= buildOp = Some op →
    mergeSameHashOps = Some merge →
    bool_decide (Array_length acc = 0) ||
      bool_decide (op_hash <$> head acc = Some (op_hash op)) = false →
    StepCallAsync mergeSameHashOps state (merge acc) (Z.of_nat n)
      (w_emit (EvMerge acc) w1)
| callAsync_flush acc state w1 merge :
    WalkedAsync mergeSameHashOps O acc state w1 →
    mergeSameHashOps = Some merge →
    Array_length acc ≠ 0 →
    StepCallAsync mergeSameHashOps state (merge acc) 0
      (w_emit (EvMerge acc) w1).

End WalkHeads.

(** The operations the walk receives from the adapter when [n] indices are
    left: index [n - 1] first, skipped records omitted. *)
Definition walkOps {CO} (coreOperations : list CO)
    (buildOp : CO → option Operation) (n : nat) : list Operation :=
  omap buildOp (reverse (take n coreOperations)).

(** ** Groups of one hash

    [hashRuns] follows the words of the specification: the maximal runs of
    adjacent operations that share a hash.  [runsFrom] follows the loop:
    it accumulates into [acc] with the test the code uses. *)

Fixpoint hashRuns (ops : list Operation) : list (list Operation) :=
  match ops with
  | [] => []
  | x :: xs =>
      match hashRuns xs with
      | (y :: g) :: gs =>
          if bool_decide (op_hash x = op_hash y)
          then (x :: y :: g) :: gs
          else [x] :: (y :: g) :: gs
      | _ => [[x]]
      end
  end.

Definition pendingGroup (acc : list Operation) : list (list Operation) :=
  match acc with
  | [] => []
  | _ => [acc]
  end.

Fixpoint runsFrom (acc : list Operation) (ops : list Operation)
    : list (list Operation) :=
  match ops with
  | [] => pendingGroup acc
  | op :: ops' =>
      if bool_decide (Array_length acc = 0) ||
         bool_decide (op_hash <$> head acc = Some (op_hash op))
      then runsFrom (acc ++ [op]) ops'
      else acc :: runsFrom [op] ops'
  end.

(** ** Balance-history cache *)

(** One resolution of the cache.  JavaScript numbers are integers here;
    [latestDate] is [number | null | undefined]. *)
Record BalanceHistoryBucket := mkBucket {
  latestDate : option Z;
  balances : list Z
}.

Record BalanceHistoryCache := mkBalanceHistoryCache {
  HOUR : BalanceHistoryBucket;
  DAY : BalanceHistoryBucket;
  WEEK : BalanceHistoryBucket
}.

(** The second argument is the [balanceHistoryCache] of the account, the
    only field of the account the function reads. *)
Definition shouldRefreshBalanceHistoryCache
    (balanceHistoryCache account_balanceHistoryCache : BalanceHistoryCache)
    : bool :=
  let oldH := HOUR account_balanceHistoryCache in
  let newH := HOUR balanceHistoryCache in
  if bool_decide (latestDate oldH ≠ latestDate newH) then true
  else if bool_decide (Array_length (balances oldH) ≠ Array_length (balances newH))
  then true
  else
    let length := Array_length (balances newH) in
    if bool_decide (length = 0) then false
    else if bool_decide (balances oldH !! Z.to_nat (length - 1)
                         ≠ balances newH !! Z.to_nat (length - 1))
    then true
    else false.

(** The decision in the words of the specification. *)
Definition refreshDecision (cached candidate : BalanceHistoryBucket) : Prop :=
  latestDate cached ≠ latestDate candidate ∨
  length (balances cached) ≠ length (balances candidate) ∨
  (balances cached ≠ [] ∧ balances candidate ≠ [] ∧
   last (balances cached) ≠ last (balances candidate)).

(** ** Accounts, sub-accounts and their raw forms *)

(** The value types the patcher treats as opaque, with the operations it
    uses on them.  [EqDecision] is the deep equality of [isEqual]. *)
Class Primitives := {
  BigNumber : Type;
  BigNumber_new : string → BigNumber;
  BigNumber_toString : BigNumber → string;
  BigNumber_eq_dec :: EqDecision BigNumber;
  JsDate : Type;
  Date_new : string → JsDate;
  Date_ofTime : Z → JsDate;
  Date_now : JsDate;
  Date_toISOString : JsDate → string;
  OperationRaw : Type;
  FamilyResources : Type;
  FamilyResourcesRaw : Type;
  FamilyResourcesRaw_eq_dec :: EqDecision FamilyResourcesRaw;
  Utxo : Type;
  UtxoRaw : Type;
  WalletAccount : Type;
  Metadata : Type;
  Metadata_eq_dec :: EqDecision Metadata;
  AccountRest : Type;
  AccountRawRest : Type;
  SubAccountRest : Type;
  SubAccountRawRest : Type
}.

Section AccountTypes.
Context `{Primitives}.

Record Approval := mkApproval {
  approval_sender : string;
  approval_value : string
}.

#[global] Instance Approval_eq_dec : EqDecision Approval.
Proof. solve_decision. Defined.

Record ProtoNFT := mkProtoNFT {
  nft_id : string;
  nft_tokenId : string;
  nft_amount : BigNumber;
  nft_contract : string;
  nft_standard : string;
  nft_currencyId : string;
  nft_metadata : Metadata
}.

#[global] Instance ProtoNFT_eq_dec : EqDecision ProtoNFT.
Proof. solve_decision. Defined.

Record ProtoNFTRaw := mkProtoNFTRaw {
  nftRaw_id : string;
  nftRaw_tokenId : string;
  nftRaw_amount : string;
  nftRaw_contract : string;
  nftRaw_standard : string;
  nftRaw_currencyId : string;
  nftRaw_metadata : Metadata
}.

Record BitcoinResources := mkBitcoinResources {
  utxos : list Utxo;
  walletAccount : option WalletAccount
}.

Record BitcoinResourcesRaw := mkBitcoinResourcesRaw {
  raw_utxos : list UtxoRaw;
  raw_walletAccount : option WalletAccount
}.

(** The tagged union [TokenAccount | ChildAccount]: the fields that only a
    token account has come with its tag. *)
Inductive SubAccountKind :=
| TokenAccount (spendableBalance : BigNumber)
    (compoundBalance : option BigNumber)
    (approvals : option (list Approval))
| ChildAccount.

Record SubAccount := mkSubAccount {
  sub_ref : loc;
  sub_kind : SubAccountKind;
  sub_id : string;
  sub_parentId : string;
  sub_operations : loc;
  sub_pendingOperations : loc;
  sub_operationsCount : Z;
  sub_creationDate : JsDate;
  sub_balance : BigNumber;
  sub_balanceHistoryCache : BalanceHistoryCache;
  sub_rest : SubAccountRest
}.

(** A raw sub-account.  [subRaw_type] is the discriminant as it is read
    from storage: any string. *)
Record SubAccountRaw := mkSubAccountRaw {
  subRaw_type : string;
  subRaw_id : string;
  subRaw_parentId : string;
  subRaw_operations : list OperationRaw;
  subRaw_pendingOperations : list OperationRaw;
  subRaw_operationsCount : option Z;
  subRaw_creationDate : option string;
  subRaw_balance : string;
  subRaw_spendableBalance : option string;
  subRaw_compoundBalance : option string;
  subRaw_approvals : option (list Approval);
  subRaw_balanceHistoryCache : option BalanceHistoryCache;
  subRaw_tokenId : string;
  subRaw_rest : SubAccountRawRest
}.

(** An array of sub-accounts is never written to after it is built: it is
    a value with the reference it was allocated at. *)
Record SubAccountArray := mkSubAccountArray {
  subs_ref : loc;
  subs_items : list SubAccount
}.

Record Account := mkAccount {
  acc_ref : loc;
  acc_id : string;
  acc_family : string;
  acc_subAccounts : option SubAccountArray;
  acc_operations : loc;
  acc_pendingOperations : loc;
  acc_operationsCount : Z;
  acc_balance : BigNumber;
  acc_spendableBalance : BigNumber;
  acc_lastSyncDate : JsDate;
  acc_creationDate : JsDate;
  acc_freshAddress : string;
  acc_freshAddressPath : string;
  acc_blockHeight : Z;
  acc_syncHash : option string;
  acc_balanceHistoryCache : BalanceHistoryCache;
  acc_bitcoinResources : option BitcoinResources;
  acc_polkadotResources : option FamilyResources;
  acc_zilliqaResources : option FamilyResources;
  acc_cryptoOrgResources : option FamilyResources;
  acc_nfts : option (list ProtoNFT);
  acc_rest : AccountRest
}.

Record AccountRaw := mkAccountRaw {
  raw_id : string;
  raw_currencyId : string;
  raw_subAccounts : option (list SubAccountRaw);
  raw_operations : list OperationRaw;
  raw_pendingOperations : list OperationRaw;
  raw_operationsCount : option Z;
  raw_balance : string;
  raw_spendableBalance : option string;
  raw_lastSyncDate : string;
  raw_creationDate : option string;
  raw_freshAddress : string;
  raw_freshAddressPath : string;
  raw_blockHeight : Z;
  raw_syncHash : option string;
  raw_balanceHistoryCache : option BalanceHistoryCache;
  raw_bitcoinResources : option BitcoinResourcesRaw;
  raw_polkadotResources : option FamilyResourcesRaw;
  raw_zilliqaResources : option FamilyResourcesRaw;
  raw_cryptoOrgResources : option FamilyResourcesRaw;
  raw_nfts : option (list ProtoNFTRaw);
  raw_rest : AccountRawRest
}.

(** The part of a bridge the patcher and the decoder use; both functions
    write to the account they are given, which is returned here. *)
Record AccountBridge := mkAccountBridge {
  applyReconciliation : option (Account → AccountRaw → Account → bool * Account);
  assignFromAccountRaw : option (AccountRaw → Account → Account)
}.

End AccountTypes.

(** What a free identifier of a module evaluates to: the module that
    holds [fromOperationRaw] reads [contract], [operator], [standard] and
    [tokenId] and declares none of them. *)
Inductive Binding :=
| Unbound
| Bound (value : option string).

(** The functions of the repository and of its libraries that the patcher
    and the decoder call and that are defined elsewhere.
    [commonFromOperationRaw] is the decoder of the coin framework; the
    object it builds is copied by its caller and not used again, so only
    its fields count.  [fromOperationExtraRaw family] is
    [accountByFamily[family].fromOperationExtraRaw].  [freeIdentifier] is
    the scope the serialisation module is evaluated in: [Unbound] for an
    identifier that nothing binds, which is the repository as it is. *)
Class Collaborators `{Primitives} := {
  sameOp : Operation → Operation → bool;
  commonFromOperationRaw :
    OperationRaw → string → option (list SubAccount) → Res Operation;
  inferFamilyFromAccountId : string → option string;
  fromOperationExtraRaw : string → option (Extra → option Extra);
  freeIdentifier : string → Binding;
  fromBitcoinResourcesRaw : BitcoinResourcesRaw → BitcoinResources;
  isEqual_utxos : list UtxoRaw → list Utxo → bool;
  fromPolkadotResourcesRaw : FamilyResourcesRaw → FamilyResources;
  toPolkadotResourcesRaw : FamilyResources → FamilyResourcesRaw;
  fromZilliqaResourcesRaw : FamilyResourcesRaw → FamilyResources;
  toZilliqaResourcesRaw : FamilyResources → FamilyResourcesRaw;
  fromCryptoOrgResourcesRaw : FamilyResourcesRaw → FamilyResources;
  toCryptoOrgResourcesRaw : FamilyResources → FamilyResourcesRaw;
  getAccountBridge : Account → AccountBridge;
  familyOfCurrencyId : string → Res string;
  findTokenById : string → bool;
  tokenAccountRest : SubAccountRaw → Res SubAccountRest;
  childAccountRest : SubAccountRaw → Res SubAccountRest;
  accountRest : AccountRaw → option (list SubAccount) → AccountRest;
  emptyHistoryCache : BalanceHistoryCache;
  generateHistoryFromOperations_sub : SubAccount → BalanceHistoryCache;
  generateHistoryFromOperations : Account → BalanceHistoryCache
}.

(** ** Field assignment

    [next.f = v] on the copy [next = { ...account }]: every other field is
    kept. *)

Section Setters.
Context `{Primitives}.

Definition set_acc_ref (v : _) (a : Account) : Account :=
  {| acc_ref := v;
     acc_id := acc_id a;
     acc_family := acc_family a;
     acc_subAccounts := acc_subAccounts a;
     acc_operations := acc_operations a;
     acc_pendingOperations := acc_pendingOperations a;
     acc_operationsCount := acc_operationsCount a;
     acc_balance := acc_balance a;
     acc_spendableBalance := acc_spendableBalance a;
     acc_lastSyncDate := acc_lastSyncDate a;
     acc_creationDate := acc_creationDate a;
     acc_freshAddress := acc_freshAddress a;
     acc_freshAddressPath := acc_freshAddressPath a;
     acc_blockHeight := acc_blockHeight a;
     acc_syncHash := acc_syncHash a;
     acc_balanceHistoryCache := acc_balanceHistoryCache a;
     acc_bitcoinResources := acc_bitcoinResources a;
     acc_polkadotResources := acc_polkadotResources a;
     acc_zilliqaResources := acc_zilliqaResources a;
     acc_cryptoOrgResources := acc_cryptoOrgResources a;
     acc_nfts := acc_nfts a;
     acc_rest := acc_rest a |}.

Definition set_acc_subAccounts (v : _) (a : Account) : Account :=
  {| acc_ref := acc_ref a;
     acc_id := acc_id a;
     acc_family := acc_family a;
     acc_subAccounts := v;
     acc_operations := acc_operations a;
     acc_pendingOperations := acc_pendingOperations a;
     acc_operationsCount := acc_operationsCount a;
     acc_balance := acc_balance a;
     acc_spendableBalance := acc_spendableBalance a;
     acc_lastSyncDate := acc_lastSyncDate a;
     acc_creationDate := acc_creationDate a;
     acc_freshAddress := acc_freshAddress a;
     acc_freshAddressPath := acc_freshAddressPath a;
     acc_blockHeight := acc_blockHeight a;
     acc_syncHash := acc_syncHash a;
     acc_balanceHistoryCache := acc_balanceHistoryCache a;
     acc_bitcoinResources := acc_bitcoinResources a;
     acc_polkadotResources := acc_polkadotResources a;
     acc_zilliqaResources := acc_zilliqaResources a;
     acc_cryptoOrgResources := acc_cryptoOrgResources a;
     acc_nfts := acc_nfts a;
     acc_rest := acc_rest a |}.

Definition set_acc_operations (v : _) (a : Account) : Account :=
  {| acc_ref := acc_ref a;
     acc_id := acc_id a;
     acc_family := acc_family a;
     acc_subAccounts := acc_subAccounts a;
     acc_operations := v;
     acc_pendingOperations := acc_pendingOperations a;
     acc_operationsCount := acc_operationsCount a;
     acc_balance := acc_balance a;
     acc_spendableBalance := acc_spendableBalance a;
     acc_lastSyncDate := acc_lastSyncDate a;
     acc_creationDate := acc_creationDate a;
     acc_freshAddress := acc_freshAddress a;
     acc_freshAddressPath := acc_freshAddressPath a;
     acc_blockHeight := acc_blockHeight a;
     acc_syncHash := acc_syncHash a;
     acc_balanceHistoryCache := acc_balanceHistoryCache a;
     acc_bitcoinResources := acc_bitcoinResources a;
     acc_polkadotResources := acc_polkadotResources a;
     acc_zilliqaResources := acc_zilliqaResources a;
     acc_cryptoOrgResources := acc_cryptoOrgResources a;
     acc_nfts := acc_nfts a;
     acc_rest := acc_rest a |}.

Definition set_acc_pendingOperations (v : _) (a : Account) : Account :=
  {| acc_ref := acc_ref a;
     acc_id := acc_id a;
     acc_family := acc_family a;
     acc_subAccounts := acc_subAccounts a;
     acc_operations := acc_operations a;
     acc_pendingOperations := v;
     acc_operationsCount := acc_operationsCount a;
     acc_balance := acc_balance a;
     acc_spendableBalance := acc_spendableBalance a;
     acc_lastSyncDate := acc_lastSyncDate a;
     acc_creationDate := acc_creationDate a;
     acc_freshAddress := acc_freshAddress a;
     acc_freshAddressPath := acc_freshAddressPath a;
     acc_blockHeight := acc_blockHeight a;
     acc_syncHash := acc_syncHash a;
     acc_balanceHistoryCache := acc_balanceHistoryCache a;
     acc_bitcoinResources := acc_bitcoinResources a;
     acc_polkadotResources := acc_polkadotResources a;
     acc_zilliqaResources := acc_zilliqaResources a;
     acc_cryptoOrgResources := acc_cryptoOrgResources a;
     acc_nfts := acc_nfts a;
     acc_rest := acc_rest a |}.

Definition set_acc_operationsCount (v : _) (a : Account) : Account :=
  {| acc_ref := acc_ref a;
     acc_id := acc_id a;
     acc_family := acc_family a;
     acc_subAccounts := acc_subAccounts a;
     acc_operations := acc_operations a;
     acc_pendingOperations := acc_pendingOperations a;
     acc_operationsCount := v;
     acc_balance := acc_balance a;
     acc_spendableBalance := acc_spendableBalance a;
     acc_lastSyncDate := acc_lastSyncDate a;
     acc_creationDate := acc_creationDate a;
     acc_freshAddress := acc_freshAddress a;
     acc_freshAddressPath := acc_freshAddressPath a;
     acc_blockHeight := acc_blockHeight a;
     acc_syncHash := acc_syncHash a;
     acc_balanceHistoryCache := acc_balanceHistoryCache a;
     acc_bitcoinResources := acc_bitcoinResources a;
     acc_polkadotResources := acc_polkadotResources a;
     acc_zilliqaResources := acc_zilliqaResources a;
     acc_cryptoOrgResources := acc_cryptoOrgResources a;
     acc_nfts := acc_nfts a;
     acc_rest := acc_rest a |}.

Definition set_acc_balance (v : _) (a : Account) : Account :=
  {| acc_ref := acc_ref a;
     acc_id := acc_id a;
     acc_family := acc_family a;
     acc_subAccounts := acc_subAccounts a;
     acc_operations := acc_operations a;
     acc_pendingOperations := acc_pendingOperations a;
     acc_operationsCount := acc_operationsCount a;
     acc_balance := v;
     acc_spendableBalance := acc_spendableBalance a;
     acc_lastSyncDate := acc_lastSyncDate a;
     acc_creationDate := acc_creationDate a;
     acc_freshAddress := acc_freshAddress a;
     acc_freshAddressPath := acc_freshAddressPath a;
     acc_blockHeight := acc_blockHeight a;
     acc_syncHash := acc_syncHash a;
     acc_balanceHistoryCache := acc_balanceHistoryCache a;
     acc_bitcoinResources := acc_bitcoinResources a;
     acc_polkadotResources := acc_polkadotResources a;
     acc_zilliqaResources := acc_zilliqaResources a;
     acc_cryptoOrgResources := acc_cryptoOrgResources a;
     acc_nfts := acc_nfts a;
     acc_rest := acc_rest a |}.

Definition set_acc_spendableBalance (v : _) (a : Account) : Account :=
  {| acc_ref := acc_ref a;
     acc_id := acc_id a;
     acc_family := acc_family a;
     acc_subAccounts := acc_subAccounts a;
     acc_operations := acc_operations a;
     acc_pendingOperations := acc_pendingOperations a;
     acc_operationsCount := acc_operationsCount a;
     acc_balance := acc_balance a;
     acc_spendableBalance := v;
     acc_lastSyncDate := acc_lastSyncDate a;
     acc_creationDate := acc_creationDate a;
     acc_freshAddress := acc_freshAddress a;
     acc_freshAddressPath := acc_freshAddressPath a;
     acc_blockHeight := acc_blockHeight a;
     acc_syncHash := acc_syncHash a;
     acc_balanceHistoryCache := acc_balanceHistoryCache a;
     acc_bitcoinResources := acc_bitcoinResources a;
     acc_polkadotResources := acc_polkadotResources a;
     acc_zilliqaResources := acc_zilliqaResources a;
     acc_cryptoOrgResources := acc_cryptoOrgResources a;
     acc_nfts := acc_nfts a;
     acc_rest := acc_rest a |}.

Definition set_acc_lastSyncDate (v : _) (a : Account) : Account :=
  {| acc_ref := acc_ref a;
     acc_id := acc_id a;
     acc_family := acc_family a;
     acc_subAccounts := acc_subAccounts a;
     acc_operations := acc_operations a;
     acc_pendingOperations := acc_pendingOperations a;
     acc_operationsCount := acc_operationsCount a;
     acc_balance := acc_balance a;
     acc_spendableBalance := acc_spendableBalance a;
     acc_lastSyncDate := v;
     acc_creationDate := acc_creationDate a;
     acc_freshAddress := acc_freshAddress a;
     acc_freshAddressPath := acc_freshAddressPath a;
     acc_blockHeight := acc_blockHeight a;
     acc_syncHash := acc_syncHash a;
     acc_balanceHistoryCache := acc_balanceHistoryCache a;
     acc_bitcoinResources := acc_bitcoinResources a;
     acc_polkadotResources := acc_polkadotResources a;
     acc_zilliqaResources := acc_zilliqaResources a;
     acc_cryptoOrgResources := acc_cryptoOrgResources a;
     acc_nfts := acc_nfts a;
     acc_rest := acc_rest a |}.

Definition set_acc_creationDate (v : _) (a : Account) : Account :=
  {| acc_ref := acc_ref a;
     acc_id := acc_id a;
     acc_family := acc_family a;
     acc_subAccounts := acc_subAccounts a;
     acc_operations := acc_operations a;
     acc_pendingOperations := acc_pendingOperations a;
     acc_operationsCount := acc_operationsCount a;
     acc_balance := acc_balance a;
     acc_spendableBalance := acc_spendableBalance a;
     acc_lastSyncDate := acc_lastSyncDate a;
     acc_creationDate := v;
     acc_freshAddress := acc_freshAddress a;
     acc_freshAddressPath := acc_freshAddressPath a;
     acc_blockHeight := acc_blockHeight a;
     acc_syncHash := acc_syncHash a;
     acc_balanceHistoryCache := acc_balanceHistoryCache a;
     acc_bitcoinResources := acc_bitcoinResources a;
     acc_polkadotResources := acc_polkadotResources a;
     acc_zilliqaResources := acc_zilliqaResources a;
     acc_cryptoOrgResources := acc_cryptoOrgResources a;
     acc_nfts := acc_nfts a;
     acc_rest := acc_rest a |}.

Definition set_acc_freshAddress (v : _) (a : Account) : Account :=
  {| acc_ref := acc_ref a;
     acc_id := acc_id a;
     acc_family := acc_family a;
     acc_subAccounts := acc_subAccounts a;
     acc_operations := acc_operations a;
     acc_pendingOperations := acc_pendingOperations a;
     acc_operationsCount := acc_operationsCount a;
     acc_balance := acc_balance a;
     acc_spendableBalance := acc_spendableBalance a;
     acc_lastSyncDate := acc_lastSyncDate a;
     acc_creationDate := acc_creationDate a;
     acc_freshAddress := v;
     acc_freshAddressPath := acc_freshAddressPath a;
     acc_blockHeight := acc_blockHeight a;
     acc_syncHash := acc_syncHash a;
     acc_balanceHistoryCache := acc_balanceHistoryCache a;
     acc_bitcoinResources := acc_bitcoinResources a;
     acc_polkadotResources := acc_polkadotResources a;
     acc_zilliqaResources := acc_zilliqaResources a;
     acc_cryptoOrgResources := acc_cryptoOrgResources a;
     acc_nfts := acc_nfts a;
     acc_rest := acc_rest a |}.

Definition set_acc_freshAddressPath (v : _) (a : Account) : Account :=
  {| acc_ref := acc_ref a;
     acc_id := acc_id a;
     acc_family := acc_family a;
     acc_subAccounts := acc_subAccounts a;
     acc_operations := acc_operations a;
     acc_pendingOperations := acc_pendingOperations a;
     acc_operationsCount := acc_operationsCount a;
     acc_balance := acc_balance a;
     acc_spendableBalance := acc_spendableBalance a;
     acc_lastSyncDate := acc_lastSyncDate a;
     acc_creationDate := acc_creationDate a;
     acc_freshAddress := acc_freshAddress a;
     acc_freshAddressPath := v;
     acc_blockHeight := acc_blockHeight a;
     acc_syncHash := acc_syncHash a;
     acc_balanceHistoryCache := acc_balanceHistoryCache a;
     acc_bitcoinResources := acc_bitcoinResources a;
     acc_polkadotResources := acc_polkadotResources a;
     acc_zilliqaResources := acc_zilliqaResources a;
     acc_cryptoOrgResources := acc_cryptoOrgResources a;
     acc_nfts := acc_nfts a;
     acc_rest := acc_rest a |}.

Definition set_acc_blockHeight (v : _) (a : Account) : Account :=
  {| acc_ref := acc_ref a;
     acc_id := acc_id a;
     acc_family := acc_family a;
     acc_subAccounts := acc_subAccounts a;
     acc_operations := acc_operations a;
     acc_pendingOperations := acc_pendingOperations a;
     acc_operationsCount := acc_operationsCount a;
     acc_balance := acc_balance a;
     acc_spendableBalance := acc_spendableBalance a;
     acc_lastSyncDate := acc_lastSyncDate a;
     acc_creationDate := acc_creationDate a;
     acc_freshAddress := acc_freshAddress a;
     acc_freshAddressPath := acc_freshAddressPath a;
     acc_blockHeight := v;
     acc_syncHash := acc_syncHash a;
     acc_balanceHistoryCache := acc_balanceHistoryCache a;
     acc_bitcoinResources := acc_bitcoinResources a;
     acc_polkadotResources := acc_polkadotResources a;
     acc_zilliqaResources := acc_zilliqaResources a;
     acc_cryptoOrgResources := acc_cryptoOrgResources a;
     acc_nfts := acc_nfts a;
     acc_rest := acc_rest a |}.

Definition set_acc_syncHash (v : _) (a : Account) : Account :=
  {| acc_ref := acc_ref a;
     acc_id := acc_id a;
     acc_family := acc_family a;
     acc_subAccounts := acc_subAccounts a;
     acc_operations := acc_operations a;
     acc_pendingOperations := acc_pendingOperations a;
     acc_operationsCount := acc_operationsCount a;
     acc_balance := acc_balance a;
     acc_spendableBalance := acc_spendableBalance a;
     acc_lastSyncDate := acc_lastSyncDate a;
     acc_creationDate := acc_creationDate a;
     acc_freshAddress := acc_freshAddress a;
     acc_freshAddressPath := acc_freshAddressPath a;
     acc_blockHeight := acc_blockHeight a;
     acc_syncHash := v;
     acc_balanceHistoryCache := acc_balanceHistoryCache a;
     acc_bitcoinResources := acc_bitcoinResources a;
     acc_polkadotResources := acc_polkadotResources a;
     acc_zilliqaResources := acc_zilliqaResources a;
     acc_cryptoOrgResources := acc_cryptoOrgResources a;
     acc_nfts := acc_nfts a;
     acc_rest := acc_rest a |}.

Definition set_acc_balanceHistoryCache (v : _) (a : Account) : Account :=
  {| acc_ref := acc_ref a;
     acc_id := acc_id a;
     acc_family := acc_family a;
     acc_subAccounts := acc_subAccounts a;
     acc_operations := acc_operations a;
     acc_pendingOperations := acc_pendingOperations a;
     acc_operationsCount := acc_operationsCount a;
     acc_balance := acc_balance a;
     acc_spendableBalance := acc_spendableBalance a;
     acc_lastSyncDate := acc_lastSyncDate a;
     acc_creationDate := acc_creationDate a;
     acc_freshAddress := acc_freshAddress a;
     acc_freshAddressPath := acc_freshAddressPath a;
     acc_blockHeight := acc_blockHeight a;
     acc_syncHash := acc_syncHash a;
     acc_balanceHistoryCache := v;
     acc_bitcoinResources := acc_bitcoinResources a;
     acc_polkadotResources := acc_polkadotResources a;
     acc_zilliqaResources := acc_zilliqaResources a;
     acc_cryptoOrgResources := acc_cryptoOrgResources a;
     acc_nfts := acc_nfts a;
     acc_rest := acc_rest a |}.

Definition set_acc_bitcoinResources (v : _) (a : Account) : Account :=
  {| acc_ref := acc_ref a;
     acc_id := acc_id a;
     acc_family := acc_family a;
     acc_subAccounts := acc_subAccounts a;
     acc_operations := acc_operations a;
     acc_pendingOperations := acc_pendingOperations a;
     acc_operationsCount := acc_operationsCount a;
     acc_balance := acc_balance a;
     acc_spendableBalance := acc_spendableBalance a;
     acc_lastSyncDate := acc_lastSyncDate a;
     acc_creationDate := acc_creationDate a;
     acc_freshAddress := acc_freshAddress a;
     acc_freshAddressPath := acc_freshAddressPath a;
     acc_blockHeight := acc_blockHeight a;
     acc_syncHash := acc_syncHash a;
     acc_balanceHistoryCache := acc_balanceHistoryCache a;
     acc_bitcoinResources := v;
     acc_polkadotResources := acc_polkadotResources a;
     acc_zilliqaResources := acc_zilliqaResources a;
     acc_cryptoOrgResources := acc_cryptoOrgResources a;
     acc_nfts := acc_nfts a;
     acc_rest := acc_rest a |}.

Definition set_acc_polkadotResources (v : _) (a : Account) : Account :=
  {| acc_ref := acc_ref a;
     acc_id := acc_id a;
     acc_family := acc_family a;
     acc_subAccounts := acc_subAccounts a;
     acc_operations := acc_operations a;
     acc_pendingOperations := acc_pendingOperations a;
     acc_operationsCount := acc_operationsCount a;
     acc_balance := acc_balance a;
     acc_spendableBalance := acc_spendableBalance a;
     acc_lastSyncDate := acc_lastSyncDate a;
     acc_creationDate := acc_creationDate a;
     acc_freshAddress := acc_freshAddress a;
     acc_freshAddressPath := acc_freshAddressPath a;
     acc_blockHeight := acc_blockHeight a;
     acc_syncHash := acc_syncHash a;
     acc_balanceHistoryCache := acc_balanceHistoryCache a;
     acc_bitcoinResources := acc_bitcoinResources a;
     acc_polkadotResources := v;
     acc_zilliqaResources := acc_zilliqaResources a;
     acc_cryptoOrgResources := acc_cryptoOrgResources a;
     acc_nfts := acc_nfts a;
     acc_rest := acc_rest a |}.

Definition set_acc_zilliqaResources (v : _) (a : Account) : Account :=
  {| acc_ref := acc_ref a;
     acc_id := acc_id a;
     acc_family := acc_family a;
     acc_subAccounts := acc_subAccounts a;
     acc_operations := acc_operations a;
     acc_pendingOperations := acc_pendingOperations a;
     acc_operationsCount := acc_operationsCount a;
     acc_balance := acc_balance a;
     acc_spendableBalance := acc_spendableBalance a;
     acc_lastSyncDate := acc_lastSyncDate a;
     acc_creationDate := acc_creationDate a;
     acc_freshAddress := acc_freshAddress a;
     acc_freshAddressPath := acc_freshAddressPath a;
     acc_blockHeight := acc_blockHeight a;
     acc_syncHash := acc_syncHash a;
     acc_balanceHistoryCache := acc_balanceHistoryCache a;
     acc_bitcoinResources := acc_bitcoinResources a;
     acc_polkadotResources := acc_polkadotResources a;
     acc_zilliqaResources := v;
     acc_cryptoOrgResources := acc_cryptoOrgResources a;
     acc_nfts := acc_nfts a;
     acc_rest := acc_rest a |}.

Definition set_acc_cryptoOrgResources (v : _) (a : Account) : Account :=
  {| acc_ref := acc_ref a;
     acc_id := acc_id a;
     acc_family := acc_family a;
     acc_subAccounts := acc_subAccounts a;
     acc_operations := acc_operations a;
     acc_pendingOperations := acc_pendingOperations a;
     acc_operationsCount := acc_operationsCount a;
     acc_balance := acc_balance a;
     acc_spendableBalance := acc_spendableBalance a;
     acc_lastSyncDate := acc_lastSyncDate a;
     acc_creationDate := acc_creationDate a;
     acc_freshAddress := acc_freshAddress a;
     acc_freshAddressPath := acc_freshAddressPath a;
     acc_blockHeight := acc_blockHeight a;
     acc_syncHash := acc_syncHash a;
     acc_balanceHistoryCache := acc_balanceHistoryCache a;
     acc_bitcoinResources := acc_bitcoinResources a;
     acc_polkadotResources := acc_polkadotResources a;
     acc_zilliqaResources := acc_zilliqaResources a;
     acc_cryptoOrgResources := v;
     acc_nfts := acc_nfts a;
     acc_rest := acc_rest a |}.

Definition set_acc_nfts (v : _) (a : Account) : Account :=
  {| acc_ref := acc_ref a;
     acc_id := acc_id a;
     acc_family := acc_family a;
     acc_subAccounts := acc_subAccounts a;
     acc_operations := acc_operations a;
     acc_pendingOperations := acc_pendingOperations a;
     acc_operationsCount := acc_operationsCount a;
     acc_balance := acc_balance a;
     acc_spendableBalance := acc_spendableBalance a;
     acc_lastSyncDate := acc_lastSyncDate a;
     acc_creationDate := acc_creationDate a;
     acc_freshAddress := acc_freshAddress a;
     acc_freshAddressPath := acc_freshAddressPath a;
     acc_blockHeight := acc_blockHeight a;
     acc_syncHash := acc_syncHash a;
     acc_balanceHistoryCache := acc_balanceHistoryCache a;
     acc_bitcoinResources := acc_bitcoinResources a;
     acc_polkadotResources := acc_polkadotResources a;
     acc_zilliqaResources := acc_zilliqaResources a;
     acc_cryptoOrgResources := acc_cryptoOrgResources a;
     acc_nfts := v;
     acc_rest := acc_rest a |}.

Definition set_sub_ref (v : _) (a : SubAccount) : SubAccount :=
  {| sub_ref := v;
     sub_kind := sub_kind a;
     sub_id := sub_id a;
     sub_parentId := sub_parentId a;
     sub_operations := sub_operations a;
     sub_pendingOperations := sub_pendingOperations a;
     sub_operationsCount := sub_operationsCount a;
     sub_creationDate := sub_creationDate a;
     sub_balance := sub_balance a;
     sub_balanceHistoryCache := sub_balanceHistoryCache a;
     sub_rest := sub_rest a |}.

Definition set_sub_kind (v : _) (a : SubAccount) : SubAccount :=
  {| sub_ref := sub_ref a;
     sub_kind := v;
     sub_id := sub_id a;
     sub_parentId := sub_parentId a;
     sub_operations := sub_operations a;
     sub_pendingOperations := sub_pendingOperations a;
     sub_operationsCount := sub_operationsCount a;
     sub_creationDate := sub_creationDate a;
     sub_balance := sub_balance a;
     sub_balanceHistoryCache := sub_balanceHistoryCache a;
     sub_rest := sub_rest a |}.

Definition set_sub_operations (v : _) (a : SubAccount) : SubAccount :=
  {| sub_ref := sub_ref a;
     sub_kind := sub_kind a;
     sub_id := sub_id a;
     sub_parentId := sub_parentId a;
     sub_operations := v;
     sub_pendingOperations := sub_pendingOperations a;
     sub_operationsCount := sub_operationsCount a;
     sub_creationDate := sub_creationDate a;
     sub_balance := sub_balance a;
     sub_balanceHistoryCache := sub_balanceHistoryCache a;
     sub_rest := sub_rest a |}.

Definition set_sub_pendingOperations (v : _) (a : SubAccount) : SubAccount :=
  {| sub_ref := sub_ref a;
     sub_kind := sub_kind a;
     sub_id := sub_id a;
     sub_parentId := sub_parentId a;
     sub_operations := sub_operations a;
     sub_pendingOperations := v;
     sub_operationsCount := sub_operationsCount a;
     sub_creationDate := sub_creationDate a;
     sub_balance := sub_balance a;
     sub_balanceHistoryCache := sub_balanceHistoryCache a;
     sub_rest := sub_rest a |}.

Definition set_sub_operationsCount (v : _) (a : SubAccount) : SubAccount :=
  {| sub_ref := sub_ref a;
     sub_kind := sub_kind a;
     sub_id := sub_id a;
     sub_parentId := sub_parentId a;
     sub_operations := sub_operations a;
     sub_pendingOperations := sub_pendingOperations a;
     sub_operationsCount := v;
     sub_creationDate := sub_creationDate a;
     sub_balance := sub_balance a;
     sub_balanceHistoryCache := sub_balanceHistoryCache a;
     sub_rest := sub_rest a |}.

Definition set_sub_creationDate (v : _) (a : SubAccount) : SubAccount :=
  {| sub_ref := sub_ref a;
     sub_kind := sub_kind a;
     sub_id := sub_id a;
     sub_parentId := sub_parentId a;
     sub_operations := sub_operations a;
     sub_pendingOperations := sub_pendingOperations a;
     sub_operationsCount := sub_operationsCount a;
     sub_creationDate := v;
     sub_balance := sub_balance a;
     sub_balanceHistoryCache := sub_balanceHistoryCache a;
     sub_rest := sub_rest a |}.

Definition set_sub_balance (v : _) (a : SubAccount) : SubAccount :=
  {| sub_ref := sub_ref a;
     sub_kind := sub_kind a;
     sub_id := sub_id a;
     sub_parentId := sub_parentId a;
     sub_operations := sub_operations a;
     sub_pendingOperations := sub_pendingOperations a;
     sub_operationsCount := sub_operationsCount a;
     sub_creationDate := sub_creationDate a;
     sub_balance := v;
     sub_balanceHistoryCache := sub_balanceHistoryCache a;
     sub_rest := sub_rest a |}.

Definition set_sub_balanceHistoryCache (v : _) (a : SubAccount) : SubAccount :=
  {| sub_ref := sub_ref a;
     sub_kind := sub_kind a;
     sub_id := sub_id a;
     sub_parentId := sub_parentId a;
     sub_operations := sub_operations a;
     sub_pendingOperations := sub_pendingOperations a;
     sub_operationsCount := sub_operationsCount a;
     sub_creationDate := sub_creationDate a;
     sub_balance := sub_balance a;
     sub_balanceHistoryCache := v;
     sub_rest := sub_rest a |}.

End Setters.

(** ** Decoding raw records, and patching *)

Definition liftRes {A} (r : Res A) : M A :=
  λ w, match r with Ok a => Ok (a, w) | Throw e => Throw e end.

Fixpoint mapM {A B} (f : A → M B) (xs : list A) : M (list B) :=
  match xs with
  | [] => ret []
  | x :: xs' => y <- f x ;; ys <- mapM f xs' ;; ret (y :: ys)
  end.

(** Truthiness of an optional string and of an optional number. *)
Definition truthyString (o : option string) : option string :=
  match o with
  | Some s => if bool_decide (s = "") then None else Some s
  | None => None
  end.

Definition truthyNumber (o : option Z) : option Z :=
  match o with
  | Some n => if bool_decide (n = 0) then None else Some n
  | None => None
  end.

(** [if (cond) { next.f = v; changed = true; }] on the pair
    [(next, changed)]. *)
Definition assignWhen {A} (cond : bool) (assign : A → A) (p : A * bool)
    : A * bool :=
  if cond then (assign p.1, true) else p.

Section Patcher.
Context `{Collaborators}.

(** Reading an identifier that nothing binds throws. *)
Definition readIdentifier (name : string) : M (option string) :=
  match freeIdentifier name with
  | Bound value => ret value
  | Unbound => throw ("ReferenceError: " +:+ name +:+ " is not defined")
  end.

(** [fromOperationRaw]: the common decoder, the hook of the family on
    [extra], and the object that is returned: a copy of the decoded
    operation with [extra] and the four identifiers.  What follows the
    [return] in the source is never reached. *)
Definition fromOperationRaw (operation : OperationRaw) (accountId : string)
    (subAccounts : option (list SubAccount)) : M Operation :=
  res <- liftRes (commonFromOperationRaw operation accountId subAccounts) ;;
  let e :=
    match op_extra res with
    | Some e =>
        match truthyString (inferFamilyFromAccountId (op_accountId res)) with
        | Some family =>
            match fromOperationExtraRaw family with
            | Some convert => convert e
            | None => Some e
            end
        | None => Some e
        end
    | None => None
    end in
  contract <- readIdentifier "contract" ;;
  operator <- readIdentifier "operator" ;;
  standard <- readIdentifier "standard" ;;
  tokenId <- readIdentifier "tokenId" ;;
  ref <- newObject ;;
  ret {| op_ref := ref;
         op_id := op_id res;
         op_hash := op_hash res;
         op_blockHeight := op_blockHeight res;
         op_value := op_value res;
         op_fee := op_fee res;
         op_accountId := op_accountId res;
         op_extra := Some (default [] e);
         op_contract := contract;
         op_operator := operator;
         op_standard := standard;
         op_tokenId := tokenId |}.

Definition fromNFTRaw (raw : ProtoNFTRaw) : ProtoNFT :=
  {| nft_id := nftRaw_id raw;
     nft_tokenId := nftRaw_tokenId raw;
     nft_amount := BigNumber_new (nftRaw_amount raw);
     nft_contract := nftRaw_contract raw;
     nft_standard := nftRaw_standard raw;
     nft_currencyId := nftRaw_currencyId raw;
     nft_metadata := nftRaw_metadata raw |}.

(** [raw.operationsCount || (operations && operations.length) || 0] *)
Definition operationsCountOr (count : option Z) (operations : list OperationRaw) : Z :=
  match truthyNumber count with
  | Some n => n
  | None => Array_length operations
  end.

(** [new Date(creationDate || Date.now())] *)
Definition creationDateOrNow (creationDate : option string) : JsDate :=
  match truthyString creationDate with
  | Some s => Date_new s
  | None => Date_now
  end.

Definition fromTokenAccountRaw (raw : SubAccountRaw) : M SubAccount :=
  rest <- liftRes (tokenAccountRest raw) ;;
  let convertOperation := λ op, fromOperationRaw op (subRaw_id raw) None in
  decoded <- mapM convertOperation (subRaw_operations raw) ;;
  operations <- newArray decoded ;;
  decoded <- mapM convertOperation (subRaw_pendingOperations raw) ;;
  pendingOperations <- newArray decoded ;;
  ref <- newObject ;;
  let res :=
    {| sub_ref := ref;
       sub_kind :=
         TokenAccount
           (match truthyString (subRaw_spendableBalance raw) with
            | Some s => BigNumber_new s
            | None => BigNumber_new (subRaw_balance raw)
            end)
           None
           (subRaw_approvals raw);
       sub_id := subRaw_id raw;
       sub_parentId := subRaw_parentId raw;
       sub_operations := operations;
       sub_pendingOperations := pendingOperations;
       sub_operationsCount :=
         operationsCountOr (subRaw_operationsCount raw) (subRaw_operations raw);
       sub_creationDate := creationDateOrNow (subRaw_creationDate raw);
       sub_balance := BigNumber_new (subRaw_balance raw);
       sub_balanceHistoryCache :=
         default emptyHistoryCache (subRaw_balanceHistoryCache raw);
       sub_rest := rest |} in
  ret (set_sub_balanceHistoryCache (generateHistoryFromOperations_sub res) res).

Definition fromChildAccountRaw (raw : SubAccountRaw) : M SubAccount :=
  rest <- liftRes (childAccountRest raw) ;;
  let convertOperation := λ op, fromOperationRaw op (subRaw_id raw) None in
  decoded <- mapM convertOperation (subRaw_operations raw) ;;
  operations <- newArray decoded ;;
  decoded <- mapM convertOperation (subRaw_pendingOperations raw) ;;
  pendingOperations <- newArray decoded ;;
  ref <- newObject ;;
  let res :=
    {| sub_ref := ref;
       sub_kind := ChildAccount;
       sub_id := subRaw_id raw;
       sub_parentId := subRaw_parentId raw;
       sub_operations := operations;
       sub_pendingOperations := pendingOperations;
       sub_operationsCount :=
         operationsCountOr (subRaw_operationsCount raw) (subRaw_operations raw);
       sub_creationDate := creationDateOrNow (subRaw_creationDate raw);
       sub_balance := BigNumber_new (subRaw_balance raw);
       sub_balanceHistoryCache :=
         default emptyHistoryCache (subRaw_balanceHistoryCache raw);
       sub_rest := rest |} in
  ret (set_sub_balanceHistoryCache (generateHistoryFromOperations_sub res) res).

Definition fromSubAccountRaw (raw : SubAccountRaw) : M SubAccount :=
  if bool_decide (subRaw_type raw = "ChildAccountRaw") then
    fromChildAccountRaw raw
  else if bool_decide (subRaw_type raw = "TokenAccountRaw") then
    fromTokenAccountRaw raw
  else
    throw ("invalid raw.type=" +:+ subRaw_type raw).

Definition fromAccountRaw (rawAccount : AccountRaw) : M Account :=
  subAccounts <-
    match raw_subAccounts rawAccount with
    | Some subAccountsRaw =>
        mapped <-
          mapM (λ ta,
                  if bool_decide (subRaw_type ta = "TokenAccountRaw") then
                    if findTokenById (subRaw_tokenId ta) then
                      sa <- fromTokenAccountRaw ta ;; ret (Some sa)
                    else ret None
                  else
                    sa <- fromSubAccountRaw ta ;; ret (Some sa))
               subAccountsRaw ;;
        newObject ;;;
        filtered <- newObject ;;
        ret (Some {| subs_ref := filtered; subs_items := omap id mapped |})
    | None => ret None
    end ;;
  family <- liftRes (familyOfCurrencyId (raw_currencyId rawAccount)) ;;
  let convertOperation :=
    λ op, fromOperationRaw op (raw_id rawAccount) (subs_items <$> subAccounts) in
  ref <- newObject ;;
  decoded <- mapM convertOperation (raw_operations rawAccount) ;;
  operations <- newArray decoded ;;
  decoded <- mapM convertOperation (raw_pendingOperations rawAccount) ;;
  pendingOperations <- newArray decoded ;;
  let res :=
    {| acc_ref := ref;
       acc_id := raw_id rawAccount;
       acc_family := family;
       acc_subAccounts := None;
       acc_operations := operations;
       acc_pendingOperations := pendingOperations;
       acc_operationsCount :=
         operationsCountOr (raw_operationsCount rawAccount)
           (raw_operations rawAccount);
       acc_balance := BigNumber_new (raw_balance rawAccount);
       acc_spendableBalance :=
         BigNumber_new (default (raw_balance rawAccount)
                          (truthyString (raw_spendableBalance rawAccount)));
       acc_lastSyncDate :=
         (if bool_decide (raw_lastSyncDate rawAccount = "")
          then Date_ofTime 0 else Date_new (raw_lastSyncDate rawAccount));
       acc_creationDate := creationDateOrNow (raw_creationDate rawAccount);
       acc_freshAddress := raw_freshAddress rawAccount;
       acc_freshAddressPath := raw_freshAddressPath rawAccount;
       acc_blockHeight := raw_blockHeight rawAccount;
       acc_syncHash := raw_syncHash rawAccount;
       acc_balanceHistoryCache :=
         default emptyHistoryCache (raw_balanceHistoryCache rawAccount);
       acc_bitcoinResources := None;
       acc_polkadotResources := None;
       acc_zilliqaResources := None;
       acc_cryptoOrgResources := None;
       acc_nfts := (λ nfts : list ProtoNFTRaw, fromNFTRaw <$> nfts) <$> raw_nfts rawAccount;
       acc_rest := accountRest rawAccount (subs_items <$> subAccounts) |} in
  let res := set_acc_balanceHistoryCache (generateHistoryFromOperations res) res in
  let res :=
    match subAccounts with
    | Some _ => set_acc_subAccounts subAccounts res
    | None => res
    end in
  let res :=
    match assignFromAccountRaw (getAccountBridge res) with
    | Some assign => assign rawAccount res
    | None => res
    end in
  ret res.

(** [updated.slice(0).reverse()] is walked from its last index, that is
    from the first raw record; the callback decodes the record, and what
    it returns is an object, never skipped. *)
Definition patchOperations (operations : loc) (updated : list OperationRaw)
    (accountId : string) (subAccounts : option (list SubAccount)) : M loc :=
  minimalOperationsBuilderSyncM sameOp (reverse updated) operations
    (λ raw, op <- fromOperationRaw raw accountId subAccounts ;; ret (Some op)).

Definition shouldRefreshBitcoinResources (updatedRaw : AccountRaw)
    (account : Account) : M bool :=
  match raw_bitcoinResources updatedRaw with
  | None => ret false
  | Some raw =>
      match acc_bitcoinResources account with
      | None => ret true
      | Some existing =>
          if bool_decide (raw_blockHeight updatedRaw ≠ acc_blockHeight account)
          then ret true
          else
            accountOperations <- readArray (acc_operations account) ;;
            if bool_decide (Array_length (raw_operations updatedRaw)
                            ≠ Array_length accountOperations)
            then ret true
            else if bool_decide (Array_length (raw_utxos raw)
                                 ≠ Array_length (utxos existing))
            then ret true
            else ret (negb (isEqual_utxos (raw_utxos raw) (utxos existing)))
      end
  end.

Definition areSameResources (a b : FamilyResourcesRaw) : bool :=
  bool_decide (a = b).

(** Assignments to the fields a token account alone has. *)
Definition set_spendableBalance (v : BigNumber) (k : SubAccountKind)
    : SubAccountKind :=
  match k with
  | TokenAccount _ compound approvals => TokenAccount v compound approvals
  | ChildAccount => ChildAccount
  end.

Definition set_compoundBalance (v : option BigNumber) (k : SubAccountKind)
    : SubAccountKind :=
  match k with
  | TokenAccount spendable _ approvals => TokenAccount spendable v approvals
  | ChildAccount => ChildAccount
  end.

Definition set_approvals (v : option (list Approval)) (k : SubAccountKind)
    : SubAccountKind :=
  match k with
  | TokenAccount spendable compound _ => TokenAccount spendable compound v
  | ChildAccount => ChildAccount
  end.

(** The comparisons of [patchSubAccount] after the two operation lists
    have been patched, on [(next, changed)]. *)
Definition patchSubAccountFields (account : SubAccount)
    (updatedRaw : SubAccountRaw) (operations pendingOperations : loc)
    (p : SubAccount * bool) : SubAccount * bool :=
  let p :=
    assignWhen
      (bool_decide (Some (sub_operationsCount account)
                    ≠ subRaw_operationsCount updatedRaw)
       && bool_decide (is_Some (truthyNumber (subRaw_operationsCount updatedRaw))))
      (set_sub_operationsCount
         (default 0 (subRaw_operationsCount updatedRaw))) p in
  let p :=
    assignWhen
      (match truthyString (subRaw_creationDate updatedRaw) with
       | Some s => bool_decide (s ≠ Date_toISOString (sub_creationDate account))
       | None => false
       end)
      (set_sub_creationDate
         (Date_new (default "" (subRaw_creationDate updatedRaw)))) p in
  let p :=
    assignWhen (bool_decide (sub_operations account ≠ operations))
      (set_sub_operations operations) p in
  let p :=
    assignWhen (bool_decide (sub_pendingOperations account ≠ pendingOperations))
      (set_sub_pendingOperations pendingOperations) p in
  let p :=
    assignWhen
      (bool_decide (subRaw_balance updatedRaw
                    ≠ BigNumber_toString (sub_balance account)))
      (set_sub_balance (BigNumber_new (subRaw_balance updatedRaw))) p in
  let p :=
    match sub_kind account with
    | TokenAccount spendable compound approvals =>
        if bool_decide (subRaw_type updatedRaw = "TokenAccountRaw") then
          let p :=
            assignWhen
              (bool_decide (subRaw_spendableBalance updatedRaw
                            ≠ Some (BigNumber_toString spendable)))
              (λ next,
                 set_sub_kind
                   (set_spendableBalance
                      (BigNumber_new
                         (default (subRaw_balance updatedRaw)
                            (truthyString (subRaw_spendableBalance updatedRaw))))
                      (sub_kind next)) next) p in
          let p :=
            assignWhen
              (bool_decide (subRaw_compoundBalance updatedRaw
                            ≠ (BigNumber_toString <$> compound)))
              (λ next,
                 set_sub_kind
                   (set_compoundBalance
                      (BigNumber_new <$>
                         truthyString (subRaw_compoundBalance updatedRaw))
                      (sub_kind next)) next) p in
          assignWhen
            (match subRaw_approvals updatedRaw with
             | Some rawApprovals => bool_decide (Some rawApprovals ≠ approvals)
             | None => false
             end)
            (λ next,
               set_sub_kind
                 (set_approvals (subRaw_approvals updatedRaw) (sub_kind next))
                 next) p
        else p
    | ChildAccount => p
    end in
  match subRaw_balanceHistoryCache updatedRaw with
  | Some balanceHistoryCache =>
      assignWhen
        (shouldRefreshBalanceHistoryCache balanceHistoryCache
           (sub_balanceHistoryCache account))
        (set_sub_balanceHistoryCache balanceHistoryCache) p
  | None => p
  end.

Definition patchSubAccount (account : option SubAccount)
    (updatedRaw : SubAccountRaw) : M SubAccount :=
  match account with
  | None => fromSubAccountRaw updatedRaw
  | Some account =>
      if bool_decide (sub_id account ≠ subRaw_id updatedRaw) ||
         bool_decide (sub_parentId account ≠ subRaw_parentId updatedRaw)
      then fromSubAccountRaw updatedRaw
      else
        operations <-
          patchOperations (sub_operations account)
            (subRaw_operations updatedRaw) (subRaw_id updatedRaw) None ;;
        pendingOperations <-
          patchOperations (sub_pendingOperations account)
            (subRaw_pendingOperations updatedRaw) (subRaw_id updatedRaw) None ;;
        ref <- newObject ;;
        let next := set_sub_ref ref account in
        let p :=
          patchSubAccountFields account updatedRaw operations
            pendingOperations (next, false) in
        if p.2 then ret p.1 else ret account
  end.

(** The body of [updatedRaw.subAccounts.map(...)]: the patched
    sub-account and whether it is another object than the cached one. *)
Definition patchSubAccountEntry (existingSubAccounts : list SubAccount)
    (ta : SubAccountRaw) : M (SubAccount * bool) :=
  let existing :=
    Array_find (λ t, bool_decide (sub_id t = subRaw_id ta)) existingSubAccounts in
  patched <- patchSubAccount existing ta ;;
  ret (patched,
       match existing with
       | Some e => bool_decide (sub_ref patched ≠ sub_ref e)
       | None => true
       end).

Definition patchSubAccounts (account : Account) (updatedRaw : AccountRaw)
    : M (option SubAccountArray) :=
  match raw_subAccounts updatedRaw with
  | Some rawSubAccounts =>
      existingSubAccounts <-
        match acc_subAccounts account with
        | Some a => ret a
        | None => r <- newObject ;; ret {| subs_ref := r; subs_items := [] |}
        end ;;
      let lengthChanged :=
        bool_decide (Array_length rawSubAccounts
                     ≠ Array_length (subs_items existingSubAccounts)) in
      patched <-
        mapM (patchSubAccountEntry (subs_items existingSubAccounts))
          rawSubAccounts ;;
      mapped <- newObject ;;
      let subAccountsChanged := lengthChanged || existsb snd patched in
      if subAccountsChanged
      then ret (Some {| subs_ref := mapped; subs_items := fst <$> patched |})
      else ret (Some existingSubAccounts)
  | None => ret None
  end.

(** One family branch of the [switch]: patch when there is raw data and
    the account has none or has other data. *)
Definition familyResourcesStep
    (toRaw : FamilyResources → FamilyResourcesRaw)
    (fromRaw : FamilyResourcesRaw → FamilyResources)
    (existing : option FamilyResources) (raw : option FamilyResourcesRaw)
    (assign : option FamilyResources → Account → Account)
    (p : Account * bool) : Account * bool :=
  match raw with
  | Some rawResources =>
      assignWhen
        (match existing with
         | None => true
         | Some resources => negb (areSameResources (toRaw resources) rawResources)
         end)
        (assign (Some (fromRaw rawResources))) p
  | None => p
  end.

Definition patchFamilyResources (account : Account) (updatedRaw : AccountRaw)
    (p : Account * bool) : M (Account * bool) :=
  if bool_decide (acc_family account = "bitcoin") then
    refresh <- shouldRefreshBitcoinResources updatedRaw account ;;
    if refresh then
      ret (set_acc_bitcoinResources
             (fromBitcoinResourcesRaw <$> raw_bitcoinResources updatedRaw) p.1,
           p.2)
    else ret p
  else if bool_decide (acc_family account = "polkadot") then
    ret (familyResourcesStep toPolkadotResourcesRaw fromPolkadotResourcesRaw
           (acc_polkadotResources account) (raw_polkadotResources updatedRaw)
           set_acc_polkadotResources p)
  else if bool_decide (acc_family account = "zilliqa") then
    ret (familyResourcesStep toZilliqaResourcesRaw fromZilliqaResourcesRaw
           (acc_zilliqaResources account) (raw_zilliqaResources updatedRaw)
           set_acc_zilliqaResources p)
  else if bool_decide (acc_family account = "crypto_org") then
    ret (familyResourcesStep toCryptoOrgResourcesRaw fromCryptoOrgResourcesRaw
           (acc_cryptoOrgResources account) (raw_cryptoOrgResources updatedRaw)
           set_acc_cryptoOrgResources p)
  else
    match applyReconciliation (getAccountBridge account) with
    | Some apply =>
        if p.2 then ret p
        else
          let r := apply account updatedRaw p.1 in
          ret (r.2, r.1)
    | None => ret p
    end.

(** The field comparisons of [patchAccount] that precede the [switch]. *)
Definition patchAccountFields (account : Account) (updatedRaw : AccountRaw)
    (subAccounts : option SubAccountArray) (operations pendingOperations : loc)
    (p : Account * bool) : Account * bool :=
  let p :=
    assignWhen
      (match subAccounts with
       | Some a =>
           bool_decide (subs_ref <$> acc_subAccounts account ≠ Some (subs_ref a))
       | None => false
       end)
      (set_acc_subAccounts subAccounts) p in
  let p :=
    assignWhen (bool_decide (acc_operations account ≠ operations))
      (set_acc_operations operations) p in
  let p :=
    assignWhen
      (bool_decide (Some (acc_operationsCount account)
                    ≠ raw_operationsCount updatedRaw)
       && bool_decide (is_Some (truthyNumber (raw_operationsCount updatedRaw))))
      (set_acc_operationsCount (default 0 (raw_operationsCount updatedRaw))) p in
  let p :=
    assignWhen (bool_decide (acc_pendingOperations account ≠ pendingOperations))
      (set_acc_pendingOperations pendingOperations) p in
  let p :=
    assignWhen
      (bool_decide (raw_balance updatedRaw
                    ≠ BigNumber_toString (acc_balance account)))
      (set_acc_balance (BigNumber_new (raw_balance updatedRaw))) p in
  let p :=
    assignWhen
      (bool_decide (raw_spendableBalance updatedRaw
                    ≠ Some (BigNumber_toString (acc_spendableBalance account))))
      (set_acc_spendableBalance
         (BigNumber_new
            (default (raw_balance updatedRaw)
               (truthyString (raw_spendableBalance updatedRaw))))) p in
  let p :=
    assignWhen
      (bool_decide (raw_lastSyncDate updatedRaw
                    ≠ Date_toISOString (acc_lastSyncDate account)))
      (set_acc_lastSyncDate (Date_new (raw_lastSyncDate updatedRaw))) p in
  let p :=
    assignWhen
      (match truthyString (raw_creationDate updatedRaw) with
       | Some s => bool_decide (s ≠ Date_toISOString (acc_creationDate account))
       | None => false
       end)
      (set_acc_creationDate
         (Date_new (default "" (raw_creationDate updatedRaw)))) p in
  let p :=
    assignWhen
      (bool_decide (acc_freshAddress account ≠ raw_freshAddress updatedRaw))
      (set_acc_freshAddress (raw_freshAddress updatedRaw)) p in
  let p :=
    assignWhen
      (bool_decide (acc_freshAddressPath account
                    ≠ raw_freshAddressPath updatedRaw))
      (set_acc_freshAddressPath (raw_freshAddressPath updatedRaw)) p in
  let p :=
    assignWhen
      (bool_decide (acc_blockHeight account ≠ raw_blockHeight updatedRaw))
      (set_acc_blockHeight (raw_blockHeight updatedRaw)) p in
  let p :=
    assignWhen (bool_decide (acc_syncHash account ≠ raw_syncHash updatedRaw))
      (set_acc_syncHash (raw_syncHash updatedRaw)) p in
  match raw_balanceHistoryCache updatedRaw with
  | Some balanceHistoryCache =>
      assignWhen
        (shouldRefreshBalanceHistoryCache balanceHistoryCache
           (acc_balanceHistoryCache account))
        (set_acc_balanceHistoryCache balanceHistoryCache) p
  | None => p
  end.

Definition patchNfts (account : Account) (updatedRaw : AccountRaw)
    (p : Account * bool) : Account * bool :=
  let nfts :=
    (λ raws : list ProtoNFTRaw, fromNFTRaw <$> raws) <$> raw_nfts updatedRaw in
  if bool_decide (raw_nfts updatedRaw = None ∧ is_Some (acc_nfts account))
  then (set_acc_nfts None p.1, true)
  else assignWhen (bool_decide (acc_nfts account ≠ nfts)) (set_acc_nfts nfts) p.

Definition patchAccount (account : Account) (updatedRaw : AccountRaw)
    : M Account :=
  if bool_decide (acc_id account ≠ raw_id updatedRaw)
  then fromAccountRaw updatedRaw
  else
    subAccounts <- patchSubAccounts account updatedRaw ;;
    operations <-
      patchOperations (acc_operations account) (raw_operations updatedRaw)
        (raw_id updatedRaw) (subs_items <$> subAccounts) ;;
    pendingOperations <-
      patchOperations (acc_pendingOperations account)
        (raw_pendingOperations updatedRaw) (raw_id updatedRaw)
        (subs_items <$> subAccounts) ;;
    ref <- newObject ;;
    let next := set_acc_ref ref account in
    let p :=
      patchAccountFields account updatedRaw subAccounts operations
        pendingOperations (next, false) in
    p <- patchFamilyResources account updatedRaw p ;;
    let p := patchNfts account updatedRaw p in
    if p.2 then ret p.1 else ret account.

End Patcher.

(** ** Vocabulary of the properties of the patcher *)

(** [w'] is a later world: references of [w] are still allocated and the
    arrays they name are unchanged. *)
Definition extends (w w' : World) : Prop :=
  (w_next w ≤ w_next w')%nat ∧ ∀ l, allocated w l → items w' l = items w l.

(** A computation that never gives a reference back: when it returns,
    every reference allocated before is still allocated. *)
Definition grows {A} (m : M A) : Prop :=
  ∀ w r w', m w = Ok (r, w') → (w_next w ≤ w_next w')%nat.

Section PatcherVocabulary.
Context `{Collaborators}.

(** A raw string is canonical when it is the printed form of the value it
    decodes to. *)
Definition canonicalNumber (s : string) : Prop :=
  BigNumber_toString (BigNumber_new s) = s.

(** [op] is what the decoder returns on the raw record, in some store. *)
Definition decodes (accountId : string) (subAccounts : option (list SubAccount))
    (op : Operation) (raw : OperationRaw) : Prop :=
  ∃ w w', fromOperationRaw raw accountId subAccounts w = Ok (op, w').

(** Patching [ops] with the raw list gives [ops] back, now and later. *)
Definition operationsSettled (ops : loc) (raws : list OperationRaw)
    (accountId : string) (subAccounts : option (list SubAccount))
    (w : World) : Prop :=
  allocated w ops ∧
  ∀ w2, extends w w2 →
    ∃ w2', patchOperations ops raws accountId subAccounts w2 = Ok (ops, w2') ∧
           extends w2 w2'.

(** No compared field of the sub-account differs from the raw record. *)
Definition subAccountAgrees (a : SubAccount) (raw : SubAccountRaw) : Prop :=
  (truthyNumber (subRaw_operationsCount raw) = None ∨
   subRaw_operationsCount raw = Some (sub_operationsCount a)) ∧
  (∀ s, truthyString (subRaw_creationDate raw) = Some s →
        s = Date_toISOString (sub_creationDate a)) ∧
  subRaw_balance raw = BigNumber_toString (sub_balance a) ∧
  match sub_kind a with
  | TokenAccount spendable compound approvals =>
      subRaw_type raw = "TokenAccountRaw" →
      subRaw_spendableBalance raw = Some (BigNumber_toString spendable) ∧
      subRaw_compoundBalance raw = (BigNumber_toString <$> compound) ∧
      (∀ rawApprovals, subRaw_approvals raw = Some rawApprovals →
                       approvals = Some rawApprovals)
  | ChildAccount => True
  end ∧
  (∀ b, subRaw_balanceHistoryCache raw = Some b →
        shouldRefreshBalanceHistoryCache b (sub_balanceHistoryCache a) = false).

Definition subAccountSettled (a : SubAccount) (raw : SubAccountRaw)
    (w : World) : Prop :=
  sub_id a = subRaw_id raw ∧
  sub_parentId a = subRaw_parentId raw ∧
  operationsSettled (sub_operations a) (subRaw_operations raw)
    (subRaw_id raw) None w ∧
  operationsSettled (sub_pendingOperations a) (subRaw_pendingOperations raw)
    (subRaw_id raw) None w ∧
  subAccountAgrees a raw.

Definition findSubAccount (subAccounts : list SubAccount) (ta : SubAccountRaw)
    : option SubAccount :=
  Array_find (λ t, bool_decide (sub_id t = subRaw_id ta)) subAccounts.

(** Every raw sub-account has its settled cached counterpart, and there
    are no others. *)
Definition subAccountsSettled (a : Account) (raw : AccountRaw) (w : World)
    : Prop :=
  match raw_subAccounts raw with
  | None => True
  | Some rawSubAccounts =>
      ∃ arr,
        acc_subAccounts a = Some arr ∧
        length rawSubAccounts = length (subs_items arr) ∧
        Forall (λ ta, ∃ e, findSubAccount (subs_items arr) ta = Some e ∧
                           subAccountSettled e ta w) rawSubAccounts
  end.

(** The family payload as its branch of the [switch] compares it. *)
Definition familyAgrees (a : Account) (raw : AccountRaw) : Prop :=
  if bool_decide (acc_family a = "bitcoin") then True
  else if bool_decide (acc_family a = "polkadot") then
    ∀ r, raw_polkadotResources raw = Some r →
         ∃ res, acc_polkadotResources a = Some res ∧
                toPolkadotResourcesRaw res = r
  else if bool_decide (acc_family a = "zilliqa") then
    ∀ r, raw_zilliqaResources raw = Some r →
         ∃ res, acc_zilliqaResources a = Some res ∧
                toZilliqaResourcesRaw res = r
  else if bool_decide (acc_family a = "crypto_org") then
    ∀ r, raw_cryptoOrgResources raw = Some r →
         ∃ res, acc_cryptoOrgResources a = Some res ∧
                toCryptoOrgResourcesRaw res = r
  else
    ∀ apply next, applyReconciliation (getAccountBridge a) = Some apply →
                  (apply a raw next).1 = false.

(** No compared field of the account differs from the raw snapshot. *)
Definition accountAgrees (a : Account) (raw : AccountRaw) : Prop :=
  (truthyNumber (raw_operationsCount raw) = None ∨
   raw_operationsCount raw = Some (acc_operationsCount a)) ∧
  raw_balance raw = BigNumber_toString (acc_balance a) ∧
  raw_spendableBalance raw
    = Some (BigNumber_toString (acc_spendableBalance a)) ∧
  raw_lastSyncDate raw = Date_toISOString (acc_lastSyncDate a) ∧
  (∀ s, truthyString (raw_creationDate raw) = Some s →
        s = Date_toISOString (acc_creationDate a)) ∧
  acc_freshAddress a = raw_freshAddress raw ∧
  acc_freshAddressPath a = raw_freshAddressPath raw ∧
  acc_blockHeight a = raw_blockHeight raw ∧
  acc_syncHash a = raw_syncHash raw ∧
  (∀ b, raw_balanceHistoryCache raw = Some b →
        shouldRefreshBalanceHistoryCache b (acc_balanceHistoryCache a) = false) ∧
  acc_nfts a
    = ((λ raws : list ProtoNFTRaw, fromNFTRaw <$> raws) <$> raw_nfts raw) ∧
  familyAgrees a raw.

(** The sub-account list the patcher hands to [patchOperations] when the
    sub-accounts are settled. *)
Definition settledSubAccounts (a : Account) (raw : AccountRaw)
    : option (list SubAccount) :=
  match raw_subAccounts raw with
  | Some _ => subs_items <$> acc_subAccounts a
  | None => None
  end.

Definition accountSettled (a : Account) (raw : AccountRaw) (w : World)
    : Prop :=
  acc_id a = raw_id raw ∧
  subAccountsSettled a raw w ∧
  operationsSettled (acc_operations a) (raw_operations raw) (raw_id raw)
    (settledSubAccounts a raw) w ∧
  operationsSettled (acc_pendingOperations a) (raw_pendingOperations raw)
    (raw_id raw) (settledSubAccounts a raw) w ∧
  accountAgrees a raw.

(** The account without its family payloads: everything the [switch]
    leaves alone. *)
Definition withoutFamilyResources (a : Account) : Account :=
  set_acc_bitcoinResources None
    (set_acc_polkadotResources None
       (set_acc_zilliqaResources None
          (set_acc_cryptoOrgResources None a))).

(** What a rebuild from a raw record gives.  [sa], returned in [w'] by a
    call that started in [w], is a sub-account built from [raw] alone: a
    new object with two new arrays of newly decoded operations, every
    field read off the record. *)
Definition rebuiltSubAccount (raw : SubAccountRaw) (w : World)
    (sa : SubAccount) (w' : World) : Prop :=
  extends w w' ∧
  ¬ allocated w (sub_ref sa) ∧
  ¬ allocated w (sub_operations sa) ∧
  ¬ allocated w (sub_pendingOperations sa) ∧
  sub_operations sa ≠ sub_pendingOperations sa ∧
  Forall2 (decodes (subRaw_id raw) None)
    (items w' (sub_operations sa)) (subRaw_operations raw) ∧
  Forall2 (decodes (subRaw_id raw) None)
    (items w' (sub_pendingOperations sa)) (subRaw_pendingOperations raw) ∧
  Forall (λ op, ¬ allocated w (op_ref op))
    (items w' (sub_operations sa) ++ items w' (sub_pendingOperations sa)) ∧
  sub_id sa = subRaw_id raw ∧
  sub_parentId sa = subRaw_parentId raw ∧
  sub_balance sa = BigNumber_new (subRaw_balance raw) ∧
  sub_operationsCount sa
    = default (Array_length (subRaw_operations raw))
        (truthyNumber (subRaw_operationsCount raw)) ∧
  sub_creationDate sa = creationDateOrNow (subRaw_creationDate raw) ∧
  (subRaw_type raw = "TokenAccountRaw" →
   tokenAccountRest raw = Ok (sub_rest sa) ∧
   sub_kind sa
   = TokenAccount
       (BigNumber_new (default (subRaw_balance raw)
                         (truthyString (subRaw_spendableBalance raw))))
       None (subRaw_approvals raw)) ∧
  (subRaw_type raw = "ChildAccountRaw" →
   childAccountRest raw = Ok (sub_rest sa) ∧ sub_kind sa = ChildAccount).

(** The same for an account, before the hook of its bridge: [res] is the
    object [fromAccountRaw] builds from [raw] alone. *)
Definition rebuiltAccount (raw : AccountRaw) (w : World)
    (res : Account) (w' : World) : Prop :=
  let subAccounts := subs_items <$> acc_subAccounts res in
  extends w w' ∧
  ¬ allocated w (acc_ref res) ∧
  ¬ allocated w (acc_operations res) ∧
  ¬ allocated w (acc_pendingOperations res) ∧
  acc_operations res ≠ acc_pendingOperations res ∧
  Forall2 (decodes (raw_id raw) subAccounts)
    (items w' (acc_operations res)) (raw_operations raw) ∧
  Forall2 (decodes (raw_id raw) subAccounts)
    (items w' (acc_pendingOperations res)) (raw_pendingOperations raw) ∧
  Forall (λ op, ¬ allocated w (op_ref op))
    (items w' (acc_operations res) ++ items w' (acc_pendingOperations res)) ∧
  acc_id res = raw_id raw ∧
  familyOfCurrencyId (raw_currencyId raw) = Ok (acc_family res) ∧
  acc_balance res = BigNumber_new (raw_balance raw) ∧
  acc_spendableBalance res
    = BigNumber_new (default (raw_balance raw)
                       (truthyString (raw_spendableBalance raw))) ∧
  acc_operationsCount res
    = default (Array_length (raw_operations raw))
        (truthyNumber (raw_operationsCount raw)) ∧
  acc_lastSyncDate res
    = (if bool_decide (raw_lastSyncDate raw = "")
       then Date_ofTime 0 else Date_new (raw_lastSyncDate raw)) ∧
  acc_creationDate res = creationDateOrNow (raw_creationDate raw) ∧
  acc_freshAddress res = raw_freshAddress raw ∧
  acc_freshAddressPath res = raw_freshAddressPath raw ∧
  acc_blockHeight res = raw_blockHeight raw ∧
  acc_syncHash res = raw_syncHash raw ∧
  acc_nfts res
    = ((λ raws : list ProtoNFTRaw, fromNFTRaw <$> raws) <$> raw_nfts raw) ∧
  acc_rest res = accountRest raw subAccounts ∧
  acc_bitcoinResources res = None ∧
  acc_polkadotResources res = None ∧
  acc_zilliqaResources res = None ∧
  acc_cryptoOrgResources res = None ∧
  match raw_subAccounts raw with
  | None => acc_subAccounts res = None
  | Some rs =>
      Forall (λ ta, subRaw_type ta = "ChildAccountRaw" ∨
                    subRaw_type ta = "TokenAccountRaw") rs ∧
      ∃ arr,
        acc_subAccounts res = Some arr ∧
        ¬ allocated w (subs_ref arr) ∧
        Forall2 (λ sa ta,
                   ¬ allocated w (sub_ref sa) ∧
                   sub_id sa = subRaw_id ta ∧
                   sub_parentId sa = subRaw_parentId ta ∧
                   (sub_kind sa = ChildAccount ↔
                    subRaw_type ta = "ChildAccountRaw"))
          (subs_items arr)
          (filter (λ ta, subRaw_type ta ≠ "TokenAccountRaw" ∨
                         findTokenById (subRaw_tokenId ta) = true) rs)
  end.

End PatcherVocabulary.

(** ** The other converters of the serialisation module *)

(** What the encoders use beyond [Primitives] and [Collaborators]:
    [toFixed] of a decimal, the encoder of the coin framework for an
    operation with the three things [toOperationRaw] does to the raw
    operation it gets from it (read [extra], read [accountId], copy it
    with another [extra]), the hook [accountByFamily[family]
    .toOperationExtraRaw], and the fields of the raw records that come
    from fields kept in [sub_rest] and [acc_rest] ([token.id],
    [currency.id], [starred], [name], ...).  [assignToAccountRaw] is the
    hook of the bridge of an account. *)
Class Encoders `{Collaborators} := {
  BigNumber_toFixed : BigNumber → string;
  commonToOperationRaw : Operation → option bool → OperationRaw;
  operationRaw_extra : OperationRaw → option Extra;
  operationRaw_accountId : OperationRaw → string;
  operationRaw_withExtra : OperationRaw → option Extra → OperationRaw;
  toOperationExtraRaw : string → option (Extra → option Extra);
  tokenIdOf : SubAccountRest → string;
  tokenAccountRawRest : SubAccount → SubAccountRawRest;
  childAccountRawRest : SubAccount → SubAccountRawRest;
  currencyIdOf : AccountRest → string;
  accountRawRest : Account → AccountRawRest;
  assignToAccountRaw : Account → option (Account → AccountRaw → AccountRaw)
}.

Section Encoding.
Context `{Encoders}.

Definition toOperationRaw (operation : Operation)
    (preserveSubOperation : option bool) : OperationRaw :=
  let copy := commonToOperationRaw operation preserveSubOperation in
  let e :=
    match operationRaw_extra copy with
    | Some e =>
        match truthyString
                (inferFamilyFromAccountId (operationRaw_accountId copy)) with
        | Some family =>
            match toOperationExtraRaw family with
            | Some convert => convert e
            | None => Some e
            end
        | None => Some e
        end
    | None => None
    end in
  operationRaw_withExtra copy e.

(** [operations.map((o) => toOperationRaw(o))]. *)
Definition toOperationsRaw (operations : list Operation) : list OperationRaw :=
  (λ o, toOperationRaw o None) <$> operations.

Definition toNFTRaw (nft : ProtoNFT) : ProtoNFTRaw :=
  {| nftRaw_id := nft_id nft;
     nftRaw_tokenId := nft_tokenId nft;
     nftRaw_amount := BigNumber_toFixed (nft_amount nft);
     nftRaw_contract := nft_contract nft;
     nftRaw_standard := nft_standard nft;
     nftRaw_currencyId := nft_currencyId nft;
     nftRaw_metadata := nft_metadata nft |}.

(** [toTokenAccountRaw]: the raw record has no [compoundBalance]. *)
Definition toTokenAccountRaw (ta : SubAccount) (spendableBalance : BigNumber)
    (approvals : option (list Approval)) : M SubAccountRaw :=
  operations <- readArray (sub_operations ta) ;;
  pendingOperations <- readArray (sub_pendingOperations ta) ;;
  ret {| subRaw_type := "TokenAccountRaw";
         subRaw_id := sub_id ta;
         subRaw_parentId := sub_parentId ta;
         subRaw_operations := toOperationsRaw operations;
         subRaw_pendingOperations := toOperationsRaw pendingOperations;
         subRaw_operationsCount := Some (sub_operationsCount ta);
         subRaw_creationDate := Some (Date_toISOString (sub_creationDate ta));
         subRaw_balance := BigNumber_toString (sub_balance ta);
         subRaw_spendableBalance := Some (BigNumber_toString spendableBalance);
         subRaw_compoundBalance := None;
         subRaw_approvals := approvals;
         subRaw_balanceHistoryCache := Some (sub_balanceHistoryCache ta);
         subRaw_tokenId := tokenIdOf (sub_rest ta);
         subRaw_rest := tokenAccountRawRest ta |}.

Definition toChildAccountRaw (ca : SubAccount) : M SubAccountRaw :=
  operations <- readArray (sub_operations ca) ;;
  pendingOperations <- readArray (sub_pendingOperations ca) ;;
  ret {| subRaw_type := "ChildAccountRaw";
         subRaw_id := sub_id ca;
         subRaw_parentId := sub_parentId ca;
         subRaw_operations := toOperationsRaw operations;
         subRaw_pendingOperations := toOperationsRaw pendingOperations;
         subRaw_operationsCount := Some (sub_operationsCount ca);
         subRaw_creationDate := Some (Date_toISOString (sub_creationDate ca));
         subRaw_balance := BigNumber_toString (sub_balance ca);
         subRaw_spendableBalance := None;
         subRaw_compoundBalance := None;
         subRaw_approvals := None;
         subRaw_balanceHistoryCache := Some (sub_balanceHistoryCache ca);
         subRaw_tokenId := "";
         subRaw_rest := childAccountRawRest ca |}.

(** [switch (subAccount.type)]: a [SubAccount] is one of the two kinds,
    so the [default] branch, which throws, has no value to run on. *)
Definition toSubAccountRaw (subAccount : SubAccount) : M SubAccountRaw :=
  match sub_kind subAccount with
  | ChildAccount => toChildAccountRaw subAccount
  | TokenAccount spendableBalance _ approvals =>
      toTokenAccountRaw subAccount spendableBalance approvals
  end.

Definition toAccountRaw (account : Account) : M AccountRaw :=
  operations <- readArray (acc_operations account) ;;
  pendingOperations <- readArray (acc_pendingOperations account) ;;
  let res :=
    {| raw_id := acc_id account;
       raw_currencyId := currencyIdOf (acc_rest account);
       raw_subAccounts := None;
       raw_operations := toOperationsRaw operations;
       raw_pendingOperations := toOperationsRaw pendingOperations;
       raw_operationsCount := Some (acc_operationsCount account);
       raw_balance := BigNumber_toFixed (acc_balance account);
       raw_spendableBalance :=
         Some (BigNumber_toFixed (acc_spendableBalance account));
       raw_lastSyncDate := Date_toISOString (acc_lastSyncDate account);
       raw_creationDate := Some (Date_toISOString (acc_creationDate account));
       raw_freshAddress := acc_freshAddress account;
       raw_freshAddressPath := acc_freshAddressPath account;
       raw_blockHeight := acc_blockHeight account;
       raw_syncHash := acc_syncHash account;
       raw_balanceHistoryCache := Some (acc_balanceHistoryCache account);
       raw_bitcoinResources := None;
       raw_polkadotResources := None;
       raw_zilliqaResources := None;
       raw_cryptoOrgResources := None;
       raw_nfts :=
         (λ nfts : list ProtoNFT, toNFTRaw <$> nfts) <$> acc_nfts account;
       raw_rest := accountRawRest account |} in
  subAccounts <-
    match acc_subAccounts account with
    | Some subAccounts =>
        raws <- mapM toSubAccountRaw (subs_items subAccounts) ;;
        ret (Some raws)
    | None => ret None
    end ;;
  let res :=
    match subAccounts with
    | Some raws =>
        {| raw_id := raw_id res;
           raw_currencyId := raw_currencyId res;
           raw_subAccounts := Some raws;
           raw_operations := raw_operations res;
           raw_pendingOperations := raw_pendingOperations res;
           raw_operationsCount := raw_operationsCount res;
           raw_balance := raw_balance res;
           raw_spendableBalance := raw_spendableBalance res;
           raw_lastSyncDate := raw_lastSyncDate res;
           raw_creationDate := raw_creationDate res;
           raw_freshAddress := raw_freshAddress res;
           raw_freshAddressPath := raw_freshAddressPath res;
           raw_blockHeight := raw_blockHeight res;
           raw_syncHash := raw_syncHash res;
           raw_balanceHistoryCache := raw_balanceHistoryCache res;
           raw_bitcoinResources := raw_bitcoinResources res;
           raw_polkadotResources := raw_polkadotResources res;
           raw_zilliqaResources := raw_zilliqaResources res;
           raw_cryptoOrgResources := raw_cryptoOrgResources res;
           raw_nfts := raw_nfts res;
           raw_rest := raw_rest res |}
    | None => res
    end in
  ret (match assignToAccountRaw account with
       | Some assign => assign account res
       | None => res
       end).

End Encoding.

(** *** Swap operations, balance histories, Tron resources *)

Section SwapOperations.
Context `{Primitives}.

(** The fields the spread copies. *)
Variable SwapFields : Type.

Record SwapOperation := mkSwapOperation {
  swap_fields : SwapFields;
  swap_fromAmount : BigNumber;
  swap_toAmount : BigNumber
}.

Record SwapOperationRaw := mkSwapOperationRaw {
  swapRaw_fields : SwapFields;
  swapRaw_fromAmount : string;
  swapRaw_toAmount : string
}.

Definition fromSwapOperationRaw (raw : SwapOperationRaw) : SwapOperation :=
  {| swap_fields := swapRaw_fields raw;
     swap_fromAmount := BigNumber_new (swapRaw_fromAmount raw);
     swap_toAmount := BigNumber_new (swapRaw_toAmount raw) |}.

Definition toSwapOperationRaw (so : SwapOperation) : SwapOperationRaw :=
  {| swapRaw_fields := swap_fields so;
     swapRaw_fromAmount := BigNumber_toString (swap_fromAmount so);
     swapRaw_toAmount := BigNumber_toString (swap_toAmount so) |}.

End SwapOperations.

Section BalanceHistories.
Context `{Primitives}.

(** A JavaScript number with [parseFloat] and [toString]. *)
Variable JsNumber : Type.
Variable parseFloat : string → JsNumber.
Variable Number_toString : JsNumber → string.

Record BalanceHistoryPoint := mkBalanceHistoryPoint {
  point_date : JsDate;
  point_value : JsNumber
}.

Definition toBalanceHistoryRaw (b : list BalanceHistoryPoint)
    : list (string * string) :=
  (λ point, (Date_toISOString (point_date point),
             Number_toString (point_value point))) <$> b.

Definition fromBalanceHistoryRaw (b : list (string * string))
    : list BalanceHistoryPoint :=
  (λ entry, {| point_date := Date_new entry.1;
               point_value := parseFloat entry.2 |}) <$> b.

End BalanceHistories.

Section TronResources.
Context `{Primitives}.

(** [votes], [tronPower] and the four fields of a cached transaction
    are copied as they are. *)
Variable Votes : Type.
Variable TronPower : Type.
Variable TxValue : Type.

Record Frozen := mkFrozen {
  frozen_amount : BigNumber;
  frozen_expiredAt : JsDate
}.

Record FrozenRaw := mkFrozenRaw {
  frozenRaw_amount : string;
  frozenRaw_expiredAt : string
}.

Record DelegatedFrozen := mkDelegatedFrozen {
  delegated_amount : BigNumber
}.

Record DelegatedFrozenRaw := mkDelegatedFrozenRaw {
  delegatedRaw_amount : string
}.

Record TronBandwidth := mkTronBandwidth {
  freeUsed : BigNumber;
  freeLimit : BigNumber;
  gainedUsed : BigNumber;
  gainedLimit : BigNumber
}.

Record TronBandwidthRaw := mkTronBandwidthRaw {
  freeUsedRaw : string;
  freeLimitRaw : string;
  gainedUsedRaw : string;
  gainedLimitRaw : string
}.

Record TransactionInfo := mkTransactionInfo {
  tx_fee : TxValue;
  tx_blockNumber : TxValue;
  tx_withdraw_amount : TxValue;
  tx_unfreeze_amount : TxValue
}.

Record TronResources := mkTronResources {
  tron_frozenBandwidth : option Frozen;
  tron_frozenEnergy : option Frozen;
  tron_delegatedFrozenBandwidth : option DelegatedFrozen;
  tron_delegatedFrozenEnergy : option DelegatedFrozen;
  tron_votes : Votes;
  tron_tronPower : TronPower;
  tron_energy : BigNumber;
  tron_bandwidth : TronBandwidth;
  tron_unwithdrawnReward : BigNumber;
  tron_lastWithdrawnRewardDate : option JsDate;
  tron_lastVotedDate : option JsDate;
  tron_cacheTransactionInfoById : gmap string TransactionInfo
}.

Record TronResourcesRaw := mkTronResourcesRaw {
  tronRaw_frozenBandwidth : option FrozenRaw;
  tronRaw_frozenEnergy : option FrozenRaw;
  tronRaw_delegatedFrozenBandwidth : option DelegatedFrozenRaw;
  tronRaw_delegatedFrozenEnergy : option DelegatedFrozenRaw;
  tronRaw_votes : Votes;
  tronRaw_tronPower : TronPower;
  tronRaw_energy : string;
  tronRaw_bandwidth : TronBandwidthRaw;
  tronRaw_unwithdrawnReward : string;
  tronRaw_lastWithdrawnRewardDate : option string;
  tronRaw_lastVotedDate : option string;
  tronRaw_cacheTransactionInfoById :
    option (gmap string (TxValue * TxValue * TxValue * TxValue))
}.

Definition toFrozenRaw (f : Frozen) : FrozenRaw :=
  {| frozenRaw_amount := BigNumber_toString (frozen_amount f);
     frozenRaw_expiredAt := Date_toISOString (frozen_expiredAt f) |}.

Definition fromFrozenRaw (f : FrozenRaw) : Frozen :=
  {| frozen_amount := BigNumber_new (frozenRaw_amount f);
     frozen_expiredAt := Date_new (frozenRaw_expiredAt f) |}.

Definition toDelegatedFrozenRaw (d : DelegatedFrozen) : DelegatedFrozenRaw :=
  {| delegatedRaw_amount := BigNumber_toString (delegated_amount d) |}.

Definition fromDelegatedFrozenRaw (d : DelegatedFrozenRaw) : DelegatedFrozen :=
  {| delegated_amount := BigNumber_new (delegatedRaw_amount d) |}.

Definition toTronResourcesRaw (r : TronResources) : TronResourcesRaw :=
  let cacheTransactionInfoById :=
    (λ info, (tx_fee info, tx_blockNumber info, tx_withdraw_amount info,
              tx_unfreeze_amount info))
    <$> tron_cacheTransactionInfoById r in
  {| tronRaw_frozenBandwidth := toFrozenRaw <$> tron_frozenBandwidth r;
     tronRaw_frozenEnergy := toFrozenRaw <$> tron_frozenEnergy r;
     tronRaw_delegatedFrozenBandwidth :=
       toDelegatedFrozenRaw <$> tron_delegatedFrozenBandwidth r;
     tronRaw_delegatedFrozenEnergy :=
       toDelegatedFrozenRaw <$> tron_delegatedFrozenEnergy r;
     tronRaw_votes := tron_votes r;
     tronRaw_tronPower := tron_tronPower r;
     tronRaw_energy := BigNumber_toString (tron_energy r);
     tronRaw_bandwidth :=
       {| freeUsedRaw := BigNumber_toString (freeUsed (tron_bandwidth r));
          freeLimitRaw := BigNumber_toString (freeLimit (tron_bandwidth r));
          gainedUsedRaw := BigNumber_toString (gainedUsed (tron_bandwidth r));
          gainedLimitRaw :=
            BigNumber_toString (gainedLimit (tron_bandwidth r)) |};
     tronRaw_unwithdrawnReward :=
       BigNumber_toString (tron_unwithdrawnReward r);
     tronRaw_lastWithdrawnRewardDate :=
       Date_toISOString <$> tron_lastWithdrawnRewardDate r;
     tronRaw_lastVotedDate := Date_toISOString <$> tron_lastVotedDate r;
     tronRaw_cacheTransactionInfoById := Some cacheTransactionInfoById |}.

Definition fromTronResourcesRaw (raw : TronResourcesRaw) : TronResources :=
  let cacheTransactionInfoById :=
    match tronRaw_cacheTransactionInfoById raw with
    | Some cacheTransactionInfoByIdRaw =>
        (λ entry : TxValue * TxValue * TxValue * TxValue,
           {| tx_fee := entry.1.1.1;
              tx_blockNumber := entry.1.1.2;
              tx_withdraw_amount := entry.1.2;
              tx_unfreeze_amount := entry.2 |})
        <$> cacheTransactionInfoByIdRaw
    | None => ∅
    end in
  {| tron_frozenBandwidth := fromFrozenRaw <$> tronRaw_frozenBandwidth raw;
     tron_frozenEnergy := fromFrozenRaw <$> tronRaw_frozenEnergy raw;
     tron_delegatedFrozenBandwidth :=
       fromDelegatedFrozenRaw <$> tronRaw_delegatedFrozenBandwidth raw;
     tron_delegatedFrozenEnergy :=
       fromDelegatedFrozenRaw <$> tronRaw_delegatedFrozenEnergy raw;
     tron_votes := tronRaw_votes raw;
     tron_tronPower := tronRaw_tronPower raw;
     tron_energy := BigNumber_new (tronRaw_energy raw);
     tron_bandwidth :=
       {| freeUsed := BigNumber_new (freeUsedRaw (tronRaw_bandwidth raw));
          freeLimit := BigNumber_new (freeLimitRaw (tronRaw_bandwidth raw));
          gainedUsed := BigNumber_new (gainedUsedRaw (tronRaw_bandwidth raw));
          gainedLimit :=
            BigNumber_new (gainedLimitRaw (tronRaw_bandwidth raw)) |};
     tron_unwithdrawnReward := BigNumber_new (tronRaw_unwithdrawnReward raw);
     tron_lastWithdrawnRewardDate :=
       Date_new <$> truthyString (tronRaw_lastWithdrawnRewardDate raw);
     tron_lastVotedDate :=
       Date_new <$> truthyString (tronRaw_lastVotedDate raw);
     tron_cacheTransactionInfoById := cacheTransactionInfoById |}.

End TronResources.

(** ** A small instance

    Values are their printed form: numbers and dates are strings, family
    resources and UTXOs are integers, no bridge has hooks.  The examples
    below run the code on it. *)

Module Example.

#[export] Instance primitives : Primitives := {|
  BigNumber := string;
  BigNumber_new := λ s, s;
  BigNumber_toString := λ b, b;
  JsDate := string;
  Date_new := λ s, s;
  Date_ofTime := λ _, "1970-01-01T00:00:00.000Z";
  Date_now := "2022-06-01T00:00:00.000Z";
  Date_toISOString := λ d, d;
  OperationRaw := Operation;
  FamilyResources := Z;
  FamilyResourcesRaw := Z;
  Utxo := Z;
  UtxoRaw := Z;
  WalletAccount := ();
  Metadata := ();
  AccountRest := ();
  AccountRawRest := ();
  SubAccountRest := ();
  SubAccountRawRest := ()
|}%string.

Definition emptyBucket : BalanceHistoryBucket :=
  {| latestDate := None; balances := [] |}.

#[export] Instance collaborators : Collaborators := {|
  sameOp := λ a b,
    bool_decide (op_id a = op_id b ∧ op_value a = op_value b ∧ op_fee a = op_fee b);
  commonFromOperationRaw := λ raw _ _, Ok raw;
  inferFamilyFromAccountId := λ _, None;
  fromOperationExtraRaw := λ _, None;
  freeIdentifier := λ _, Bound None;
  fromBitcoinResourcesRaw := λ raw,
    {| utxos := raw_utxos raw; walletAccount := raw_walletAccount raw |};
  isEqual_utxos := λ a b, bool_decide (a = b);
  fromPolkadotResourcesRaw := λ r, r;
  toPolkadotResourcesRaw := λ r, r;
  fromZilliqaResourcesRaw := λ r, r;
  toZilliqaResourcesRaw := λ r, r;
  fromCryptoOrgResourcesRaw := λ r, r;
  toCryptoOrgResourcesRaw := λ r, r;
  getAccountBridge := λ _,
    {| applyReconciliation := None; assignFromAccountRaw := None |};
  familyOfCurrencyId := λ id, Ok id;
  findTokenById := λ _, true;
  tokenAccountRest := λ _, Ok ();
  childAccountRest := λ _, Ok ();
  accountRest := λ _ _, ();
  emptyHistoryCache :=
    {| HOUR := emptyBucket; DAY := emptyBucket; WEEK := emptyBucket |};
  generateHistoryFromOperations_sub := λ a, sub_balanceHistoryCache a;
  generateHistoryFromOperations := λ a, acc_balanceHistoryCache a
|}.

Definition op (ref : loc) (id hash : string) (blockHeight : option Z)
    (value : Z) : Operation :=
  {| op_ref := ref; op_id := id; op_hash := hash;
     op_blockHeight := blockHeight; op_value := value; op_fee := 1;
     op_accountId := "js:2:bitcoin:xpub:"; op_extra := Some [];
     op_contract := None; op_operator := None; op_standard := None;
     op_tokenId := None |}.

(** The cache of the end-to-end scenario of the specification: [o2], [o1]
    at reference 0, in a world whose next free reference is 10. *)
Definition o1 : Operation := op 1%nat "o1" "h1" (Some 40) 5.
Definition o2 : Operation := op 2%nat "o2" "h2" (Some 50) 7.
Definition o3 : Operation := op 3%nat "o3" "h3" None 9.

Definition world : World :=
  {| w_arrays := {[ 0%nat := [o2; o1]; 4%nat := [] ]};
     w_next := 10%nat;
     w_log := [] |}.

(** The blockHeight scenario: [o3] is cached while pending and comes back
    confirmed at height 100; [o2changed] is [o2] with another value. *)
Definition o3confirmed : Operation := op 23%nat "o3" "h3" (Some 100) 9.
Definition o2changed : Operation := op 22%nat "o2" "h2" (Some 50) 8.

Definition pendingWorld : World :=
  {| w_arrays := {[ 0%nat := [o3; o2; o1] ]};
     w_next := 10%nat;
     w_log := [] |}.

(** Three records of one hash and one of another; the merger adds the
    values up and keeps the identity of the first record of the group. *)
Definition opA1 : Operation := op 11%nat "a" "hA" None 1.
Definition opA2 : Operation := op 12%nat "a" "hA" None 2.
Definition opA3 : Operation := op 13%nat "a" "hA" None 4.
Definition opB : Operation := op 14%nat "b" "hB" None 8.

Definition mergeValues (group : list Operation) : Operation :=
  match group with
  | [] => op 0%nat "" "" None 0
  | x :: _ =>
      op (op_ref x) (op_id x) (op_hash x) (op_blockHeight x)
        (foldr (λ o n, op_value o + n) 0 group)
  end.

Definition bucket (date : Z) (values : list Z) : BalanceHistoryCache :=
  {| HOUR := {| latestDate := Some date; balances := values |};
     DAY := emptyBucket;
     WEEK := emptyBucket |}.

Definition account (family : string) : Account :=
  {| acc_ref := 5%nat;
     acc_id := "js:2:bitcoin:xpub:";
     acc_family := family;
     acc_subAccounts := None;
     acc_operations := 0%nat;
     acc_pendingOperations := 4%nat;
     acc_operationsCount := 2;
     acc_balance := "12";
     acc_spendableBalance := "12";
     acc_lastSyncDate := "2022-05-01T00:00:00.000Z";
     acc_creationDate := "2021-01-01T00:00:00.000Z";
     acc_freshAddress := "bc1q";
     acc_freshAddressPath := "84'/0'/0'/0/1";
     acc_blockHeight := 50;
     acc_syncHash := Some "s";
     acc_balanceHistoryCache := bucket 100 [5; 12];
     acc_bitcoinResources := Some {| utxos := [1]; walletAccount := None |};
     acc_polkadotResources := Some 1;
     acc_zilliqaResources := None;
     acc_cryptoOrgResources := None;
     acc_nfts := None;
     acc_rest := () |}%string.

(** A raw snapshot that agrees with [account] on every compared field;
    [resources] is the family payload and [spendable] the optional
    [spendableBalance]. *)
Definition accountRawOf (id : string) (resources : Z)
    (spendable : option string) : AccountRaw :=
  {| raw_id := id;
     raw_currencyId := "bitcoin";
     raw_subAccounts := None;
     raw_operations := [o2; o1];
     raw_pendingOperations := [];
     raw_operationsCount := Some 2;
     raw_balance := "12";
     raw_spendableBalance := spendable;
     raw_lastSyncDate := "2022-05-01T00:00:00.000Z";
     raw_creationDate := Some "2021-01-01T00:00:00.000Z";
     raw_freshAddress := "bc1q";
     raw_freshAddressPath := "84'/0'/0'/0/1";
     raw_blockHeight := 50;
     raw_syncHash := Some "s";
     raw_balanceHistoryCache := Some (bucket 100 [5; 12]);
     raw_bitcoinResources :=
       Some {| raw_utxos := [resources]; raw_walletAccount := None |};
     raw_polkadotResources := Some resources;
     raw_zilliqaResources := None;
     raw_cryptoOrgResources := None;
     raw_nfts := None;
     raw_rest := () |}%string.

Definition accountRaw : Z → option string → AccountRaw :=
  accountRawOf "js:2:bitcoin:xpub:".

Definition subAccountRaw (type : string) : SubAccountRaw :=
  {| subRaw_type := type;
     subRaw_id := "js:2:ethereum:0x:+usdt";
     subRaw_parentId := "js:2:ethereum:0x:";
     subRaw_operations := [];
     subRaw_pendingOperations := [];
     subRaw_operationsCount := None;
     subRaw_creationDate := Some "2021-01-01T00:00:00.000Z";
     subRaw_balance := "3";
     subRaw_spendableBalance := Some "3";
     subRaw_compoundBalance := None;
     subRaw_approvals := None;
     subRaw_balanceHistoryCache := None;
     subRaw_tokenId := "ethereum/erc20/usd_tether__erc20_";
     subRaw_rest := () |}%string.

(** An account that holds one token sub-account, cached with balance 2
    when the raw snapshot reports 3. *)
Definition tokenAccount : SubAccount :=
  {| sub_ref := 6%nat;
     sub_kind := TokenAccount "2" None None;
     sub_id := "js:2:ethereum:0x:+usdt";
     sub_parentId := "js:2:ethereum:0x:";
     sub_operations := 4%nat;
     sub_pendingOperations := 4%nat;
     sub_operationsCount := 0;
     sub_creationDate := "2021-01-01T00:00:00.000Z";
     sub_balance := "2";
     sub_balanceHistoryCache := bucket 100 [2];
     sub_rest := () |}%string.

Definition tokenHolder : Account :=
  set_acc_subAccounts
    (Some {| subs_ref := 7%nat; subs_items := [tokenAccount] |})
    (account "polkadot").

Definition tokenHolderRaw : AccountRaw :=
  let raw := accountRaw 1 (Some "12"%string) in
  {| raw_id := raw_id raw;
     raw_currencyId := raw_currencyId raw;
     raw_subAccounts := Some [subAccountRaw "TokenAccountRaw"];
     raw_operations := raw_operations raw;
     raw_pendingOperations := raw_pendingOperations raw;
     raw_operationsCount := raw_operationsCount raw;
     raw_balance := raw_balance raw;
     raw_spendableBalance := raw_spendableBalance raw;
     raw_lastSyncDate := raw_lastSyncDate raw;
     raw_creationDate := raw_creationDate raw;
     raw_freshAddress := raw_freshAddress raw;
     raw_freshAddressPath := raw_freshAddressPath raw;
     raw_blockHeight := raw_blockHeight raw;
     raw_syncHash := raw_syncHash raw;
     raw_balanceHistoryCache := raw_balanceHistoryCache raw;
     raw_bitcoinResources := raw_bitcoinResources raw;
     raw_polkadotResources := raw_polkadotResources raw;
     raw_zilliqaResources := raw_zilliqaResources raw;
     raw_cryptoOrgResources := raw_cryptoOrgResources raw;
     raw_nfts := raw_nfts raw;
     raw_rest := raw_rest raw |}.

(** An account without operations and a snapshot that agrees with it on
    every compared field: patching them decodes no operation. *)
Definition quietAccount (family : string) : Account :=
  set_acc_operationsCount 0 (set_acc_operations 4%nat (account family)).

Definition quietRaw (resources : Z) (spendable : option string) : AccountRaw :=
  let raw := accountRaw resources spendable in
  {| raw_id := raw_id raw;
     raw_currencyId := raw_currencyId raw;
     raw_subAccounts := raw_subAccounts raw;
     raw_operations := [];
     raw_pendingOperations := [];
     raw_operationsCount := Some 0;
     raw_balance := raw_balance raw;
     raw_spendableBalance := raw_spendableBalance raw;
     raw_lastSyncDate := raw_lastSyncDate raw;
     raw_creationDate := raw_creationDate raw;
     raw_freshAddress := raw_freshAddress raw;
     raw_freshAddressPath := raw_freshAddressPath raw;
     raw_blockHeight := raw_blockHeight raw;
     raw_syncHash := raw_syncHash raw;
     raw_balanceHistoryCache := raw_balanceHistoryCache raw;
     raw_bitcoinResources := raw_bitcoinResources raw;
     raw_polkadotResources := raw_polkadotResources raw;
     raw_zilliqaResources := raw_zilliqaResources raw;
     raw_cryptoOrgResources := raw_cryptoOrgResources raw;
     raw_nfts := raw_nfts raw;
     raw_rest := raw_rest raw |}.

(** The same collaborators in the scope the serialisation module has in
    the repository: nothing binds [contract], [operator], [standard] or
    [tokenId].  [collaborators] above binds them to [undefined], which is
    what the decoder needs to return at all. *)
Definition shipped : Collaborators :=
  {| sameOp := sameOp;
     commonFromOperationRaw := commonFromOperationRaw;
     inferFamilyFromAccountId := inferFamilyFromAccountId;
     fromOperationExtraRaw := fromOperationExtraRaw;
     freeIdentifier := λ _, Unbound;
     fromBitcoinResourcesRaw := fromBitcoinResourcesRaw;
     isEqual_utxos := isEqual_utxos;
     fromPolkadotResourcesRaw := fromPolkadotResourcesRaw;
     toPolkadotResourcesRaw := toPolkadotResourcesRaw;
     fromZilliqaResourcesRaw := fromZilliqaResourcesRaw;
     toZilliqaResourcesRaw := toZilliqaResourcesRaw;
     fromCryptoOrgResourcesRaw := fromCryptoOrgResourcesRaw;
     toCryptoOrgResourcesRaw := toCryptoOrgResourcesRaw;
     getAccountBridge := getAccountBridge;
     familyOfCurrencyId := familyOfCurrencyId;
     findTokenById := findTokenById;
     tokenAccountRest := tokenAccountRest;
     childAccountRest := childAccountRest;
     accountRest := accountRest;
     emptyHistoryCache := emptyHistoryCache;
     generateHistoryFromOperations_sub := generateHistoryFromOperations_sub;
     generateHistoryFromOperations := generateHistoryFromOperations |}.

End Example.

(** ** Encoders of the small instance *)

Module ExampleRaw.

#[local] Existing Instances Example.primitives Example.collaborators.

(** Decimals print as they are, an operation is its own raw form, and no
    family adds fields to the raw account. *)
#[export] Instance encoders : Encoders := {|
  BigNumber_toFixed := λ b, b;
  commonToOperationRaw := λ op _, op;
  operationRaw_extra := op_extra;
  operationRaw_accountId := op_accountId;
  operationRaw_withExtra := λ raw _, raw;
  toOperationExtraRaw := λ _, None;
  tokenIdOf := λ _, "ethereum/erc20/usd_tether__erc20_";
  tokenAccountRawRest := λ _, ();
  childAccountRawRest := λ _, ();
  currencyIdOf := λ _, "polkadot";
  accountRawRest := λ _, ();
  assignToAccountRaw := λ _, None
|}%string.

(** Tron resources with frozen bandwidth, one vote date and one cached
    transaction; votes are a list of numbers here. *)
Definition tronResources : TronResources (list Z) Z Z :=
  {| tron_frozenBandwidth :=
       Some {| frozen_amount := "1000000";
               frozen_expiredAt := "2022-06-04T00:00:00.000Z" |};
     tron_frozenEnergy := None;
     tron_delegatedFrozenBandwidth := Some {| delegated_amount := "5" |};
     tron_delegatedFrozenEnergy := None;
     tron_votes := [3; 4];
     tron_tronPower := 1;
     tron_energy := "0";
     tron_bandwidth :=
       {| freeUsed := "10"; freeLimit := "1500";
          gainedUsed := "0"; gainedLimit := "0" |};
     tron_unwithdrawnReward := "7";
     tron_lastWithdrawnRewardDate := None;
     tron_lastVotedDate := Some "2022-05-30T00:00:00.000Z";
     tron_cacheTransactionInfoById :=
       {[ "tx1" := {| tx_fee := 1; tx_blockNumber := 2;
                      tx_withdraw_amount := 0; tx_unfreeze_amount := 0 |} ]}
  |}%string.

End ExampleRaw.


(** * Properties *)

(** ** The store *)

Lemma items_w_alloc_eq xs w : items (w_alloc xs w) (w_next w) = xs.
Proof. unfold items, w_alloc; simpl. by rewrite lookup_insert_eq. Qed.

Lemma items_w_alloc_ne xs w l : l ≠ w_next w → items (w_alloc xs w) l = items w l.
Proof. intros H. unfold items, w_alloc; simpl. by rewrite lookup_insert_ne. Qed.

Lemma items_w_push_eq l x w : items (w_push l x w) l = items w l ++ [x].
Proof. unfold items at 1, w_push; simpl. by rewrite lookup_insert_eq. Qed.

Lemma items_w_push_ne l x w l' : l' ≠ l → items (w_push l x w) l' = items w l'.
Proof. intros H. unfold items, w_push; simpl. by rewrite lookup_insert_ne. Qed.

Lemma items_w_emit e w l : items (w_emit e w) l = items w l.
Proof. reflexivity. Qed.

Lemma items_w_bump w l : items (w_bump w) l = items w l.
Proof. reflexivity. Qed.

(** ** Array primitives *)

Lemma Array_find_Some_elem {A} (p : A → bool) xs x :
  Array_find p xs = Some x → x ∈ xs ∧ p x = true.
Proof.
  induction xs as [|y ys IH]; simpl; [done|].
  destruct (p y) eqn:Hp.
  - intros [= ->]. split; [left | done].
  - intros H. destruct (IH H). split; [by right | done].
Qed.

Lemma Array_find_None {A} (p : A → bool) xs :
  Array_find p xs = None ↔ ∀ x, x ∈ xs → p x = false.
Proof.
  induction xs as [|y ys IH]; simpl.
  - split; [intros _ x Hx; inversion Hx | done].
  - destruct (p y) eqn:Hp.
    + split; [done|]. intros H. specialize (H y ltac:(left)). congruence.
    + rewrite IH. split.
      * intros H x Hx. inversion Hx; subst; auto.
      * intros H x Hx. apply H. by right.
Qed.

Lemma Array_indexOf_from_bounds k xs x :
  x ∈ xs → k ≤ Array_indexOf_from k xs x < k + Z.of_nat (length xs).
Proof.
  revert k. induction xs as [|y ys IH]; intros k Hx; [inversion Hx|].
  simpl. case_bool_decide as Hr; [lia|].
  assert (x ∈ ys) as Hin by (inversion Hx; subst; [done | assumption]).
  specialize (IH (k + 1) Hin). lia.
Qed.

Lemma Array_indexOf_bounds xs x :
  x ∈ xs → 0 ≤ Array_indexOf xs x < Z.of_nat (length xs).
Proof. intros H. apply (Array_indexOf_from_bounds 0 xs x H). Qed.

Lemma Array_indexOf_head x xs : Array_indexOf (x :: xs) x = 0.
Proof. unfold Array_indexOf; simpl. by rewrite bool_decide_eq_true_2. Qed.

Lemma Array_slice_nonneg {A} (xs : list A) j :
  0 ≤ j → Array_slice xs j = drop (Z.to_nat j) xs.
Proof. intros H. unfold Array_slice. destruct (decide (j < 0)); [lia | done]. Qed.

Lemma Array_slice_0 {A} (xs : list A) : Array_slice xs 0 = xs.
Proof. by rewrite Array_slice_nonneg. Qed.

Section StepFacts.
Variable sameOp : Operation → Operation → bool.

Lemma stepBuilder_tail_outcome state state1 e newOp i w w1 :
  findExistingOp (items w (existingOps state)) newOp = Some e →
  Checked sameOp state e newOp w state1 w1 →
  ∃ state' w',
    stepBuilder_tail state1 (Some e) newOp i w1 = Ok (state', w') ∧
    StepOutcome sameOp state newOp i w state' w'.
Proof.
  intros Hf Hc.
  assert (existingOps state1 = existingOps state ∧ operations state1 = operations state
          ∧ (∀ l, items w1 l = items w l)) as (He & Ho & Hi)
    by (destruct Hc; done).
  unfold stepBuilder_tail, bind, readArray, push, newArray, ret.
  rewrite He, Ho, !Hi.
  destruct (decide _) as [Hlong|Hshort].
  - eexists _, _. split; [done|]. eapply step_keep; eauto.
  - destruct (decide _) as [[Hz Hj]|Hn].
    + eexists _, _. split; [done|].
      replace {| operations := existingOps state; existingOps := existingOps state;
                 immutableOpCmpDoneOnce := immutableOpCmpDoneOnce state1;
                 finished := true |}
        with (finishedWith state1 (existingOps state))
        by (unfold finishedWith; by rewrite He).
      eapply step_finish_same; eauto. by rewrite <- Hi.
    + eexists _, _. split; [done|].
      replace {| operations := w_next w1; existingOps := existingOps state;
                 immutableOpCmpDoneOnce := immutableOpCmpDoneOnce state1;
                 finished := true |}
        with (finishedWith state1 (w_next w1))
        by (unfold finishedWith; by rewrite He).
      rewrite (Hi (operations state)).
      eapply step_finish_concat; eauto. by rewrite <- (Hi (operations state)).
Qed.

Lemma stepBuilder_outcome state newOp i w :
  ∃ state' w',
    stepBuilder sameOp state newOp i w = Ok (state', w') ∧
    StepOutcome sameOp state newOp i w state' w'.
Proof.
  unfold stepBuilder, bind at 1, readArray.
  destruct (findExistingOp _ _) as [e|] eqn:Hf.
  - destruct (immutableOpCmpDoneOnce state) eqn:Hd; cbn [negb].
    + eapply stepBuilder_tail_outcome; eauto. by constructor.
    + case_bool_decide as Hbh.
      * eexists _, _. split; [done|]. eapply step_blockHeight; eauto.
      * unfold bind at 1, emit.
        destruct (sameOp e newOp) eqn:Hs; cbn [negb].
        -- eapply stepBuilder_tail_outcome; eauto. by constructor.
        -- eexists (clearedState state _), (w_push (operations state) newOp _).
           split; [reflexivity|].
           eapply step_mismatch; eauto.
  - eexists _, _. split; [done|]. by apply step_new.
Qed.

End StepFacts.

Lemma sameOpCalls_app l1 l2 :
  sameOpCalls (l1 ++ l2) = (sameOpCalls l1 + sameOpCalls l2)%nat.
Proof.
  induction l1 as [|[] l1 IH]; simpl; lia.
Qed.

Lemma mergedGroups_app l1 l2 :
  mergedGroups (l1 ++ l2) = mergedGroups l1 ++ mergedGroups l2.
Proof.
  induction l1 as [|[] l1 IH]; simpl; by rewrite ?IH.
Qed.

Section WalkFacts.
Variable sameOp : Operation → Operation → bool.

Lemma Checked_frame state e newOp w state1 w1 :
  Checked sameOp state e newOp w state1 w1 →
  existingOps state1 = existingOps state ∧
  operations state1 = operations state ∧
  finished state1 = finished state ∧
  immutableOpCmpDoneOnce state1 = true ∧
  w_next w1 = w_next w ∧
  (∀ l, items w1 l = items w l) ∧
  mergedGroups (w_log w1) = mergedGroups (w_log w) ∧
  (sameOpCalls (w_log w1) =
   sameOpCalls (w_log w) + (if immutableOpCmpDoneOnce state then 0 else 1))%nat.
Proof.
  destruct 1 as [Hd|Hd Hb Hs]; rewrite Hd; simpl.
  - repeat split; auto; lia.
  - rewrite sameOpCalls_app, mergedGroups_app; simpl.
    repeat split; auto. by rewrite app_nil_r.
Qed.

(** A match can only be found in the cache itself: the array that replaces
    it after a mismatch is empty. *)
Lemma WalkInv_found w0 ex state w newOp e :
  WalkInv w0 ex state w →
  allocated w0 ex →
  findExistingOp (items w (existingOps state)) newOp = Some e →
  existingOps state = ex ∧ items w (existingOps state) = items w0 ex.
Proof.
  intros [_ Hfr _ Hwin _] Hex Hf.
  destruct Hwin as [->|(_ & Hnil & _)].
  - split; [done|]. by apply Hfr.
  - by rewrite Hnil in Hf.
Qed.

Lemma StepOutcome_inv w0 ex state newOp i w state' w' :
  allocated w0 ex →
  WalkInv w0 ex state w →
  finished state = false →
  StepOutcome sameOp state newOp i w state' w' →
  WalkInv w0 ex state' w'.
Proof.
  intros Hex HI Hnf Hstep.
  pose proof HI as [Hn Hfr Hout Hwin Hcalls].
  specialize (Hout Hnf). unfold allocated in Hex.
  assert (∀ x, WalkInv w0 ex state (w_push (operations state) x w)) as Hpush.
  { intros x. split; simpl; auto.
    - intros l Hl. rewrite items_w_push_ne by lia. auto.
    - destruct Hwin as [?|(? & Hnil & Hne & ?)]; [by left|right].
      repeat split; auto; try lia. by rewrite items_w_push_ne. }
  destruct Hstep as [Hf|e Hf Hd Hb|e w1 Hf Hd Hb Hs ->|e st1 w1 Hf Hc Hlen
                    |e st1 w1 Hf Hc Hlen Hz Hj|e st1 w1 Hf Hc Hlen Hnz]; auto.
  - (* mismatch *)
    split; simpl; try lia.
    + intros l Hl. rewrite items_w_push_ne by lia.
      rewrite items_w_alloc_ne by (simpl; lia). exact (Hfr l Hl).
    + right. repeat split; try lia.
      rewrite items_w_push_ne by lia.
      unfold items; simpl. by rewrite lookup_insert_eq.
    + rewrite !sameOpCalls_app; simpl. rewrite Hd in Hcalls. lia.
  - (* keep the cached twin *)
    destruct (Checked_frame _ _ _ _ _ _ Hc) as (He & Ho & Hfi & Hd1 & Hn1 & Hi1 & _ & Hc1).
    split; simpl.
    + lia.
    + intros l Hl. rewrite items_w_push_ne by lia. rewrite Hi1. auto.
    + intros _. lia.
    + rewrite He, Ho.
      destruct Hwin as [?|(? & Hnil & Hne & ?)]; [by left|right].
      repeat split; auto; try lia. rewrite items_w_push_ne by done.
      by rewrite Hi1.
    + rewrite Hd1, Hc1. destruct (immutableOpCmpDoneOnce state); lia.
  - (* finish, same reference *)
    destruct (Checked_frame _ _ _ _ _ _ Hc) as (He & Ho & Hfi & Hd1 & Hn1 & Hi1 & _ & Hc1).
    destruct (WalkInv_found _ _ _ _ _ _ HI Hex Hf) as [Hwex _].
    split; simpl.
    + lia.
    + intros l Hl. rewrite Hi1. auto.
    + done.
    + left. by rewrite He.
    + rewrite Hd1, Hc1. destruct (immutableOpCmpDoneOnce state); lia.
  - (* finish, concatenation *)
    destruct (Checked_frame _ _ _ _ _ _ Hc) as (He & Ho & Hfi & Hd1 & Hn1 & Hi1 & _ & Hc1).
    destruct (WalkInv_found _ _ _ _ _ _ HI Hex Hf) as [Hwex _].
    split; simpl.
    + lia.
    + intros l Hl. rewrite items_w_alloc_ne by lia. rewrite Hi1. auto.
    + done.
    + left. by rewrite He.
    + rewrite Hd1, Hc1. destruct (immutableOpCmpDoneOnce state); lia.
Qed.

End WalkFacts.

Section LoopFacts.
Variable sameOp : Operation → Operation → bool.

Lemma stepBuilder_step state newOp i w state' w' :
  stepBuilder sameOp state newOp i w = Ok (state', w') →
  StepOutcome sameOp state newOp i w state' w'.
Proof.
  intros H. destruct (stepBuilder_outcome sameOp state newOp i w) as (s & v & Heq & Hs).
  congruence.
Qed.

Lemma Array_slice_lookup {A} (xs : list A) j k x :
  0 ≤ j →
  Array_slice xs j !! k = Some x → xs !! (Z.to_nat j + k)%nat = Some x.
Proof.
  intros Hj. rewrite Array_slice_nonneg by done. by rewrite lookup_drop.
Qed.

Lemma Array_length_nil {A} (xs : list A) : Array_length xs = 0 ↔ xs = [].
Proof.
  unfold Array_length. destruct xs; simpl; split; try done; lia.
Qed.

(** A step from a walk state either leaves the walk running or is a
    finishing step. *)
Lemma stepBuilder_finishing w0 ex state newOp i w state' w' :
  allocated w0 ex →
  WalkInv w0 ex state w →
  finished state = false →
  stepBuilder sameOp state newOp i w = Ok (state', w') →
  finished state' = true →
  FinishingStep sameOp w0 ex state' w'.
Proof.
  intros Hex HI Hnf Heq Hfin.
  pose proof (stepBuilder_step _ _ _ _ _ _ Heq) as Hstep.
  exists state, newOp, i.
  destruct Hstep as [Hf|e Hf Hd Hb|e w1 Hf Hd Hb Hs ->|e st1 w1 Hf Hc Hlen
                    |e st1 w1 Hf Hc Hlen Hz Hj|e st1 w1 Hf Hc Hlen Hnz];
    try (simpl in Hfin; congruence).
  - destruct (Checked_frame _ _ _ _ _ _ _ Hc) as (_ & _ & Hfi & _). congruence.
  - destruct (WalkInv_found _ _ _ _ _ _ HI Hex Hf) as [Hwex Hit].
    rewrite Hit in *.
    exists e, w. cbv zeta. repeat (split; [done || lia|]).
    left. apply Array_length_nil in Hz. repeat split; auto.
  - destruct (WalkInv_found _ _ _ _ _ _ HI Hex Hf) as [Hwex Hit].
    destruct (Checked_frame _ _ _ _ _ _ _ Hc) as (_ & _ & _ & _ & Hn1 & Hi1 & _).
    rewrite Hit in *.
    exists e, w. cbv zeta. repeat (split; [done || lia|]).
    right. split; [|split; [|split]].
    + rewrite Array_length_nil in Hnz. done.
    + destruct HI. unfold allocated. simpl. lia.
    + apply items_w_alloc_eq.
    + intros k x. apply Array_slice_lookup.
      apply Array_find_Some_elem in Hf as [Hin _].
      apply Array_indexOf_bounds in Hin. lia.
Qed.

Lemma WalkInv_emit_merge w0 ex state w g :
  WalkInv w0 ex state w → WalkInv w0 ex state (w_emit (EvMerge g) w).
Proof.
  intros []. split; auto. simpl. rewrite sameOpCalls_app. simpl. lia.
Qed.

Lemma WalkInv_initial w ex :
  WalkInv w ex
    {| operations := w_next w; existingOps := ex;
       immutableOpCmpDoneOnce := false; finished := false |}
    (w_alloc [] w).
Proof.
  split; simpl; auto; try lia.
  intros l Hl. apply items_w_alloc_ne. lia.
Qed.

Section Loops.
Context {CO : Type}.
Variables (coreOperations : list CO) (buildOp : CO → option Operation).
Variables (w0 : World) (ex : loc).
Hypothesis Hex : allocated w0 ex.

Lemma syncLoop_end n state w :
  WalkInv w0 ex state w →
  finished state = false →
  ∃ state' w',
    syncLoop sameOp coreOperations buildOp n state w = Ok (state', w') ∧
    WalkInv w0 ex state' w' ∧
    (finished state' = true → FinishingStep sameOp w0 ex state' w').
Proof.
  revert state w. induction n as [|n IH]; intros state w HI Hnf; simpl.
  - exists state, w. split; [done|]. split; [done|]. congruence.
  - destruct (coreOperations !! n ≫= buildOp) as [newOp|]; [|by apply IH].
    unfold bind.
    destruct (stepBuilder_outcome sameOp state newOp (Z.of_nat n) w)
      as (s1 & w1 & Heq & Hstep).
    rewrite Heq.
    pose proof (StepOutcome_inv _ _ _ _ _ _ _ _ _ Hex HI Hnf Hstep) as HI1.
    destruct (finished s1) eqn:Hf1; [|by apply IH].
    exists s1, w1. split; [done|]. split; [done|]. intros _.
    exact (stepBuilder_finishing _ _ _ _ _ _ _ _ Hex HI Hnf Heq Hf1).
Qed.

Lemma asyncLoop_end merge n acc state w :
  WalkInv w0 ex state w →
  finished state = false →
  ∃ acc' state' w',
    asyncLoop sameOp coreOperations buildOp merge n acc state w
      = Ok ((acc', state'), w') ∧
    WalkInv w0 ex state' w' ∧
    (finished state' = true → FinishingStep sameOp w0 ex state' w').
Proof.
  revert acc state w. induction n as [|n IH]; intros acc state w HI Hnf; simpl.
  - exists acc, state, w. split; [done|]. split; [done|]. congruence.
  - destruct (coreOperations !! n ≫= buildOp) as [op|]; [|by apply IH].
    destruct merge as [mg|].
    + destruct (_ || _); [by apply IH|].
      unfold bind at 1, emit. unfold bind.
      pose proof (WalkInv_emit_merge _ _ _ _ acc HI) as HI'.
      destruct (stepBuilder_outcome sameOp state (mg acc) (Z.of_nat n)
                  (w_emit (EvMerge acc) w)) as (s1 & w1 & Heq & Hstep).
      rewrite Heq.
      pose proof (StepOutcome_inv _ _ _ _ _ _ _ _ _ Hex HI' Hnf Hstep) as HI1.
      destruct (finished s1) eqn:Hf1; [|by apply IH].
      exists [op], s1, w1. split; [done|]. split; [done|]. intros _.
      exact (stepBuilder_finishing _ _ _ _ _ _ _ _ Hex HI' Hnf Heq Hf1).
    + unfold bind.
      destruct (stepBuilder_outcome sameOp state op (Z.of_nat n) w)
        as (s1 & w1 & Heq & Hstep).
      rewrite Heq.
      pose proof (StepOutcome_inv _ _ _ _ _ _ _ _ _ Hex HI Hnf Hstep) as HI1.
      destruct (finished s1) eqn:Hf1; [|by apply IH].
      exists acc, s1, w1. split; [done|]. split; [done|]. intros _.
      exact (stepBuilder_finishing _ _ _ _ _ _ _ _ Hex HI Hnf Heq Hf1).
Qed.

Lemma early_exit_iff (w : World) :
  (Array_length (items w ex) = 0 ∧ Array_length coreOperations = 0) ↔
  (items w ex = [] ∧ coreOperations = []).
Proof. by rewrite !Array_length_nil. Qed.

Lemma minimalOperationsBuilderSync_end :
  ∃ r w',
    minimalOperationsBuilderSync sameOp coreOperations ex buildOp w0 = Ok (r, w') ∧
    WalkEnd sameOp coreOperations w0 ex r w'.
Proof.
  unfold minimalOperationsBuilderSync, bind at 1, readArray.
  destruct (decide _) as [He|He]; rewrite early_exit_iff in He.
  - exists ex, w0. split; [done|]. destruct He. by apply end_early.
  - unfold initialState, bind, newArray, ret.
    destruct (syncLoop_end (length coreOperations) _ _ (WalkInv_initial w0 ex) eq_refl)
      as (s & w' & Heq & HI & Hfin).
    rewrite Heq. exists (operations s), w'. split; [done|].
    destruct (finished s) eqn:Hf.
    + eapply end_finished; eauto.
    + eapply end_exhausted; eauto.
Qed.

Lemma minimalOperationsBuilder_end merge :
  ∃ r w',
    minimalOperationsBuilder sameOp coreOperations ex buildOp merge w0 = Ok (r, w') ∧
    WalkEnd sameOp coreOperations w0 ex r w'.
Proof.
  unfold minimalOperationsBuilder, bind at 1, readArray.
  destruct (decide _) as [He|He]; rewrite early_exit_iff in He.
  - exists ex, w0. split; [done|]. destruct He. by apply end_early.
  - unfold initialState, bind at 1 2, newArray, ret.
    destruct (asyncLoop_end merge (length coreOperations) [] _ _
                (WalkInv_initial w0 ex) eq_refl)
      as (acc & s & w' & Heq & HI & Hfin).
    unfold bind at 1. rewrite Heq. simpl.
    destruct (finished s) eqn:Hf.
    { exists (operations s), w'. split; [done|]. eapply end_finished; eauto. }
    destruct merge as [mg|];
      [|exists (operations s), w'; split; [done|]; eapply end_exhausted; eauto].
    destruct (decide _);
      [|exists (operations s), w'; split; [done|]; eapply end_exhausted; eauto].
    unfold bind, emit.
    pose proof (WalkInv_emit_merge _ _ _ _ acc HI) as HI'.
    destruct (stepBuilder_outcome sameOp s (mg acc) 0 (w_emit (EvMerge acc) w'))
      as (s1 & w1 & Heq1 & Hstep).
    rewrite Heq1.
    pose proof (StepOutcome_inv _ _ _ _ _ _ _ _ _ Hex HI' Hf Hstep) as HI1.
    exists (operations s1), w1. split; [done|].
    destruct (finished s1) eqn:Hf1.
    + eapply end_finished; eauto.
      exact (stepBuilder_finishing _ _ _ _ _ _ _ _ Hex HI' Hf Heq1 Hf1).
    + eapply end_exhausted; eauto.
Qed.

End Loops.
End LoopFacts.

Section Finishing.
Variable sameOp : Operation → Operation → bool.

Lemma Checked_excludes state e newOp w state1 w1 :
  Checked sameOp state e newOp w state1 w1 →
  (immutableOpCmpDoneOnce state = false →
   op_blockHeight e = op_blockHeight newOp ∧ sameOp e newOp = true).
Proof. destruct 1; intros; [congruence | done]. Qed.

(** A matched operation with a short cached suffix stops the walk. *)
Lemma stepBuilder_finishes w0 ex state newOp i w e state1 w1 :
  allocated w0 ex →
  WalkInv w0 ex state w →
  findExistingOp (items w (existingOps state)) newOp = Some e →
  Checked sameOp state e newOp w state1 w1 →
  Array_length (Array_slice (items w0 ex) (Array_indexOf (items w0 ex) e)) ≤ i + 1 →
  ∃ state' w',
    stepBuilder sameOp state newOp i w = Ok (state', w') ∧
    finished state' = true ∧
    ((items w (operations state) = [] ∧ Array_indexOf (items w0 ex) e = 0 ∧
      operations state' = ex ∧ w' = w1) ∨
     (¬ (items w (operations state) = [] ∧ Array_indexOf (items w0 ex) e = 0) ∧
      ¬ allocated w0 (operations state') ∧
      items w' (operations state') =
        items w (operations state) ++
        Array_slice (items w0 ex) (Array_indexOf (items w0 ex) e))).
Proof.
  intros Hex HI Hf Hc Hlen.
  destruct (WalkInv_found _ _ _ _ _ _ HI Hex Hf) as [Hwex Hit].
  destruct (stepBuilder_outcome sameOp state newOp i w) as (s & v & Heq & Hstep).
  exists s, v. split; [done|].
  pose proof (Checked_excludes _ _ _ _ _ _ Hc) as Hexcl.
  assert (∀ st2 w2, Checked sameOp state e newOp w st2 w2 → st2 = state1 ∧ w2 = w1)
    as Hdet.
  { intros st2 w2 Hc2. destruct Hc, Hc2; try done; congruence. }
  destruct Hstep as [Hf'|e' Hf' Hd Hb|e' w2 Hf' Hd Hb Hs ->|e' st2 w2 Hf' Hc' Hlen'
                    |e' st2 w2 Hf' Hc' Hlen' Hz Hj|e' st2 w2 Hf' Hc' Hlen' Hnz];
    rewrite Hf in Hf'; simplify_eq.
  - destruct (Hexcl Hd). done.
  - destruct (Hexcl Hd). congruence.
  - rewrite Hit in Hlen'. lia.
  - destruct (Hdet _ _ Hc') as [-> ->]. split; [done|]. left.
    rewrite Hit in Hj. apply Array_length_nil in Hz. done.
  - destruct (Hdet _ _ Hc') as [-> ->]. split; [done|]. right.
    rewrite Hit in *. rewrite Array_length_nil in Hnz.
    destruct (Checked_frame _ _ _ _ _ _ _ Hc) as (_ & _ & _ & _ & Hn1 & _).
    split; [done|]. split.
    + destruct HI. unfold allocated; simpl. lia.
    + apply items_w_alloc_eq.
Qed.

Section Heads.
Context {CO : Type}.
Variables (coreOperations : list CO) (buildOp : CO → option Operation).
Variables (w0 : World) (ex : loc).
Hypothesis Hex : allocated w0 ex.

Let start : StepBuilderState :=
  {| finished := false; operations := w_next w0; existingOps := ex;
     immutableOpCmpDoneOnce := false |}.

Lemma initialState_inv state w1 :
  initialState ex w0 = Ok (state, w1) → state = start ∧ w1 = w_alloc [] w0.
Proof. by intros [= <- <-]. Qed.

Lemma Walked_inv n state w1 :
  Walked sameOp coreOperations buildOp w0 ex n state w1 →
  WalkInv w0 ex state w1 ∧ finished state = false.
Proof.
  induction 1 as [state w1 Hi|n state w1 _ IH _|n state w1 newOp state' w' _ IH _ Heq Hf].
  - apply initialState_inv in Hi as [-> ->]. split; [apply WalkInv_initial|done].
  - done.
  - destruct IH as [HI Hnf]. split; [|done].
    eapply StepOutcome_inv; eauto. by apply stepBuilder_step.
Qed.

Lemma Walked_run n state w1 :
  Walked sameOp coreOperations buildOp w0 ex n state w1 →
  syncLoop sameOp coreOperations buildOp (length coreOperations) start
    (w_alloc [] w0)
  = syncLoop sameOp coreOperations buildOp n state w1.
Proof.
  induction 1 as [state w1 Hi|n state w1 _ IH Hl
                 |n state w1 newOp state' w' _ IH Hl Heq Hf].
  - by apply initialState_inv in Hi as [-> ->].
  - rewrite IH. simpl. by rewrite Hl.
  - rewrite IH. simpl. rewrite Hl. unfold bind. by rewrite Heq, Hf.
Qed.

Lemma WalkedAsync_inv merge n acc state w1 :
  WalkedAsync sameOp coreOperations buildOp w0 ex merge n acc state w1 →
  WalkInv w0 ex state w1 ∧ finished state = false.
Proof.
  induction 1 as [state w1 Hi|n acc state w1 _ IH _|n acc state w1 op _ IH _ _ _
                 |n acc state w1 op mg state' w' _ IH _ _ _ Heq Hf
                 |n acc state w1 op state' w' _ IH _ _ Heq Hf].
  - apply initialState_inv in Hi as [-> ->]. split; [apply WalkInv_initial|done].
  - done.
  - done.
  - destruct IH as [HI Hnf]. split; [|done].
    eapply StepOutcome_inv; [done|by apply WalkInv_emit_merge|done|].
    by apply stepBuilder_step.
  - destruct IH as [HI Hnf]. split; [|done].
    eapply StepOutcome_inv; eauto. by apply stepBuilder_step.
Qed.

Lemma WalkedAsync_run merge n acc state w1 :
  WalkedAsync sameOp coreOperations buildOp w0 ex merge n acc state w1 →
  asyncLoop sameOp coreOperations buildOp merge (length coreOperations) []
    start (w_alloc [] w0)
  = asyncLoop sameOp coreOperations buildOp merge n acc state w1.
Proof.
  induction 1 as [state w1 Hi|n acc state w1 _ IH Hl
                 |n acc state w1 op _ IH Hl [mg ->] Hacc
                 |n acc state w1 op mg state' w' _ IH Hl -> Hacc Heq Hf
                 |n acc state w1 op state' w' _ IH Hl -> Heq Hf].
  - by apply initialState_inv in Hi as [-> ->].
  - rewrite IH. simpl. by rewrite Hl.
  - rewrite IH. simpl. by rewrite Hl, Hacc.
  - rewrite IH. simpl. rewrite Hl, Hacc. unfold bind, emit.
    by rewrite Heq, Hf.
  - rewrite IH. simpl. rewrite Hl. unfold bind. by rewrite Heq, Hf.
Qed.

Lemma WalkedAsync_group merge n acc state w1 :
  WalkedAsync sameOp coreOperations buildOp w0 ex merge n acc state w1 →
  coreOperations = [] → acc = [].
Proof.
  intros Hw ->. induction Hw as [| | ? ? ? ? ? ? ? Hl | ? ? ? ? ? ? ? ? ? ? Hl|];
    try done; by rewrite lookup_nil in Hl.
Qed.

(** What a finishing step hands to the caller of the builder. *)
Lemma finishing_result state newOp i w1 e state1 w2 state' w' :
  WalkInv w0 ex state w1 →
  finished state = false →
  findExistingOp (items w1 (existingOps state)) newOp = Some e →
  Checked sameOp state e newOp w1 state1 w2 →
  stepBuilder sameOp state newOp i w1 = Ok (state', w') →
  items w' ex = items w0 ex ∧
  ∀ k x,
    Array_slice (items w0 ex) (Array_indexOf (items w0 ex) e) !! k = Some x →
    items w0 ex !! (Z.to_nat (Array_indexOf (items w0 ex) e) + k)%nat = Some x.
Proof.
  intros HI Hnf Hf Hc Heq.
  destruct (WalkInv_found _ _ _ _ _ _ HI Hex Hf) as [Hwex Hit].
  pose proof (StepOutcome_inv _ _ _ _ _ _ _ _ _ Hex HI Hnf
                (stepBuilder_step _ _ _ _ _ _ _ Heq)) as HI'.
  split; [by apply (inv_frame _ _ _ _ HI')|].
  intros k x. apply Array_slice_lookup.
  rewrite Hit in Hf. apply Array_find_Some_elem in Hf as [Hin _].
  apply Array_indexOf_bounds in Hin. lia.
Qed.

Lemma sync_finishing_call state newOp i w1 e state1 w2 :
  StepCallSync sameOp coreOperations buildOp w0 ex state newOp i w1 →
  findExistingOp (items w1 (existingOps state)) newOp = Some e →
  Checked sameOp state e newOp w1 state1 w2 →
  Array_length (Array_slice (items w0 ex) (Array_indexOf (items w0 ex) e)) ≤ i + 1 →
  ∃ state' w',
    stepBuilder sameOp state newOp i w1 = Ok (state', w') ∧
    minimalOperationsBuilderSync sameOp coreOperations ex buildOp w0
      = Ok (operations state', w') ∧
    WalkInv w0 ex state w1 ∧ finished state = false.
Proof.
  intros Hcall Hf Hc Hlen.
  destruct Hcall as [n state w1 newOp Hw Hl].
  destruct (Walked_inv _ _ _ Hw) as [HI Hnf].
  destruct (stepBuilder_finishes _ _ _ _ _ _ _ _ _ Hex HI Hf Hc Hlen)
    as (state' & w' & Heq & Hfin & _).
  exists state', w'. split; [done|]. split; [|done].
  unfold minimalOperationsBuilderSync, bind at 1, readArray.
  destruct (decide _) as [He|He].
  { rewrite early_exit_iff in He. destruct He as [_ ->].
    by rewrite lookup_nil in Hl. }
  unfold initialState, bind at 1 2, newArray, ret. fold start.
  unfold bind. rewrite (Walked_run _ _ _ Hw). simpl. rewrite Hl.
  unfold bind. by rewrite Heq, Hfin.
Qed.

(** From a head of its loop on, the asynchronous builder is the rest of
    its loop followed by the code after it. *)
Lemma minimalOperationsBuilder_from merge n acc state w1 :
  WalkedAsync sameOp coreOperations buildOp w0 ex merge n acc state w1 →
  ¬ (items w0 ex = [] ∧ coreOperations = []) →
  minimalOperationsBuilder sameOp coreOperations ex buildOp merge w0
  = (walked <- asyncLoop sameOp coreOperations buildOp merge n acc state ;;
     if finished walked.2 then ret (operations walked.2)
     else match merge with
          | Some mg =>
              if decide (Array_length walked.1 ≠ 0) then
                emit (EvMerge walked.1) ;;;
                state <- stepBuilder sameOp walked.2 (mg walked.1) 0 ;;
                ret (operations state)
              else ret (operations walked.2)
          | None => ret (operations walked.2)
          end) w1.
Proof.
  intros Hw Hne.
  unfold minimalOperationsBuilder, bind at 1, readArray.
  destruct (decide _) as [He|He].
  { by rewrite early_exit_iff in He. }
  unfold initialState, bind at 1 2, newArray, ret. fold start.
  unfold bind. by rewrite (WalkedAsync_run _ _ _ _ _ Hw).
Qed.

Lemma async_finishing_call merge state newOp i w1 e state1 w2 :
  StepCallAsync sameOp coreOperations buildOp w0 ex merge state newOp i w1 →
  findExistingOp (items w1 (existingOps state)) newOp = Some e →
  Checked sameOp state e newOp w1 state1 w2 →
  Array_length (Array_slice (items w0 ex) (Array_indexOf (items w0 ex) e)) ≤ i + 1 →
  ∃ state' w',
    stepBuilder sameOp state newOp i w1 = Ok (state', w') ∧
    minimalOperationsBuilder sameOp coreOperations ex buildOp merge w0
      = Ok (operations state', w') ∧
    WalkInv w0 ex state w1 ∧ finished state = false.
Proof.
  intros Hcall Hf Hc Hlen.
  pose proof (minimalOperationsBuilder_from merge) as Hrun.
  destruct Hcall as [n acc state w1 op Hw Hl ->
                    |n acc state w1 op mg Hw Hl -> Hacc
                    |acc state w1 mg Hw -> Hacc].
  - destruct (WalkedAsync_inv _ _ _ _ _ Hw) as [HI Hnf].
    destruct (stepBuilder_finishes _ _ _ _ _ _ _ _ _ Hex HI Hf Hc Hlen)
      as (state' & w' & Heq & Hfin & _).
    exists state', w'. split; [done|]. split; [|done].
    rewrite (Hrun _ _ _ _ Hw); [|intros [_ ->]; by rewrite lookup_nil in Hl].
    simpl. rewrite Hl. unfold bind. rewrite Heq, Hfin. simpl. by rewrite Hfin.
  - destruct (WalkedAsync_inv _ _ _ _ _ Hw) as [HI Hnf].
    pose proof (WalkInv_emit_merge _ _ _ _ acc HI) as HI'.
    destruct (stepBuilder_finishes _ _ _ _ _ _ _ _ _ Hex HI' Hf Hc Hlen)
      as (state' & w' & Heq & Hfin & _).
    exists state', w'. split; [done|]. split; [|done].
    rewrite (Hrun _ _ _ _ Hw); [|intros [_ ->]; by rewrite lookup_nil in Hl].
    simpl. rewrite Hl, Hacc. unfold bind, emit. rewrite Heq, Hfin. simpl.
    by rewrite Hfin.
  - destruct (WalkedAsync_inv _ _ _ _ _ Hw) as [HI Hnf].
    pose proof (WalkInv_emit_merge _ _ _ _ acc HI) as HI'.
    destruct (stepBuilder_finishes _ _ _ _ _ _ _ _ _ Hex HI' Hf Hc Hlen)
      as (state' & w' & Heq & Hfin & _).
    exists state', w'. split; [done|]. split; [|done].
    rewrite (Hrun _ _ _ _ Hw).
    2:{ intros [_ Hnil]. apply Hacc.
        by rewrite (WalkedAsync_group _ _ _ _ _ Hw Hnil). }
    simpl. unfold bind, ret. simpl. rewrite Hnf.
    destruct (decide _) as [_|Hn]; [|done].
    unfold emit. by rewrite Heq.
Qed.

End Heads.

(** C1. A step that matches a cached operation whose cached suffix is
    not longer than the raw entries still to come finishes the walk, and
    the builder that took it returns what the step left.  When nothing
    was pushed and the match is at position 0 of the window, that is the
    cache array itself, the same reference.  In every other such step it
    is a new array: the operations pushed so far followed by the cached
    suffix from the match on, the cached objects themselves.  The cache
    array is left as it was.  This holds of [stepBuilder] at any state of
    a walk, of [minimalOperationsBuilderSync] at every step its loop
    takes, and of [minimalOperationsBuilder] at every step it takes: in
    its loop on a record or on a released group, and after its loop on
    the last group. *)
Theorem finishing_step_returns_cache_or_concat
    {CO} (coreOperations : list CO) (buildOp : CO → option Operation)
    (mergeSameHashOps : option (list Operation → Operation))
    (w : World) (existingOperations : loc)
    (state : StepBuilderState) (newOp : Operation) (i : Z) (w1 : World)
    (e : Operation) (state1 : StepBuilderState) (w2 : World) :
  allocated w existingOperations →
  findExistingOp (items w1 (existingOps state)) newOp = Some e →
  Checked sameOp state e newOp w1 state1 w2 →
  let existing := items w existingOperations in
  let j := Array_indexOf existing e in
  let rest := Array_slice existing j in
  let pushed := items w1 (operations state) in
  Array_length rest ≤ i + 1 →
  let returned (r : loc) (w' : World) :=
    ((pushed = [] ∧ j = 0 ∧ r = existingOperations) ∨
     (¬ (pushed = [] ∧ j = 0) ∧
      ¬ allocated w r ∧
      items w' r = pushed ++ rest ∧
      ∀ k x, rest !! k = Some x →
             existing !! (Z.to_nat j + k)%nat = Some x)) ∧
    items w' existingOperations = existing in
  (WalkInv w existingOperations state w1 →
   finished state = false →
   ∃ state' w',
     stepBuilder sameOp state newOp i w1 = Ok (state', w') ∧
     finished state' = true ∧
     returned (operations state') w') ∧
  (StepCallSync sameOp coreOperations buildOp w existingOperations
     state newOp i w1 →
   ∃ r w',
     minimalOperationsBuilderSync sameOp coreOperations
       existingOperations buildOp w = Ok (r, w') ∧
     returned r w') ∧
  (StepCallAsync sameOp coreOperations buildOp w existingOperations
     mergeSameHashOps state newOp i w1 →
   ∃ r w',
     minimalOperationsBuilder sameOp coreOperations
       existingOperations buildOp mergeSameHashOps w = Ok (r, w') ∧
     returned r w').
Proof.
  intros Hex Hf Hc existing j rest pushed Hlen returned.
  assert (∀ state' w',
            WalkInv w existingOperations state w1 →
            finished state = false →
            stepBuilder sameOp state newOp i w1 = Ok (state', w') →
            finished state' = true ∧ returned (operations state') w') as Hret.
  { intros state' w' HI Hnf Heq.
    destruct (stepBuilder_finishes _ _ _ _ _ _ _ _ _ Hex HI Hf Hc Hlen)
      as (s & v & Heq' & Hfin & Hcases).
    rewrite Heq in Heq'. injection Heq' as <- <-.
    destruct (finishing_result _ _ Hex _ _ _ _ _ _ _ _ _ HI Hnf Hf Hc Heq)
      as [Hframe Hsuffix].
    split; [done|]. split; [|done].
    destruct Hcases as [(Hp & Hj & Hr & _)|(Hn & Hfresh & Hit)].
    - by left.
    - right. repeat (split; [done|]). exact Hsuffix. }
  split; [|split].
  - intros HI Hnf.
    destruct (stepBuilder_outcome sameOp state newOp i w1) as (s & v & Heq & _).
    exists s, v. split; [done|]. by apply Hret.
  - intros Hcall.
    destruct (sync_finishing_call _ _ _ _ Hex _ _ _ _ _ _ _ Hcall Hf Hc Hlen)
      as (s & v & Heq & Hb & HI & Hnf).
    exists (operations s), v. split; [done|]. by apply Hret.
  - intros Hcall.
    destruct (async_finishing_call _ _ _ _ Hex _ _ _ _ _ _ _ _ Hcall Hf Hc Hlen)
      as (s & v & Heq & Hb & HI & Hnf).
    exists (operations s), v. split; [done|]. by apply Hret.
Qed.

Section Skips.
Context {CO : Type}.
Variables (coreOperations : list CO) (buildOp : CO → option Operation).
Hypothesis Hskip : ∀ co, co ∈ coreOperations → buildOp co = None.

Lemma skipped_lookup n : coreOperations !! n ≫= buildOp = None.
Proof.
  destruct (coreOperations !! n) as [co|] eqn:Hl; [|done]. simpl.
  apply Hskip. by eapply list_elem_of_lookup_2.
Qed.

Lemma syncLoop_skips n state w :
  syncLoop sameOp coreOperations buildOp n state w = Ok (state, w).
Proof.
  induction n as [|n IH]; simpl; [done|]. by rewrite skipped_lookup.
Qed.

Lemma asyncLoop_skips merge n acc state w :
  asyncLoop sameOp coreOperations buildOp merge n acc state w
    = Ok ((acc, state), w).
Proof.
  induction n as [|n IH]; simpl; [done|]. by rewrite skipped_lookup.
Qed.

Lemma builders_on_skips merge ex w :
  ¬ (items w ex = [] ∧ coreOperations = []) →
  minimalOperationsBuilderSync sameOp coreOperations ex buildOp w
    = Ok (w_next w, w_alloc [] w) ∧
  minimalOperationsBuilder sameOp coreOperations ex buildOp merge w
    = Ok (w_next w, w_alloc [] w).
Proof.
  intros Hne. split.
  - unfold minimalOperationsBuilderSync, bind at 1, readArray.
    destruct (decide _) as [He|He]; [by rewrite early_exit_iff in He|].
    unfold initialState, bind, newArray, ret.
    by rewrite syncLoop_skips.
  - unfold minimalOperationsBuilder, bind at 1, readArray.
    destruct (decide _) as [He|He]; [by rewrite early_exit_iff in He|].
    unfold initialState, bind, newArray, ret.
    rewrite asyncLoop_skips. simpl. by destruct merge.
Qed.

End Skips.

(** C10. When the raw list is empty, or the adapter skips every record
    of it, both builders return the same result.  On a non-empty cache it
    is a new empty array: its reference is not the cache and did not
    exist before the call, and the cache array is left as it was.  The
    cache reference itself comes back exactly when the cache and the raw
    list are both empty. *)
Theorem empty_walk_discards_cache
    {CO} (coreOperations : list CO) (buildOp : CO → option Operation)
    (mergeSameHashOps : option (list Operation → Operation))
    (w : World) (existingOperations : loc) :
  allocated w existingOperations →
  (∀ co, co ∈ coreOperations → buildOp co = None) →
  ∃ r w',
    minimalOperationsBuilderSync sameOp coreOperations
      existingOperations buildOp w = Ok (r, w') ∧
    minimalOperationsBuilder sameOp coreOperations
      existingOperations buildOp mergeSameHashOps w = Ok (r, w') ∧
    (items w existingOperations ≠ [] →
       r = w_next w ∧ r ≠ existingOperations ∧ ¬ allocated w r ∧
       items w' r = [] ∧
       items w' existingOperations = items w existingOperations) ∧
    (r = existingOperations ↔
       items w existingOperations = [] ∧ coreOperations = []).
Proof.
  intros Hex Hskip. unfold allocated in *.
  destruct (decide (items w existingOperations = [] ∧ coreOperations = []))
    as [[He Hc]|Hne].
  - exists existingOperations, w. subst coreOperations.
    unfold minimalOperationsBuilderSync, minimalOperationsBuilder, bind, readArray.
    rewrite He. simpl. repeat split; auto; done.
  - destruct (builders_on_skips coreOperations buildOp Hskip mergeSameHashOps
                existingOperations w Hne) as [Hs Ha].
    exists (w_next w), (w_alloc [] w).
    split; [done|]. split; [done|]. split.
    + intros _. split; [done|]. split; [lia|]. split; [lia|]. split.
      * apply items_w_alloc_eq.
      * apply items_w_alloc_ne. lia.
    + split; [lia | tauto].
Qed.

End Finishing.

Lemma walkOps_0 {CO} (core : list CO) buildOp : walkOps core buildOp 0 = [].
Proof. done. Qed.

Lemma walkOps_S {CO} (core : list CO) buildOp n :
  walkOps core buildOp (S n) =
  match core !! n ≫= buildOp with
  | Some op => op :: walkOps core buildOp n
  | None => walkOps core buildOp n
  end.
Proof.
  unfold walkOps. destruct (core !! n) as [co|] eqn:Hl; simpl.
  - rewrite (take_S_r _ _ _ Hl), reverse_snoc. simpl.
    by destruct (buildOp co).
  - apply lookup_ge_None in Hl. by rewrite !take_ge by lia.
Qed.

Lemma walkOps_all {CO} (core : list CO) buildOp :
  walkOps core buildOp (length core) = omap buildOp (reverse core).
Proof. unfold walkOps. by rewrite take_ge. Qed.

#[global] Arguments walkOps : simpl never.

Section Mismatch.
Variable sameOp : Operation → Operation → bool.

Lemma WalkEnd_calls {CO} (core : list CO) w ex r w' :
  WalkEnd sameOp core w ex r w' →
  (sameOpCalls (w_log w') ≤ sameOpCalls (w_log w) + 1)%nat.
Proof.
  destruct 1 as [? ? ? ->|s ? ? [] ?|s ? ? [] ? ?]; try lia;
    destruct (immutableOpCmpDoneOnce s); lia.
Qed.

Lemma WalkEnd_frame {CO} (core : list CO) w ex r w' :
  WalkEnd sameOp core w ex r w' →
  ∀ l, allocated w l → items w' l = items w l.
Proof.
  destruct 1 as [? ? ? ->|s ? ? [] ?|s ? ? [] ? ?]; auto.
Qed.

(** Once the window is empty every step is a plain push. *)
Lemma stepBuilder_cleared state newOp i w :
  Cleared state w →
  findExistingOp (items w (existingOps state)) newOp = None ∧
  stepBuilder sameOp state newOp i w
    = Ok (state, w_push (operations state) newOp w) ∧
  Cleared state (w_push (operations state) newOp w).
Proof.
  intros [Hnil Hne]. split; [by rewrite Hnil|]. split.
  - unfold stepBuilder, bind, readArray. by rewrite Hnil.
  - split; [|done]. by rewrite items_w_push_ne.
Qed.

Lemma syncLoop_cleared {CO} (core : list CO) buildOp n state w :
  Cleared state w →
  finished state = false →
  ∃ w',
    syncLoop sameOp core buildOp n state w = Ok (state, w') ∧
    Cleared state w' ∧
    w_log w' = w_log w ∧
    items w' (operations state) =
      items w (operations state) ++ walkOps core buildOp n.
Proof.
  revert w. induction n as [|n IH]; intros w Hc Hnf; simpl.
  - exists w. rewrite walkOps_0, app_nil_r. done.
  - rewrite walkOps_S.
    destruct (core !! n ≫= buildOp) as [op|]; [|by apply IH].
    destruct (stepBuilder_cleared state op (Z.of_nat n) w Hc) as (_ & Heq & Hc').
    unfold bind. rewrite Heq, Hnf.
    destruct (IH _ Hc' Hnf) as (w' & -> & Hc'' & Hlog & Hit).
    exists w'. repeat split; try apply Hc''; auto.
    rewrite Hit, items_w_push_eq. by rewrite <- app_assoc.
Qed.

(** The fail-safe step. *)
Lemma stepBuilder_mismatch w0 ex state newOp i w e :
  WalkInv w0 ex state w →
  finished state = false →
  findExistingOp (items w (existingOps state)) newOp = Some e →
  immutableOpCmpDoneOnce state = false →
  op_blockHeight e = op_blockHeight newOp →
  sameOp e newOp = false →
  ∃ state' w',
    stepBuilder sameOp state newOp i w = Ok (state', w') ∧
    finished state' = false ∧
    immutableOpCmpDoneOnce state' = true ∧
    operations state' = operations state ∧
    items w' (operations state') = items w (operations state) ++ [newOp] ∧
    items w' (existingOps state') = [] ∧
    Cleared state' w' ∧
    w_log w' = w_log w ++ [EvSameOp e newOp; EvWarn newOp e op_mismatch_msg].
Proof.
  intros HI Hnf Hf Hd Hb Hs.
  destruct (stepBuilder_outcome sameOp state newOp i w) as (s & v & Heq & Hstep).
  exists s, v. split; [done|].
  pose proof (inv_output _ _ _ _ HI Hnf) as Hout.
  assert (∀ st2 w2, ¬ Checked sameOp state e newOp w st2 w2) as Hno.
  { intros st2 w2 Hc. destruct Hc; congruence. }
  destruct Hstep as [Hf'|e' Hf' Hd' Hb'|e' w2 Hf' Hd' Hb' Hs' ->|e' st2 w2 Hf' Hc' Hlen'
                    |e' st2 w2 Hf' Hc' Hlen' Hz Hj|e' st2 w2 Hf' Hc' Hlen' Hnz];
    rewrite Hf in Hf'; simplify_eq; try (by destruct (Hno _ _ Hc')).
  simpl.
  assert (items
            (w_push (operations state) newOp
               (w_alloc []
                  (w_emit (EvWarn newOp e' op_mismatch_msg)
                     (w_emit (EvSameOp e' newOp) w)))) (w_next w) = []) as Hnil.
  { rewrite items_w_push_ne by lia.
    exact (items_w_alloc_eq [] (w_emit (EvWarn newOp e' op_mismatch_msg)
                                  (w_emit (EvSameOp e' newOp) w))). }
  repeat split; auto.
  - rewrite items_w_push_eq. f_equal.
    rewrite items_w_alloc_ne by (simpl; lia). done.
  - simpl. lia.
  - by rewrite <- app_assoc.
Qed.

(** C2. A new operation that matches a cached one by id, with the same
    blockHeight, and fails [sameOp] does not stop the walk with an error:
    the step returns, replaces the window by an empty array, pushes the
    new operation and raises the one-shot flag.  From there every lookup
    finds nothing and every step pushes its operation, so the rest of the
    walk appends the remaining operations.  In a whole call of either
    builder [sameOp] is called at most once. *)
Theorem stale_cache_mismatch_recovers
    {CO} (coreOperations : list CO) (buildOp : CO → option Operation)
    (mergeSameHashOps : option (list Operation → Operation))
    (w : World) (existingOperations : loc) :
  allocated w existingOperations →
  (∀ state newOp i w1 e,
     WalkInv w existingOperations state w1 →
     finished state = false →
     findExistingOp (items w1 (existingOps state)) newOp = Some e →
     immutableOpCmpDoneOnce state = false →
     op_blockHeight e = op_blockHeight newOp →
     sameOp e newOp = false →
     ∃ state' w',
       stepBuilder sameOp state newOp i w1 = Ok (state', w') ∧
       finished state' = false ∧
       immutableOpCmpDoneOnce state' = true ∧
       items w' (existingOps state') = [] ∧
       items w' (operations state') = items w1 (operations state) ++ [newOp] ∧
       (∀ n, ∃ w'',
          syncLoop sameOp coreOperations buildOp n state' w' = Ok (state', w'') ∧
          w_log w'' = w_log w' ∧
          items w'' (operations state') =
            items w1 (operations state) ++ [newOp] ++
            walkOps coreOperations buildOp n) ∧
       (∀ op k w2, Cleared state' w2 →
          findExistingOp (items w2 (existingOps state')) op = None ∧
          stepBuilder sameOp state' op k w2
            = Ok (state', w_push (operations state') op w2) ∧
          Cleared state' (w_push (operations state') op w2))) ∧
  (∃ r w',
     minimalOperationsBuilderSync sameOp coreOperations
       existingOperations buildOp w = Ok (r, w') ∧
     (sameOpCalls (w_log w') ≤ sameOpCalls (w_log w) + 1)%nat) ∧
  (∃ r w',
     minimalOperationsBuilder sameOp coreOperations
       existingOperations buildOp mergeSameHashOps w = Ok (r, w') ∧
     (sameOpCalls (w_log w') ≤ sameOpCalls (w_log w) + 1)%nat).
Proof.
  intros Hex. split; [|split].
  - intros state newOp i w1 e HI Hnf Hf Hd Hb Hs.
    destruct (stepBuilder_mismatch _ _ _ _ i _ _ HI Hnf Hf Hd Hb Hs)
      as (s & v & Heq & Hnf' & Hd' & Ho & Hit & Hnil & Hcl & Hlog).
    exists s, v. repeat (split; [done|]). split.
    + intros n.
      destruct (syncLoop_cleared coreOperations buildOp n s v Hcl Hnf')
        as (w'' & Hl & _ & Hlog' & Hit').
      exists w''. repeat (split; [done|]).
      rewrite Hit', Hit. by rewrite <- app_assoc.
    + intros op k w2 Hc2. by apply stepBuilder_cleared.
  - destruct (minimalOperationsBuilderSync_end sameOp coreOperations buildOp
                w existingOperations Hex) as (r & w' & Heq & Hend).
    exists r, w'. split; [done|]. by eapply WalkEnd_calls.
  - destruct (minimalOperationsBuilder_end sameOp coreOperations buildOp
                w existingOperations Hex mergeSameHashOps) as (r & w' & Heq & Hend).
    exists r, w'. split; [done|]. by eapply WalkEnd_calls.
Qed.

End Mismatch.

Lemma findExistingOp_at cached k c op :
  NoDup (op_id <$> cached) →
  cached !! k = Some c →
  op_id op = op_id c →
  findExistingOp cached op = Some c.
Proof.
  unfold findExistingOp. revert k.
  induction cached as [|x xs IH]; intros k Hnd Hk Hid; [done|].
  simpl in *. apply NoDup_cons in Hnd as [Hnin Hnd].
  destruct k as [|k]; simpl in Hk.
  - simplify_eq. by rewrite bool_decide_eq_true_2.
  - case_bool_decide as Hx; [|by eapply IH].
    exfalso. apply Hnin. rewrite Hx, Hid.
    apply list_elem_of_fmap. exists c. split; [done|].
    by eapply list_elem_of_lookup_2.
Qed.

Lemma Array_indexOf_from_at cached k c z :
  NoDup (op_ref <$> cached) →
  cached !! k = Some c →
  Array_indexOf_from z cached c = z + Z.of_nat k.
Proof.
  revert k z.
  induction cached as [|x xs IH]; intros k z Hnd Hk; [done|].
  simpl in *. apply NoDup_cons in Hnd as [Hnin Hnd].
  destruct k as [|k]; simpl in Hk.
  - simplify_eq. rewrite bool_decide_eq_true_2 by done. lia.
  - case_bool_decide as Hx.
    + exfalso. apply Hnin. rewrite Hx.
      apply list_elem_of_fmap. exists c. split; [done|].
      by eapply list_elem_of_lookup_2.
    + rewrite (IH k) by done. lia.
Qed.

Lemma Array_indexOf_at cached k c :
  NoDup (op_ref <$> cached) →
  cached !! k = Some c →
  Array_indexOf cached c = Z.of_nat k.
Proof. intros. unfold Array_indexOf. by rewrite (Array_indexOf_from_at _ k). Qed.

Section BlockHeight.
Variable sameOp : Operation → Operation → bool.

Lemma StepOutcome_prefix w0 ex state newOp i w state' w' :
  WalkInv w0 ex state w →
  finished state = false →
  StepOutcome sameOp state newOp i w state' w' →
  items w (operations state) `prefix_of` items w' (operations state').
Proof.
  intros HI Hnf Hstep.
  pose proof (inv_output _ _ _ _ HI Hnf) as Hout.
  destruct Hstep as [Hf|e Hf Hd Hb|e w1 Hf Hd Hb Hs ->|e st1 w1 Hf Hc Hlen
                    |e st1 w1 Hf Hc Hlen Hz Hj|e st1 w1 Hf Hc Hlen Hnz].
  - rewrite items_w_push_eq. by apply prefix_app_r.
  - rewrite items_w_push_eq. by apply prefix_app_r.
  - simpl. rewrite items_w_push_eq, items_w_alloc_ne by (simpl; lia).
    by apply prefix_app_r.
  - destruct (Checked_frame _ _ _ _ _ _ _ Hc) as (_ & Ho & _ & _ & _ & Hi1 & _).
    rewrite Ho, items_w_push_eq, Hi1. by apply prefix_app_r.
  - apply Array_length_nil in Hz. rewrite Hz. apply prefix_nil.
  - simpl. rewrite items_w_alloc_eq. by apply prefix_app_r.
Qed.

Lemma syncLoop_prefix {CO} (core : list CO) buildOp w0 ex n state w state' w' :
  allocated w0 ex →
  WalkInv w0 ex state w →
  finished state = false →
  syncLoop sameOp core buildOp n state w = Ok (state', w') →
  items w (operations state) `prefix_of` items w' (operations state').
Proof.
  intros Hex. revert state w.
  induction n as [|n IH]; intros state w HI Hnf; simpl.
  - by intros [= -> ->].
  - destruct (core !! n ≫= buildOp) as [newOp|]; [|by apply IH].
    unfold bind.
    destruct (stepBuilder_outcome sameOp state newOp (Z.of_nat n) w)
      as (s1 & w1 & Heq & Hstep).
    rewrite Heq.
    pose proof (StepOutcome_inv _ _ _ _ _ _ _ _ _ Hex HI Hnf Hstep) as HI1.
    pose proof (StepOutcome_prefix _ _ _ _ _ _ _ _ HI Hnf Hstep) as Hp.
    destruct (finished s1) eqn:Hf1.
    + by intros [= <- <-].
    + intros Hl. etrans; [exact Hp|]. by eapply IH.
Qed.

(** A cached operation found with another [blockHeight] before the
    one-shot comparison: the new operation is pushed and nothing else
    changes. *)
Lemma stepBuilder_blockHeight state newOp i w e :
  findExistingOp (items w (existingOps state)) newOp = Some e →
  immutableOpCmpDoneOnce state = false →
  op_blockHeight e ≠ op_blockHeight newOp →
  stepBuilder sameOp state newOp i w
    = Ok (state, w_push (operations state) newOp w).
Proof.
  intros Hf Hd Hb. unfold stepBuilder, bind at 1, readArray.
  rewrite Hf, Hd. simpl. by rewrite bool_decide_eq_true_2.
Qed.

Section Scenario.
Context {CO : Type}.
Variables (coreOperations : list CO) (buildOp : CO → option Operation).
Variables (w : World) (ex : loc) (cached : list Operation).
Hypothesis Hcached : items w ex = cached.
Hypothesis Hex : allocated w ex.
Local Abbreviation ids := (op_id <$> cached).
Local Abbreviation n := (length cached).
Hypothesis Hids : NoDup (op_id <$> cached).
Hypothesis Hrefs : NoDup (op_ref <$> cached).
Hypothesis Hraw :
  Forall2 (λ co c, ∃ op, buildOp co = Some op ∧ op_id op = op_id c)
    (reverse coreOperations) cached.

Lemma scenario_length : length coreOperations = n.
Proof. apply Forall2_length in Hraw. by rewrite length_reverse in Hraw. Qed.

Lemma scenario_index i :
  (i < n)%nat →
  ∃ op c,
    coreOperations !! i ≫= buildOp = Some op ∧
    cached !! (n - 1 - i)%nat = Some c ∧
    op_id op = op_id c.
Proof.
  intros Hi. pose proof scenario_length as Hlen.
  destruct (lookup_lt_is_Some_2 coreOperations i) as [co Hco]; [lia|].
  assert (reverse coreOperations !! (n - 1 - i)%nat = Some co) as Hrev.
  { rewrite reverse_lookup by lia. rewrite <- Hco. f_equal. lia. }
  destruct (Forall2_lookup_l _ _ _ _ _ Hraw Hrev) as (c & Hc & op & Hop & Hid).
  exists op, c. rewrite Hco. simpl. done.
Qed.

Lemma scenario_walkOps_ids m :
  (m ≤ n)%nat →
  op_id <$> walkOps coreOperations buildOp m = drop (n - m) ids.
Proof.
  induction m as [|m IH]; intros Hm.
  - rewrite walkOps_0.
    by rewrite Nat.sub_0_r, drop_ge by (by rewrite length_fmap).
  - rewrite walkOps_S.
    destruct (scenario_index m ltac:(lia)) as (op & c & -> & Hc & Hid).
    rewrite fmap_cons, IH by lia.
    replace (n - m)%nat with (S (n - S m)) by lia.
    symmetry. rewrite Hid. apply drop_S.
    rewrite list_lookup_fmap.
    replace (n - S m)%nat with (n - 1 - m)%nat by lia. by rewrite Hc.
Qed.

Lemma scenario_loop m state w1 :
  (m ≤ n)%nat →
  WalkInv w ex state w1 →
  finished state = false →
  immutableOpCmpDoneOnce state = false →
  existingOps state = ex →
  op_id <$> items w1 (operations state) = take (n - m) ids →
  ∃ state' w',
    syncLoop sameOp coreOperations buildOp m state w1 = Ok (state', w') ∧
    op_id <$> items w' (operations state') = ids.
Proof.
  revert state w1.
  induction m as [|m IH]; intros state w1 Hm HI Hnf Hd Hwin Hpushed; simpl.
  - exists state, w1. split; [done|]. rewrite Hpushed.
    rewrite Nat.sub_0_r. apply take_ge. by rewrite length_fmap.
  - destruct (scenario_index m ltac:(lia)) as (op & c & -> & Hc & Hid).
    assert (items w1 (existingOps state) = cached) as Hit.
    { rewrite Hwin, <- Hcached. by apply (inv_frame _ _ _ _ HI). }
    pose proof (findExistingOp_at _ _ _ _ Hids Hc Hid) as Hfind.
    pose proof (Array_indexOf_at _ _ _ Hrefs Hc) as Hj.
    assert (Array_length (Array_slice cached (Z.of_nat (n - 1 - m)))
            = Z.of_nat m + 1) as Hrest.
    { rewrite Array_slice_nonneg by lia. unfold Array_length.
      rewrite length_drop, Nat2Z.id. lia. }
    assert (take (n - m) ids = take (n - S m) ids ++ [op_id op]) as Htake.
    { replace (n - m)%nat with (S (n - S m)) by lia.
      rewrite Hid. apply take_S_r. rewrite list_lookup_fmap.
      replace (n - S m)%nat with (n - 1 - m)%nat by lia. by rewrite Hc. }
    unfold bind.
    destruct (stepBuilder_outcome sameOp state op (Z.of_nat m) w1)
      as (s1 & v1 & Heq & Hstep).
    rewrite Heq.
    pose proof (StepOutcome_inv _ _ _ _ _ _ _ _ _ Hex HI Hnf Hstep) as HI1.
    pose proof (inv_output _ _ _ _ HI Hnf) as Hout.
    destruct Hstep as [Hf|e Hf Hd' Hb|e w2 Hf Hd' Hb Hs ->|e st1 w2 Hf Hc' Hlen
                      |e st1 w2 Hf Hc' Hlen Hz Hj'|e st1 w2 Hf Hc' Hlen Hnz];
      rewrite Hit, Hfind in Hf; try discriminate Hf; injection Hf as <-.
    + (* blockHeight differs: pushed, the walk goes on *)
      rewrite Hnf. apply IH; auto; [lia|].
      rewrite items_w_push_eq, fmap_app, Hpushed. by rewrite Htake.
    + (* stale cache *)
      simpl. rewrite Hnf.
      match goal with |- context [syncLoop _ _ _ _ ?s ?v] =>
        destruct (syncLoop_cleared sameOp coreOperations buildOp m s v)
          as (w' & -> & _ & _ & Hit') end.
      { split; simpl.
        - rewrite items_w_push_ne by lia.
          exact (items_w_alloc_eq [] (w_emit (EvWarn op c op_mismatch_msg)
                                        (w_emit (EvSameOp c op) w1))).
        - lia. }
      { done. }
      eexists _, _. split; [done|]. simpl in Hit' |- *.
      rewrite Hit', items_w_push_eq, items_w_alloc_ne by (simpl; lia).
      change (items (w_emit _ (w_emit _ w1)) (operations state))
        with (items w1 (operations state)).
      rewrite !fmap_app, Hpushed, scenario_walkOps_ids by lia. simpl.
      rewrite <- app_assoc. simpl.
      rewrite <- (take_drop (n - S m) ids) at 3.
      f_equal. replace (n - m)%nat with (S (n - S m)) by lia.
      rewrite Hid. symmetry. apply drop_S. rewrite list_lookup_fmap.
      replace (n - S m)%nat with (n - 1 - m)%nat by lia. by rewrite Hc.
    + (* the cached suffix is never longer than what is left *)
      rewrite Hit, Hj in Hlen. lia.
    + (* finished, same array *)
      simpl. eexists _, _. split; [done|]. simpl.
      destruct (Checked_frame _ _ _ _ _ _ _ Hc') as (_ & _ & _ & _ & _ & Hi1 & _).
      by rewrite Hi1, Hit.
    + (* finished, concatenation *)
      simpl. eexists _, _. split; [done|]. simpl.
      rewrite items_w_alloc_eq, Hit, Hj, Array_slice_nonneg, Nat2Z.id by lia.
      rewrite fmap_app, Hpushed, fmap_drop.
      replace (n - 1 - m)%nat with (n - S m)%nat by lia.
      apply take_drop.
Qed.

Lemma scenario_builder :
  ∃ r w',
    minimalOperationsBuilderSync sameOp coreOperations ex buildOp w = Ok (r, w') ∧
    op_id <$> items w' r = ids ∧
    length (items w' r) = length cached ∧
    (∀ co c op,
       head (reverse coreOperations) = Some co → buildOp co = Some op →
       head cached = Some c →
       op_blockHeight c ≠ op_blockHeight op →
       head (items w' r) = Some op).
Proof.
  pose proof scenario_length as Hlen.
  assert (∀ r w', op_id <$> items w' r = ids → length (items w' r) = length cached)
    as Hl.
  { intros r w' H. apply (f_equal length) in H.
    by rewrite !length_fmap in H. }
  unfold minimalOperationsBuilderSync, bind at 1, readArray.
  destruct (decide _) as [He|He]; rewrite early_exit_iff in He.
  - exists ex, w. split; [done|]. rewrite Hcached.
    split; [done|]. split; [done|].
    intros co c op _ _ Hc. destruct He as [He _]. rewrite Hcached in He.
    by rewrite He in Hc.
  - unfold initialState, bind, newArray, ret.
    destruct (scenario_loop n _ _ (Nat.le_refl n) (WalkInv_initial w ex)
                eq_refl eq_refl eq_refl) as (s & w' & Heq & Hids').
    { simpl. rewrite items_w_alloc_eq. by rewrite Nat.sub_diag. }
    rewrite Hlen, Heq. exists (operations s), w'.
    split; [done|]. split; [done|]. split; [by apply Hl|].
    intros co c op Hco Hop Hc Hb.
    rewrite head_lookup in Hc.
    assert (∃ m, n = S m) as [m Hn].
    { apply lookup_lt_Some in Hc. exists (n - 1)%nat. lia. }
    assert (coreOperations !! m = Some co) as Hlk.
    { rewrite head_reverse, last_lookup, Hlen, Hn in Hco. done. }
    rewrite Hn in Heq. simpl in Heq. rewrite Hlk in Heq. simpl in Heq.
    rewrite Hop in Heq. unfold bind in Heq.
    assert (findExistingOp (items (w_alloc [] w) ex) op = Some c) as Hfind.
    { rewrite items_w_alloc_ne by (unfold allocated in Hex; lia).
      rewrite Hcached.
      apply (findExistingOp_at _ 0%nat); [done..|].
      rewrite head_lookup in Hco.
      destruct (Forall2_lookup_l _ _ _ _ _ Hraw Hco) as (c' & Hc' & op' & Hop' & Hid).
      congruence. }
    erewrite stepBuilder_blockHeight in Heq by (done || exact Hfind).
    simpl in Heq.
    destruct (syncLoop_prefix coreOperations buildOp w ex m
      {| operations := w_next w; existingOps := ex;
         immutableOpCmpDoneOnce := false; finished := false |}
      (w_push (w_next w) op (w_alloc [] w)) s w' Hex)
      as [suffix Hsuf]; [| done | exact Heq |].
    { eapply (StepOutcome_inv sameOp w ex _ op 0 _ _ _ Hex (WalkInv_initial w ex) eq_refl).
      eapply step_blockHeight; eauto. }
    rewrite Hsuf. simpl. rewrite items_w_push_eq, items_w_alloc_eq. done.
Qed.

End Scenario.

(** C3. While the one-shot comparison has not run, a new operation that
    matches a cached one by id with another blockHeight is pushed, the
    step logs nothing and the walk goes on with the same state.  When the
    raw list carries the ids of the cache in the same order, the output
    has the length and the ids of the cache, and a newest operation
    whose blockHeight changed is the head of the output: replaced, not
    duplicated. *)
Theorem blockHeight_change_is_an_update
    {CO} (coreOperations : list CO) (buildOp : CO → option Operation)
    (w : World) (existingOperations : loc) :
  allocated w existingOperations →
  NoDup (op_id <$> items w existingOperations) →
  NoDup (op_ref <$> items w existingOperations) →
  Forall2 (λ co c, ∃ op, buildOp co = Some op ∧ op_id op = op_id c)
    (reverse coreOperations) (items w existingOperations) →
  (∀ state newOp i w1 e,
     findExistingOp (items w1 (existingOps state)) newOp = Some e →
     immutableOpCmpDoneOnce state = false →
     op_blockHeight e ≠ op_blockHeight newOp →
     stepBuilder sameOp state newOp i w1
       = Ok (state, w_push (operations state) newOp w1) ∧
     w_log (w_push (operations state) newOp w1) = w_log w1 ∧
     items (w_push (operations state) newOp w1) (operations state)
       = items w1 (operations state) ++ [newOp]) ∧
  ∃ r w',
    minimalOperationsBuilderSync sameOp coreOperations
      existingOperations buildOp w = Ok (r, w') ∧
    length (items w' r) = length (items w existingOperations) ∧
    op_id <$> items w' r = op_id <$> items w existingOperations ∧
    (∀ co c op,
       head (reverse coreOperations) = Some co → buildOp co = Some op →
       head (items w existingOperations) = Some c →
       op_blockHeight c ≠ op_blockHeight op →
       head (items w' r) = Some op).
Proof.
  intros Hex Hids Hrefs Hraw. split.
  - intros state newOp i w1 e Hf Hd Hb.
    split; [by eapply stepBuilder_blockHeight|]. split; [done|].
    apply items_w_push_eq.
  - destruct (scenario_builder coreOperations buildOp w existingOperations
                _ eq_refl Hex Hids Hrefs Hraw) as (r & w' & Heq & Hi & Hl & Hh).
    exists r, w'. done.
Qed.

End BlockHeight.

(** ** Runs of one hash *)

Lemma hashRuns_nonempty ops : Forall (λ g, g ≠ []) (hashRuns ops).
Proof.
  induction ops as [|x xs IH]; simpl; [constructor|].
  destruct (hashRuns xs) as [|[|y g] gs]; try (by repeat constructor).
  apply Forall_cons in IH as [_ IH].
  case_bool_decide; by repeat constructor.
Qed.

Lemma hashRuns_concat ops : concat (hashRuns ops) = ops.
Proof.
  induction ops as [|x xs IH]; simpl; [done|].
  pose proof (hashRuns_nonempty xs) as Hne.
  destruct (hashRuns xs) as [|[|y g] gs]; simpl in *.
  - by rewrite <- IH.
  - by apply Forall_cons in Hne as [? _].
  - case_bool_decide; simpl; by rewrite <- IH.
Qed.

(** The accumulator of the loop holds operations of one hash; continuing
    from it gives the runs of the rest, the first of them joined to the
    accumulator when the hash is the same. *)
Lemma runsFrom_acc h acc ops :
  acc ≠ [] →
  Forall (λ o, op_hash o = h) acc →
  runsFrom acc ops =
  match hashRuns ops with
  | (y :: g) :: gs =>
      if bool_decide (h = op_hash y) then (acc ++ y :: g) :: gs
      else acc :: (y :: g) :: gs
  | _ => [acc]
  end.
Proof.
  revert h acc. induction ops as [|x xs IH]; intros h acc Hne Hall; simpl.
  - by destruct acc.
  - assert (op_hash <$> head acc = Some h) as Hhead.
    { destruct acc as [|a acc']; [done|]. simpl.
      apply Forall_cons in Hall as [-> _]. done. }
    assert (bool_decide (Array_length acc = 0) = false) as ->.
    { apply bool_decide_eq_false. rewrite Array_length_nil. done. }
    rewrite Hhead. simpl.
    pose proof (hashRuns_nonempty xs) as Hnex.
    case_bool_decide as Hx.
    + injection Hx as Hx.
      rewrite (IH h) by
        first [ by destruct acc
              | apply Forall_app; split; [done|by repeat constructor] ].
      destruct (hashRuns xs) as [|[|y g] gs].
      * by rewrite bool_decide_eq_true_2.
      * by apply Forall_cons in Hnex as [? _].
      * rewrite <- Hx. case_bool_decide as Hy.
        -- rewrite bool_decide_eq_true_2 by done. by rewrite <- app_assoc.
        -- rewrite bool_decide_eq_true_2 by done. done.
    + assert (h ≠ op_hash x) as Hx' by congruence.
      rewrite (IH (op_hash x) [x]) by (done || by repeat constructor).
      destruct (hashRuns xs) as [|[|y g] gs].
      * by rewrite bool_decide_eq_false_2.
      * by apply Forall_cons in Hnex as [? _].
      * destruct (bool_decide (op_hash x = op_hash y));
          by rewrite bool_decide_eq_false_2.
Qed.

Lemma runsFrom_nil ops : runsFrom [] ops = hashRuns ops.
Proof.
  destruct ops as [|x xs]; [done|]. simpl.
  rewrite (runsFrom_acc (op_hash x) [x]) by (done || by repeat constructor).
  by destruct (hashRuns xs) as [|[|y g] gs].
Qed.

Section Groups.
Variable sameOp : Operation → Operation → bool.

Lemma Checked_mergedGroups state e newOp w state1 w1 :
  Checked sameOp state e newOp w state1 w1 →
  mergedGroups (w_log w1) = mergedGroups (w_log w).
Proof. intros Hc. by destruct (Checked_frame _ _ _ _ _ _ _ Hc) as (_&_&_&_&_&_&?&_). Qed.

Lemma StepOutcome_mergedGroups state newOp i w state' w' :
  StepOutcome sameOp state newOp i w state' w' →
  mergedGroups (w_log w') = mergedGroups (w_log w).
Proof.
  destruct 1 as [Hf|e Hf Hd Hb|e w1 Hf Hd Hb Hs ->|e st1 w1 Hf Hc Hlen
                |e st1 w1 Hf Hc Hlen Hz Hj|e st1 w1 Hf Hc Hlen Hnz];
    simpl; try done; try (by eapply Checked_mergedGroups).
  rewrite !mergedGroups_app. simpl. by rewrite !app_nil_r.
Qed.

Section Merging.
Context {CO : Type}.
Variables (coreOperations : list CO) (buildOp : CO → option Operation).
Variable merge : list Operation → Operation.

(** Every call of the merger receives one run, in the order of the walk;
    when the loop runs to its end the last run is still in the
    accumulator. *)
Lemma asyncLoop_groups n acc state w acc' state' w' :
  asyncLoop sameOp coreOperations buildOp (Some merge) n acc state w
    = Ok ((acc', state'), w') →
  if finished state'
  then mergedGroups (w_log w') `prefix_of`
         mergedGroups (w_log w) ++ runsFrom acc (walkOps coreOperations buildOp n)
  else mergedGroups (w_log w') ++ pendingGroup acc' =
         mergedGroups (w_log w) ++ runsFrom acc (walkOps coreOperations buildOp n).
Proof.
  revert acc state w. induction n as [|n IH]; intros acc state w; simpl.
  - intros [= -> -> ->]. rewrite ?walkOps_0. simpl.
    destruct (finished state'); [|done]. by apply prefix_app_r.
  - rewrite walkOps_S.
    destruct (coreOperations !! n ≫= buildOp) as [op|]; [|by apply IH].
    simpl. destruct (_ || _); [by apply IH|].
    unfold bind at 1, emit. unfold bind.
    destruct (stepBuilder_outcome sameOp state (merge acc) (Z.of_nat n)
                (w_emit (EvMerge acc) w)) as (s1 & w1 & Heq & Hstep).
    rewrite Heq.
    pose proof (StepOutcome_mergedGroups _ _ _ _ _ _ Hstep) as Hm.
    simpl in Hm. rewrite mergedGroups_app in Hm. simpl in Hm.
    destruct (finished s1) eqn:Hf1.
    + intros [= <- <- <-]. rewrite Hf1, Hm.
      apply prefix_app, prefix_cons, prefix_nil.
    + intros Hl. apply IH in Hl. rewrite Hm, <- app_assoc in Hl. done.
Qed.

(** With an empty window every released group is pushed as it is merged. *)
Lemma asyncLoop_cleared n acc state w :
  Cleared state w →
  finished state = false →
  ∃ acc' w',
    asyncLoop sameOp coreOperations buildOp (Some merge) n acc state w
      = Ok ((acc', state), w') ∧
    Cleared state w' ∧
    items w' (operations state) ++ (merge <$> pendingGroup acc') =
      items w (operations state) ++
      (merge <$> runsFrom acc (walkOps coreOperations buildOp n)).
Proof.
  revert acc w. induction n as [|n IH]; intros acc w Hc Hnf; simpl.
  - exists acc, w. by rewrite ?walkOps_0.
  - rewrite walkOps_S.
    destruct (coreOperations !! n ≫= buildOp) as [op|]; [|by apply IH].
    simpl. destruct (_ || _); [by apply IH|].
    unfold bind at 1, emit. unfold bind.
    assert (Cleared state (w_emit (EvMerge acc) w)) as Hc' by done.
    destruct (stepBuilder_cleared sameOp state (merge acc) (Z.of_nat n) _ Hc')
      as (_ & -> & Hc'').
    rewrite Hnf.
    destruct (IH [op] _ Hc'' Hnf) as (acc' & w' & -> & Hc3 & Hit).
    exists acc', w'. split; [done|]. split; [done|].
    rewrite Hit, items_w_push_eq. simpl. by rewrite <- app_assoc.
Qed.

Lemma walk_runs :
  runsFrom [] (walkOps coreOperations buildOp (length coreOperations))
  = hashRuns (omap buildOp (reverse coreOperations)).
Proof. by rewrite runsFrom_nil, walkOps_all. Qed.

Lemma pendingGroup_nil acc : Array_length acc ≠ 0 → pendingGroup acc = [acc].
Proof. destruct acc; [done|]. done. Qed.

Lemma pendingGroup_nil' (acc : list Operation) :
  ¬ Array_length acc ≠ 0 → pendingGroup acc = [].
Proof. destruct acc; [done|]. intros H. exfalso. apply H. done. Qed.

(** Every call: the groups merged are a prefix of the runs of the walk. *)
Lemma minimalOperationsBuilder_groups ex w r w' :
  minimalOperationsBuilder sameOp coreOperations ex buildOp (Some merge) w
    = Ok (r, w') →
  mergedGroups (w_log w') `prefix_of`
    mergedGroups (w_log w) ++ hashRuns (omap buildOp (reverse coreOperations)).
Proof.
  unfold minimalOperationsBuilder, bind at 1, readArray.
  destruct (decide _) as [He|He].
  { intros [= -> ->]. by apply prefix_app_r. }
  unfold initialState, bind at 1 2, newArray, ret. unfold bind at 1.
  destruct (asyncLoop _ _ _ _ _ _ _ _) as [[[acc s] w1]|] eqn:Hl; [|done].
  apply asyncLoop_groups in Hl. rewrite walk_runs in Hl. simpl in *.
  destruct (finished s) eqn:Hf.
  { by intros [= <- <-]. }
  destruct (decide _) as [Hacc|Hacc].
  - unfold bind, emit.
    destruct (stepBuilder_outcome sameOp s (merge acc) 0 (w_emit (EvMerge acc) w1))
      as (s1 & w2 & Heq & Hstep).
    rewrite Heq. intros [= <- <-].
    rewrite (StepOutcome_mergedGroups _ _ _ _ _ _ Hstep). simpl.
    rewrite mergedGroups_app. simpl.
    rewrite <- Hl, pendingGroup_nil by done. done.
  - intros [= <- <-]. rewrite pendingGroup_nil' in Hl by done.
    rewrite app_nil_r in Hl. by rewrite Hl.
Qed.

(** Empty cache: every run is merged and pushed, the last one after the
    loop. *)
Lemma minimalOperationsBuilder_empty_cache ex w :
  allocated w ex →
  items w ex = [] →
  ∃ r w',
    minimalOperationsBuilder sameOp coreOperations ex buildOp (Some merge) w
      = Ok (r, w') ∧
    items w' r = merge <$> hashRuns (omap buildOp (reverse coreOperations)) ∧
    mergedGroups (w_log w') =
      mergedGroups (w_log w) ++ hashRuns (omap buildOp (reverse coreOperations)).
Proof.
  intros Hex Hempty. unfold allocated in Hex.
  unfold minimalOperationsBuilder, bind at 1, readArray.
  destruct (decide _) as [He|He].
  { rewrite early_exit_iff in He. destruct He as [_ ->].
    exists ex, w. simpl. rewrite app_nil_r. done. }
  unfold initialState, bind at 1 2, newArray, ret. unfold bind at 1.
  set (s0 := {| operations := w_next w; existingOps := ex;
                immutableOpCmpDoneOnce := false; finished := false |}).
  assert (Cleared s0 (w_alloc [] w)) as Hc.
  { split; simpl; [|lia]. rewrite items_w_alloc_ne by lia. done. }
  destruct (asyncLoop_cleared (length coreOperations) [] s0 _ Hc eq_refl)
    as (acc & w1 & Hl & Hc1 & Hit).
  rewrite Hl. simpl.
  apply asyncLoop_groups in Hl. simpl in Hl.
  rewrite walk_runs in Hl, Hit. simpl in Hit.
  rewrite items_w_alloc_eq in Hit. simpl in Hit.
  destruct (decide _) as [Hacc|Hacc].
  - unfold bind, emit.
    assert (Cleared s0 (w_emit (EvMerge acc) w1)) as Hc' by done.
    destruct (stepBuilder_cleared sameOp s0 (merge acc) 0 _ Hc') as (_ & -> & _).
    eexists _, _. split; [done|]. simpl.
    rewrite items_w_push_eq, mergedGroups_app. simpl.
    rewrite pendingGroup_nil in Hit, Hl by done. done.
  - eexists _, _. split; [done|]. simpl.
    rewrite pendingGroup_nil' in Hit, Hl by done.
    rewrite app_nil_r in Hit, Hl. done.
Qed.

(** At every head of the loop the groups merged so far, followed by the
    runs still to come from the accumulated group on, are the runs of the
    whole walk. *)
Lemma WalkedAsync_groups ex w n acc state w1 :
  WalkedAsync sameOp coreOperations buildOp w ex (Some merge) n acc state w1 →
  mergedGroups (w_log w1) ++ runsFrom acc (walkOps coreOperations buildOp n)
  = mergedGroups (w_log w) ++ hashRuns (omap buildOp (reverse coreOperations)).
Proof.
  induction 1 as [state w1 Hi|n acc state w1 _ IH Hl
                 |n acc state w1 op _ IH Hl _ Hacc
                 |n acc state w1 op mg state' w' _ IH Hl Hmg Hacc Heq Hf
                 |n acc state w1 op state' w' _ IH Hl Hmg Heq Hf].
  - apply initialState_inv in Hi as [-> ->]. simpl. by rewrite walk_runs.
  - by rewrite walkOps_S, Hl in IH.
  - rewrite walkOps_S, Hl in IH. simpl in IH. by rewrite Hacc in IH.
  - injection Hmg as <-.
    rewrite walkOps_S, Hl in IH. simpl in IH. rewrite Hacc in IH.
    rewrite (StepOutcome_mergedGroups _ _ _ _ _ _
               (stepBuilder_step _ _ _ _ _ _ _ Heq)).
    simpl. rewrite mergedGroups_app. simpl. by rewrite <- app_assoc.
  - done.
Qed.

(** The loop runs to its exit: the accumulated group, when there is one,
    is merged and takes the last step. *)
Lemma minimalOperationsBuilder_flush ex w acc state w1 :
  allocated w ex →
  WalkedAsync sameOp coreOperations buildOp w ex (Some merge) O acc state w1 →
  ∃ r w',
    minimalOperationsBuilder sameOp coreOperations ex buildOp (Some merge) w
      = Ok (r, w') ∧
    mergedGroups (w_log w') = mergedGroups (w_log w1) ++ pendingGroup acc ∧
    mergedGroups (w_log w') =
      mergedGroups (w_log w) ++ hashRuns (omap buildOp (reverse coreOperations)).
Proof.
  intros Hex Hw.
  pose proof (WalkedAsync_groups _ _ _ _ _ _ Hw) as Hg.
  rewrite walkOps_0 in Hg. simpl in Hg.
  destruct (decide (items w ex = [] ∧ coreOperations = [])) as [[He Hc]|Hne].
  - rewrite (WalkedAsync_group _ _ _ _ _ _ _ _ _ _ Hw Hc) in *. simpl in Hg.
    exists ex, w. split.
    + unfold minimalOperationsBuilder, bind at 1, readArray.
      destruct (decide _) as [_|Hn]; [done|].
      exfalso. apply Hn. by rewrite early_exit_iff.
    + rewrite Hc in Hg |- *. simpl in Hg |- *.
      rewrite !app_nil_r in Hg. rewrite !app_nil_r. by rewrite Hg.
  - destruct (WalkedAsync_inv _ _ _ _ _ Hex _ _ _ _ _ Hw) as [HI Hnf].
    rewrite (minimalOperationsBuilder_from _ _ _ _ _ _ _ _ _ _ Hw Hne).
    simpl. unfold bind at 1, ret. simpl. rewrite Hnf.
    destruct (decide _) as [Hacc|Hacc].
    + unfold bind, emit.
      destruct (stepBuilder_outcome sameOp state (merge acc) 0
                  (w_emit (EvMerge acc) w1)) as (s1 & w2 & Heq & Hstep).
      rewrite Heq. exists (operations s1), w2. split; [done|].
      rewrite (StepOutcome_mergedGroups _ _ _ _ _ _ Hstep). simpl.
      rewrite mergedGroups_app. simpl.
      rewrite pendingGroup_nil in Hg |- * by done. done.
    + exists (operations state), w1. split; [done|].
      rewrite pendingGroup_nil' in Hg |- * by done.
      rewrite !app_nil_r in Hg. rewrite !app_nil_r. done.
Qed.

(** A released group finishes the walk: the builder returns at once, and
    the group that had just been started is not merged. *)
Lemma minimalOperationsBuilder_released ex w n acc state w1 op state' w' :
  allocated w ex →
  WalkedAsync sameOp coreOperations buildOp w ex (Some merge) (S n) acc state w1 →
  coreOperations !! n ≫= buildOp = Some op →
  bool_decide (Array_length acc = 0) ||
    bool_decide (op_hash <$> head acc = Some (op_hash op)) = false →
  stepBuilder sameOp state (merge acc) (Z.of_nat n) (w_emit (EvMerge acc) w1)
    = Ok (state', w') →
  finished state' = true →
  minimalOperationsBuilder sameOp coreOperations ex buildOp (Some merge) w
    = Ok (operations state', w') ∧
  mergedGroups (w_log w') = mergedGroups (w_log w1) ++ [acc] ∧
  mergedGroups (w_log w') ++
    runsFrom [op] (walkOps coreOperations buildOp n)
  = mergedGroups (w_log w) ++ hashRuns (omap buildOp (reverse coreOperations)).
Proof.
  intros Hex Hw Hl Hacc Heq Hfin.
  pose proof (WalkedAsync_groups _ _ _ _ _ _ Hw) as Hg.
  rewrite walkOps_S, Hl in Hg. simpl in Hg. rewrite Hacc in Hg.
  assert (mergedGroups (w_log w') = mergedGroups (w_log w1) ++ [acc]) as Hm.
  { rewrite (StepOutcome_mergedGroups _ _ _ _ _ _
               (stepBuilder_step _ _ _ _ _ _ _ Heq)).
    simpl. rewrite mergedGroups_app. simpl. done. }
  split; [|split; [done|]].
  - rewrite (minimalOperationsBuilder_from _ _ _ _ _ _ _ _ _ _ Hw).
    2:{ intros [_ ->]. by rewrite lookup_nil in Hl. }
    simpl. rewrite Hl, Hacc. unfold bind, emit. rewrite Heq, Hfin. simpl.
    by rewrite Hfin.
  - rewrite Hm, <- app_assoc. done.
Qed.

(** Every call is of one of the two kinds. *)
Lemma WalkedAsync_progress ex w n acc state w1 :
  WalkedAsync sameOp coreOperations buildOp w ex (Some merge) n acc state w1 →
  (∃ acc' state' w',
     WalkedAsync sameOp coreOperations buildOp w ex (Some merge) O
       acc' state' w') ∨
  (∃ m acc' st v op st' v',
     WalkedAsync sameOp coreOperations buildOp w ex (Some merge) (S m)
       acc' st v ∧
     coreOperations !! m ≫= buildOp = Some op ∧
     bool_decide (Array_length acc' = 0) ||
       bool_decide (op_hash <$> head acc' = Some (op_hash op)) = false ∧
     stepBuilder sameOp st (merge acc') (Z.of_nat m) (w_emit (EvMerge acc') v)
       = Ok (st', v') ∧
     finished st' = true).
Proof.
  revert acc state w1. induction n as [|n IH]; intros acc state w1 Hw.
  - left. by exists acc, state, w1.
  - destruct (coreOperations !! n ≫= buildOp) as [op|] eqn:Hl.
    2:{ apply (IH acc state w1). by apply walkedAsync_skip. }
    destruct (bool_decide (Array_length acc = 0) ||
              bool_decide (op_hash <$> head acc = Some (op_hash op))) eqn:Hacc.
    { apply (IH (acc ++ [op]) state w1).
      by apply walkedAsync_accumulate. }
    destruct (stepBuilder_outcome sameOp state (merge acc) (Z.of_nat n)
                (w_emit (EvMerge acc) w1)) as (s1 & w2 & Heq & _).
    destruct (finished s1) eqn:Hf.
    + right. by exists n, acc, state, w1, op, s1, w2.
    + apply (IH [op] s1 w2). by eapply walkedAsync_release.
Qed.

End Merging.


End Groups.

(** ** The balance-history invalidator *)

Lemma last_index_lookup (xs : list Z) :
  xs !! Z.to_nat (Array_length xs - 1) = last xs.
Proof.
  rewrite last_lookup. unfold Array_length. f_equal. lia.
Qed.

(** C6. [shouldRefreshBalanceHistoryCache] answers true exactly when
    the hourly buckets differ in [latestDate], or in the length of
    [balances], or both are non-empty with different last values.  Two
    empty hourly buckets of one date give false.  The answer depends on
    the hourly buckets only. *)
Theorem balance_history_refresh_decision
    (balanceHistoryCache account_balanceHistoryCache : BalanceHistoryCache) :
  (shouldRefreshBalanceHistoryCache balanceHistoryCache
     account_balanceHistoryCache = true
   ↔ refreshDecision (HOUR account_balanceHistoryCache)
       (HOUR balanceHistoryCache)) ∧
  (balances (HOUR account_balanceHistoryCache) = [] →
   balances (HOUR balanceHistoryCache) = [] →
   latestDate (HOUR account_balanceHistoryCache)
     = latestDate (HOUR balanceHistoryCache) →
   shouldRefreshBalanceHistoryCache balanceHistoryCache
     account_balanceHistoryCache = false) ∧
  (∀ candidate cached,
     HOUR candidate = HOUR balanceHistoryCache →
     HOUR cached = HOUR account_balanceHistoryCache →
     shouldRefreshBalanceHistoryCache candidate cached
     = shouldRefreshBalanceHistoryCache balanceHistoryCache
         account_balanceHistoryCache).
Proof.
  assert (shouldRefreshBalanceHistoryCache balanceHistoryCache
            account_balanceHistoryCache = true
          ↔ refreshDecision (HOUR account_balanceHistoryCache)
              (HOUR balanceHistoryCache)) as Hiff.
  { unfold shouldRefreshBalanceHistoryCache, refreshDecision.
    destruct (HOUR account_balanceHistoryCache) as [d1 b1].
    destruct (HOUR balanceHistoryCache) as [d2 b2]. simpl.
    case_bool_decide as Hd; [tauto|].
    case_bool_decide as Hl.
    { unfold Array_length in Hl. split; [|done]. intros _. right. left. lia. }
    assert (length b1 = length b2) as Hlen by (unfold Array_length in Hl; lia).
    case_bool_decide as Hz.
    { apply Array_length_nil in Hz. subst b2. destruct b1; [|done].
      split; [done|]. intros [?|[?|(? & ? & ?)]]; done. }
    rewrite (last_index_lookup b2).
    replace (Array_length b2) with (Array_length b1)
      by (unfold Array_length; lia).
    rewrite (last_index_lookup b1).
    rewrite Array_length_nil in Hz.
    case_bool_decide as Hlast.
    - split; [|done]. intros _. right. right.
      split; [|done]. destruct b1; [|done]. by destruct b2.
    - split; [done|]. intros [?|[?|(? & ? & ?)]]; done. }
  split; [done|]. split.
  - intros H1 H2 Hd.
    apply not_true_is_false. intros Hs.
    apply Hiff in Hs. unfold refreshDecision in Hs. rewrite H1, H2 in Hs.
    destruct Hs as [?|[?|(? & ? & ?)]]; done.
  - intros candidate cached H1 H2.
    unfold shouldRefreshBalanceHistoryCache. by rewrite H1, H2.
Qed.

Lemma shouldRefreshBalanceHistoryCache_same b :
  shouldRefreshBalanceHistoryCache b b = false.
Proof.
  unfold shouldRefreshBalanceHistoryCache.
  rewrite bool_decide_eq_false_2 by (intros Hn; by apply Hn).
  rewrite bool_decide_eq_false_2 by (intros Hn; by apply Hn).
  case_bool_decide; [done|].
  by rewrite bool_decide_eq_false_2 by (intros Hn; by apply Hn).
Qed.

(** Reading a sequence of calls that returned: the first call returned. *)
Ltac bind_inv H :=
  unfold bind at 1 in H;
  match type of H with
  | match ?m ?w0 with _ => _ end = _ =>
      let x := fresh "x" in
      let v := fresh "v" in
      let Hm := fresh "Hm" in
      destruct (m w0) as [[x v]|?] eqn:Hm; [|discriminate H]
  end.

(** ** Later stores *)

Lemma extends_refl w : extends w w.
Proof. split; [lia | done]. Qed.

Lemma extends_trans w1 w2 w3 : extends w1 w2 → extends w2 w3 → extends w1 w3.
Proof.
  unfold extends, allocated. intros [Hn1 Hf1] [Hn2 Hf2]. split; [lia|].
  intros l Hl. rewrite Hf2 by lia. by apply Hf1.
Qed.

Lemma extends_allocated w w' l : extends w w' → allocated w l → allocated w' l.
Proof. unfold extends, allocated. intros [Hn _] Hl. lia. Qed.

Lemma extends_w_bump w : extends w (w_bump w).
Proof. split; simpl; [lia | done]. Qed.

Section Decoding.
Context `{Collaborators}.

(** *** The decoder of operations *)

Lemma readIdentifier_inv name w value w' :
  readIdentifier name w = Ok (value, w') →
  w' = w ∧ freeIdentifier name = Bound value.
Proof.
  unfold readIdentifier. destruct (freeIdentifier name); [done|].
  by intros [= <- <-].
Qed.

(** What the decoder returns is a new object; the store is otherwise as
    it was, and the four identifiers are bound. *)
Lemma fromOperationRaw_inv raw id subs w op w' :
  fromOperationRaw raw id subs w = Ok (op, w') →
  w' = w_bump w ∧ op_ref op = w_next w ∧
  (∃ res, commonFromOperationRaw raw id subs = Ok res ∧
          op_id op = op_id res ∧ op_hash op = op_hash res ∧
          op_blockHeight op = op_blockHeight res) ∧
  ∀ name, name ∈ ["contract"; "operator"; "standard"; "tokenId"] →
          freeIdentifier name ≠ Unbound.
Proof.
  unfold fromOperationRaw. intros Heq.
  unfold bind at 1, liftRes in Heq.
  destruct (commonFromOperationRaw raw id subs) as [res|e] eqn:Hres; [|done].
  bind_inv Heq. apply readIdentifier_inv in Hm as [-> Hc].
  bind_inv Heq. apply readIdentifier_inv in Hm as [-> Ho].
  bind_inv Heq. apply readIdentifier_inv in Hm as [-> Hs].
  bind_inv Heq. apply readIdentifier_inv in Hm as [-> Ht].
  unfold bind, newObject, ret in Heq. injection Heq as <- <-.
  split; [done|]. split; [done|]. split; [by exists res|].
  intros name Hn. rewrite !elem_of_cons, elem_of_nil in Hn.
  destruct Hn as [->|[->|[->|[->|[]]]]]; congruence.
Qed.

Lemma mapM_fromOperationRaw raws id subs w ops w' :
  mapM (λ op, fromOperationRaw op id subs) raws w = Ok (ops, w') →
  w_arrays w' = w_arrays w ∧ w_log w' = w_log w ∧
  w_next w' = (w_next w + length raws)%nat ∧
  Forall2 (decodes id subs) ops raws ∧
  Forall (λ op, (w_next w ≤ op_ref op < w_next w')%nat) ops ∧
  NoDup (op_ref <$> ops).
Proof.
  revert w ops. induction raws as [|raw raws IH]; intros w ops; simpl.
  - intros [= <- <-]. simpl. split; [done|]. split; [done|]. split; [lia|].
    split; [constructor|]. split; constructor.
  - intros Heq. bind_inv Heq. bind_inv Heq.
    unfold ret in Heq. injection Heq as <- <-.
    pose proof Hm as Hdec.
    apply fromOperationRaw_inv in Hm as (-> & Href & _ & _).
    apply IH in Hm0 as (Ha & Hl & Hn & HF & Hrefs & Hnd).
    simpl in *. split; [done|]. split; [done|]. split; [lia|].
    split; [constructor; [by eexists _, _ | done]|].
    split.
    + constructor; [lia|]. eapply Forall_impl; [exact Hrefs|].
      simpl. intros; lia.
    + apply NoDup_cons. split; [|done].
      intros (y & Hy & Hin)%list_elem_of_fmap.
      rewrite Forall_forall in Hrefs. specialize (Hrefs y Hin). lia.
Qed.

Lemma items_same_arrays w w' l : w_arrays w' = w_arrays w → items w' l = items w l.
Proof. unfold items. by intros ->. Qed.

(** The two arrays of a decoded account or sub-account. *)
Lemma decoded_arrays id subs raws1 raws2 w0 w ops w1 pend w2 :
  (w_next w0 ≤ w_next w)%nat →
  (∀ l, allocated w0 l → items w l = items w0 l) →
  mapM (λ op, fromOperationRaw op id subs) raws1 w = Ok (ops, w1) →
  mapM (λ op, fromOperationRaw op id subs) raws2 (w_alloc ops w1)
    = Ok (pend, w2) →
  ¬ allocated w0 (w_next w1) ∧ ¬ allocated w0 (w_next w2) ∧
  w_next w1 ≠ w_next w2 ∧
  items (w_alloc pend w2) (w_next w1) = ops ∧
  items (w_alloc pend w2) (w_next w2) = pend ∧
  (∀ l, allocated w0 l → items (w_alloc pend w2) l = items w0 l) ∧
  Forall2 (decodes id subs) ops raws1 ∧
  Forall2 (decodes id subs) pend raws2 ∧
  Forall (λ op, ¬ allocated w0 (op_ref op)) (ops ++ pend) ∧
  NoDup (op_ref <$> ops) ∧ NoDup (op_ref <$> pend) ∧
  (w_next w0 ≤ w_next w2)%nat.
Proof.
  intros Hn Hfr H1 H2.
  apply mapM_fromOperationRaw in H1 as (Ha1 & _ & Hn1 & HF1 & Hr1 & Hd1).
  apply mapM_fromOperationRaw in H2 as (Ha2 & _ & Hn2 & HF2 & Hr2 & Hd2).
  simpl in Hn2. unfold allocated.
  split; [lia|]. split; [lia|]. split; [lia|].
  split.
  { rewrite items_w_alloc_ne by lia.
    rewrite (items_same_arrays _ _ _ Ha2). apply items_w_alloc_eq. }
  split; [apply items_w_alloc_eq|].
  split.
  { intros l Hl. rewrite items_w_alloc_ne by lia.
    rewrite (items_same_arrays _ _ _ Ha2), items_w_alloc_ne by lia.
    rewrite (items_same_arrays _ _ _ Ha1). by apply Hfr. }
  split; [done|]. split; [done|].
  split.
  { apply Forall_app. split.
    - eapply Forall_impl; [exact Hr1|]. simpl. intros; lia.
    - eapply Forall_impl; [exact Hr2|]. simpl. intros; lia. }
  split; [done|]. split; [done|]. lia.
Qed.

(** *** Decoded sub-accounts *)

Lemma operationsCountOr_default count (operations : list OperationRaw) :
  operationsCountOr count operations
  = default (Array_length operations) (truthyNumber count).
Proof. unfold operationsCountOr. by destruct (truthyNumber count). Qed.

Lemma fromTokenAccountRaw_rebuilt raw w sa w' :
  fromTokenAccountRaw raw w = Ok (sa, w') →
  subRaw_type raw = "TokenAccountRaw" →
  rebuiltSubAccount raw w sa w'.
Proof.
  unfold fromTokenAccountRaw. intros Heq Ht.
  unfold bind at 1, liftRes in Heq.
  destruct (tokenAccountRest raw) as [rest|e] eqn:Hrest; [|done].
  bind_inv Heq. unfold bind at 1, newArray in Heq.
  bind_inv Heq. unfold bind, newArray, newObject, ret in Heq.
  injection Heq as <- <-.
  destruct (decoded_arrays _ _ _ _ w w _ _ _ _ (Nat.le_refl _)
              (λ l _, eq_refl) Hm Hm0)
    as (Ho & Hp & Hne & Hio & Hip & Hfr & HF1 & HF2 & Hfresh & _ & _ & Hn).
  unfold rebuiltSubAccount. simpl.
  rewrite !items_w_bump, Hio, Hip.
  split; [split; [simpl; lia | intros l Hl; rewrite items_w_bump; by apply Hfr]|].
  split; [unfold allocated; simpl; lia|].
  split; [exact Ho|]. split; [exact Hp|]. split; [exact Hne|].
  split; [exact HF1|]. split; [exact HF2|]. split; [exact Hfresh|].
  split; [done|]. split; [done|]. split; [done|].
  split; [apply operationsCountOr_default|]. split; [done|].
  split; [|intros Hc; congruence].
  intros _. split; [done|].
  by destruct (truthyString (subRaw_spendableBalance raw)).
Qed.

Lemma fromChildAccountRaw_rebuilt raw w sa w' :
  fromChildAccountRaw raw w = Ok (sa, w') →
  subRaw_type raw = "ChildAccountRaw" →
  rebuiltSubAccount raw w sa w'.
Proof.
  unfold fromChildAccountRaw. intros Heq Ht.
  unfold bind at 1, liftRes in Heq.
  destruct (childAccountRest raw) as [rest|e] eqn:Hrest; [|done].
  bind_inv Heq. unfold bind at 1, newArray in Heq.
  bind_inv Heq. unfold bind, newArray, newObject, ret in Heq.
  injection Heq as <- <-.
  destruct (decoded_arrays _ _ _ _ w w _ _ _ _ (Nat.le_refl _)
              (λ l _, eq_refl) Hm Hm0)
    as (Ho & Hp & Hne & Hio & Hip & Hfr & HF1 & HF2 & Hfresh & _ & _ & Hn).
  unfold rebuiltSubAccount. simpl.
  rewrite !items_w_bump, Hio, Hip.
  split; [split; [simpl; lia | intros l Hl; rewrite items_w_bump; by apply Hfr]|].
  split; [unfold allocated; simpl; lia|].
  split; [exact Ho|]. split; [exact Hp|]. split; [exact Hne|].
  split; [exact HF1|]. split; [exact HF2|]. split; [exact Hfresh|].
  split; [done|]. split; [done|]. split; [done|].
  split; [apply operationsCountOr_default|]. split; [done|].
  split; [intros Hc; congruence | done].
Qed.

Lemma fromSubAccountRaw_rebuilt raw w sa w' :
  fromSubAccountRaw raw w = Ok (sa, w') → rebuiltSubAccount raw w sa w'.
Proof.
  unfold fromSubAccountRaw.
  case_bool_decide as Hc; [by intros ?%fromChildAccountRaw_rebuilt|].
  case_bool_decide as Ht; [by intros ?%fromTokenAccountRaw_rebuilt | done].
Qed.

Lemma fromChildAccountRaw_kind raw w sa w' :
  fromChildAccountRaw raw w = Ok (sa, w') →
  sub_kind sa = ChildAccount ∧ sub_id sa = subRaw_id raw ∧
  sub_parentId sa = subRaw_parentId raw ∧ ¬ allocated w (sub_ref sa) ∧
  extends w w'.
Proof.
  unfold fromChildAccountRaw. intros Heq.
  unfold bind at 1, liftRes in Heq.
  destruct (childAccountRest raw) as [rest|e] eqn:Hrest; [|done].
  bind_inv Heq. unfold bind at 1, newArray in Heq.
  bind_inv Heq. unfold bind, newArray, newObject, ret in Heq.
  injection Heq as <- <-.
  destruct (decoded_arrays _ _ _ _ w w _ _ _ _ (Nat.le_refl _)
              (λ l _, eq_refl) Hm Hm0)
    as (_ & _ & _ & _ & _ & Hfr & _ & _ & _ & _ & _ & Hn).
  simpl. repeat (split; [done|]).
  split; [unfold allocated; simpl; lia|].
  split; [simpl; lia | intros l Hl; rewrite items_w_bump; by apply Hfr].
Qed.

Lemma fromTokenAccountRaw_kind raw w sa w' :
  fromTokenAccountRaw raw w = Ok (sa, w') →
  (∃ spendable, sub_kind sa = TokenAccount spendable None (subRaw_approvals raw)) ∧
  sub_id sa = subRaw_id raw ∧
  sub_parentId sa = subRaw_parentId raw ∧ ¬ allocated w (sub_ref sa) ∧
  extends w w'.
Proof.
  unfold fromTokenAccountRaw. intros Heq.
  unfold bind at 1, liftRes in Heq.
  destruct (tokenAccountRest raw) as [rest|e] eqn:Hrest; [|done].
  bind_inv Heq. unfold bind at 1, newArray in Heq.
  bind_inv Heq. unfold bind, newArray, newObject, ret in Heq.
  injection Heq as <- <-.
  destruct (decoded_arrays _ _ _ _ w w _ _ _ _ (Nat.le_refl _)
              (λ l _, eq_refl) Hm Hm0)
    as (_ & _ & _ & _ & _ & Hfr & _ & _ & _ & _ & _ & Hn).
  simpl. split; [eauto|]. repeat (split; [done|]).
  split; [unfold allocated; simpl; lia|].
  split; [simpl; lia | intros l Hl; rewrite items_w_bump; by apply Hfr].
Qed.

(** *** Decoded accounts *)

(** The body of [subAccountsRaw.map(...)] in [fromAccountRaw]. *)
Lemma decoded_entries rs w mapped w' :
  mapM (λ ta,
          if bool_decide (subRaw_type ta = "TokenAccountRaw") then
            if findTokenById (subRaw_tokenId ta) then
              sa <- fromTokenAccountRaw ta ;; ret (Some sa)
            else ret None
          else
            sa <- fromSubAccountRaw ta ;; ret (Some sa)) rs w
  = Ok (mapped, w') →
  extends w w' ∧
  Forall (λ ta, subRaw_type ta = "ChildAccountRaw" ∨
                subRaw_type ta = "TokenAccountRaw") rs ∧
  Forall2 (λ sa ta,
             ¬ allocated w (sub_ref sa) ∧
             sub_id sa = subRaw_id ta ∧
             sub_parentId sa = subRaw_parentId ta ∧
             (sub_kind sa = ChildAccount ↔
              subRaw_type ta = "ChildAccountRaw"))
    (omap id mapped)
    (filter (λ ta, subRaw_type ta ≠ "TokenAccountRaw" ∨
                   findTokenById (subRaw_tokenId ta) = true) rs).
Proof.
  revert w mapped. induction rs as [|ta rs IH]; intros w mapped; simpl.
  - intros [= <- <-]. split; [apply extends_refl|]. split; constructor.
  - intros Heq. bind_inv Heq. bind_inv Heq.
    unfold ret in Heq. injection Heq as <- <-.
    destruct (IH _ _ Hm0) as (Hext & Hv & HF).
    assert (∀ sa ta' v',
              extends w v' →
              (¬ allocated v' (sub_ref sa) ∧ sub_id sa = subRaw_id ta' ∧
               sub_parentId sa = subRaw_parentId ta' ∧
               (sub_kind sa = ChildAccount ↔
                subRaw_type ta' = "ChildAccountRaw")) →
              ¬ allocated w (sub_ref sa) ∧ sub_id sa = subRaw_id ta' ∧
              sub_parentId sa = subRaw_parentId ta' ∧
              (sub_kind sa = ChildAccount ↔
               subRaw_type ta' = "ChildAccountRaw")) as Hweak.
    { intros sa ta' v' He (Hn & ?). split; [|done].
      intros Ha. apply Hn. by eapply extends_allocated. }
    destruct (bool_decide (subRaw_type ta = "TokenAccountRaw")) eqn:Ht.
    + apply bool_decide_eq_true in Ht.
      destruct (findTokenById (subRaw_tokenId ta)) eqn:Hfind.
      * bind_inv Hm. unfold ret in Hm. injection Hm as <- <-.
        apply fromTokenAccountRaw_kind in Hm1
          as ((sp & Hk) & Hid & Hpid & Hfresh & He1).
        split; [by eapply extends_trans|].
        split; [constructor; [by right | done]|].
        rewrite filter_cons_True by (by right). simpl. constructor.
        -- split; [done|]. split; [done|]. split; [done|].
           rewrite Hk, Ht. by split.
        -- eapply Forall2_impl; [exact HF|]. intros sa ta'.
           by apply Hweak.
      * unfold ret in Hm. injection Hm as <- <-.
        split; [done|]. split; [constructor; [by right | done]|].
        rewrite filter_cons_False; [done|].
        intros [Hn|Hn]; [done | congruence].
    + apply bool_decide_eq_false in Ht.
      bind_inv Hm. unfold ret in Hm. injection Hm as <- <-.
      assert (subRaw_type ta = "ChildAccountRaw") as Hc.
      { revert Hm1. unfold fromSubAccountRaw.
        case_bool_decide; [done|].
        by rewrite bool_decide_eq_false_2. }
      revert Hm1. unfold fromSubAccountRaw.
      rewrite bool_decide_eq_true_2 by done.
      intros (Hk & Hid & Hpid & Hfresh & He1)%fromChildAccountRaw_kind.
      split; [by eapply extends_trans|].
      split; [constructor; [by left | done]|].
      rewrite filter_cons_True by (by left). simpl. constructor.
      * done.
      * eapply Forall2_impl; [exact HF|]. intros sa ta'. by apply Hweak.
Qed.

(** What [fromAccountRaw] returns is the rebuilt account, handed to the
    hook of its bridge. *)
Lemma fromAccountRaw_rebuilt raw w a w' :
  fromAccountRaw raw w = Ok (a, w') →
  ∃ res,
    rebuiltAccount raw w res w' ∧
    a = match assignFromAccountRaw (getAccountBridge res) with
        | Some assign => assign raw res
        | None => res
        end.
Proof.
  unfold fromAccountRaw. intros Heq.
  bind_inv Heq. rename x into subAccounts, v into v1, Hm into Hsubs.
  unfold bind at 1, liftRes in Heq.
  destruct (familyOfCurrencyId (raw_currencyId raw)) as [family|e] eqn:Hfam;
    [|done].
  unfold bind at 1, newObject at 1 in Heq.
  bind_inv Heq. unfold bind at 1, newArray in Heq.
  bind_inv Heq. unfold bind, newArray, ret in Heq.
  assert (extends w v1 ∧
          match raw_subAccounts raw with
          | None => subAccounts = None
          | Some rs =>
              Forall (λ ta, subRaw_type ta = "ChildAccountRaw" ∨
                            subRaw_type ta = "TokenAccountRaw") rs ∧
              ∃ arr,
                subAccounts = Some arr ∧
                ¬ allocated w (subs_ref arr) ∧
                Forall2 (λ sa ta,
                           ¬ allocated w (sub_ref sa) ∧
                           sub_id sa = subRaw_id ta ∧
                           sub_parentId sa = subRaw_parentId ta ∧
                           (sub_kind sa = ChildAccount ↔
                            subRaw_type ta = "ChildAccountRaw"))
                  (subs_items arr)
                  (filter (λ ta, subRaw_type ta ≠ "TokenAccountRaw" ∨
                                 findTokenById (subRaw_tokenId ta) = true) rs)
          end) as [Hext Hsa].
  { destruct (raw_subAccounts raw) as [rs|].
    - bind_inv Hsubs. unfold bind, newObject, ret in Hsubs.
      injection Hsubs as <- <-.
      apply decoded_entries in Hm1 as (He & Hv & HF).
      split.
      + eapply extends_trans; [exact He|].
        eapply extends_trans; apply extends_w_bump.
      + split; [exact Hv|]. eexists. split; [reflexivity|]. simpl.
        split; [|done]. destruct He as [Hn _]. unfold allocated. simpl. lia.
    - unfold ret in Hsubs. injection Hsubs as <- <-.
      split; [apply extends_refl | done]. }
  destruct Hext as [Hn Hfr].
  destruct (decoded_arrays _ _ _ _ w (w_bump v1) _ _ _ _
              ltac:(simpl; lia)
              ltac:(intros l Hl; rewrite items_w_bump; by apply Hfr) Hm Hm0)
    as (Ho & Hp & Hne & Hio & Hip & Hfr' & HF1 & HF2 & Hfresh & _ & _ & Hn').
  match type of Heq with
  | Ok (match assignFromAccountRaw (getAccountBridge ?r) with _ => _ end, _)
    = _ => exists r
  end.
  injection Heq as <- <-. split; [|done].
  unfold rebuiltAccount.
  destruct subAccounts as [arr|]; simpl; rewrite Hio, Hip.
  - split; [split; [simpl; lia | done]|].
    split; [unfold allocated; simpl; lia|].
    split; [exact Ho|]. split; [exact Hp|]. split; [exact Hne|].
    split; [exact HF1|]. split; [exact HF2|]. split; [exact Hfresh|].
    split; [done|]. split; [done|]. split; [done|].
    split; [by destruct (truthyString (raw_spendableBalance raw))|].
    split; [apply operationsCountOr_default|].
    repeat (split; [done|]).
    destruct (raw_subAccounts raw); [|done].
    destruct Hsa as (Hv & arr' & [= <-] & ? & ?). split; [done|].
    by exists arr.
  - split; [split; [simpl; lia | done]|].
    split; [unfold allocated; simpl; lia|].
    split; [exact Ho|]. split; [exact Hp|]. split; [exact Hne|].
    split; [exact HF1|]. split; [exact HF2|]. split; [exact Hfresh|].
    split; [done|]. split; [done|]. split; [done|].
    split; [by destruct (truthyString (raw_spendableBalance raw))|].
    split; [apply operationsCountOr_default|].
    repeat (split; [done|]).
    destruct (raw_subAccounts raw); [|done].
    by destruct Hsa as (_ & arr' & [= ] & _).
Qed.

(** C9. [fromSubAccountRaw] throws, with the discriminant in the
    message, when the type of the raw record is neither
    ["ChildAccountRaw"] nor ["TokenAccountRaw"].  On those two it is the
    conversion of a child account, respectively of a token account, and
    what it returns is of that kind and has the id of the record. *)
Theorem fromSubAccountRaw_discriminant (raw : SubAccountRaw) (w : World) :
  (subRaw_type raw ≠ "ChildAccountRaw" →
   subRaw_type raw ≠ "TokenAccountRaw" →
   fromSubAccountRaw raw w = Throw ("invalid raw.type=" +:+ subRaw_type raw)) ∧
  (subRaw_type raw = "ChildAccountRaw" →
   fromSubAccountRaw raw w = fromChildAccountRaw raw w ∧
   ∀ sa w', fromSubAccountRaw raw w = Ok (sa, w') →
            sub_kind sa = ChildAccount ∧ sub_id sa = subRaw_id raw) ∧
  (subRaw_type raw = "TokenAccountRaw" →
   fromSubAccountRaw raw w = fromTokenAccountRaw raw w ∧
   ∀ sa w', fromSubAccountRaw raw w = Ok (sa, w') →
            (∃ spendable compound approvals,
               sub_kind sa = TokenAccount spendable compound approvals) ∧
            sub_id sa = subRaw_id raw).
Proof.
  unfold fromSubAccountRaw. split; [|split].
  - intros Hc Ht. by rewrite !bool_decide_eq_false_2.
  - intros Hc. rewrite bool_decide_eq_true_2 by done. split; [done|].
    intros sa w' Heq. apply fromChildAccountRaw_kind in Heq. tauto.
  - intros Ht. rewrite bool_decide_eq_false_2 by (rewrite Ht; done).
    rewrite bool_decide_eq_true_2 by done. split; [done|].
    intros sa w' Heq. apply fromTokenAccountRaw_kind in Heq.
    destruct Heq as ((sp & Hk) & Hid & _). eauto 10.
Qed.

(** *** When the decoders return *)

Lemma mapM_total {A B} (f : A → M B) xs :
  (∀ x v, x ∈ xs → ∃ y v', f x v = Ok (y, v')) →
  ∀ v, ∃ ys v', mapM f xs v = Ok (ys, v').
Proof.
  induction xs as [|x xs IH]; intros Hf v; simpl; [by eexists _, _|].
  destruct (Hf x v) as (y & v1 & Hy); [left|].
  destruct (IH (λ z u Hz, Hf z u (list_elem_of_further _ _ _ Hz)) v1)
    as (ys & v2 & Hys).
  unfold bind. rewrite Hy, Hys. by eexists _, _.
Qed.

Section Total.

Hypothesis identifiers_bound :
  ∀ name, name ∈ ["contract"; "operator"; "standard"; "tokenId"]%string →
          freeIdentifier name ≠ Unbound.
Hypothesis commonFromOperationRaw_returns :
  ∀ raw id subs, ∃ res, commonFromOperationRaw raw id subs = Ok res.

Lemma fromOperationRaw_total raw id subs v :
  ∃ op v', fromOperationRaw raw id subs v = Ok (op, v').
Proof.
  unfold fromOperationRaw, bind at 1, liftRes.
  destruct (commonFromOperationRaw_returns raw id subs) as [res ->].
  assert (∀ name, name ∈ ["contract"; "operator"; "standard"; "tokenId"]%string →
                  ∃ value, freeIdentifier name = Bound value) as Hb.
  { intros name Hn. specialize (identifiers_bound name Hn).
    destruct (freeIdentifier name); [done|by eexists]. }
  destruct (Hb "contract"%string) as [c Hc]; [set_solver|].
  destruct (Hb "operator"%string) as [o Ho]; [set_solver|].
  destruct (Hb "standard"%string) as [s Hs]; [set_solver|].
  destruct (Hb "tokenId"%string) as [t Ht]; [set_solver|].
  unfold bind, readIdentifier, newObject, ret. rewrite Hc, Ho, Hs, Ht.
  by eexists _, _.
Qed.

Lemma decoded_total raws id subs v :
  ∃ ops v', mapM (λ op, fromOperationRaw op id subs) raws v = Ok (ops, v').
Proof.
  apply mapM_total. intros raw u _. apply fromOperationRaw_total.
Qed.

Lemma fromTokenAccountRaw_total raw v :
  (∃ rest, tokenAccountRest raw = Ok rest) →
  ∃ sa v', fromTokenAccountRaw raw v = Ok (sa, v').
Proof.
  intros [rest Hrest]. unfold fromTokenAccountRaw, bind at 1, liftRes.
  rewrite Hrest.
  destruct (decoded_total (subRaw_operations raw) (subRaw_id raw) None v)
    as (ops & v1 & Hops).
  unfold bind at 1. rewrite Hops. unfold bind at 1, newArray at 1.
  destruct (decoded_total (subRaw_pendingOperations raw) (subRaw_id raw) None
              (w_alloc ops v1)) as (pend & v2 & Hpend).
  unfold bind at 1. rewrite Hpend. by eexists _, _.
Qed.

Lemma fromChildAccountRaw_total raw v :
  (∃ rest, childAccountRest raw = Ok rest) →
  ∃ sa v', fromChildAccountRaw raw v = Ok (sa, v').
Proof.
  intros [rest Hrest]. unfold fromChildAccountRaw, bind at 1, liftRes.
  rewrite Hrest.
  destruct (decoded_total (subRaw_operations raw) (subRaw_id raw) None v)
    as (ops & v1 & Hops).
  unfold bind at 1. rewrite Hops. unfold bind at 1, newArray at 1.
  destruct (decoded_total (subRaw_pendingOperations raw) (subRaw_id raw) None
              (w_alloc ops v1)) as (pend & v2 & Hpend).
  unfold bind at 1. rewrite Hpend. by eexists _, _.
Qed.

Lemma fromSubAccountRaw_total raw v :
  (subRaw_type raw = "ChildAccountRaw" ∧
   ∃ rest, childAccountRest raw = Ok rest) ∨
  (subRaw_type raw = "TokenAccountRaw" ∧
   ∃ rest, tokenAccountRest raw = Ok rest) →
  ∃ sa v', fromSubAccountRaw raw v = Ok (sa, v').
Proof.
  unfold fromSubAccountRaw. intros [[Ht Hrest]|[Ht Hrest]]; rewrite Ht.
  - rewrite bool_decide_eq_true_2 by done. by apply fromChildAccountRaw_total.
  - rewrite bool_decide_eq_false_2 by done.
    rewrite bool_decide_eq_true_2 by done. by apply fromTokenAccountRaw_total.
Qed.

Lemma fromAccountRaw_total raw v :
  (∃ family, familyOfCurrencyId (raw_currencyId raw) = Ok family) →
  (∀ rs, raw_subAccounts raw = Some rs →
         Forall (λ ta,
                   (subRaw_type ta = "TokenAccountRaw" ∧
                    findTokenById (subRaw_tokenId ta) = false) ∨
                   (subRaw_type ta = "TokenAccountRaw" ∧
                    ∃ rest, tokenAccountRest ta = Ok rest) ∨
                   (subRaw_type ta = "ChildAccountRaw" ∧
                    ∃ rest, childAccountRest ta = Ok rest)) rs) →
  ∃ a v', fromAccountRaw raw v = Ok (a, v').
Proof.
  intros [family Hfam] Hsubs. unfold fromAccountRaw.
  assert (∃ subs v1,
            match raw_subAccounts raw with
            | Some subAccountsRaw =>
                mapped <-
                  mapM (λ ta,
                          if bool_decide (subRaw_type ta = "TokenAccountRaw") then
                            if findTokenById (subRaw_tokenId ta) then
                              sa <- fromTokenAccountRaw ta ;; ret (Some sa)
                            else ret None
                          else
                            sa <- fromSubAccountRaw ta ;; ret (Some sa))
                       subAccountsRaw ;;
                newObject ;;;
                filtered <- newObject ;;
                ret (Some {| subs_ref := filtered; subs_items := omap id mapped |})
            | None => ret None
            end v = Ok (subs, v1)) as (subs & v1 & Hs).
  { destruct (raw_subAccounts raw) as [rs|]; [|by eexists _, _].
    specialize (Hsubs rs eq_refl). rewrite Forall_forall in Hsubs.
    unfold bind at 1.
    edestruct (mapM_total
                 (λ ta,
                    if bool_decide (subRaw_type ta = "TokenAccountRaw") then
                      if findTokenById (subRaw_tokenId ta) then
                        sa <- fromTokenAccountRaw ta ;; ret (Some sa)
                      else ret None
                    else
                      sa <- fromSubAccountRaw ta ;; ret (Some sa)) rs)
      as (mapped & u & Hmapped).
    2:{ rewrite Hmapped. by eexists _, _. }
    intros ta u Hta.
    destruct (Hsubs ta Hta) as [[Ht Hf]|[[Ht Hrest]|[Ht Hrest]]]; rewrite Ht.
    - rewrite bool_decide_eq_true_2 by done. rewrite Hf. by eexists _, _.
    - rewrite bool_decide_eq_true_2 by done.
      destruct (findTokenById (subRaw_tokenId ta)); [|by eexists _, _].
      destruct (fromTokenAccountRaw_total ta u Hrest) as (sa & u' & Hsa).
      unfold bind. rewrite Hsa. by eexists _, _.
    - rewrite bool_decide_eq_false_2 by done.
      destruct (fromSubAccountRaw_total ta u) as (sa & u' & Hsa);
        [left; by split|].
      unfold bind. rewrite Hsa. by eexists _, _. }
  unfold bind at 1. rewrite Hs.
  unfold bind at 1, liftRes. rewrite Hfam.
  unfold bind at 1, newObject at 1.
  destruct (decoded_total (raw_operations raw) (raw_id raw)
              (subs_items <$> subs) (w_bump v1)) as (ops & v2 & Hops).
  unfold bind at 1. rewrite Hops. unfold bind at 1, newArray at 1.
  destruct (decoded_total (raw_pendingOperations raw) (raw_id raw)
              (subs_items <$> subs) (w_alloc ops v2)) as (pend & v3 & Hpend).
  unfold bind at 1. rewrite Hpend. by eexists _, _.
Qed.

End Total.

(** C7. When the id of the cached account is not the id of the raw
    snapshot, [patchAccount] is [fromAccountRaw] of the snapshot, the same
    for every cached account, and what it returns is the account rebuilt
    from the snapshot, handed to the hook of its bridge: a new object with
    new operation arrays that hold newly decoded operations, a new list of
    sub-accounts, and every field read off the snapshot.  It does return
    when the decoder of operations returns (its four identifiers are
    bound and the decoder of the coin framework returns), the currency of
    the snapshot is known and every raw sub-account is a token account
    that is dropped or decodes, or a child account that decodes.  When
    there is no cached sub-account, or its id or parentId is not that of
    the raw record, [patchSubAccount] is [fromSubAccountRaw] of the record,
    what it returns is the sub-account rebuilt from the record, and it
    returns when the decoder of operations returns and the record is a
    child or a token account that decodes. *)
Theorem id_change_rebuilds_from_raw
    (account : Account) (updatedRaw : AccountRaw)
    (subAccount : option SubAccount) (updatedSubRaw : SubAccountRaw)
    (w : World) :
  let decoderReturns :=
    (∀ name, name ∈ ["contract"; "operator"; "standard"; "tokenId"]%string →
             freeIdentifier name ≠ Unbound) ∧
    (∀ raw id subs, ∃ res, commonFromOperationRaw raw id subs = Ok res) in
  (acc_id account ≠ raw_id updatedRaw →
   patchAccount account updatedRaw w = fromAccountRaw updatedRaw w ∧
   (∀ other, acc_id other ≠ raw_id updatedRaw →
             patchAccount other updatedRaw w
             = patchAccount account updatedRaw w) ∧
   (∀ a1 w1,
      patchAccount account updatedRaw w = Ok (a1, w1) →
      ∃ res,
        rebuiltAccount updatedRaw w res w1 ∧
        a1 = match assignFromAccountRaw (getAccountBridge res) with
             | Some assign => assign updatedRaw res
             | None => res
             end) ∧
   (decoderReturns →
    (∃ family, familyOfCurrencyId (raw_currencyId updatedRaw) = Ok family) →
    (∀ rs, raw_subAccounts updatedRaw = Some rs →
           Forall (λ ta,
                     (subRaw_type ta = "TokenAccountRaw" ∧
                      findTokenById (subRaw_tokenId ta) = false) ∨
                     (subRaw_type ta = "TokenAccountRaw" ∧
                      ∃ rest, tokenAccountRest ta = Ok rest) ∨
                     (subRaw_type ta = "ChildAccountRaw" ∧
                      ∃ rest, childAccountRest ta = Ok rest)) rs) →
    ∃ a1 w1, patchAccount account updatedRaw w = Ok (a1, w1))) ∧
  ((subAccount = None ∨
    ∃ cached, subAccount = Some cached ∧
              (sub_id cached ≠ subRaw_id updatedSubRaw ∨
               sub_parentId cached ≠ subRaw_parentId updatedSubRaw)) →
   patchSubAccount subAccount updatedSubRaw w
   = fromSubAccountRaw updatedSubRaw w ∧
   (∀ sa w1,
      patchSubAccount subAccount updatedSubRaw w = Ok (sa, w1) →
      rebuiltSubAccount updatedSubRaw w sa w1) ∧
   (decoderReturns →
    (subRaw_type updatedSubRaw = "ChildAccountRaw" ∧
     ∃ rest, childAccountRest updatedSubRaw = Ok rest) ∨
    (subRaw_type updatedSubRaw = "TokenAccountRaw" ∧
     ∃ rest, tokenAccountRest updatedSubRaw = Ok rest) →
    ∃ sa w1, patchSubAccount subAccount updatedSubRaw w = Ok (sa, w1))).
Proof.
  intros decoderReturns. split.
  - intros Hid.
    assert (∀ other, acc_id other ≠ raw_id updatedRaw →
                     patchAccount other updatedRaw w
                     = fromAccountRaw updatedRaw w) as Hany.
    { intros other Ho. unfold patchAccount.
      by rewrite bool_decide_eq_true_2. }
    split; [by apply Hany|]. split; [|split].
    + intros other Ho. by rewrite !Hany.
    + intros a1 w1. rewrite Hany by done. apply fromAccountRaw_rebuilt.
    + intros [Hbound Hcommon] Hfam Hsubs. rewrite Hany by done.
      by apply fromAccountRaw_total.
  - intros Hsub.
    assert (patchSubAccount subAccount updatedSubRaw w
            = fromSubAccountRaw updatedSubRaw w) as Heq.
    { destruct Hsub as [->|(cached & -> & Hd)]; [done|].
      unfold patchSubAccount. destruct Hd as [Hd|Hd].
      + by rewrite (bool_decide_eq_true_2 _ Hd).
      + rewrite (bool_decide_eq_true_2 (sub_parentId cached ≠ _)) by done.
        by rewrite orb_true_r. }
    split; [done|]. split.
    + intros sa w1. rewrite Heq. apply fromSubAccountRaw_rebuilt.
    + intros [Hbound Hcommon] Hdec. rewrite Heq.
      by apply fromSubAccountRaw_total.
Qed.

(** The bitcoin branch never reports a change; its siblings do. *)
Lemma patchFamilyResources_bitcoin account updatedRaw p w p' w' :
  acc_family account = "bitcoin" →
  patchFamilyResources account updatedRaw p w = Ok (p', w') →
  p'.2 = p.2 ∧ w' = w.
Proof.
  intros Hf. unfold patchFamilyResources.
  rewrite bool_decide_eq_true_2 by done.
  unfold shouldRefreshBitcoinResources, ret, readArray.
  destruct (raw_bitcoinResources updatedRaw); [|by intros [= <- <-]].
  destruct (acc_bitcoinResources account); [|by intros [= <- <-]].
  unfold bind.
  repeat case_bool_decide; simpl;
    try (destruct (isEqual_utxos _ _); simpl); by intros [= <- <-].
Qed.

Lemma patchFamilyResources_polkadot account updatedRaw p w rawResources :
  acc_family account = "polkadot" →
  raw_polkadotResources updatedRaw = Some rawResources →
  (∀ resources, acc_polkadotResources account = Some resources →
                toPolkadotResourcesRaw resources ≠ rawResources) →
  patchFamilyResources account updatedRaw p w
  = Ok ((set_acc_polkadotResources
           (Some (fromPolkadotResourcesRaw rawResources)) p.1, true), w).
Proof.
  intros Hf Hraw Hdiff. unfold patchFamilyResources.
  rewrite bool_decide_eq_false_2 by (rewrite Hf; done).
  rewrite bool_decide_eq_true_2 by done.
  unfold familyResourcesStep, assignWhen, ret. rewrite Hraw.
  destruct (acc_polkadotResources account) as [r|] eqn:Hr; [|done].
  unfold areSameResources. rewrite bool_decide_eq_false_2; [done|].
  by apply Hdiff.
Qed.

End Decoding.

#[local] Existing Instances Example.primitives Example.collaborators.

(** C8: on a bitcoin account whose UTXOs alone differ from the raw
    snapshot, the comparison asks for a refresh and [patchAccount] returns
    the cached account, resources included; the same difference on a
    polkadot account yields a new account.  The same drop shows in the
    scope of the repository, on an account and a snapshot without
    operations, which the patch can go through without decoding one. *)
Theorem bitcoin_resources_change_is_dropped :
  let cached := Example.account "bitcoin" in
  let raw := Example.accountRaw 2 (Some "12"%string) in
  shouldRefreshBitcoinResources raw cached Example.world
    = Ok (true, Example.world) ∧
  (∃ w', patchAccount cached raw Example.world = Ok (cached, w')) ∧
  (∃ next w',
     patchAccount (Example.account "polkadot") raw Example.world = Ok (next, w') ∧
     acc_ref next ≠ acc_ref (Example.account "polkadot") ∧
     acc_polkadotResources next = Some 2) ∧
  let quiet := Example.quietAccount "bitcoin" in
  let quietRaw := Example.quietRaw 2 (Some "12"%string) in
  @shouldRefreshBitcoinResources _ Example.shipped quietRaw quiet Example.world
    = Ok (true, Example.world) ∧
  (∃ w', @patchAccount _ Example.shipped quiet quietRaw Example.world
         = Ok (quiet, w')) ∧
  acc_bitcoinResources quiet
    ≠ fromBitcoinResourcesRaw <$> raw_bitcoinResources quietRaw ∧
  (∃ next w',
     @patchAccount _ Example.shipped (Example.quietAccount "polkadot") quietRaw
       Example.world = Ok (next, w') ∧
     acc_ref next ≠ acc_ref (Example.quietAccount "polkadot") ∧
     acc_polkadotResources next = Some 2).
Proof.
  split; [|split; [|split; [|split; [|split; [|split]]]]].
  - vm_compute. reflexivity.
  - eexists. vm_compute. reflexivity.
  - eexists _, _. split; [vm_compute; reflexivity|].
    split; [vm_compute; lia | reflexivity].
  - vm_compute. reflexivity.
  - eexists. vm_compute. reflexivity.
  - vm_compute. discriminate.
  - eexists _, _. split; [vm_compute; reflexivity|].
    split; [vm_compute; lia | reflexivity].
Qed.

(** ** Lookups *)


Lemma findExistingOp_id xs newOp e :
  findExistingOp xs newOp = Some e → e ∈ xs ∧ op_id e = op_id newOp.
Proof.
  intros Hf. apply Array_find_Some_elem in Hf as [Hin Hid].
  split; [done|]. by apply bool_decide_eq_true in Hid.
Qed.

(** ** The patcher, field by field *)

Lemma assignWhen_fst {A} c (f : A → A) p :
  (assignWhen c f p).1 = if c then f p.1 else p.1.
Proof. by destruct c. Qed.

Lemma assignWhen_snd {A} c (f : A → A) p :
  (assignWhen c f p).2 = c || p.2.
Proof. by destruct c. Qed.

Lemma assignWhen_unchanged {A} c (f : A → A) p :
  (assignWhen c f p).2 = false → c = false ∧ p.2 = false.
Proof. rewrite assignWhen_snd. apply orb_false_elim. Qed.

Lemma assignWhen_false {A} (f : A → A) p : assignWhen false f p = p.
Proof. done. Qed.

(** A getter that the assignment does not concern sees through it. *)
Lemma assignWhen_other {A B} (g : A → B) c (f : A → A) p :
  (∀ x, g (f x) = g x) → g (assignWhen c f p).1 = g p.1.
Proof. intros Hg. rewrite assignWhen_fst. destruct c; [apply Hg | done]. Qed.

Lemma assignWhen_same {A B} (g : A → B) c (f : A → A) p :
  g (assignWhen c f p).1 = if c then g (f p.1) else g p.1.
Proof. rewrite assignWhen_fst. by destruct c. Qed.

#[local] Arguments assignWhen : simpl never.

Ltac through g :=
  repeat first
    [ rewrite (assignWhen_other g) by reflexivity
    | rewrite (assignWhen_same g) ];
  cbn [fst snd].

Lemma not_ne_eq `{EqDecision A} (x y : A) : bool_decide (x ≠ y) = false → x = y.
Proof.
  intros Hb. apply bool_decide_eq_false in Hb.
  destruct (decide (x = y)); [done | by exfalso].
Qed.

Lemma bool_decide_ne_same `{EqDecision A} (x : A) : bool_decide (x ≠ x) = false.
Proof. apply bool_decide_eq_false. intros Hn. by apply Hn. Qed.

Section PatchFields.
Context `{Collaborators}.

(** *** Sub-accounts *)

Lemma patchSubAccountFields_agrees a raw p :
  subAccountAgrees a raw →
  patchSubAccountFields a raw (sub_operations a) (sub_pendingOperations a) p = p.
Proof.
  intros (Hcount & Hdate & Hbal & Hkind & Hbhc). unfold patchSubAccountFields.
  assert (bool_decide (Some (sub_operationsCount a) ≠ subRaw_operationsCount raw)
          && bool_decide (is_Some (truthyNumber (subRaw_operationsCount raw)))
          = false) as ->.
  { destruct Hcount as [->| ->].
    - rewrite (bool_decide_eq_false_2 (is_Some None)) by (by intros [? ?]).
      apply andb_false_r.
    - by rewrite bool_decide_ne_same. }
  assert (match truthyString (subRaw_creationDate raw) with
          | Some s => bool_decide (s ≠ Date_toISOString (sub_creationDate a))
          | None => false
          end = false) as ->.
  { destruct (truthyString _) as [s|] eqn:Hs; [|done].
    rewrite (Hdate s eq_refl). apply bool_decide_ne_same. }
  rewrite !bool_decide_ne_same, Hbal, bool_decide_ne_same.
  rewrite !assignWhen_false.
  assert (match subRaw_balanceHistoryCache raw with
          | Some b =>
              assignWhen
                (shouldRefreshBalanceHistoryCache b (sub_balanceHistoryCache a))
                (set_sub_balanceHistoryCache b) p
          | None => p
          end = p) as Hlast.
  { destruct (subRaw_balanceHistoryCache raw) as [b|]; [|done].
    by rewrite (Hbhc b eq_refl). }
  destruct (sub_kind a) as [sp cb ap|]; [|done].
  case_bool_decide as Ht; [|done].
  destruct (Hkind Ht) as (Hsp & Hcb & Hap).
  rewrite Hsp, Hcb, !bool_decide_ne_same, !assignWhen_false.
  destruct (subRaw_approvals raw) as [rap|] eqn:Hrap; [|done].
  rewrite (Hap rap eq_refl), bool_decide_ne_same, assignWhen_false. done.
Qed.

(** No compared field differs: the cached sub-account itself comes
    back. *)
Lemma patchSubAccount_same a raw w :
  subAccountSettled a raw w →
  ∀ w2, extends w w2 →
    ∃ w2', patchSubAccount (Some a) raw w2 = Ok (a, w2') ∧ extends w2 w2'.
Proof.
  intros (Hid & Hpid & [Ho Hos] & [Hp Hps] & Hagree) w2 He.
  unfold patchSubAccount.
  rewrite Hid, Hpid, !bool_decide_ne_same. simpl.
  destruct (Hos w2 He) as (wa & Heqa & Hea).
  unfold bind at 1. rewrite Heqa.
  destruct (Hps wa (extends_trans _ _ _ He Hea)) as (wb & Heqb & Heb).
  unfold bind at 1. rewrite Heqb.
  unfold bind, newObject. rewrite patchSubAccountFields_agrees by done.
  simpl. eexists. split; [done|].
  eapply extends_trans; [exact Hea|].
  eapply extends_trans; [exact Heb | apply extends_w_bump].
Qed.

Lemma bhc_agrees (cached : BalanceHistoryCache) (raw : option BalanceHistoryCache) :
  ∀ b, raw = Some b →
       shouldRefreshBalanceHistoryCache b
         (match raw with
          | Some b' =>
              if shouldRefreshBalanceHistoryCache b' cached then b' else cached
          | None => cached
          end) = false.
Proof.
  intros b ->. destruct (shouldRefreshBalanceHistoryCache b cached) eqn:Hs;
    [apply shouldRefreshBalanceHistoryCache_same | done].
Qed.


Lemma pick_new `{EqDecision A} (x y : A) :
  (if bool_decide (x ≠ y) then y else x) = y.
Proof.
  case_bool_decide as Hc; [done|].
  destruct (decide (x = y)); [done | by exfalso].
Qed.

(** The result of the comparisons of [patchSubAccount], field by field:
    the assigned value where the comparison found a difference, the cached
    one elsewhere. *)
Lemma patchSubAccountFields_view e raw o1 p1 ref :
  let p := patchSubAccountFields e raw o1 p1 (set_sub_ref ref e, false) in
  let res := if p.2 then p.1 else e in
  sub_id res = sub_id e ∧ sub_parentId res = sub_parentId e ∧
  (res = e ∨ sub_ref res = ref) ∧
  sub_operations res = o1 ∧
  sub_pendingOperations res = p1 ∧
  sub_operationsCount res
    = (if bool_decide (Some (sub_operationsCount e) ≠ subRaw_operationsCount raw)
          && bool_decide (is_Some (truthyNumber (subRaw_operationsCount raw)))
       then default 0 (subRaw_operationsCount raw)
       else sub_operationsCount e) ∧
  sub_creationDate res
    = (if match truthyString (subRaw_creationDate raw) with
          | Some s => bool_decide (s ≠ Date_toISOString (sub_creationDate e))
          | None => false
          end
       then Date_new (default "" (subRaw_creationDate raw))
       else sub_creationDate e) ∧
  sub_balance res
    = (if bool_decide (subRaw_balance raw ≠ BigNumber_toString (sub_balance e))
       then BigNumber_new (subRaw_balance raw) else sub_balance e) ∧
  sub_balanceHistoryCache res
    = match subRaw_balanceHistoryCache raw with
      | Some b =>
          if shouldRefreshBalanceHistoryCache b (sub_balanceHistoryCache e)
          then b else sub_balanceHistoryCache e
      | None => sub_balanceHistoryCache e
      end ∧
  sub_kind res
    = match sub_kind e with
      | TokenAccount sp cb ap =>
          if bool_decide (subRaw_type raw = "TokenAccountRaw") then
            TokenAccount
              (if bool_decide (subRaw_spendableBalance raw
                               ≠ Some (BigNumber_toString sp))
               then BigNumber_new
                      (default (subRaw_balance raw)
                         (truthyString (subRaw_spendableBalance raw)))
               else sp)
              (if bool_decide (subRaw_compoundBalance raw
                               ≠ (BigNumber_toString <$> cb))
               then BigNumber_new <$> truthyString (subRaw_compoundBalance raw)
               else cb)
              (match subRaw_approvals raw with
               | Some rawApprovals =>
                   if bool_decide (Some rawApprovals ≠ ap)
                   then Some rawApprovals else ap
               | None => ap
               end)
          else TokenAccount sp cb ap
      | ChildAccount => ChildAccount
      end.
Proof.
  intros p res. subst res p. unfold patchSubAccountFields.
  destruct (sub_kind e) as [sp cb ap|] eqn:Hk;
    [destruct (bool_decide (subRaw_type raw = "TokenAccountRaw"))|];
    destruct (subRaw_balanceHistoryCache raw) as [b|];
    cbv zeta;
    match goal with |- context [if ?c.2 then _ else _] =>
      destruct (c.2) eqn:Hch end; cbv iota.
  all: try (
    (split; [through (@sub_id _); reflexivity|];
     split; [through (@sub_parentId _); reflexivity|];
     split; [right; through (@sub_ref _); reflexivity|];
     split; [through (@sub_operations _); simpl; apply pick_new|];
     split; [through (@sub_pendingOperations _); simpl; apply pick_new|];
     split; [through (@sub_operationsCount _); reflexivity|];
     split; [through (@sub_creationDate _); reflexivity|];
     split; [through (@sub_balance _); reflexivity|];
     split; [through (@sub_balanceHistoryCache _); reflexivity|]);
    through (@sub_kind _); simpl; rewrite ?Hk;
    try destruct (subRaw_approvals raw);
    repeat match goal with |- context [if ?c then _ else _] => destruct c end;
    reflexivity).
  all: repeat (apply assignWhen_unchanged in Hch as [? Hch]).
  all: split; [reflexivity|]; split; [reflexivity|]; split; [by left|].
  all: split; [by apply not_ne_eq|].
  all: split; [by apply not_ne_eq|].
  all: rewrite ?Hk; try destruct (subRaw_approvals raw);
    repeat match goal with
           | Hc : ?c = false |- context [if ?c then _ else _] => rewrite Hc
           end;
    done.
Qed.

End PatchFields.

(** *** Accounts *)

#[local] Arguments assignWhen : simpl never.

Section PatchAccountFields.
Context `{Collaborators}.

(** The bitcoin comparison reads the store and leaves it as it is. *)
Lemma shouldRefreshBitcoinResources_reads raw a w :
  ∃ b, shouldRefreshBitcoinResources raw a w = Ok (b, w).
Proof.
  unfold shouldRefreshBitcoinResources, bind, readArray, ret.
  repeat case_match; by eexists.
Qed.

Lemma familyResourcesStep_agrees toRaw fromRaw existing raw assign p :
  (∀ r, raw = Some r → ∃ res, existing = Some res ∧ toRaw res = r) →
  familyResourcesStep toRaw fromRaw existing raw assign p = p.
Proof.
  intros Hag. unfold familyResourcesStep. destruct raw as [r|]; [|done].
  destruct (Hag r eq_refl) as (res & -> & <-).
  unfold areSameResources. by rewrite bool_decide_eq_true_2.
Qed.

(** No family payload differs: the [switch] leaves the flag down. *)
Lemma patchFamilyResources_same a raw p w :
  familyAgrees a raw → p.2 = false →
  ∃ pR, patchFamilyResources a raw p w = Ok (pR, w) ∧ pR.2 = false.
Proof.
  unfold familyAgrees, patchFamilyResources. intros Hfam Hp. revert Hfam.
  destruct (bool_decide (acc_family a = "bitcoin")).
  { intros _. destruct (shouldRefreshBitcoinResources_reads raw a w) as [b Hb].
    unfold bind. rewrite Hb. destruct b; by eexists. }
  destruct (bool_decide (acc_family a = "polkadot")).
  { intros Hfam. rewrite familyResourcesStep_agrees by done. by eexists. }
  destruct (bool_decide (acc_family a = "zilliqa")).
  { intros Hfam. rewrite familyResourcesStep_agrees by done. by eexists. }
  destruct (bool_decide (acc_family a = "crypto_org")).
  { intros Hfam. rewrite familyResourcesStep_agrees by done. by eexists. }
  intros Hfam.
  destruct (applyReconciliation (getAccountBridge a)) as [apply|] eqn:Ha;
    [|by eexists].
  rewrite Hp. eexists. split; [reflexivity|]. by apply Hfam.
Qed.

(** Record fields survive the removal of the family payloads and the
    assignment of the NFT list. *)
Lemma family_other {B} (g : Account → B) (x y : Account) :
  (∀ z, g (withoutFamilyResources z) = g z) →
  withoutFamilyResources x = withoutFamilyResources y → g x = g y.
Proof. intros Hg Heq. by rewrite <- (Hg x), <- (Hg y), Heq. Qed.

Lemma patchNfts_other {B} (g : Account → B) a raw p :
  (∀ v z, g (set_acc_nfts v z) = g z) → g (patchNfts a raw p).1 = g p.1.
Proof.
  intros Hg. unfold patchNfts. case_bool_decide; [apply Hg|].
  by apply assignWhen_other.
Qed.

Lemma patchNfts_unchanged a raw p :
  (patchNfts a raw p).2 = false →
  p.2 = false ∧
  acc_nfts a
  = ((λ raws : list ProtoNFTRaw, fromNFTRaw <$> raws) <$> raw_nfts raw).
Proof.
  unfold patchNfts. case_bool_decide; [done|].
  intros [Hc Hp]%assignWhen_unchanged. split; [done|]. by apply not_ne_eq.
Qed.

Lemma patchNfts_nfts a raw p :
  (patchNfts a raw p).2 = true →
  acc_nfts p.1 = acc_nfts a →
  acc_nfts (patchNfts a raw p).1
  = ((λ raws : list ProtoNFTRaw, fromNFTRaw <$> raws) <$> raw_nfts raw).
Proof.
  unfold patchNfts. case_bool_decide as Hd.
  - intros _ _. destruct Hd as [-> _]. done.
  - intros _ Hn. rewrite assignWhen_same. simpl. rewrite Hn.
    apply pick_new.
Qed.

Lemma patchNfts_agrees a raw p :
  acc_nfts a
  = ((λ raws : list ProtoNFTRaw, fromNFTRaw <$> raws) <$> raw_nfts raw) →
  (patchNfts a raw p).2 = p.2.
Proof.
  intros Hn. unfold patchNfts. rewrite bool_decide_eq_false_2.
  - by rewrite Hn, bool_decide_ne_same.
  - intros [Hr [x Hx]]. rewrite Hn, Hr in Hx. done.
Qed.

(** The pair the field comparisons of [patchAccount] build, field by
    field. *)
Lemma patchAccountFields_fst a raw sa o1 p1 ref :
  let p := patchAccountFields a raw sa o1 p1 (set_acc_ref ref a, false) in
  acc_ref p.1 = ref ∧
  acc_id p.1 = acc_id a ∧
  acc_family p.1 = acc_family a ∧
  acc_polkadotResources p.1 = acc_polkadotResources a ∧
  acc_zilliqaResources p.1 = acc_zilliqaResources a ∧
  acc_cryptoOrgResources p.1 = acc_cryptoOrgResources a ∧
  acc_nfts p.1 = acc_nfts a ∧
  acc_subAccounts p.1
    = (if match sa with
          | Some arr =>
              bool_decide (subs_ref <$> acc_subAccounts a ≠ Some (subs_ref arr))
          | None => false
          end
       then sa else acc_subAccounts a) ∧
  acc_operations p.1 = o1 ∧
  acc_pendingOperations p.1 = p1 ∧
  acc_operationsCount p.1
    = (if bool_decide (Some (acc_operationsCount a) ≠ raw_operationsCount raw)
          && bool_decide (is_Some (truthyNumber (raw_operationsCount raw)))
       then default 0 (raw_operationsCount raw)
       else acc_operationsCount a) ∧
  acc_balance p.1
    = (if bool_decide (raw_balance raw ≠ BigNumber_toString (acc_balance a))
       then BigNumber_new (raw_balance raw) else acc_balance a) ∧
  acc_spendableBalance p.1
    = (if bool_decide (raw_spendableBalance raw
                       ≠ Some (BigNumber_toString (acc_spendableBalance a)))
       then BigNumber_new
              (default (raw_balance raw)
                 (truthyString (raw_spendableBalance raw)))
       else acc_spendableBalance a) ∧
  acc_lastSyncDate p.1
    = (if bool_decide (raw_lastSyncDate raw
                       ≠ Date_toISOString (acc_lastSyncDate a))
       then Date_new (raw_lastSyncDate raw) else acc_lastSyncDate a) ∧
  acc_creationDate p.1
    = (if match truthyString (raw_creationDate raw) with
          | Some s => bool_decide (s ≠ Date_toISOString (acc_creationDate a))
          | None => false
          end
       then Date_new (default "" (raw_creationDate raw))
       else acc_creationDate a) ∧
  acc_freshAddress p.1 = raw_freshAddress raw ∧
  acc_freshAddressPath p.1 = raw_freshAddressPath raw ∧
  acc_blockHeight p.1 = raw_blockHeight raw ∧
  acc_syncHash p.1 = raw_syncHash raw ∧
  acc_balanceHistoryCache p.1
    = match raw_balanceHistoryCache raw with
      | Some b =>
          if shouldRefreshBalanceHistoryCache b (acc_balanceHistoryCache a)
          then b else acc_balanceHistoryCache a
      | None => acc_balanceHistoryCache a
      end.
Proof.
  intros p. subst p. unfold patchAccountFields.
  destruct (raw_balanceHistoryCache raw) as [b|]; cbv zeta.
  all: split; [through (@acc_ref _); reflexivity|];
     split; [through (@acc_id _); reflexivity|];
     split; [through (@acc_family _); reflexivity|];
     split; [through (@acc_polkadotResources _); reflexivity|];
     split; [through (@acc_zilliqaResources _); reflexivity|];
     split; [through (@acc_cryptoOrgResources _); reflexivity|];
     split; [through (@acc_nfts _); reflexivity|];
     split; [through (@acc_subAccounts _); reflexivity|];
     split; [through (@acc_operations _); simpl; apply pick_new|];
     split; [through (@acc_pendingOperations _); simpl; apply pick_new|];
     split; [through (@acc_operationsCount _); reflexivity|];
     split; [through (@acc_balance _); reflexivity|];
     split; [through (@acc_spendableBalance _); reflexivity|];
     split; [through (@acc_lastSyncDate _); reflexivity|];
     split; [through (@acc_creationDate _); reflexivity|];
     split; [through (@acc_freshAddress _); simpl; apply pick_new|];
     split; [through (@acc_freshAddressPath _); simpl; apply pick_new|];
     split; [through (@acc_blockHeight _); simpl; apply pick_new|];
     split; [through (@acc_syncHash _); simpl; apply pick_new|];
     through (@acc_balanceHistoryCache _); reflexivity.
Qed.

(** The flag stays down only when every comparison found no
    difference. *)
Lemma patchAccountFields_unchanged a raw sa o1 p1 p0 :
  (patchAccountFields a raw sa o1 p1 p0).2 = false →
  match sa with
  | Some arr =>
      bool_decide (subs_ref <$> acc_subAccounts a ≠ Some (subs_ref arr))
  | None => false
  end = false ∧
  acc_operations a = o1 ∧
  acc_pendingOperations a = p1 ∧
  bool_decide (Some (acc_operationsCount a) ≠ raw_operationsCount raw)
    && bool_decide (is_Some (truthyNumber (raw_operationsCount raw))) = false ∧
  raw_balance raw = BigNumber_toString (acc_balance a) ∧
  raw_spendableBalance raw
    = Some (BigNumber_toString (acc_spendableBalance a)) ∧
  raw_lastSyncDate raw = Date_toISOString (acc_lastSyncDate a) ∧
  match truthyString (raw_creationDate raw) with
  | Some s => bool_decide (s ≠ Date_toISOString (acc_creationDate a))
  | None => false
  end = false ∧
  acc_freshAddress a = raw_freshAddress raw ∧
  acc_freshAddressPath a = raw_freshAddressPath raw ∧
  acc_blockHeight a = raw_blockHeight raw ∧
  acc_syncHash a = raw_syncHash raw ∧
  (∀ b, raw_balanceHistoryCache raw = Some b →
        shouldRefreshBalanceHistoryCache b (acc_balanceHistoryCache a) = false).
Proof.
  unfold patchAccountFields. intros Hch.
  destruct (raw_balanceHistoryCache raw) as [b|];
    [apply assignWhen_unchanged in Hch as [Hb Hch]|];
    repeat (apply assignWhen_unchanged in Hch as [? Hch]).
  all: repeat match goal with
         | Hc : bool_decide (_ ≠ _) = false |- _ => apply not_ne_eq in Hc
         end.
  all: repeat split; try done.
  all: by intros b' [= <-].
Qed.

(** No compared field differs: the comparisons assign nothing. *)
Lemma patchAccountFields_agrees a raw sa p :
  match sa with
  | Some arr =>
      bool_decide (subs_ref <$> acc_subAccounts a ≠ Some (subs_ref arr))
  | None => false
  end = false →
  accountAgrees a raw →
  patchAccountFields a raw sa (acc_operations a) (acc_pendingOperations a) p = p.
Proof.
  intros Hsa (Hcount & Hbal & Hsp & Hls & Hcd & Hfa & Hfp & Hbh & Hsh & Hbhc & _).
  unfold patchAccountFields. rewrite Hsa.
  assert (bool_decide (Some (acc_operationsCount a) ≠ raw_operationsCount raw)
          && bool_decide (is_Some (truthyNumber (raw_operationsCount raw)))
          = false) as ->.
  { destruct Hcount as [->| ->].
    - rewrite (bool_decide_eq_false_2 (is_Some None)) by (by intros [? ?]).
      apply andb_false_r.
    - by rewrite bool_decide_ne_same. }
  assert (match truthyString (raw_creationDate raw) with
          | Some s => bool_decide (s ≠ Date_toISOString (acc_creationDate a))
          | None => false
          end = false) as ->.
  { destruct (truthyString _) as [s|] eqn:Hs; [|done].
    rewrite (Hcd s eq_refl). apply bool_decide_ne_same. }
  rewrite Hbal, Hsp, Hls, Hfa, Hfp, Hbh, Hsh, !bool_decide_ne_same.
  rewrite !assignWhen_false.
  destruct (raw_balanceHistoryCache raw) as [b|]; [|done].
  by rewrite (Hbhc b eq_refl).
Qed.

Lemma mapM_cons {A B} (f : A → M B) x xs y w1 ys w2 w :
  f x w = Ok (y, w1) → mapM f xs w1 = Ok (ys, w2) →
  mapM f (x :: xs) w = Ok (y :: ys, w2).
Proof. intros Hx Hxs. simpl. unfold bind. by rewrite Hx, Hxs. Qed.

(** Every raw sub-account has a settled counterpart: each entry comes
    back as it is. *)
Lemma patchSubAccountEntries_same existing rs w :
  Forall (λ ta, ∃ e, findSubAccount existing ta = Some e ∧
                     subAccountSettled e ta w) rs →
  ∀ w2, extends w w2 →
    ∃ patched w2',
      mapM (patchSubAccountEntry existing) rs w2 = Ok (patched, w2') ∧
      extends w2 w2' ∧ existsb snd patched = false.
Proof.
  induction 1 as [|ta rs (e & Hfind & Hset) _ IH]; intros w2 He.
  - exists [], w2. split; [done|]. split; [apply extends_refl | done].
  - destruct (patchSubAccount_same e ta w Hset w2 He) as (wa & Heq & Hea).
    destruct (IH wa (extends_trans _ _ _ He Hea)) as (patched & wb & Hm & Heb & Hex).
    exists ((e, false) :: patched), wb. split; [|split].
    + eapply mapM_cons; [|exact Hm]. unfold patchSubAccountEntry.
      unfold findSubAccount in Hfind. rewrite Hfind. unfold bind.
      rewrite Heq. unfold ret. by rewrite bool_decide_ne_same.
    + by eapply extends_trans.
    + done.
Qed.

Lemma patchSubAccounts_same a raw w :
  subAccountsSettled a raw w →
  ∀ w2, extends w w2 →
    ∃ w2', patchSubAccounts a raw w2
           = Ok (match raw_subAccounts raw with
                 | Some _ => acc_subAccounts a
                 | None => None
                 end, w2') ∧
           extends w2 w2'.
Proof.
  unfold subAccountsSettled, patchSubAccounts. intros Hs w2 He.
  destruct (raw_subAccounts raw) as [rs|].
  2:{ exists w2. split; [done | apply extends_refl]. }
  destruct Hs as (arr & -> & Hlen & Hall).
  destruct (patchSubAccountEntries_same _ _ _ Hall w2 He)
    as (patched & wa & Hm & Hea & Hex).
  unfold bind, ret, newObject. rewrite Hm, Hex.
  unfold Array_length. rewrite Hlen, bool_decide_ne_same. simpl.
  eexists. split; [done|].
  eapply extends_trans; [exact Hea | apply extends_w_bump].
Qed.

(** No compared field differs: [patchAccount] returns the cached
    account itself. *)
Lemma patchAccount_same a raw w :
  accountSettled a raw w →
  ∀ w2, extends w w2 →
    ∃ w2', patchAccount a raw w2 = Ok (a, w2') ∧ extends w2 w2'.
Proof.
  intros (Hid & Hsubs & [_ Hops] & [_ Hpend] & Hag) w2 He.
  unfold patchAccount. rewrite Hid, bool_decide_ne_same.
  destruct (patchSubAccounts_same a raw w Hsubs w2 He) as (wa & Heqa & Hea).
  unfold bind at 1. rewrite Heqa.
  assert (extends w wa) as Hwa by (by eapply extends_trans).
  assert ((subs_items <$> match raw_subAccounts raw with
                          | Some _ => acc_subAccounts a
                          | None => None
                          end) = settledSubAccounts a raw) as ->.
  { unfold settledSubAccounts. by destruct (raw_subAccounts raw). }
  destruct (Hops wa Hwa) as (wb & Heqb & Heb).
  unfold bind at 1. rewrite Heqb.
  assert (extends w wb) as Hwb by (by eapply extends_trans).
  destruct (Hpend wb Hwb) as (wc & Heqc & Hec).
  unfold bind at 1. rewrite Heqc.
  unfold bind at 1. unfold newObject at 1.
  rewrite patchAccountFields_agrees; [|by repeat case_match; try apply bool_decide_ne_same|done].
  destruct Hag as (_ & _ & _ & _ & _ & _ & _ & _ & _ & _ & Hn & Hfam).
  destruct (patchFamilyResources_same a raw (set_acc_ref (w_next wc) a, false)
              (w_bump wc) Hfam eq_refl) as (pR & HeqR & HR).
  unfold bind. rewrite HeqR.
  rewrite (patchNfts_agrees a raw pR Hn), HR.
  eexists. split; [reflexivity|].
  eapply extends_trans; [exact Hea|].
  eapply extends_trans; [exact Heb|].
  eapply extends_trans; [exact Hec | apply extends_w_bump].
Qed.

Lemma findSubAccount_cons_ne y xs ta :
  sub_id y ≠ subRaw_id ta →
  findSubAccount (y :: xs) ta = findSubAccount xs ta.
Proof.
  intros Hne. unfold findSubAccount. simpl.
  by rewrite bool_decide_eq_false_2.
Qed.

Lemma settled_entries_found rs (patched : list SubAccount) w :
  NoDup (subRaw_id <$> rs) →
  Forall2 (λ ta x, subAccountSettled x ta w) rs patched →
  Forall (λ ta, ∃ e, findSubAccount patched ta = Some e ∧
                     subAccountSettled e ta w) rs.
Proof.
  intros Hnd HF. induction HF as [|ta y rs ys Hs HF IH]; [constructor|].
  rewrite fmap_cons in Hnd. apply NoDup_cons in Hnd as [Hnotin Hnd].
  constructor.
  - exists y. split; [|done]. unfold findSubAccount. simpl.
    destruct Hs as [Hid _]. by rewrite bool_decide_eq_true_2.
  - specialize (IH Hnd). rewrite Forall_forall in IH. apply Forall_forall.
    intros ta' Hin. destruct (IH ta' Hin) as (e & Hf & Hse).
    exists e. split; [|done]. rewrite findSubAccount_cons_ne; [done|].
    destruct Hs as [Hid _]. rewrite Hid. intros Heq. apply Hnotin.
    apply list_elem_of_fmap. by exists ta'.
Qed.


End PatchAccountFields.

(** ** More about the two builders *)

Section BuilderFacts.
Variable sameOp : Operation → Operation → bool.
Context {CO : Type}.
Variable coreOperations : list CO.
Variable buildOp : CO → option Operation.

(** Without a merger the asynchronous loop is the synchronous one; the
    accumulator stays as it is. *)
Lemma asyncLoop_without_merger n acc state w :
  asyncLoop sameOp coreOperations buildOp None n acc state w
  = match syncLoop sameOp coreOperations buildOp n state w with
    | Ok (state', w') => Ok ((acc, state'), w')
    | Throw e => Throw e
    end.
Proof.
  revert state w. induction n as [|n IH]; intros state w; simpl; [done|].
  destruct (coreOperations !! n ≫= buildOp) as [op|]; [|apply IH].
  unfold bind.
  destruct (stepBuilder sameOp state op (Z.of_nat n) w) as [[s1 w1]|e]; [|done].
  destruct (finished s1); [done | apply IH].
Qed.

(** X2. With no merger supplied, [minimalOperationsBuilder] is
    [minimalOperationsBuilderSync]: the same result in the same store,
    whatever the cache and the raw list. *)
Theorem builder_without_merger_is_the_sync_builder
    (existingOperations : loc) (w : World) :
  minimalOperationsBuilder sameOp coreOperations existingOperations buildOp
    None w
  = minimalOperationsBuilderSync sameOp coreOperations existingOperations
      buildOp w.
Proof.
  unfold minimalOperationsBuilder, minimalOperationsBuilderSync, initialState.
  unfold bind, readArray, newArray, ret.
  destruct (decide _); [done|]. cbv beta iota.
  rewrite asyncLoop_without_merger.
  destruct (syncLoop _ _ _ _ _ _) as [[s w']|e]; [|done].
  simpl. by destruct (finished s).
Qed.

Variable w0 : World.
Variable ex : loc.
Hypothesis Hex : allocated w0 ex.

(** The array a builder returns is the cache or one it has made. *)
Lemma WalkEnd_result r w' :
  WalkEnd sameOp coreOperations w0 ex r w' →
  (r = ex ∨ ¬ allocated w0 r) ∧ (w_next w0 ≤ w_next w')%nat.
Proof.
  intros [Hnil Hcore -> ->|s Hne Hnf HI <-|s Hne Hf HI HF <-].
  - split; [by left | done].
  - destruct HI as [Hn _ Hout _ _]. split; [|done]. right.
    unfold allocated. specialize (Hout Hnf). lia.
  - split; [|by destruct HI].
    destruct HF as (st & newOp & i & e & w & _ & _ & _ & _ & _ & _ & Hres).
    destruct Hres as [(_ & _ & ->)|(_ & Hfresh & _)]; [by left | by right].
Qed.

(** One step keeps the output within the built operations and the cached
    objects, and within the number of raw records. *)
Lemma step_bounded i newOp state w state' w' :
  WalkInv w0 ex state w →
  finished state = false →
  (length (items w (operations state)) + S i ≤ length coreOperations)%nat →
  Forall (λ x, x ∈ omap buildOp coreOperations ∨ x ∈ items w0 ex)
    (items w (operations state)) →
  newOp ∈ omap buildOp coreOperations →
  StepOutcome sameOp state newOp (Z.of_nat i) w state' w' →
  Forall (λ x, x ∈ omap buildOp coreOperations ∨ x ∈ items w0 ex)
    (items w' (operations state')) ∧
  (length (items w' (operations state')) +
   (if finished state' then 0 else i) ≤ length coreOperations)%nat.
Proof.
  intros HI Hnf Hlen Hall Hnew Hstep.
  pose proof (inv_output _ _ _ _ HI Hnf) as Hout.
  assert (∀ e, findExistingOp (items w (existingOps state)) newOp = Some e →
               e ∈ items w0 ex ∧ items w (existingOps state) = items w0 ex)
    as Hfound.
  { intros e He. destruct (WalkInv_found _ _ _ _ _ _ HI Hex He) as [_ Hit].
    rewrite <- Hit. split; [|done].
    by destruct (findExistingOp_id _ _ _ He). }
  inversion Hstep as
    [Hf|e Hf Hd Hb|e w1 Hf Hd Hb Hs Hw1|e s1 w1 Hf Hc Hgt
     |e s1 w1 Hf Hc Hle Hz Hj|e s1 w1 Hf Hc Hle Hnz]; subst; simpl.
  - rewrite items_w_push_eq, Hnf, length_app. simpl. split; [|lia].
    apply Forall_app. split; [done|]. constructor; [by left | constructor].
  - rewrite items_w_push_eq, Hnf, length_app. simpl. split; [|lia].
    apply Forall_app. split; [done|]. constructor; [by left | constructor].
  - rewrite items_w_push_eq, Hnf, length_app. simpl.
    rewrite items_w_alloc_ne by (simpl; lia). rewrite !items_w_emit.
    split; [|lia].
    apply Forall_app. split; [done|]. constructor; [by left | constructor].
  - destruct (Checked_frame _ _ _ _ _ _ _ Hc) as (_ & Ho & Hfin & _ & _ & Hit & _).
    rewrite Ho, items_w_push_eq, Hit, Hfin, Hnf, length_app. simpl.
    split; [|lia].
    apply Forall_app. split; [done|]. constructor; [|constructor].
    right. by destruct (Hfound e Hf).
  - destruct (Checked_frame _ _ _ _ _ _ _ Hc) as (_ & _ & _ & _ & _ & Hit & _).
    destruct (Hfound e Hf) as [_ Hwin].
    rewrite Hit, Hwin. rewrite Hj, Array_slice_0, Hwin in Hle.
    unfold Array_length in Hle. split; [|lia].
    apply Forall_forall. intros x Hx. by right.
  - destruct (Checked_frame _ _ _ _ _ _ _ Hc) as (_ & _ & _ & _ & _ & Hit & _).
    destruct (Hfound e Hf) as [Hin Hwin].
    rewrite items_w_alloc_eq, Hwin, length_app.
    rewrite Hwin in Hle.
    pose proof (Array_indexOf_bounds _ _ Hin) as [Hj0 _].
    rewrite Array_slice_nonneg in Hle |- * by done.
    unfold Array_length in Hle. split; [|lia].
    apply Forall_app. split; [done|].
    apply Forall_forall. intros x Hx. right.
    apply list_elem_of_lookup in Hx as [k Hk]. rewrite lookup_drop in Hk.
    by eapply list_elem_of_lookup_2.
Qed.

Lemma syncLoop_bounded n state w :
  WalkInv w0 ex state w →
  finished state = false →
  (length (items w (operations state)) + n ≤ length coreOperations)%nat →
  Forall (λ x, x ∈ omap buildOp coreOperations ∨ x ∈ items w0 ex)
    (items w (operations state)) →
  ∃ state' w',
    syncLoop sameOp coreOperations buildOp n state w = Ok (state', w') ∧
    Forall (λ x, x ∈ omap buildOp coreOperations ∨ x ∈ items w0 ex)
      (items w' (operations state')) ∧
    (length (items w' (operations state')) ≤ length coreOperations)%nat.
Proof.
  revert state w. induction n as [|n IH]; intros state w HI Hnf Hlen Hall; simpl.
  - exists state, w. split; [done|]. split; [done | lia].
  - destruct (coreOperations !! n ≫= buildOp) as [newOp|] eqn:Hb;
      [|apply IH; [done | done | lia | done]].
    assert (newOp ∈ omap buildOp coreOperations) as Hnew.
    { destruct (coreOperations !! n) as [co|] eqn:Hco; [|done]. simpl in Hb.
      apply list_elem_of_omap. exists co. split; [|done].
      by eapply list_elem_of_lookup_2. }
    unfold bind.
    destruct (stepBuilder_outcome sameOp state newOp (Z.of_nat n) w)
      as (s1 & w1 & Heq & Hstep).
    rewrite Heq.
    pose proof (StepOutcome_inv _ _ _ _ _ _ _ _ _ Hex HI Hnf Hstep) as HI1.
    destruct (step_bounded n newOp state w s1 w1 HI Hnf Hlen Hall Hnew Hstep)
      as [Hall1 Hlen1].
    destruct (finished s1) eqn:Hf1.
    + exists s1, w1. split; [done|]. split; [done | lia].
    + by apply IH.
Qed.

(** A step on an operation whose id the window does not hold pushes
    it. *)
Lemma stepBuilder_new state newOp i w :
  findExistingOp (items w (existingOps state)) newOp = None →
  stepBuilder sameOp state newOp i w
  = Ok (state, w_push (operations state) newOp w).
Proof. intros Hf. unfold stepBuilder, bind, readArray. by rewrite Hf. Qed.

Lemma syncLoop_unknown n state w :
  existingOps state ≠ operations state →
  finished state = false →
  (∀ op, op ∈ walkOps coreOperations buildOp n →
         findExistingOp (items w (existingOps state)) op = None) →
  ∃ w',
    syncLoop sameOp coreOperations buildOp n state w = Ok (state, w') ∧
    items w' (operations state) =
      items w (operations state) ++ walkOps coreOperations buildOp n ∧
    w_log w' = w_log w ∧
    w_next w' = w_next w ∧
    ∀ l, l ≠ operations state → items w' l = items w l.
Proof.
  intros Hne Hnf. revert w. induction n as [|n IH]; intros w Hnone; simpl.
  - exists w. by rewrite walkOps_0, app_nil_r.
  - rewrite walkOps_S in Hnone |- *.
    destruct (coreOperations !! n ≫= buildOp) as [op|]; [|by apply IH].
    unfold bind. rewrite stepBuilder_new by (apply Hnone; left). rewrite Hnf.
    destruct (IH (w_push (operations state) op w)) as (w' & -> & Hit & Hlog & Hn & Hfr).
    { intros op' Hop'. rewrite items_w_push_ne by done.
      apply Hnone. by right. }
    exists w'. split; [done|].
    rewrite Hit, items_w_push_eq, <- app_assoc. split; [done|].
    split; [done|]. split; [done|].
    intros l Hl. rewrite Hfr by done. by rewrite items_w_push_ne.
Qed.

End BuilderFacts.

(** X1. A call of either builder on an existing cache array returns, and
    the array it returns is the cache array or one that did not exist
    before the call.  Every array that existed before the call, the cache
    included, holds afterwards what it held before. *)
Theorem builders_leave_existing_arrays_alone
    (sameOp : Operation → Operation → bool) {CO}
    (coreOperations : list CO) (buildOp : CO → option Operation)
    (mergeSameHashOps : option (list Operation → Operation))
    (w : World) (existingOperations : loc) :
  allocated w existingOperations →
  (∃ r w',
     minimalOperationsBuilderSync sameOp coreOperations existingOperations
       buildOp w = Ok (r, w') ∧
     (r = existingOperations ∨ ¬ allocated w r) ∧
     ∀ l, allocated w l → items w' l = items w l) ∧
  (∃ r w',
     minimalOperationsBuilder sameOp coreOperations existingOperations
       buildOp mergeSameHashOps w = Ok (r, w') ∧
     (r = existingOperations ∨ ¬ allocated w r) ∧
     ∀ l, allocated w l → items w' l = items w l).
Proof.
  intros Hex. split.
  - destruct (minimalOperationsBuilderSync_end sameOp coreOperations buildOp
                w existingOperations Hex) as (r & w' & Heq & Hend).
    exists r, w'. split; [done|]. split.
    + by destruct (WalkEnd_result sameOp coreOperations w existingOperations
                     r w' Hend).
    + by eapply WalkEnd_frame.
  - destruct (minimalOperationsBuilder_end sameOp coreOperations buildOp
                w existingOperations Hex mergeSameHashOps)
      as (r & w' & Heq & Hend).
    exists r, w'. split; [done|]. split.
    + by destruct (WalkEnd_result sameOp coreOperations w existingOperations
                     r w' Hend).
    + by eapply WalkEnd_frame.
Qed.

(** X3. The synchronous builder never returns more operations than the
    raw list has records, and every operation it returns is one the
    adapter built from a raw record or an object of the cache. *)
Theorem output_is_bounded_by_the_raw_list
    (sameOp : Operation → Operation → bool) {CO}
    (coreOperations : list CO) (buildOp : CO → option Operation)
    (w : World) (existingOperations : loc) :
  allocated w existingOperations →
  ∃ r w',
    minimalOperationsBuilderSync sameOp coreOperations existingOperations
      buildOp w = Ok (r, w') ∧
    (length (items w' r) ≤ length coreOperations)%nat ∧
    ∀ x, x ∈ items w' r →
         x ∈ omap buildOp coreOperations ∨ x ∈ items w existingOperations.
Proof.
  intros Hex. unfold minimalOperationsBuilderSync, bind at 1, readArray.
  destruct (decide _) as [He|He].
  - apply early_exit_iff in He as [Hnil ->].
    exists existingOperations, w. split; [done|]. rewrite Hnil.
    split; [done|]. by intros x ?%elem_of_nil.
  - unfold initialState, bind at 1, bind at 1, newArray, ret at 1.
    destruct (syncLoop_bounded sameOp coreOperations buildOp w
                existingOperations Hex (length coreOperations)
                {| operations := w_next w; existingOps := existingOperations;
                   immutableOpCmpDoneOnce := false; finished := false |}
                (w_alloc [] w))
      as (s & w' & Heq & Hall & Hlen).
    + apply WalkInv_initial.
    + done.
    + simpl. rewrite items_w_alloc_eq. simpl. lia.
    + simpl. rewrite items_w_alloc_eq. constructor.
    + unfold bind. rewrite Heq. exists (operations s), w'.
      split; [done|]. split; [done|]. by apply Forall_forall.
Qed.

(** X4. When the cache holds no operation with the id of a built
    operation (an empty cache among others), the synchronous builder
    returns exactly the built operations, from the last raw record to the
    first, in a new array unless both lists are empty; it compares
    nothing and logs nothing. *)
Theorem unknown_ids_give_the_built_operations
    (sameOp : Operation → Operation → bool) {CO}
    (coreOperations : list CO) (buildOp : CO → option Operation)
    (w : World) (existingOperations : loc) :
  allocated w existingOperations →
  (∀ op, op ∈ omap buildOp coreOperations →
         findExistingOp (items w existingOperations) op = None) →
  ∃ r w',
    minimalOperationsBuilderSync sameOp coreOperations existingOperations
      buildOp w = Ok (r, w') ∧
    items w' r = omap buildOp (reverse coreOperations) ∧
    w_log w' = w_log w ∧
    (¬ (items w existingOperations = [] ∧ coreOperations = []) →
     r = w_next w ∧ ¬ allocated w r)  ∧
    items w' existingOperations = items w existingOperations.
Proof.
  intros Hex Hnone. unfold minimalOperationsBuilderSync, bind at 1, readArray.
  destruct (decide _) as [He|He].
  - apply early_exit_iff in He as [Hnil ->].
    exists existingOperations, w. split; [done|]. rewrite Hnil.
    split; [done|]. split; [done|]. split; [|done].
    intros Hn. exfalso. by apply Hn.
  - rewrite early_exit_iff in He.
    unfold initialState, bind at 1, bind at 1, newArray, ret at 1.
    assert (existingOperations ≠ w_next w) as Hne
      by (unfold allocated in Hex; lia).
    destruct (syncLoop_unknown sameOp coreOperations buildOp
                (length coreOperations)
                {| operations := w_next w; existingOps := existingOperations;
                   immutableOpCmpDoneOnce := false; finished := false |}
                (w_alloc [] w))
      as (w' & Heq & Hit & Hlog & Hn & Hfr).
    + done.
    + done.
    + simpl. intros op Hop. rewrite items_w_alloc_ne by done.
      apply Hnone. rewrite walkOps_all in Hop.
      apply list_elem_of_omap in Hop as (co & Hco & Hb).
      apply list_elem_of_omap. exists co. split; [|done].
      by apply elem_of_reverse.
    + unfold bind. rewrite Heq. simpl in *. exists (w_next w), w'.
      split; [done|]. rewrite Hit, items_w_alloc_eq, walkOps_all.
      split; [done|]. split; [done|]. split.
      * intros _. split; [done|]. unfold allocated. lia.
      * rewrite Hfr by done. by rewrite items_w_alloc_ne.
Qed.

(** ** More about the patcher *)

#[local] Arguments assignWhen : simpl never.

(** *** Computations that only allocate *)

Lemma grows_ret {A} (x : A) : grows (ret x).
Proof. intros w r w' [= _ <-]. done. Qed.

Lemma grows_throw {A} e : grows (@throw A e).
Proof. by intros w r w'. Qed.

Lemma grows_bind {A B} (m : M A) (k : A → M B) :
  grows m → (∀ x, grows (k x)) → grows (bind m k).
Proof.
  intros Hm Hk w r w'. unfold bind.
  destruct (m w) as [[x w1]|e] eqn:Hx; [|done].
  intros Hr. specialize (Hm _ _ _ Hx). specialize (Hk _ _ _ _ Hr). lia.
Qed.

Lemma grows_newObject : grows newObject.
Proof. intros w r w' [= _ <-]. simpl. lia. Qed.

Lemma grows_newArray xs : grows (newArray xs).
Proof. intros w r w' [= _ <-]. simpl. lia. Qed.

Lemma grows_liftRes {A} (r : Res A) : grows (liftRes r).
Proof. intros w x w'. unfold liftRes. destruct r; [|done]. by intros [= _ <-]. Qed.

Lemma grows_mapM {A B} (f : A → M B) xs :
  (∀ x, grows (f x)) → grows (mapM f xs).
Proof.
  intros Hf. induction xs as [|x xs IH]; simpl; [apply grows_ret|].
  apply grows_bind; [done|]. intros y.
  apply grows_bind; [done|]. intros ys. apply grows_ret.
Qed.

Lemma grows_if {A} (c : bool) (m1 m2 : M A) :
  grows m1 → grows m2 → grows (if c then m1 else m2).
Proof. by destruct c. Qed.

Section Returns.
Variable sameOp : Operation → Operation → bool.

Lemma StepOutcome_grows state newOp i w state' w' :
  StepOutcome sameOp state newOp i w state' w' →
  (w_next w ≤ w_next w')%nat.
Proof.
  intros Hstep.
  inversion Hstep as
    [Hf|e Hf Hd Hb|e w1 Hf Hd Hb Hs Hw1|e s1 w1 Hf Hc Hgt
     |e s1 w1 Hf Hc Hle Hz Hj|e s1 w1 Hf Hc Hle Hnz]; subst; simpl;
    try lia;
    destruct (Checked_frame _ _ _ _ _ _ _ Hc) as (_ & _ & _ & _ & Hn & _); lia.
Qed.

Lemma grows_stepBuilder state newOp i : grows (stepBuilder sameOp state newOp i).
Proof.
  intros w s' w' Heq.
  destruct (stepBuilder_outcome sameOp state newOp i w)
    as (s1 & w1 & Heq1 & Hstep).
  rewrite Heq1 in Heq. injection Heq as <- <-.
  by eapply StepOutcome_grows.
Qed.

(** The builder with a callback that only allocates only allocates. *)
Lemma grows_syncLoopM {CO} (core : list CO) buildOp n state :
  (∀ co, grows (buildOp co)) →
  grows (syncLoopM sameOp core buildOp n state).
Proof.
  intros Hb. revert state. induction n as [|n IH]; intros state; simpl.
  - apply grows_ret.
  - destruct (core !! n) as [co|]; [|apply IH].
    apply grows_bind; [apply Hb|]. intros [newOp|]; [|apply IH].
    apply grows_bind; [apply grows_stepBuilder|]. intros s.
    apply grows_if; [apply grows_ret | apply IH].
Qed.

Lemma grows_minimalOperationsBuilderSyncM {CO} (core : list CO) ex buildOp :
  (∀ co, grows (buildOp co)) →
  grows (minimalOperationsBuilderSyncM sameOp core ex buildOp).
Proof.
  intros Hb. unfold minimalOperationsBuilderSyncM, initialState.
  apply grows_bind; [by intros w r w' [= _ <-]|]. intros existing.
  destruct (decide _); [apply grows_ret|].
  apply grows_bind.
  { apply grows_bind; [apply grows_newArray|]. intros ?. apply grows_ret. }
  intros s. apply grows_bind; [by apply grows_syncLoopM|]. intros ?.
  apply grows_ret.
Qed.

(** On a callback without effects the two forms of the builder are one
    function. *)
Lemma syncLoopM_ret {CO} (core : list CO) (buildOp : CO → option Operation)
    n state w :
  syncLoopM sameOp core (λ co, ret (buildOp co)) n state w
  = syncLoop sameOp core buildOp n state w.
Proof.
  revert state w. induction n as [|n IH]; intros state w; simpl; [done|].
  destruct (core !! n) as [co|]; simpl; [|apply IH].
  unfold bind at 1, ret at 1.
  destruct (buildOp co) as [newOp|]; [|apply IH].
  unfold bind.
  destruct (stepBuilder sameOp state newOp (Z.of_nat n) w) as [[s w1]|e];
    [|done].
  destruct (finished s); [done | apply IH].
Qed.

Lemma minimalOperationsBuilderSyncM_ret {CO} (core : list CO) ex
    (buildOp : CO → option Operation) w :
  minimalOperationsBuilderSyncM sameOp core ex (λ co, ret (buildOp co)) w
  = minimalOperationsBuilderSync sameOp core ex buildOp w.
Proof.
  pose proof (syncLoopM_ret core buildOp) as Hloop. unfold ret in Hloop.
  unfold minimalOperationsBuilderSyncM, minimalOperationsBuilderSync.
  unfold initialState, bind, readArray, newArray, ret.
  destruct (decide _); [done|]. cbv beta iota. by rewrite Hloop.
Qed.

End Returns.

Section PatcherFacts.
Context `{Collaborators}.

Lemma grows_readIdentifier name : grows (readIdentifier name).
Proof.
  unfold readIdentifier. destruct (freeIdentifier name);
    [apply grows_throw | apply grows_ret].
Qed.

Lemma grows_fromOperationRaw raw id subs : grows (fromOperationRaw raw id subs).
Proof.
  unfold fromOperationRaw.
  repeat first
    [ apply grows_readIdentifier
    | apply grows_ret
    | apply grows_liftRes
    | apply grows_newObject
    | apply grows_bind; [|intros ?] ].
Qed.

Lemma grows_patchOperations ops raws id subs :
  grows (patchOperations ops raws id subs).
Proof.
  apply grows_minimalOperationsBuilderSyncM. intros raw.
  apply grows_bind; [apply grows_fromOperationRaw|]. intros ?.
  apply grows_ret.
Qed.

Lemma grows_fromSubAccountRaw raw : grows (fromSubAccountRaw raw).
Proof.
  unfold fromSubAccountRaw, fromChildAccountRaw, fromTokenAccountRaw.
  repeat first
    [ apply grows_if
    | apply grows_throw
    | apply grows_ret
    | apply grows_liftRes
    | apply grows_newArray
    | apply grows_newObject
    | apply grows_mapM; intros ?; apply grows_fromOperationRaw
    | apply grows_bind; [|intros ?] ].
Qed.

Lemma grows_patchSubAccount account raw : grows (patchSubAccount account raw).
Proof.
  unfold patchSubAccount.
  destruct account as [e|]; [|apply grows_fromSubAccountRaw].
  apply grows_if; [apply grows_fromSubAccountRaw|].
  repeat first
    [ apply grows_patchOperations
    | apply grows_newObject
    | apply grows_if
    | apply grows_ret
    | apply grows_bind; [|intros ?] ].
Qed.

Lemma grows_patchSubAccounts a raw : grows (patchSubAccounts a raw).
Proof.
  unfold patchSubAccounts.
  destruct (raw_subAccounts raw) as [rs|]; [|apply grows_ret].
  apply grows_bind.
  { destruct (acc_subAccounts a); [apply grows_ret|].
    apply grows_bind; [apply grows_newObject|]. intros ?. apply grows_ret. }
  intros existing. apply grows_bind.
  { apply grows_mapM. intros ta. unfold patchSubAccountEntry.
    apply grows_bind; [apply grows_patchSubAccount|]. intros ?.
    apply grows_ret. }
  intros patched. apply grows_bind; [apply grows_newObject|]. intros mapped.
  apply grows_if; apply grows_ret.
Qed.

(** The short cut of [patchOperations], with the store it leaves. *)
Lemma patchOperations_matching_head ops raw raws id subs w c rest :
  allocated w ops →
  items w ops = c :: rest →
  (length (c :: rest) ≤ length (raw :: raws))%nat →
  (∀ v, ∃ op v',
     fromOperationRaw raw id subs v = Ok (op, v') ∧
     op_id c = op_id op ∧
     op_blockHeight c = op_blockHeight op ∧
     sameOp c op = true) →
  ∃ w',
    patchOperations ops (raw :: raws) id subs w = Ok (ops, w') ∧
    extends w w'.
Proof.
  intros Ha Hit Hlen Hdec. unfold allocated in Ha.
  unfold patchOperations, minimalOperationsBuilderSyncM.
  unfold bind at 1, readArray. rewrite Hit.
  rewrite decide_False by (unfold Array_length; simpl; lia).
  unfold initialState. unfold bind at 1. unfold bind at 1, newArray, ret at 1.
  rewrite length_reverse. simpl length.
  cbn [syncLoopM].
  assert (reverse (raw :: raws) !! length raws = Some raw) as ->.
  { rewrite reverse_lookup by (simpl; lia).
    replace (length (raw :: raws) - S (length raws))%nat with 0%nat
      by (simpl; lia). done. }
  destruct (Hdec (w_alloc [] w)) as (op & v' & Heq & Hid & Hbh & Hsame).
  pose proof (fromOperationRaw_inv _ _ _ _ _ _ Heq) as (-> & _).
  unfold bind at 1. unfold bind at 1. unfold bind at 1. rewrite Heq.
  unfold ret at 1. cbv beta iota.
  assert (items (w_bump (w_alloc [] w)) ops = c :: rest) as Hit'.
  { rewrite items_w_bump, items_w_alloc_ne by lia. done. }
  assert (stepBuilder sameOp
            {| finished := false; operations := w_next w; existingOps := ops;
               immutableOpCmpDoneOnce := false |} op
            (Z.of_nat (length raws)) (w_bump (w_alloc [] w))
          = Ok ({| operations := ops; existingOps := ops;
                   immutableOpCmpDoneOnce := true; finished := true |},
                w_emit (EvSameOp c op) (w_bump (w_alloc [] w)))) as Hstep.
  { unfold stepBuilder, bind at 1, readArray.
    cbn [existingOps immutableOpCmpDoneOnce].
    rewrite Hit'. unfold findExistingOp. cbn [Array_find].
    rewrite bool_decide_eq_true_2 by done. cbn [negb].
    rewrite bool_decide_eq_false_2 by (intros Hn; by apply Hn).
    unfold bind at 1, emit. rewrite Hsame. cbn [negb].
    unfold stepBuilder_tail, bind at 1, readArray.
    unfold setCmpDone. cbn [existingOps operations immutableOpCmpDoneOnce].
    rewrite items_w_emit, Hit'.
    unfold Array_indexOf. cbn [Array_indexOf_from].
    rewrite bool_decide_eq_true_2 by done.
    rewrite Array_slice_0.
    rewrite decide_False by (unfold Array_length; simpl in *; lia).
    unfold bind at 1.
    rewrite items_w_emit, items_w_bump, items_w_alloc_eq.
    rewrite decide_True by done. done. }
  unfold bind at 1. rewrite Hstep. cbn [finished operations].
  unfold ret. simpl.
  eexists. split; [reflexivity|].
  split; [simpl; lia|]. intros l Hl. unfold allocated in Hl.
  rewrite items_w_emit, items_w_bump, items_w_alloc_ne by lia. done.
Qed.


(** *** What the patched account holds *)

Lemma patchAccountFields_rest a raw sa o1 p1 ref :
  acc_rest (patchAccountFields a raw sa o1 p1 (set_acc_ref ref a, false)).1
  = acc_rest a.
Proof.
  unfold patchAccountFields.
  destruct (raw_balanceHistoryCache raw) as [b|]; cbv zeta;
    through (@acc_rest _); reflexivity.
Qed.

(** The [switch] on an account whose family it names, or whose bridge
    has no reconciliation hook: it returns, in the same store, a pair
    that differs from the one it got in the family payloads only, and
    never lowers the flag. *)
Lemma patchFamilyResources_returns a raw p w :
  (acc_family a = "bitcoin" ∨ acc_family a = "polkadot" ∨
   acc_family a = "zilliqa" ∨ acc_family a = "crypto_org" ∨
   applyReconciliation (getAccountBridge a) = None) →
  ∃ pR, patchFamilyResources a raw p w = Ok (pR, w) ∧
        withoutFamilyResources pR.1 = withoutFamilyResources p.1 ∧
        (p.2 = true → pR.2 = true) ∧
        (acc_family a ≠ "bitcoin" → pR.2 = false → p.2 = false ∧ pR.1 = p.1).
Proof.
  intros Hhook. unfold patchFamilyResources.
  assert (∀ toRaw fromRaw existing rawr assign,
            (∀ v x, withoutFamilyResources (assign v x)
                    = withoutFamilyResources x) →
            let q := familyResourcesStep toRaw fromRaw existing rawr assign p in
            withoutFamilyResources q.1 = withoutFamilyResources p.1 ∧
            (p.2 = true → q.2 = true) ∧
            (q.2 = false → p.2 = false ∧ q.1 = p.1)) as Hstep.
  { intros toRaw fromRaw existing rawr assign Hassign.
    unfold familyResourcesStep. destruct rawr as [r|]; [|done].
    destruct (match existing with
              | Some resources => negb (areSameResources (toRaw resources) r)
              | None => true
              end); simpl; [|done].
    split; [apply Hassign|]. done. }
  case_bool_decide as Hbt.
  { destruct (shouldRefreshBitcoinResources_reads raw a w) as [b Hb].
    unfold bind. rewrite Hb. destruct b; eexists; (split; [reflexivity|]);
      simpl; (split; [done|]); (split; [done|]); done. }
  case_bool_decide as Hpk.
  { eexists. split; [reflexivity|].
    destruct (Hstep toPolkadotResourcesRaw fromPolkadotResourcesRaw
                (acc_polkadotResources a) (raw_polkadotResources raw)
                set_acc_polkadotResources (λ _ _, eq_refl)) as (? & ? & ?).
    done. }
  case_bool_decide as Hzq.
  { eexists. split; [reflexivity|].
    destruct (Hstep toZilliqaResourcesRaw fromZilliqaResourcesRaw
                (acc_zilliqaResources a) (raw_zilliqaResources raw)
                set_acc_zilliqaResources (λ _ _, eq_refl)) as (? & ? & ?).
    done. }
  case_bool_decide as Hco.
  { eexists. split; [reflexivity|].
    destruct (Hstep toCryptoOrgResourcesRaw fromCryptoOrgResourcesRaw
                (acc_cryptoOrgResources a) (raw_cryptoOrgResources raw)
                set_acc_cryptoOrgResources (λ _ _, eq_refl)) as (? & ? & ?).
    done. }
  destruct Hhook as [?|[?|[?|[?|Hnone]]]]; try done.
  rewrite Hnone. by eexists.
Qed.

(** The account [patchAccount] returns, read field by field, whatever
    the snapshot holds. *)
Lemma patchAccount_mirror a raw sa o1 p1 ref pR :
  let pF := patchAccountFields a raw sa o1 p1 (set_acc_ref ref a, false) in
  withoutFamilyResources pR.1 = withoutFamilyResources pF.1 →
  (pF.2 = true → pR.2 = true) →
  let pN := patchNfts a raw pR in
  let res := if pN.2 then pN.1 else a in
  (res = a ∨ acc_ref res = ref) ∧
  acc_id res = acc_id a ∧
  acc_family res = acc_family a ∧
  acc_rest res = acc_rest a ∧
  acc_operations res = o1 ∧
  acc_pendingOperations res = p1 ∧
  acc_freshAddress res = raw_freshAddress raw ∧
  acc_freshAddressPath res = raw_freshAddressPath raw ∧
  acc_blockHeight res = raw_blockHeight raw ∧
  acc_syncHash res = raw_syncHash raw ∧
  acc_nfts res
    = ((λ raws : list ProtoNFTRaw, fromNFTRaw <$> raws) <$> raw_nfts raw) ∧
  acc_operationsCount res
    = default (acc_operationsCount a) (truthyNumber (raw_operationsCount raw)) ∧
  (sa = None → acc_subAccounts res = acc_subAccounts a) ∧
  (raw_balanceHistoryCache raw = None →
   acc_balanceHistoryCache res = acc_balanceHistoryCache a) ∧
  (∀ b, raw_balanceHistoryCache raw = Some b →
        shouldRefreshBalanceHistoryCache b (acc_balanceHistoryCache res)
        = false) ∧
  (truthyString (raw_creationDate raw) = None →
   acc_creationDate res = acc_creationDate a).
Proof.
  intros pF Hwo Hup pN res.
  destruct (patchAccountFields_fst a raw sa o1 p1 ref)
    as (Fref & Fid & Ffam & Fpk & Fzq & Fco & Fnfts & Fsubs & Fops & Fpend
        & Fcount & Fbal & Fsp & Fls & Fcd & Ffa & Ffp & Fbh & Fsh & Fbhc).
  pose proof (patchAccountFields_rest a raw sa o1 p1 ref) as Frest.
  fold pF in Fref, Fid, Ffam, Fpk, Fzq, Fco, Fnfts, Fsubs, Fops, Fpend,
    Fcount, Fbal, Fsp, Fls, Fcd, Ffa, Ffp, Fbh, Fsh, Fbhc, Frest.
  assert (∀ count rawcount,
            (if bool_decide (Some count ≠ rawcount)
                && bool_decide (is_Some (truthyNumber rawcount))
             then default 0 rawcount else count)
            = default count (truthyNumber rawcount)) as Hcount.
  { intros count [n|]; [|done]. simpl.
    destruct (bool_decide (n = 0)) eqn:Hz; simpl.
    - by rewrite andb_false_r.
    - rewrite andb_true_r.
      destruct (bool_decide (Some count ≠ Some n)) eqn:Hd; [done|].
      apply not_ne_eq in Hd. by injection Hd. }
  subst res. destruct (pN.2) eqn:HN; subst pN.
  - assert (∀ {B} (g : Account → B),
              (∀ v z, g (set_acc_nfts v z) = g z) →
              (∀ z, g (withoutFamilyResources z) = g z) →
              g (patchNfts a raw pR).1 = g pF.1) as Hg.
    { intros B g Hn Hw. rewrite (patchNfts_other g) by exact Hn.
      by apply family_other. }
    split; [right; by rewrite (Hg _ (@acc_ref _))|].
    split; [by rewrite (Hg _ (@acc_id _))|].
    split; [by rewrite (Hg _ (@acc_family _))|].
    split; [by rewrite (Hg _ (@acc_rest _))|].
    split; [by rewrite (Hg _ (@acc_operations _))|].
    split; [by rewrite (Hg _ (@acc_pendingOperations _))|].
    split; [by rewrite (Hg _ (@acc_freshAddress _))|].
    split; [by rewrite (Hg _ (@acc_freshAddressPath _))|].
    split; [by rewrite (Hg _ (@acc_blockHeight _))|].
    split; [by rewrite (Hg _ (@acc_syncHash _))|].
    split.
    { apply (patchNfts_nfts a raw pR HN).
      rewrite <- Fnfts. by apply (family_other (@acc_nfts _)). }
    split; [rewrite (Hg _ (@acc_operationsCount _)), Fcount by done;
            apply Hcount|].
    split; [intros ->; by rewrite (Hg _ (@acc_subAccounts _)), Fsubs|].
    split; [intros Hb; rewrite (Hg _ (@acc_balanceHistoryCache _)), Fbhc by done;
            by rewrite Hb|].
    split; [rewrite (Hg _ (@acc_balanceHistoryCache _)), Fbhc by done;
            apply bhc_agrees|].
    intros Hc. rewrite (Hg _ (@acc_creationDate _)), Fcd by done.
    by rewrite Hc.
  - apply patchNfts_unchanged in HN as [HR Hn].
    assert (pF.2 = false) as HF.
    { destruct (pF.2) eqn:HF; [|done]. by rewrite (Hup eq_refl) in HR. }
    destruct (patchAccountFields_unchanged a raw sa o1 p1 _ HF)
      as (Usubs & Uops & Upend & Ucount & Ubal & Usp & Uls & Ucd & Ufa & Ufp
          & Ubh & Ush & Ubhc).
    split; [by left|].
    repeat (split; [done|]).
    split; [by rewrite <- Hcount, Ucount|].
    split; [done|]. split; [done|]. split; [done|]. done.
Qed.

(** The [switch] returns, and in the store it was called in. *)
Lemma patchFamilyResources_total a raw p w :
  ∃ pR, patchFamilyResources a raw p w = Ok (pR, w).
Proof.
  unfold patchFamilyResources.
  case_bool_decide.
  { destruct (shouldRefreshBitcoinResources_reads raw a w) as [b Hb].
    unfold bind. rewrite Hb. destruct b; by eexists. }
  repeat (case_bool_decide; [by eexists|]).
  destruct (applyReconciliation (getAccountBridge a)); [|by eexists].
  destruct p.2; by eexists.
Qed.


(** [patchAccount] on an account of the snapshot's id, cut after the
    field comparisons: when it returns, the result is read off the pair
    the [switch] returns. *)
Lemma patchAccount_inv a raw w a1 w1 :
  acc_id a = raw_id raw →
  patchAccount a raw w = Ok (a1, w1) →
  ∃ sa o1 p1 wc pR,
    (w_next w ≤ w_next wc)%nat ∧
    w1 = w_bump wc ∧
    (raw_subAccounts raw = None → sa = None) ∧
    patchFamilyResources a raw
      (patchAccountFields a raw sa o1 p1 (set_acc_ref (w_next wc) a, false))
      (w_bump wc) = Ok (pR, w_bump wc) ∧
    a1 = if (patchNfts a raw pR).2 then (patchNfts a raw pR).1 else a.
Proof.
  intros Hid Heq. unfold patchAccount in Heq.
  rewrite Hid, bool_decide_ne_same in Heq.
  bind_inv Heq. rename x into sa, v into wa, Hm into Hsubs.
  bind_inv Heq. rename x into o1, v into wb, Hm into Hops.
  bind_inv Heq. rename x into p1, v into wc, Hm into Hpend.
  unfold bind at 1, newObject at 1 in Heq.
  pose proof (grows_patchSubAccounts a raw _ _ _ Hsubs) as Hna.
  pose proof (grows_patchOperations _ _ _ _ _ _ _ Hops) as Hnb.
  pose proof (grows_patchOperations _ _ _ _ _ _ _ Hpend) as Hnc.
  destruct (patchFamilyResources_total a raw
              (patchAccountFields a raw sa o1 p1
                 (set_acc_ref (w_next wc) a, false)) (w_bump wc))
    as [pR HeqR].
  unfold bind in Heq. rewrite HeqR in Heq.
  exists sa, o1, p1, wc, pR.
  split; [lia|].
  assert (a1 = (if (patchNfts a raw pR).2 then (patchNfts a raw pR).1 else a)
          ∧ w1 = w_bump wc) as [-> ->].
  { destruct (patchNfts a raw pR).2; by injection Heq as <- <-. }
  split; [done|]. split; [|done].
  intros Hnone. unfold patchSubAccounts in Hsubs. rewrite Hnone in Hsubs.
  by injection Hsubs as <- _.
Qed.

(** X8. What [patchAccount] returns, when it returns, on an account of
    the snapshot's id and of a family the [switch] names or without
    reconciliation hook: the cached account or an object that did not
    exist before.  Either way it has the id, the family and the
    uncompared fields of the cached account; its freshAddress,
    freshAddressPath, blockHeight, syncHash and NFTs are those of the
    snapshot; its operationsCount is the snapshot's unless that is
    missing or 0; a snapshot without sub-accounts, without balance
    history or without creation date leaves the cached ones. *)
Theorem patched_account_mirrors_the_snapshot a raw w a1 w1 :
  acc_id a = raw_id raw →
  (acc_family a = "bitcoin" ∨ acc_family a = "polkadot" ∨
   acc_family a = "zilliqa" ∨ acc_family a = "crypto_org" ∨
   applyReconciliation (getAccountBridge a) = None) →
  patchAccount a raw w = Ok (a1, w1) →
  (a1 = a ∨ ¬ allocated w (acc_ref a1)) ∧
  acc_id a1 = acc_id a ∧
  acc_family a1 = acc_family a ∧
  acc_rest a1 = acc_rest a ∧
  acc_freshAddress a1 = raw_freshAddress raw ∧
  acc_freshAddressPath a1 = raw_freshAddressPath raw ∧
  acc_blockHeight a1 = raw_blockHeight raw ∧
  acc_syncHash a1 = raw_syncHash raw ∧
  acc_nfts a1
    = ((λ raws : list ProtoNFTRaw, fromNFTRaw <$> raws) <$> raw_nfts raw) ∧
  acc_operationsCount a1
    = default (acc_operationsCount a)
        (truthyNumber (raw_operationsCount raw)) ∧
  (raw_subAccounts raw = None → acc_subAccounts a1 = acc_subAccounts a) ∧
  (raw_balanceHistoryCache raw = None →
   acc_balanceHistoryCache a1 = acc_balanceHistoryCache a) ∧
  (∀ b, raw_balanceHistoryCache raw = Some b →
        shouldRefreshBalanceHistoryCache b (acc_balanceHistoryCache a1)
        = false) ∧
  (truthyString (raw_creationDate raw) = None →
   acc_creationDate a1 = acc_creationDate a).
Proof.
  intros Hid Hhook Heq.
  destruct (patchAccount_inv a raw w a1 w1 Hid Heq)
    as (sa & o1 & p1 & wc & pR & Hn & -> & Hnosubs & HeqR & ->).
  set (pF := patchAccountFields a raw sa o1 p1
               (set_acc_ref (w_next wc) a, false)) in *.
  destruct (patchFamilyResources_returns a raw pF (w_bump wc) Hhook)
    as (pR' & HeqR' & Hwo & Hup & Hdown).
  rewrite HeqR in HeqR'. injection HeqR' as <-.
  destruct (patchAccount_mirror a raw sa o1 p1 (w_next wc) pR Hwo Hup)
    as (Rref & Rid & Rfam & Rrest & _ & _ & Rfa & Rfp & Rbh & Rsh & Rnfts
        & Rcount & Rsubs & Rbhc0 & Rbhc & Rcd).
  split.
  { destruct Rref as [->|Rref]; [by left|]. right. rewrite Rref.
    unfold allocated. lia. }
  repeat (split; [done|]).
  split; [|split; [done|]; split; done].
  intros Hnone. apply Rsubs. by apply Hnosubs.
Qed.

(** *** The family payloads *)

Lemma patchAccountFields_bitcoin a raw sa o1 p1 ref :
  acc_bitcoinResources
    (patchAccountFields a raw sa o1 p1 (set_acc_ref ref a, false)).1
  = acc_bitcoinResources a.
Proof.
  unfold patchAccountFields.
  destruct (raw_balanceHistoryCache raw) as [b|]; cbv zeta;
    through (@acc_bitcoinResources _); reflexivity.
Qed.

Lemma patchNfts_up a raw p : p.2 = true → (patchNfts a raw p).2 = true.
Proof.
  intros Hp. unfold patchNfts. case_bool_decide; [done|].
  by rewrite assignWhen_snd, Hp, orb_true_r.
Qed.

(** One branch of the [switch], followed to the returned account. *)
Lemma family_step_result toRaw fromRaw (g : Account → option FamilyResources)
    assign a raw rawr (pF : Account * bool) :
  (∀ v x, g (assign v x) = v) →
  (∀ v x, acc_ref (assign v x) = acc_ref x) →
  (∀ v z, g (set_acc_nfts v z) = g z) →
  g pF.1 = g a →
  let pR := familyResourcesStep toRaw fromRaw (g a) rawr assign pF in
  let res := if (patchNfts a raw pR).2 then (patchNfts a raw pR).1 else a in
  (∀ r, rawr = Some r →
        (∀ res0, g a = Some res0 → toRaw res0 ≠ r) →
        acc_ref res = acc_ref pF.1 ∧ g res = Some (fromRaw r)) ∧
  ((rawr = None ∨ ∃ res0, g a = Some res0 ∧ rawr = Some (toRaw res0)) →
   g res = g a).
Proof.
  intros Hget Href Hnfts HpF pR res. split.
  - intros r -> Hdiff. subst res pR. unfold familyResourcesStep.
    assert (match g a with
            | Some resources => negb (areSameResources (toRaw resources) r)
            | None => true
            end = true) as ->.
    { destruct (g a) as [res0|]; [|done]. unfold areSameResources.
      rewrite bool_decide_eq_false_2; [done|]. by apply Hdiff. }
    unfold assignWhen at 1 2 3. cbv iota.
    rewrite patchNfts_up by done.
    rewrite (patchNfts_other (@acc_ref _)) by done.
    rewrite (patchNfts_other g) by done. simpl. by rewrite Href, Hget.
  - intros Hsame.
    assert (pR = pF) as ->.
    { subst pR. apply familyResourcesStep_agrees.
      intros r Hr. destruct Hsame as [Hn|(res0 & Hres & Hraw)]; [congruence|].
      exists res0. split; [done | congruence]. }
    subst res. destruct (patchNfts a raw pF).2; [|done].
    by rewrite (patchNfts_other g).
Qed.

(** X9. The staking families.  When [patchAccount] returns on a
    polkadot, zilliqa or crypto_org account whose snapshot carries
    resources while the cached account has none, or has resources whose
    raw form is not the snapshot's, what it returns is an object that did
    not exist before, holding the decoded resources of the snapshot.
    When the snapshot carries no resources, or the raw form of the cached
    ones, the returned account has the cached resources. *)
Theorem staking_resources_follow_the_snapshot a raw w a1 w1 :
  acc_id a = raw_id raw →
  patchAccount a raw w = Ok (a1, w1) →
  (acc_family a = "polkadot" →
   (∀ r, raw_polkadotResources raw = Some r →
         (∀ res, acc_polkadotResources a = Some res →
                 toPolkadotResourcesRaw res ≠ r) →
         ¬ allocated w (acc_ref a1) ∧
         acc_polkadotResources a1 = Some (fromPolkadotResourcesRaw r)) ∧
   ((raw_polkadotResources raw = None ∨
     ∃ res, acc_polkadotResources a = Some res ∧
            raw_polkadotResources raw = Some (toPolkadotResourcesRaw res)) →
    acc_polkadotResources a1 = acc_polkadotResources a)) ∧
  (acc_family a = "zilliqa" →
   (∀ r, raw_zilliqaResources raw = Some r →
         (∀ res, acc_zilliqaResources a = Some res →
                 toZilliqaResourcesRaw res ≠ r) →
         ¬ allocated w (acc_ref a1) ∧
         acc_zilliqaResources a1 = Some (fromZilliqaResourcesRaw r)) ∧
   ((raw_zilliqaResources raw = None ∨
     ∃ res, acc_zilliqaResources a = Some res ∧
            raw_zilliqaResources raw = Some (toZilliqaResourcesRaw res)) →
    acc_zilliqaResources a1 = acc_zilliqaResources a)) ∧
  (acc_family a = "crypto_org" →
   (∀ r, raw_cryptoOrgResources raw = Some r →
         (∀ res, acc_cryptoOrgResources a = Some res →
                 toCryptoOrgResourcesRaw res ≠ r) →
         ¬ allocated w (acc_ref a1) ∧
         acc_cryptoOrgResources a1 = Some (fromCryptoOrgResourcesRaw r)) ∧
   ((raw_cryptoOrgResources raw = None ∨
     ∃ res, acc_cryptoOrgResources a = Some res ∧
            raw_cryptoOrgResources raw
            = Some (toCryptoOrgResourcesRaw res)) →
    acc_cryptoOrgResources a1 = acc_cryptoOrgResources a)).
Proof.
  intros Hid Heq.
  destruct (patchAccount_inv a raw w a1 w1 Hid Heq)
    as (sa & o1 & p1 & wc & pR & Hn & -> & _ & HeqR & ->).
  set (pF := patchAccountFields a raw sa o1 p1
               (set_acc_ref (w_next wc) a, false)) in *.
  destruct (patchAccountFields_fst a raw sa o1 p1 (w_next wc))
    as (Fref & _ & _ & Fpk & Fzq & Fco & _).
  fold pF in Fref, Fpk, Fzq, Fco.
  assert (¬ allocated w (w_next wc)) as Hfresh
    by (unfold allocated; lia).
  split; [|split].
  - intros Hpk.
    assert (pR = familyResourcesStep toPolkadotResourcesRaw
                   fromPolkadotResourcesRaw (acc_polkadotResources a)
                   (raw_polkadotResources raw)
                   set_acc_polkadotResources pF) as ->.
    { revert HeqR. unfold patchFamilyResources.
      rewrite bool_decide_eq_false_2 by (rewrite Hpk; done).
      rewrite bool_decide_eq_true_2 by done. unfold ret. by intros [= <-]. }
    destruct (family_step_result toPolkadotResourcesRaw
                fromPolkadotResourcesRaw (@acc_polkadotResources _)
                set_acc_polkadotResources a raw (raw_polkadotResources raw) pF
                (λ _ _, eq_refl) (λ _ _, eq_refl) (λ _ _, eq_refl) Fpk)
      as [Hnew Hsame].
    split; [|done]. intros r Hr Hdiff.
    destruct (Hnew r Hr Hdiff) as [Href Hres]. split; [|done].
    by rewrite Href, Fref.
  - intros Hzq.
    assert (pR = familyResourcesStep toZilliqaResourcesRaw
                   fromZilliqaResourcesRaw (acc_zilliqaResources a)
                   (raw_zilliqaResources raw)
                   set_acc_zilliqaResources pF) as ->.
    { revert HeqR. unfold patchFamilyResources.
      rewrite bool_decide_eq_false_2 by (rewrite Hzq; done).
      rewrite bool_decide_eq_false_2 by (rewrite Hzq; done).
      rewrite bool_decide_eq_true_2 by done. unfold ret. by intros [= <-]. }
    destruct (family_step_result toZilliqaResourcesRaw
                fromZilliqaResourcesRaw (@acc_zilliqaResources _)
                set_acc_zilliqaResources a raw (raw_zilliqaResources raw) pF
                (λ _ _, eq_refl) (λ _ _, eq_refl) (λ _ _, eq_refl) Fzq)
      as [Hnew Hsame].
    split; [|done]. intros r Hr Hdiff.
    destruct (Hnew r Hr Hdiff) as [Href Hres]. split; [|done].
    by rewrite Href, Fref.
  - intros Hco.
    assert (pR = familyResourcesStep toCryptoOrgResourcesRaw
                   fromCryptoOrgResourcesRaw (acc_cryptoOrgResources a)
                   (raw_cryptoOrgResources raw)
                   set_acc_cryptoOrgResources pF) as ->.
    { revert HeqR. unfold patchFamilyResources.
      rewrite bool_decide_eq_false_2 by (rewrite Hco; done).
      rewrite bool_decide_eq_false_2 by (rewrite Hco; done).
      rewrite bool_decide_eq_false_2 by (rewrite Hco; done).
      rewrite bool_decide_eq_true_2 by done. unfold ret. by intros [= <-]. }
    destruct (family_step_result toCryptoOrgResourcesRaw
                fromCryptoOrgResourcesRaw (@acc_cryptoOrgResources _)
                set_acc_cryptoOrgResources a raw (raw_cryptoOrgResources raw) pF
                (λ _ _, eq_refl) (λ _ _, eq_refl) (λ _ _, eq_refl) Fco)
      as [Hnew Hsame].
    split; [|done]. intros r Hr Hdiff.
    destruct (Hnew r Hr Hdiff) as [Href Hres]. split; [|done].
    by rewrite Href, Fref.
Qed.

(** X10. The bitcoin branch.  When [patchAccount] returns on a bitcoin
    account whose snapshot carries resources and another block height,
    what it returns is a new object that holds the decoded resources of
    the snapshot, whether or not they differ from the cached ones.  A
    snapshot without resources leaves the cached ones. *)
Theorem bitcoin_resources_ride_on_another_change a raw w a1 w1 :
  acc_id a = raw_id raw →
  acc_family a = "bitcoin" →
  patchAccount a raw w = Ok (a1, w1) →
  (∀ r, raw_bitcoinResources raw = Some r →
        raw_blockHeight raw ≠ acc_blockHeight a →
        ¬ allocated w (acc_ref a1) ∧
        acc_bitcoinResources a1 = Some (fromBitcoinResourcesRaw r)) ∧
  (raw_bitcoinResources raw = None →
   acc_bitcoinResources a1 = acc_bitcoinResources a).
Proof.
  intros Hid Hf Heq.
  destruct (patchAccount_inv a raw w a1 w1 Hid Heq)
    as (sa & o1 & p1 & wc & pR & Hn & -> & _ & HeqR & ->).
  set (pF := patchAccountFields a raw sa o1 p1
               (set_acc_ref (w_next wc) a, false)) in *.
  split.
  - intros r Hr Hbh.
    assert (pR = (set_acc_bitcoinResources (Some (fromBitcoinResourcesRaw r))
                    pF.1, pF.2)) as ->.
    { revert HeqR. unfold patchFamilyResources.
      rewrite bool_decide_eq_true_2 by done.
      unfold shouldRefreshBitcoinResources. rewrite Hr.
      destruct (acc_bitcoinResources a) as [existing|].
      - rewrite bool_decide_eq_true_2 by done.
        unfold bind, ret. by intros [= <-].
      - unfold bind, ret. by intros [= <-]. }
    assert (pF.2 = true) as HF.
    { destruct (pF.2) eqn:HF; [done|]. exfalso.
      destruct (patchAccountFields_unchanged a raw sa o1 p1 _ HF)
        as (_ & _ & _ & _ & _ & _ & _ & _ & _ & _ & Ubh & _).
      by apply Hbh. }
    rewrite patchNfts_up by done.
    rewrite (patchNfts_other (@acc_ref _)) by done.
    rewrite (patchNfts_other (@acc_bitcoinResources _)) by done. simpl.
    split; [|done].
    destruct (patchAccountFields_fst a raw sa o1 p1 (w_next wc)) as [Fref _].
    fold pF in Fref. rewrite Fref. unfold allocated. lia.
  - intros Hr.
    assert (pR = pF) as ->.
    { revert HeqR. unfold patchFamilyResources.
      rewrite bool_decide_eq_true_2 by done.
      unfold shouldRefreshBitcoinResources. rewrite Hr.
      unfold bind, ret. by intros [= <-]. }
    destruct (patchNfts a raw pF).2; [|done].
    rewrite (patchNfts_other (@acc_bitcoinResources _)) by done.
    apply patchAccountFields_bitcoin.
Qed.

(** *** Decoding an account with sub-accounts *)

(** X11. [fromAccountRaw] and the raw sub-accounts.  When it returns,
    every raw sub-account has one of the two known types; the decoded
    account holds, in the order of the snapshot, one sub-account for each
    raw one that is not a token account of an unknown token, with the id,
    the parent and the kind of its raw record, in a list that did not
    exist before.  Token accounts of unknown tokens are left out without
    an error.  A snapshot without sub-accounts gives an account without
    sub-accounts.  (The bridge hook, if any, is assumed to leave the
    sub-accounts alone.) *)
Theorem fromAccountRaw_keeps_known_subAccounts raw w a w' :
  (∀ x assign, assignFromAccountRaw (getAccountBridge x) = Some assign →
               acc_subAccounts (assign raw x) = acc_subAccounts x) →
  fromAccountRaw raw w = Ok (a, w') →
  match raw_subAccounts raw with
  | None => acc_subAccounts a = None
  | Some rs =>
      Forall (λ ta, subRaw_type ta = "ChildAccountRaw" ∨
                    subRaw_type ta = "TokenAccountRaw") rs ∧
      ∃ arr,
        acc_subAccounts a = Some arr ∧
        ¬ allocated w (subs_ref arr) ∧
        Forall2 (λ sa ta,
                   sub_id sa = subRaw_id ta ∧
                   sub_parentId sa = subRaw_parentId ta ∧
                   (sub_kind sa = ChildAccount ↔
                    subRaw_type ta = "ChildAccountRaw"))
          (subs_items arr)
          (filter (λ ta, subRaw_type ta ≠ "TokenAccountRaw" ∨
                         findTokenById (subRaw_tokenId ta) = true) rs)
  end.
Proof.
  intros Hhook Heq.
  apply fromAccountRaw_rebuilt in Heq as (res & Hres & ->).
  assert (acc_subAccounts
            (match assignFromAccountRaw (getAccountBridge res) with
             | Some assign => assign raw res
             | None => res
             end) = acc_subAccounts res) as ->.
  { pose proof (Hhook res) as Hx.
    destruct (assignFromAccountRaw (getAccountBridge res)) as [assign|];
      [by apply Hx | done]. }
  unfold rebuiltAccount in Hres. cbv zeta in Hres.
  do 25 apply proj2 in Hres. rename Hres into Hsubs.
  destruct (raw_subAccounts raw) as [rs|]; [|done].
  destruct Hsubs as (Hv & arr & Harr & Hfresh & HF).
  split; [done|]. exists arr. split; [done|]. split; [done|].
  eapply Forall2_impl; [exact HF|]. by intros sa ta (_ & ? & ? & ?).
Qed.

End PatcherFacts.

(** ** Round trips through the raw forms *)

(** X12. An NFT survives encoding and decoding exactly when its amount
    survives [toFixed] and [new BigNumber]; a raw NFT survives decoding
    and encoding exactly when its amount string is what [toFixed] prints
    for the decimal it decodes to.  Every other field is copied. *)
Theorem nft_round_trips `{Encoders} (nft : ProtoNFT) (raw : ProtoNFTRaw) :
  (fromNFTRaw (toNFTRaw nft) = nft
   ↔ BigNumber_new (BigNumber_toFixed (nft_amount nft)) = nft_amount nft) ∧
  (toNFTRaw (fromNFTRaw raw) = raw
   ↔ BigNumber_toFixed (BigNumber_new (nftRaw_amount raw))
     = nftRaw_amount raw).
Proof.
  split.
  - destruct nft as [i t a c s cu m]. unfold fromNFTRaw, toNFTRaw. simpl.
    split; [by intros [= Ha] | by intros ->].
  - destruct raw as [i t a c s cu m]. unfold fromNFTRaw, toNFTRaw. simpl.
    split; [by intros [= Ha] | by intros ->].
Qed.

Section Swaps.
Context `{Primitives}.
Variable SwapFields : Type.

(** X13. A swap operation survives encoding and decoding exactly when
    its two amounts survive [toString] and [new BigNumber]; the other
    fields are copied by the spread. *)
Theorem swap_operation_round_trips (so : SwapOperation SwapFields)
    (raw : SwapOperationRaw SwapFields) :
  (fromSwapOperationRaw SwapFields (toSwapOperationRaw SwapFields so) = so
   ↔ BigNumber_new (BigNumber_toString (swap_fromAmount _ so))
       = swap_fromAmount _ so ∧
     BigNumber_new (BigNumber_toString (swap_toAmount _ so))
       = swap_toAmount _ so) ∧
  swap_fields _ (fromSwapOperationRaw SwapFields raw) = swapRaw_fields _ raw ∧
  swapRaw_fields _ (toSwapOperationRaw SwapFields so) = swap_fields _ so ∧
  (toSwapOperationRaw SwapFields (fromSwapOperationRaw SwapFields raw) = raw
   ↔ canonicalNumber (swapRaw_fromAmount _ raw) ∧
     canonicalNumber (swapRaw_toAmount _ raw)).
Proof.
  split; [|split; [done|split; [done|]]].
  - destruct so as [f a b]. unfold fromSwapOperationRaw, toSwapOperationRaw.
    simpl. split; [by intros [= Ha Hb] | by intros [-> ->]].
  - destruct raw as [f a b]. unfold fromSwapOperationRaw, toSwapOperationRaw.
    unfold canonicalNumber. simpl.
    split; [by intros [= Ha Hb] | by intros [-> ->]].
Qed.

End Swaps.

Section Histories.
Context `{Primitives}.
Variable JsNumber : Type.
Variable parseFloat : string → JsNumber.
Variable Number_toString : JsNumber → string.

(** X14. Encoding and decoding a balance history keep its length and
    its order, and decoding the encoded history gives the history back
    exactly when the date and the value of every point survive their
    printing and parsing. *)
Theorem balance_history_round_trips
    (b : list (BalanceHistoryPoint JsNumber)) (raw : list (string * string)) :
  length (toBalanceHistoryRaw JsNumber Number_toString b) = length b ∧
  length (fromBalanceHistoryRaw JsNumber parseFloat raw) = length raw ∧
  (∀ i point,
     b !! i = Some point →
     toBalanceHistoryRaw JsNumber Number_toString b !! i
     = Some (Date_toISOString (point_date _ point),
             Number_toString (point_value _ point))) ∧
  (fromBalanceHistoryRaw JsNumber parseFloat
     (toBalanceHistoryRaw JsNumber Number_toString b) = b
   ↔ Forall (λ point,
               Date_new (Date_toISOString (point_date _ point))
                 = point_date _ point ∧
               parseFloat (Number_toString (point_value _ point))
                 = point_value _ point) b).
Proof.
  unfold toBalanceHistoryRaw, fromBalanceHistoryRaw.
  split; [by rewrite length_fmap|]. split; [by rewrite length_fmap|].
  split; [intros i point Hi; by rewrite list_lookup_fmap, Hi|].
  induction b as [|[d v] b IH]; simpl.
  - split; [constructor | done].
  - split.
    + intros [= Hd Hv Hb]. constructor; [done | by apply IH].
    + intros [[Hd Hv] Hb]%Forall_cons. simpl in Hd, Hv.
      rewrite Hd, Hv. f_equal. by apply IH.
Qed.

End Histories.

Section Tron.
Context `{Primitives}.
Variable Votes : Type.
Variable TronPower : Type.
Variable TxValue : Type.

(** X15. Tron resources survive encoding and decoding when decimals and
    dates survive their printing and parsing and the two optional dates,
    when present, do not print as the empty string (which decodes to no
    date).  The cached transactions come back key by key.  Decoding a
    raw record without cached transactions gives an empty cache. *)
Theorem tron_resources_round_trip (r : TronResources Votes TronPower TxValue)
    (raw : TronResourcesRaw Votes TronPower TxValue) :
  (∀ x, BigNumber_new (BigNumber_toString x) = x) →
  (∀ d, Date_new (Date_toISOString d) = d) →
  (∀ d, tron_lastWithdrawnRewardDate _ _ _ r = Some d →
        Date_toISOString d ≠ "") →
  (∀ d, tron_lastVotedDate _ _ _ r = Some d → Date_toISOString d ≠ "") →
  fromTronResourcesRaw _ _ _ (toTronResourcesRaw _ _ _ r) = r ∧
  (tronRaw_cacheTransactionInfoById _ _ _ raw = None →
   tron_cacheTransactionInfoById _ _ _ (fromTronResourcesRaw _ _ _ raw) = ∅).
Proof.
  intros Hnum Hdate Hw Hv. split.
  - destruct r as [fb fe db de vo tp en [bu bl gu gl] un lw lv cache].
    simpl in Hw, Hv.
    unfold fromTronResourcesRaw, toTronResourcesRaw. simpl.
    assert (∀ o : option (Frozen), fromFrozenRaw <$> (toFrozenRaw <$> o) = o)
      as Hfrozen.
    { intros [[a e]|]; [|done]. unfold fromFrozenRaw, toFrozenRaw. simpl.
      by rewrite Hnum, Hdate. }
    assert (∀ o : option DelegatedFrozen,
              fromDelegatedFrozenRaw <$> (toDelegatedFrozenRaw <$> o) = o)
      as Hdel.
    { intros [[a]|]; [|done].
      unfold fromDelegatedFrozenRaw, toDelegatedFrozenRaw. simpl.
      by rewrite Hnum. }
    assert (∀ o : option JsDate,
              (∀ d, o = Some d → Date_toISOString d ≠ "") →
              Date_new <$> truthyString (Date_toISOString <$> o) = o) as Hopt.
    { intros [d|] Hne; [|done]. simpl.
      rewrite bool_decide_eq_false_2 by (by apply Hne). simpl.
      by rewrite Hdate. }
    rewrite !Hfrozen, !Hdel, !Hnum, (Hopt lw Hw), (Hopt lv Hv).
    f_equal. apply map_eq. intros k. rewrite !lookup_fmap.
    by destruct (cache !! k) as [[]|].
  - intros Hnone. unfold fromTronResourcesRaw. simpl. by rewrite Hnone.
Qed.

End Tron.

(** ** Patching against the account's own raw form *)

#[local] Arguments assignWhen : simpl never.

Section OwnRaw.
Context `{Encoders}.

(** Decoding an encoded operation returns, in whatever store, and gives
    an operation of the same id and blockHeight that [sameOp] accepts. *)
Hypothesis operation_round_trip :
  ∀ op id subs v,
    ∃ op' v',
      fromOperationRaw (toOperationRaw op None) id subs v = Ok (op', v') ∧
      op_id op' = op_id op ∧
      op_blockHeight op' = op_blockHeight op ∧
      sameOp op op' = true.

(** An array is settled against the encoding of what it holds. *)
Lemma operationsSettled_own_raw ops id subs w :
  allocated w ops →
  operationsSettled ops (toOperationsRaw (items w ops)) id subs w.
Proof.
  intros Ha. split; [done|]. intros w2 He.
  pose proof (proj2 He ops Ha) as Hit.
  destruct (items w ops) as [|c rest] eqn:Hw.
  - exists w2. split; [|apply extends_refl].
    unfold patchOperations, minimalOperationsBuilderSyncM, bind, readArray.
    rewrite Hit. by rewrite decide_True.
  - unfold toOperationsRaw. rewrite fmap_cons.
    apply (patchOperations_matching_head ops (toOperationRaw c None)
             (toOperationsRaw rest) id subs w2 c rest);
      [by eapply extends_allocated | done | |].
    + unfold toOperationsRaw. simpl. by rewrite length_fmap.
    + intros v.
      destruct (operation_round_trip c id subs v)
        as (op' & v' & Heq & Hid & Hbh & Hs).
      by exists op', v'.
Qed.

(** The raw form of a sub-account without compound balance, and the
    sub-account settled against it. *)
Lemma toSubAccountRaw_settled e w :
  allocated w (sub_operations e) →
  allocated w (sub_pendingOperations e) →
  (∀ sp c ap, sub_kind e = TokenAccount sp c ap → c = None) →
  ∃ raw,
    toSubAccountRaw e w = Ok (raw, w) ∧
    subRaw_id raw = sub_id e ∧
    subAccountSettled e raw w.
Proof.
  intros Ho Hp Hnc. unfold toSubAccountRaw.
  destruct (sub_kind e) as [sp c ap|] eqn:Hk.
  - rewrite (Hnc sp c ap eq_refl) in Hk.
    eexists. split; [reflexivity|]. simpl. split; [done|].
    split; [done|]. split; [done|].
    split; [by apply operationsSettled_own_raw|].
    split; [by apply operationsSettled_own_raw|].
    split; [by right|]. simpl.
    split; [intros s; unfold truthyString; simpl;
            destruct (bool_decide _); [done | by intros [= <-]]|].
    split; [done|]. rewrite Hk.
    split; [done|]. intros b [= <-].
    apply shouldRefreshBalanceHistoryCache_same.
  - eexists. split; [reflexivity|]. simpl. split; [done|].
    split; [done|]. split; [done|].
    split; [by apply operationsSettled_own_raw|].
    split; [by apply operationsSettled_own_raw|].
    split; [by right|]. simpl.
    split; [intros s; unfold truthyString; simpl;
            destruct (bool_decide _); [done | by intros [= <-]]|].
    split; [done|]. rewrite Hk.
    split; [done|]. intros b [= <-].
    apply shouldRefreshBalanceHistoryCache_same.
Qed.

Lemma mapM_toSubAccountRaw_settled subAccounts w :
  (∀ e, e ∈ subAccounts →
        allocated w (sub_operations e) ∧
        allocated w (sub_pendingOperations e) ∧
        ∀ sp c ap, sub_kind e = TokenAccount sp c ap → c = None) →
  ∃ raws,
    mapM toSubAccountRaw subAccounts w = Ok (raws, w) ∧
    Forall2 (λ ta e, subRaw_id ta = sub_id e ∧ subAccountSettled e ta w)
      raws subAccounts.
Proof.
  induction subAccounts as [|e es IH]; intros Hall.
  - exists []. split; [done | constructor].
  - destruct (Hall e) as (Ho & Hp & Hnc); [by left|].
    destruct (toSubAccountRaw_settled e w Ho Hp Hnc) as (ta & Heq & Hid & Hs).
    destruct IH as (raws & Hm & HF); [intros x Hx; apply Hall; by right|].
    exists (ta :: raws). split; [by eapply mapM_cons|].
    by constructor.
Qed.



End OwnRaw.

(** ** Decoded and patched sub-accounts *)

#[local] Arguments assignWhen : simpl never.

Section SubAccountFacts.
Context `{Collaborators}.

(** X18. What [fromSubAccountRaw] returns is a new object with two new,
    distinct operation arrays that hold, in the order of the raw record,
    what the decoder returned on its operations and pending operations,
    each a new object; no array that existed before is changed.  It has
    the id, the parent and the decoded balance of the raw record; its
    operationsCount is the one of the record unless that is missing or 0,
    and then the number of raw operations; a token account without
    [spendableBalance] (or with an empty one) gets its balance as
    spendable balance and has no compound balance. *)
Theorem decoded_subAccount_owns_its_arrays raw w sa w' :
  fromSubAccountRaw raw w = Ok (sa, w') →
  ¬ allocated w (sub_ref sa) ∧
  ¬ allocated w (sub_operations sa) ∧
  ¬ allocated w (sub_pendingOperations sa) ∧
  sub_operations sa ≠ sub_pendingOperations sa ∧
  Forall2 (decodes (subRaw_id raw) None)
    (items w' (sub_operations sa)) (subRaw_operations raw) ∧
  Forall2 (decodes (subRaw_id raw) None)
    (items w' (sub_pendingOperations sa)) (subRaw_pendingOperations raw) ∧
  Forall (λ op, ¬ allocated w (op_ref op))
    (items w' (sub_operations sa) ++ items w' (sub_pendingOperations sa)) ∧
  (∀ l, allocated w l → items w' l = items w l) ∧
  sub_id sa = subRaw_id raw ∧
  sub_parentId sa = subRaw_parentId raw ∧
  sub_balance sa = BigNumber_new (subRaw_balance raw) ∧
  sub_operationsCount sa
    = default (Array_length (subRaw_operations raw))
        (truthyNumber (subRaw_operationsCount raw)) ∧
  (subRaw_type raw = "TokenAccountRaw" →
   sub_kind sa
   = TokenAccount
       (BigNumber_new (default (subRaw_balance raw)
                         (truthyString (subRaw_spendableBalance raw))))
       None (subRaw_approvals raw)) ∧
  (subRaw_type raw = "ChildAccountRaw" → sub_kind sa = ChildAccount).
Proof.
  intros Heq.
  destruct (fromSubAccountRaw_rebuilt raw w sa w' Heq)
    as ([_ Hfr] & Href & Ho & Hp & Hne & HF1 & HF2 & Hfresh & Hid & Hpid
        & Hbal & Hcount & _ & Htoken & Hchild).
  repeat (split; [done|]).
  split; [intros Ht; by destruct (Htoken Ht)|].
  intros Hc. by destruct (Hchild Hc).
Qed.

(** A patched sub-account has the id of the raw record. *)
Lemma patchSubAccount_id account raw w sa w' :
  patchSubAccount account raw w = Ok (sa, w') → sub_id sa = subRaw_id raw.
Proof.
  assert (∀ v, fromSubAccountRaw raw v = Ok (sa, w') →
               sub_id sa = subRaw_id raw) as Hfrom.
  { intros v Hv. unfold fromSubAccountRaw in Hv.
    case_bool_decide.
    - by apply fromChildAccountRaw_kind in Hv as (_ & ? & _).
    - case_bool_decide; [|done].
      by apply fromTokenAccountRaw_kind in Hv as (_ & ? & _). }
  unfold patchSubAccount. destruct account as [e|]; [|apply Hfrom].
  destruct (bool_decide (sub_id e ≠ subRaw_id raw)) eqn:Hid; [apply Hfrom|].
  destruct (bool_decide (sub_parentId e ≠ subRaw_parentId raw));
    [apply Hfrom|]. simpl.
  apply not_ne_eq in Hid.
  unfold bind at 1.
  destruct (patchOperations _ _ _ _ w) as [[o1 wa]|err]; [|done].
  unfold bind at 1.
  destruct (patchOperations _ _ _ _ wa) as [[p1 wb]|err]; [|done].
  unfold bind, newObject.
  pose proof (patchSubAccountFields_view e raw o1 p1 (w_next wb))
    as (Hvid & _).
  cbv zeta in Hvid.
  destruct (patchSubAccountFields e raw o1 p1
              (set_sub_ref (w_next wb) e, false)).2;
    intros [= <- _]; congruence.
Qed.

Lemma patched_entries_ids existing rs w patched w' :
  mapM (patchSubAccountEntry existing) rs w = Ok (patched, w') →
  sub_id <$> (fst <$> patched) = subRaw_id <$> rs.
Proof.
  revert w patched. induction rs as [|ta rs IH]; intros w patched; simpl.
  - by intros [= <- _].
  - unfold bind at 1. unfold patchSubAccountEntry at 1. unfold bind at 1.
    destruct (patchSubAccount _ ta w) as [[sa w1]|e] eqn:Hsa; [|done].
    unfold ret at 1. unfold bind at 1.
    destruct (mapM _ rs w1) as [[ys w2]|e] eqn:Hys; [|done].
    intros [= <- <-]. rewrite !fmap_cons. simpl. f_equal.
    + exact (patchSubAccount_id _ _ _ _ _ Hsa).
    + exact (IH _ _ Hys).
Qed.

(** X19. The patched list of sub-accounts.  When the snapshot carries
    sub-accounts and [patchSubAccounts] returns, the result is the cached
    list itself, or a list that did not exist before with one sub-account
    per raw sub-account, in the order of the snapshot and with its id:
    cached sub-accounts the snapshot does not name are not in it.  A
    snapshot without sub-accounts gives no list. *)
Theorem patched_subAccounts_follow_the_snapshot a raw w sa w' :
  patchSubAccounts a raw w = Ok (sa, w') →
  match raw_subAccounts raw with
  | None => sa = None ∧ w' = w
  | Some rs =>
      ∃ arr,
        sa = Some arr ∧
        (acc_subAccounts a = Some arr ∨
         (¬ allocated w (subs_ref arr) ∧
          sub_id <$> subs_items arr = subRaw_id <$> rs))
  end.
Proof.
  unfold patchSubAccounts. destruct (raw_subAccounts raw) as [rs|].
  2:{ by intros [= <- <-]. }
  destruct (acc_subAccounts a) as [arr|] eqn:Harr.
  - unfold bind at 1. unfold ret at 1. unfold bind at 1.
    destruct (mapM _ rs w) as [[patched w1]|e] eqn:Hm; [|done].
    pose proof (patched_entries_ids _ _ _ _ _ Hm) as Hids.
    assert (w_next w ≤ w_next w1)%nat as Hn.
    { eapply (grows_mapM (patchSubAccountEntry (subs_items arr)) rs);
        [|exact Hm].
      intros ta. unfold patchSubAccountEntry.
      apply grows_bind; [apply grows_patchSubAccount|]. intros ?.
      apply grows_ret. }
    unfold bind, newObject, ret.
    destruct (_ || _); intros [= <- _]; eexists; (split; [reflexivity|]).
    + right. simpl. split; [unfold allocated; lia | done].
    + by left.
  - unfold bind at 1. unfold bind at 1, newObject at 1, ret at 1.
    unfold bind at 1. simpl.
    destruct (mapM _ rs (w_bump w)) as [[patched w1]|e] eqn:Hm; [|done].
    pose proof (patched_entries_ids _ _ _ _ _ Hm) as Hids.
    assert (w_next (w_bump w) ≤ w_next w1)%nat as Hn.
    { eapply (grows_mapM (patchSubAccountEntry []) rs); [|exact Hm].
      intros ta. unfold patchSubAccountEntry.
      apply grows_bind; [apply grows_patchSubAccount|]. intros ?.
      apply grows_ret. }
    simpl in Hn.
    unfold bind, newObject, ret.
    destruct (_ || _) eqn:Hchg; intros [= <- _];
      eexists; (split; [reflexivity|]); right; simpl.
    + split; [unfold allocated; lia | done].
    + split; [unfold allocated; lia|].
      apply orb_false_elim in Hchg as [Hlen%not_ne_eq _].
      unfold Array_length in Hlen. simpl in Hlen.
      destruct rs; [done | simpl in Hlen; lia].
Qed.

End SubAccountFacts.

(** ** A history with holes *)

Lemma sublist_full {A} (l1 l2 : list A) :
  l1 `sublist_of` l2 → (length l2 ≤ length l1)%nat → l1 = l2.
Proof.
  induction 1 as [|x l1 l2 Hs IH|x l1 l2 Hs IH]; simpl; intros Hlen.
  - done.
  - f_equal. apply IH. lia.
  - apply sublist_length in Hs. lia.
Qed.

Section Holes.
Variable sameOp : Operation → Operation → bool.
Context {CO : Type}.
Variables (coreOperations : list CO) (buildOp : CO → option Operation).
Variables (w : World) (ex : loc) (kept : list Operation).
Hypothesis Hex : allocated w ex.
Hypothesis Hids : NoDup (op_id <$> items w ex).
Hypothesis Hrefs : NoDup (op_ref <$> items w ex).
Hypothesis Hsub : kept `sublist_of` items w ex.
Hypothesis Hraw :
  Forall2 (λ co c, ∃ op, buildOp co = Some op ∧ op_id op = op_id c)
    (reverse coreOperations) kept.
Hypothesis Hhead :
  ∀ co op c,
    head (reverse coreOperations) = Some co → buildOp co = Some op →
    head kept = Some c →
    op_blockHeight c = op_blockHeight op ∧ sameOp c op = true.

(** Where a kept operation sits in the cache, and what follows it. *)
Lemma kept_position k c :
  kept !! k = Some c →
  ∃ j post,
    items w ex !! j = Some c ∧
    drop j (items w ex) = c :: post ∧
    drop (S k) kept `sublist_of` post.
Proof.
  intros Hk.
  assert (drop k kept `sublist_of` items w ex) as Hd
    by (etrans; [apply sublist_drop | exact Hsub]).
  rewrite (drop_S _ _ _ Hk) in Hd.
  apply sublist_cons_l in Hd as (k1 & k2 & Heq & Hs).
  exists (length k1), k2. rewrite Heq.
  split; [by rewrite list_lookup_middle|].
  split; [by rewrite drop_app_length | done].
Qed.

Lemma holes_loop m state w1 :
  (m ≤ length kept)%nat →
  WalkInv w ex state w1 →
  finished state = false →
  existingOps state = ex →
  (immutableOpCmpDoneOnce state = false → m = length kept) →
  items w1 (operations state) = take (length kept - m) kept →
  ∃ state' w',
    syncLoop sameOp coreOperations buildOp m state w1 = Ok (state', w') ∧
    items w' (operations state') = kept.
Proof.
  revert state w1.
  induction m as [|m IH]; intros state w1 Hm HI Hnf Hwin Hflag Hpushed; simpl.
  - exists state, w1. split; [done|]. rewrite Hpushed.
    rewrite Nat.sub_0_r. by apply take_ge.
  - destruct (scenario_index coreOperations buildOp kept Hraw m ltac:(lia))
      as (op & c & Hop & Hc & Hid).
    rewrite Hop.
    destruct (kept_position _ _ Hc) as (j & post & Hj & Hdrop & Hpost).
    replace (S (length kept - 1 - m)) with (length kept - m)%nat in Hpost
      by lia.
    assert (items w1 (existingOps state) = items w ex) as Hit.
    { rewrite Hwin. by apply (inv_frame _ _ _ _ HI). }
    pose proof (findExistingOp_at _ _ _ _ Hids Hj Hid) as Hfind.
    pose proof (Array_indexOf_at _ _ _ Hrefs Hj) as Hidx.
    assert (Array_length (Array_slice (items w ex) (Z.of_nat j))
            = Z.of_nat (length post) + 1) as Hrest.
    { rewrite Array_slice_nonneg by lia. unfold Array_length.
      rewrite Nat2Z.id, Hdrop. simpl. lia. }
    assert (length (drop (length kept - m) kept) = m) as Hleft
      by (rewrite length_drop; lia).
    assert (take (length kept - m) kept
            = take (length kept - S m) kept ++ [c]) as Htake.
    { replace (length kept - m)%nat with (S (length kept - S m)) by lia.
      apply take_S_r.
      by replace (length kept - S m)%nat with (length kept - 1 - m)%nat
        by lia. }
    assert (kept = take (length kept - S m) kept
                   ++ c :: drop (length kept - m) kept) as Hsplit.
    { rewrite <- (take_drop (length kept - S m) kept) at 1. f_equal.
      replace (length kept - m)%nat with (S (length kept - S m)) by lia.
      apply drop_S.
      by replace (length kept - S m)%nat with (length kept - 1 - m)%nat
        by lia. }
    assert (immutableOpCmpDoneOnce state = false →
            op_blockHeight c = op_blockHeight op ∧ sameOp c op = true)
      as Hfirst.
    { intros Hd. specialize (Hflag Hd).
      pose proof (scenario_length coreOperations buildOp kept Hraw) as Hlen.
      assert (length kept - 1 - m = 0)%nat as Hz by lia.
      rewrite Hz in Hc.
      destruct (coreOperations !! m) as [co|] eqn:Hco; [|done].
      simpl in Hop. eapply (Hhead co op c); [|done|by rewrite head_lookup].
      rewrite head_reverse, last_lookup, Hlen.
      by replace (pred (length kept)) with m by lia. }
    unfold bind.
    destruct (stepBuilder_outcome sameOp state op (Z.of_nat m) w1)
      as (s1 & v1 & Heq & Hstep).
    rewrite Heq.
    pose proof (StepOutcome_inv _ _ _ _ _ _ _ _ _ Hex HI Hnf Hstep) as HI1.
    destruct Hstep as [Hf|e Hf Hd' Hb|e w2 Hf Hd' Hb Hs ->|e st1 w2 Hf Hc' Hlen
                      |e st1 w2 Hf Hc' Hlen Hz Hj'|e st1 w2 Hf Hc' Hlen Hnz];
      rewrite Hit, Hfind in Hf; try discriminate Hf; injection Hf as <-.
    + by destruct (Hfirst Hd') as [Hb' _].
    + destruct (Hfirst Hd') as [_ Hs']. congruence.
    + (* the cache has more left than the raw list: keep the cached object *)
      destruct (Checked_frame _ _ _ _ _ _ _ Hc')
        as (He1 & Ho1 & Hf1 & Hd1 & _ & Hi1 & _).
      rewrite Hf1, Hnf. apply IH; [lia | done | congruence | congruence | |].
      * intros Hd. congruence.
      * rewrite Ho1, items_w_push_eq, Hi1, Hpushed. by rewrite Htake.
    + (* finished on the first step: the cache array itself *)
      simpl. eexists _, _. split; [done|]. simpl.
      destruct (Checked_frame _ _ _ _ _ _ _ Hc')
        as (_ & _ & _ & _ & _ & Hi1 & _).
      rewrite Hi1, Hit.
      rewrite Hit, Hidx in Hj'. rewrite Hit, Hidx, Hrest in Hlen.
      assert (j = 0%nat) as -> by lia. rewrite drop_0 in Hdrop.
      apply Array_length_nil in Hz. rewrite Hpushed in Hz.
      rewrite Hdrop, Hsplit, Hz. simpl. f_equal.
      symmetry. apply sublist_full; [done|]. rewrite Hleft. lia.
    + (* finished: what was kept so far and the rest of the cache *)
      simpl. eexists _, _. split; [done|]. simpl.
      rewrite Hit, Hidx, Hrest in Hlen.
      rewrite items_w_alloc_eq, Hit, Hidx, Array_slice_nonneg, Nat2Z.id by lia.
      rewrite Hpushed, Hdrop. rewrite Hsplit at 3. do 2 f_equal.
      symmetry. apply sublist_full; [done|]. rewrite Hleft. lia.
Qed.

End Holes.

(** X20. A history with holes.  When the raw list, read from its last
    record, names by id some of the cached operations in their cache order
    (the cache holds each id and each object once) and the newest raw
    record agrees with its cached operation on blockHeight and passes
    [sameOp], the builder returns exactly those cached operations, as the
    cached objects: cached operations the raw list leaves out are dropped,
    and nothing the adapter built is used, whatever it holds. *)
Theorem pruned_history_keeps_the_cached_objects
    (sameOp : Operation → Operation → bool) {CO}
    (coreOperations : list CO) (buildOp : CO → option Operation)
    (w : World) (existingOperations : loc) (kept : list Operation) :
  allocated w existingOperations →
  NoDup (op_id <$> items w existingOperations) →
  NoDup (op_ref <$> items w existingOperations) →
  kept `sublist_of` items w existingOperations →
  Forall2 (λ co c, ∃ op, buildOp co = Some op ∧ op_id op = op_id c)
    (reverse coreOperations) kept →
  (∀ co op c,
     head (reverse coreOperations) = Some co → buildOp co = Some op →
     head kept = Some c →
     op_blockHeight c = op_blockHeight op ∧ sameOp c op = true) →
  ∃ r w',
    minimalOperationsBuilderSync sameOp coreOperations existingOperations
      buildOp w = Ok (r, w') ∧
    items w' r = kept.
Proof.
  intros Hex Hids Hrefs Hsub Hraw Hhead.
  pose proof (scenario_length coreOperations buildOp kept Hraw) as Hlen.
  unfold minimalOperationsBuilderSync, bind at 1, readArray.
  destruct (decide _) as [He|He];
    rewrite (early_exit_iff coreOperations existingOperations) in He.
  - destruct He as [He Hc]. exists existingOperations, w. split; [done|].
    rewrite He. rewrite Hc in Hlen. symmetry. by apply nil_length_inv.
  - unfold initialState, bind, newArray, ret.
    destruct (holes_loop sameOp coreOperations buildOp w existingOperations
                kept Hex Hids Hrefs Hsub Hraw Hhead (length kept)
                {| operations := w_next w; existingOps := existingOperations;
                   immutableOpCmpDoneOnce := false; finished := false |}
                (w_alloc [] w) (Nat.le_refl _)
                (WalkInv_initial w existingOperations) eq_refl eq_refl)
      as (s & w' & Heq & Hit).
    { done. }
    { simpl. rewrite items_w_alloc_eq. by rewrite Nat.sub_diag. }
    rewrite Hlen, Heq. by exists (operations s), w'.
Qed.

(** ** A snapshot without spendable balance *)

Section Unguarded.
Context `{Collaborators}.

(** Once a field comparison has set the flag, the [switch] keeps it, and
    the reconciliation hook of another family is not called. *)
Lemma patchFamilyResources_changed a raw p w :
  p.2 = true →
  ∃ pR, patchFamilyResources a raw p w = Ok (pR, w) ∧
        withoutFamilyResources pR.1 = withoutFamilyResources p.1 ∧
        pR.2 = true.
Proof.
  intros Hp.
  destruct (decide (acc_family a = "bitcoin" ∨ acc_family a = "polkadot" ∨
                    acc_family a = "zilliqa" ∨ acc_family a = "crypto_org"))
    as [Hnamed|Hother].
  - destruct (patchFamilyResources_returns a raw p w) as (pR & Heq & Hwo & Hup & _);
      [tauto|].
    exists pR. auto.
  - unfold patchFamilyResources.
    repeat (case_bool_decide; [exfalso; tauto|]).
    destruct (applyReconciliation (getAccountBridge a)); rewrite ?Hp;
      by eexists.
Qed.

(** The comparison of [spendableBalance] has no guard: a snapshot without
    the field differs from every printed balance, so every patch of an
    account of the snapshot's id returns an object made by that call. *)
Lemma patchAccount_missing_spendableBalance a raw w a1 w1 :
  acc_id a = raw_id raw →
  raw_spendableBalance raw = None →
  patchAccount a raw w = Ok (a1, w1) →
  ¬ allocated w (acc_ref a1) ∧ allocated w1 (acc_ref a1) ∧
  acc_id a1 = raw_id raw.
Proof.
  intros Hid Hsp Heq.
  destruct (patchAccount_inv a raw w a1 w1 Hid Heq)
    as (sa & o1 & p1 & wc & pR & Hn & -> & _ & HeqR & ->).
  set (pF := patchAccountFields a raw sa o1 p1
               (set_acc_ref (w_next wc) a, false)) in *.
  assert (pF.2 = true) as HF.
  { destruct (pF.2) eqn:HF; [done|].
    apply patchAccountFields_unchanged in HF as (_ & _ & _ & _ & _ & Usp & _).
    congruence. }
  destruct (patchFamilyResources_changed a raw pF (w_bump wc) HF)
    as (pR' & HeqR' & Hwo & HR).
  rewrite HeqR in HeqR'. injection HeqR' as <-.
  rewrite (patchNfts_up a raw pR HR).
  destruct (patchAccountFields_fst a raw sa o1 p1 (w_next wc))
    as (Fref & Fid & _).
  fold pF in Fref, Fid.
  assert (acc_ref (patchNfts a raw pR).1 = w_next wc) as ->.
  { rewrite (patchNfts_other (@acc_ref _)) by done.
    by rewrite (family_other (@acc_ref _) _ _ (λ _, eq_refl) Hwo). }
  assert (acc_id (patchNfts a raw pR).1 = acc_id a) as ->.
  { rewrite (patchNfts_other (@acc_id _)) by done.
    by rewrite (family_other (@acc_id _) _ _ (λ _, eq_refl) Hwo). }
  unfold allocated. simpl. split; [lia|]. split; [lia|done].
Qed.

End Unguarded.

#[local] Existing Instances Example.primitives Example.collaborators.

(** C4: the second patch against one snapshot does not return the result
    of the first.  The snapshot has no [spendableBalance]; the account
    and the snapshot have no operations and agree on every compared
    field.  The first patch returns a copy of the cached account that
    differs from it in nothing but its identity, and the second patch a
    copy of that copy; the same snapshot with its [spendableBalance]
    gives the cached account back.  This is so in the scope of the
    repository and in one that binds the identifiers the decoder reads,
    and for every account and snapshot without [spendableBalance] a patch
    that returns, returns an object that did not exist before it. *)
Theorem missing_spendableBalance_patches_again :
  let cached := Example.quietAccount "polkadot" in
  let raw := Example.quietRaw 1 None in
  (∀ scope : Collaborators,
     scope = Example.shipped ∨ scope = Example.collaborators →
     ∃ w1 w2,
       @patchAccount _ scope cached raw Example.world
         = Ok (set_acc_ref 10%nat cached, w1) ∧
       @patchAccount _ scope (set_acc_ref 10%nat cached) raw w1
         = Ok (set_acc_ref 11%nat cached, w2) ∧
       ∃ w',
         @patchAccount _ scope cached (Example.quietRaw 1 (Some "12"%string))
           Example.world = Ok (cached, w')) ∧
  (∀ (scope : Collaborators) a snapshot w a1 w1 a2 w2,
     acc_id a = raw_id snapshot →
     raw_spendableBalance snapshot = None →
     @patchAccount _ scope a snapshot w = Ok (a1, w1) →
     @patchAccount _ scope a1 snapshot w1 = Ok (a2, w2) →
     ¬ allocated w (acc_ref a1) ∧
     allocated w1 (acc_ref a1) ∧
     ¬ allocated w1 (acc_ref a2) ∧
     a2 ≠ a1).
Proof.
  intros cached raw. split.
  - intros scope [->| ->]; eexists _, _;
      (split; [vm_compute; reflexivity|]);
      (split; [vm_compute; reflexivity|]);
      eexists; vm_compute; reflexivity.
  - intros scope a snapshot w a1 w1 a2 w2 Hid Hsp H1 H2.
    destruct (patchAccount_missing_spendableBalance a snapshot w a1 w1
                Hid Hsp H1) as (Hfresh & Hal & Hid1).
    destruct (patchAccount_missing_spendableBalance a1 snapshot w1 a2 w2
                Hid1 Hsp H2) as (Hfresh2 & _ & _).
    repeat (split; [done|]). intros ->. by apply Hfresh2.
Qed.

(** ** The decoder in a scope without its identifiers *)

Section Unbound.
Context `{Collaborators}.

Lemma fromOperationRaw_throws raw id subs w :
  freeIdentifier "contract" = Unbound →
  fromOperationRaw raw id subs w
  = match commonFromOperationRaw raw id subs with
    | Ok _ => Throw "ReferenceError: contract is not defined"
    | Throw msg => Throw msg
    end.
Proof.
  intros Hu. unfold fromOperationRaw, bind at 1, liftRes.
  destruct (commonFromOperationRaw raw id subs) as [res|e]; [|done].
  unfold bind at 1, readIdentifier. by rewrite Hu.
Qed.

(** X21. In a scope that does not bind [contract], which is the scope
    of the repository, [fromOperationRaw] never returns: it ends with
    the exception of [commonFromOperationRaw] when that throws, and with
    a ReferenceError on [contract] otherwise.  [patchOperations] then
    throws on every snapshot that has an operation, since the builder
    decodes the record at the last index before any step; on a snapshot
    without operations it decodes nothing and returns an empty cache as
    it is, and a new empty array for a cache that holds operations. *)
Theorem unbound_identifier_stops_the_decoder id subs w :
  freeIdentifier "contract" = Unbound →
  (∀ raw res,
     commonFromOperationRaw raw id subs = Ok res →
     fromOperationRaw raw id subs w
     = Throw "ReferenceError: contract is not defined") ∧
  (∀ raw msg,
     commonFromOperationRaw raw id subs = Throw msg →
     fromOperationRaw raw id subs w = Throw msg) ∧
  (∀ raw op w', fromOperationRaw raw id subs w ≠ Ok (op, w')) ∧
  (∀ ops raw raws,
     ∃ msg, patchOperations ops (raw :: raws) id subs w = Throw msg) ∧
  (∀ ops, items w ops = [] → patchOperations ops [] id subs w = Ok (ops, w)) ∧
  (∀ ops, items w ops ≠ [] →
     patchOperations ops [] id subs w = Ok (w_next w, w_alloc [] w)).
Proof.
  intros Hu.
  split; [|split; [|split; [|split; [|split]]]].
  - intros raw res Hres. by rewrite fromOperationRaw_throws, Hres.
  - intros raw msg Hres. by rewrite fromOperationRaw_throws, Hres.
  - intros raw op w'. rewrite fromOperationRaw_throws by done.
    by destruct (commonFromOperationRaw raw id subs).
  - intros ops raw raws.
    unfold patchOperations, minimalOperationsBuilderSyncM, bind at 1, readArray.
    destruct (decide _) as [[_ Hlen]|_].
    { rewrite reverse_cons in Hlen. unfold Array_length in Hlen.
      rewrite length_app in Hlen. simpl in Hlen. lia. }
    unfold initialState, bind at 1 2, newArray, ret. unfold bind at 1.
    rewrite reverse_cons, length_app. simpl.
    rewrite Nat.add_1_r. simpl.
    rewrite lookup_app_r by lia. rewrite Nat.sub_diag. simpl.
    unfold bind at 1 2. rewrite fromOperationRaw_throws by done.
    destruct (commonFromOperationRaw raw id subs); by eexists.
  - intros ops Hnil.
    unfold patchOperations, minimalOperationsBuilderSyncM, bind at 1, readArray.
    rewrite Hnil. done.
  - intros ops Hne.
    unfold patchOperations, minimalOperationsBuilderSyncM, bind at 1, readArray.
    destruct (decide _) as [[Hlen _]|_].
    { by apply Array_length_nil in Hlen. }
    done.
Qed.

End Unbound.

(** ** The further properties at work on the small instance *)

#[local] Existing Instances Example.primitives Example.collaborators
  ExampleRaw.encoders.

(** A changed [o2] makes the builder produce a new array; the cached
    array stays as it was. *)
Lemma builders_frame_witness :
  allocated Example.world 0%nat ∧
  ∃ r w',
    minimalOperationsBuilderSync sameOp [Example.o1; Example.o2changed]
      0%nat Some Example.world = Ok (r, w') ∧
    (r = 0%nat ∨ ¬ allocated Example.world r) ∧
    ∀ l, allocated Example.world l → items w' l = items Example.world l.
Proof.
  assert (allocated Example.world 0%nat) as Hex
    by (unfold allocated; simpl; lia).
  split; [exact Hex|].
  exact (proj1 (builders_leave_existing_arrays_alone sameOp
                  [Example.o1; Example.o2changed] Some None
                  Example.world 0%nat Hex)).
Defined.

Lemma bounded_output_witness :
  allocated Example.world 0%nat ∧
  ∃ r w',
    minimalOperationsBuilderSync sameOp [Example.o2] 0%nat Some
      Example.world = Ok (r, w') ∧
    (length (items w' r) ≤ 1)%nat.
Proof.
  assert (allocated Example.world 0%nat) as Hex
    by (unfold allocated; simpl; lia).
  split; [exact Hex|].
  destruct (output_is_bounded_by_the_raw_list sameOp [Example.o2] Some
              Example.world 0%nat Hex) as (r & w' & Heq & Hlen & _).
  exists r, w'. split; [exact Heq | exact Hlen].
Defined.

(** Only [o3], which the cache does not hold, comes back. *)
Lemma unknown_ids_witness :
  allocated Example.world 0%nat ∧
  findExistingOp (items Example.world 0%nat) Example.o3 = None ∧
  ∃ r w',
    minimalOperationsBuilderSync sameOp [Example.o3] 0%nat Some
      Example.world = Ok (r, w') ∧
    items w' r = [Example.o3] ∧
    r = 10%nat.
Proof.
  assert (allocated Example.world 0%nat) as Hex
    by (unfold allocated; simpl; lia).
  assert (findExistingOp (items Example.world 0%nat) Example.o3 = None)
    as Hnone by (vm_compute; reflexivity).
  split; [exact Hex|]. split; [exact Hnone|].
  destruct (unknown_ids_give_the_built_operations sameOp [Example.o3] Some
              Example.world 0%nat Hex)
    as (r & w' & Heq & Hit & _ & Hr & _).
  { intros op Hop. simpl in Hop.
    apply list_elem_of_singleton in Hop as ->. exact Hnone. }
  exists r, w'. split; [exact Heq|]. split; [exact Hit|].
  apply Hr. intros [_ Hcore]. discriminate Hcore.
Defined.


(** The patched account carries the fields of the snapshot. *)
Lemma mirror_witness :
  ∃ a1 w1,
    patchAccount (Example.account "polkadot")
      (Example.accountRaw 1 (Some "12"%string)) Example.world = Ok (a1, w1) ∧
    acc_blockHeight a1 = 50 ∧
    acc_freshAddress a1 = "bc1q"%string ∧
    acc_operationsCount a1 = 2.
Proof.
  assert (∃ a1 w1,
            patchAccount (Example.account "polkadot")
              (Example.accountRaw 1 (Some "12"%string)) Example.world
            = Ok (a1, w1)) as (a1 & w1 & Heq)
    by (eexists _, _; vm_compute; reflexivity).
  destruct (patched_account_mirrors_the_snapshot (Example.account "polkadot")
              (Example.accountRaw 1 (Some "12"%string)) Example.world
              a1 w1 eq_refl (or_intror (or_introl eq_refl)) Heq)
    as (_ & _ & _ & _ & Hfresh & _ & Hheight & _ & _ & Hcount & _).
  exists a1, w1. split; [exact Heq|]. split; [exact Hheight|].
  split; [exact Hfresh | exact Hcount].
Defined.

(** The polkadot resources of the snapshot differ from the cached ones. *)
Lemma staking_resources_witness :
  ∃ a1 w1,
    patchAccount (Example.account "polkadot")
      (Example.accountRaw 2 (Some "12"%string)) Example.world = Ok (a1, w1) ∧
    ¬ allocated Example.world (acc_ref a1) ∧
    acc_polkadotResources a1 = Some 2.
Proof.
  assert (∃ a1 w1,
            patchAccount (Example.account "polkadot")
              (Example.accountRaw 2 (Some "12"%string)) Example.world
            = Ok (a1, w1)) as (a1 & w1 & Heq)
    by (eexists _, _; vm_compute; reflexivity).
  destruct (staking_resources_follow_the_snapshot (Example.account "polkadot")
              (Example.accountRaw 2 (Some "12"%string)) Example.world
              a1 w1 eq_refl Heq)
    as (Hdot & _).
  exists a1, w1. split; [exact Heq|].
  apply (proj1 (Hdot eq_refl) 2 eq_refl).
  intros res [= <-]. discriminate.
Defined.

(** Another block height: the new account carries the unspent outputs of
    the snapshot. *)
Lemma bitcoin_resources_witness :
  ∃ a1 w1,
    patchAccount (set_acc_blockHeight 49 (Example.account "bitcoin"))
      (Example.accountRaw 2 (Some "12"%string)) Example.world = Ok (a1, w1) ∧
    ¬ allocated Example.world (acc_ref a1) ∧
    acc_bitcoinResources a1 = Some {| utxos := [2]; walletAccount := None |}.
Proof.
  assert (∃ a1 w1,
            patchAccount (set_acc_blockHeight 49 (Example.account "bitcoin"))
              (Example.accountRaw 2 (Some "12"%string)) Example.world
            = Ok (a1, w1)) as (a1 & w1 & Heq)
    by (eexists _, _; vm_compute; reflexivity).
  destruct (bitcoin_resources_ride_on_another_change
              (set_acc_blockHeight 49 (Example.account "bitcoin"))
              (Example.accountRaw 2 (Some "12"%string)) Example.world
              a1 w1 eq_refl eq_refl Heq)
    as (Hnew & _).
  exists a1, w1. split; [exact Heq|].
  apply (Hnew _ eq_refl).
  vm_compute. discriminate.
Defined.

(** The token holder decoded from its snapshot has one sub-account. *)
Lemma decoded_subAccounts_witness :
  ∃ a w' arr,
    fromAccountRaw Example.tokenHolderRaw Example.world = Ok (a, w') ∧
    acc_subAccounts a = Some arr ∧
    ¬ allocated Example.world (subs_ref arr) ∧
    sub_id <$> subs_items arr = ["js:2:ethereum:0x:+usdt"%string].
Proof.
  assert (∃ a w', fromAccountRaw Example.tokenHolderRaw Example.world
                  = Ok (a, w')) as (a & w' & Heq)
    by (eexists _, _; vm_compute; reflexivity).
  destruct (fromAccountRaw_keeps_known_subAccounts Example.tokenHolderRaw
              Example.world a w') as (_ & arr & Harr & Hfresh & Hitems).
  - intros x assign Hx. discriminate Hx.
  - exact Heq.
  - exists a, w', arr. split; [exact Heq|]. split; [exact Harr|].
    split; [exact Hfresh|].
    apply Forall2_cons_inv_r in Hitems as (sa & rest & (Hid & _) & Hnil & ->).
    apply Forall2_nil_inv_r in Hnil as ->. simpl. by rewrite Hid.
Defined.

Lemma tron_round_trip_witness :
  fromTronResourcesRaw _ _ _ (toTronResourcesRaw _ _ _ ExampleRaw.tronResources)
  = ExampleRaw.tronResources.
Proof.
  apply (tron_resources_round_trip (list Z) Z Z ExampleRaw.tronResources
           (toTronResourcesRaw _ _ _ ExampleRaw.tronResources)).
  - intros x. reflexivity.
  - intros d. reflexivity.
  - intros d Hd. discriminate Hd.
  - intros d [= <-]. discriminate.
Defined.



(** The raw token account is decoded into new objects. *)
Lemma decoded_subAccount_witness :
  ∃ sa w',
    fromSubAccountRaw (Example.subAccountRaw "TokenAccountRaw") Example.world
    = Ok (sa, w') ∧
    ¬ allocated Example.world (sub_operations sa) ∧
    sub_operations sa ≠ sub_pendingOperations sa ∧
    sub_operationsCount sa = 0 ∧
    sub_kind sa = TokenAccount "3"%string None None.
Proof.
  assert (∃ sa w',
            fromSubAccountRaw (Example.subAccountRaw "TokenAccountRaw")
              Example.world = Ok (sa, w')) as (sa & w' & Heq)
    by (eexists _, _; vm_compute; reflexivity).
  destruct (decoded_subAccount_owns_its_arrays
              (Example.subAccountRaw "TokenAccountRaw") Example.world sa w'
              Heq)
    as (_ & Hops & _ & Hne & _ & _ & _ & _ & _ & _ & _ & Hcount & Htoken & _).
  exists sa, w'. split; [exact Heq|]. split; [exact Hops|].
  split; [exact Hne|]. split; [exact Hcount|]. exact (Htoken eq_refl).
Defined.

(** The token balance changed: the patched list is a new list with the
    sub-account of the snapshot. *)
Lemma patched_subAccounts_witness :
  ∃ arr w',
    patchSubAccounts Example.tokenHolder Example.tokenHolderRaw Example.world
    = Ok (Some arr, w') ∧
    (acc_subAccounts Example.tokenHolder = Some arr ∨
     (¬ allocated Example.world (subs_ref arr) ∧
      sub_id <$> subs_items arr = ["js:2:ethereum:0x:+usdt"%string])).
Proof.
  assert (∃ sa w',
            patchSubAccounts Example.tokenHolder Example.tokenHolderRaw
              Example.world = Ok (sa, w')) as (sa & w' & Heq)
    by (eexists _, _; vm_compute; reflexivity).
  destruct (patched_subAccounts_follow_the_snapshot Example.tokenHolder
              Example.tokenHolderRaw Example.world sa w' Heq)
    as (arr & -> & Harr).
  exists arr, w'. split; [exact Heq | exact Harr].
Defined.

(** The raw history lost [o2]: the two cached operations that are left
    come back as they are. *)
Lemma pruned_history_witness :
  [Example.o3; Example.o1] `sublist_of` items Example.pendingWorld 0%nat ∧
  ∃ r w',
    minimalOperationsBuilderSync sameOp [Example.o1; Example.o3] 0%nat Some
      Example.pendingWorld = Ok (r, w') ∧
    items w' r = [Example.o3; Example.o1].
Proof.
  assert (allocated Example.pendingWorld 0%nat) as Hex
    by (unfold allocated; simpl; lia).
  assert (NoDup (op_id <$> items Example.pendingWorld 0%nat)) as Hids
    by (apply (bool_decide_unpack _); vm_compute; exact I).
  assert (NoDup (op_ref <$> items Example.pendingWorld 0%nat)) as Hrefs
    by (apply (bool_decide_unpack _); vm_compute; exact I).
  assert ([Example.o3; Example.o1]
            `sublist_of` items Example.pendingWorld 0%nat) as Hsub.
  { change (items Example.pendingWorld 0%nat)
      with [Example.o3; Example.o2; Example.o1].
    apply sublist_skip, sublist_cons, sublist_skip, sublist_nil. }
  split; [exact Hsub|].
  apply (pruned_history_keeps_the_cached_objects sameOp
           [Example.o1; Example.o3] Some Example.pendingWorld 0%nat
           [Example.o3; Example.o1] Hex Hids Hrefs Hsub).
  - repeat constructor; eexists; split; reflexivity.
  - intros co op c [= <-] [= <-] [= <-]. split; [reflexivity|].
    vm_compute; reflexivity.
Defined.

(** In the scope of the repository one raw operation is enough to stop
    the patch; none lets it through. *)
Lemma unbound_identifier_witness :
  @freeIdentifier _ Example.shipped "contract" = Unbound ∧
  @fromOperationRaw _ Example.shipped Example.o1 "js:2:bitcoin:xpub:" None
    Example.world
  = Throw "ReferenceError: contract is not defined" ∧
  (∃ msg,
     @patchOperations _ Example.shipped 0%nat [Example.o2; Example.o1]
       "js:2:bitcoin:xpub:" None Example.world = Throw msg) ∧
  @patchOperations _ Example.shipped 4%nat [] "js:2:bitcoin:xpub:" None
    Example.world = Ok (4%nat, Example.world).
Proof.
  assert (@freeIdentifier _ Example.shipped "contract" = Unbound) as Hu
    by reflexivity.
  split; [exact Hu|].
  destruct (@unbound_identifier_stops_the_decoder _ Example.shipped
              "js:2:bitcoin:xpub:"%string None Example.world Hu)
    as (Hthrows & _ & _ & Hpatch & Hempty & _).
  split; [exact (Hthrows Example.o1 Example.o1 eq_refl)|].
  split; [exact (Hpatch 0%nat Example.o2 [Example.o1])|].
  apply Hempty. reflexivity.
Defined.

(** ** The theorems at work on the small instance *)

#[local] Existing Instances Example.primitives Example.collaborators.

(** The raw history equals the cache: the first step of the synchronous
    builder finishes the walk and the cache array itself is returned.
    With one more raw record, which is pushed first, the asynchronous
    builder returns a new array: that record followed by the cached
    operations. *)
Lemma finishing_step_witness :
  allocated Example.world 0%nat ∧
  (∃ r w',
     minimalOperationsBuilderSync sameOp [Example.o1; Example.o2] 0%nat Some
       Example.world = Ok (r, w') ∧
     r = 0%nat ∧
     items w' r = [Example.o2; Example.o1]) ∧
  (∃ r w',
     minimalOperationsBuilder sameOp [Example.o1; Example.o2; Example.o3]
       0%nat Some None Example.world = Ok (r, w') ∧
     r ≠ 0%nat ∧ ¬ allocated Example.world r ∧
     items w' r = [Example.o3; Example.o2; Example.o1] ∧
     items w' 0%nat = [Example.o2; Example.o1]).
Proof.
  assert (allocated Example.world 0%nat) as Hex
    by (unfold allocated; simpl; lia).
  split; [exact Hex|]. split.
  - pose (state := {| operations := 10%nat; existingOps := 0%nat;
                      immutableOpCmpDoneOnce := false; finished := false |}).
    pose (w1 := w_alloc [] Example.world).
    assert (Checked sameOp state Example.o2 Example.o2 w1 (setCmpDone state)
              (w_emit (EvSameOp Example.o2 Example.o2) w1)) as Hc
      by (apply checked_now; [reflexivity | reflexivity | vm_compute; reflexivity]).
    destruct (proj1 (proj2
                (finishing_step_returns_cache_or_concat sameOp
                   [Example.o1; Example.o2] Some None Example.world 0%nat
                   state Example.o2 1 w1 Example.o2
                   (setCmpDone state) (w_emit (EvSameOp Example.o2 Example.o2) w1)
                   Hex eq_refl Hc
                   ltac:(vm_compute; discriminate))))
      as (r & w' & Heq & [Hsame|Hnew] & Hkeep).
    + apply (callSync_record sameOp [Example.o1; Example.o2] Some
               Example.world 0%nat 1 state w1 Example.o2); [|reflexivity].
      by apply (walked_start sameOp [Example.o1; Example.o2] Some
                  Example.world 0%nat state w1).
    + destruct Hsame as (_ & _ & ->).
      exists 0%nat, w'. split; [exact Heq|]. split; [reflexivity|exact Hkeep].
    + destruct Hnew as (Hn & _). exfalso. apply Hn. split; reflexivity.
  - pose (state := {| operations := 10%nat; existingOps := 0%nat;
                      immutableOpCmpDoneOnce := false; finished := false |}).
    pose (w1 := w_push 10%nat Example.o3 (w_alloc [] Example.world)).
    assert (Checked sameOp state Example.o2 Example.o2 w1 (setCmpDone state)
              (w_emit (EvSameOp Example.o2 Example.o2) w1)) as Hc
      by (apply checked_now; [reflexivity | reflexivity | vm_compute; reflexivity]).
    destruct (proj2 (proj2
                (finishing_step_returns_cache_or_concat sameOp
                   [Example.o1; Example.o2; Example.o3] Some None
                   Example.world 0%nat
                   state Example.o2 1 w1 Example.o2
                   (setCmpDone state) (w_emit (EvSameOp Example.o2 Example.o2) w1)
                   Hex eq_refl Hc
                   ltac:(vm_compute; discriminate))))
      as (r & w' & Heq & [Hsame|Hnew] & Hkeep).
    + apply (callAsync_record sameOp [Example.o1; Example.o2; Example.o3] Some
               Example.world 0%nat None 1 [] state w1 Example.o2);
        [|reflexivity|reflexivity].
      apply (walkedAsync_step sameOp [Example.o1; Example.o2; Example.o3] Some
               Example.world 0%nat None 2 [] state
               (w_alloc [] Example.world) Example.o3 state w1);
        [|reflexivity|reflexivity|reflexivity|reflexivity].
      by apply (walkedAsync_start sameOp [Example.o1; Example.o2; Example.o3]
                  Some Example.world 0%nat None state
                  (w_alloc [] Example.world)).
    + destruct Hsame as (Hp & _). discriminate Hp.
    + destruct Hnew as (_ & Hfresh & Hit & _).
      exists r, w'. split; [exact Heq|].
      split; [intros ->; by apply Hfresh|].
      split; [exact Hfresh|]. split; [exact Hit|exact Hkeep].
Defined.

(** [o2] comes back with another value: the fail-safe step. *)
Lemma stale_cache_witness :
  allocated Example.world 0%nat ∧
  ∃ state' w',
    stepBuilder sameOp
      {| operations := 10%nat; existingOps := 0%nat;
         immutableOpCmpDoneOnce := false; finished := false |}
      Example.o2changed 1 (w_alloc [] Example.world) = Ok (state', w') ∧
    finished state' = false ∧
    immutableOpCmpDoneOnce state' = true ∧
    items w' (existingOps state') = [] ∧
    items w' (operations state') = [Example.o2changed].
Proof.
  assert (allocated Example.world 0%nat) as Hex
    by (unfold allocated; simpl; lia).
  split; [exact Hex|].
  destruct (proj1 (stale_cache_mismatch_recovers sameOp
                     [Example.o1; Example.o2changed] Some None
                     Example.world 0%nat Hex)
              {| operations := 10%nat; existingOps := 0%nat;
                 immutableOpCmpDoneOnce := false; finished := false |}
              Example.o2changed 1 (w_alloc [] Example.world) Example.o2
              (WalkInv_initial Example.world 0%nat)
              eq_refl
              ltac:(vm_compute; reflexivity) eq_refl eq_refl
              ltac:(vm_compute; reflexivity))
    as (state' & w' & Heq & Hnf & Hd & Hnil & Hit & _).
  exists state', w'. repeat (split; [assumption|]). exact Hit.
Defined.

Lemma blockHeight_update_witness :
  allocated Example.pendingWorld 0%nat ∧
  ∃ r w',
    minimalOperationsBuilderSync sameOp
      [Example.o1; Example.o2; Example.o3confirmed] 0%nat Some
      Example.pendingWorld = Ok (r, w') ∧
    length (items w' r) = 3%nat ∧
    head (items w' r) = Some Example.o3confirmed.
Proof.
  assert (allocated Example.pendingWorld 0%nat) as Hex
    by (unfold allocated; simpl; lia).
  split; [exact Hex|].
  assert (NoDup (op_id <$> items Example.pendingWorld 0%nat)) as Hids
    by (apply (bool_decide_unpack _); vm_compute; exact I).
  assert (NoDup (op_ref <$> items Example.pendingWorld 0%nat)) as Hrefs
    by (apply (bool_decide_unpack _); vm_compute; exact I).
  assert (Forall2 (λ co c, ∃ op, Some co = Some op ∧ op_id op = op_id c)
            (reverse [Example.o1; Example.o2; Example.o3confirmed])
            (items Example.pendingWorld 0%nat)) as Hraw
    by (vm_compute; repeat constructor; eexists; split; reflexivity).
  destruct (proj2 (blockHeight_change_is_an_update sameOp
                     [Example.o1; Example.o2; Example.o3confirmed] Some
                     Example.pendingWorld 0%nat Hex Hids Hrefs Hraw))
    as (r & w' & Heq & Hlen & _ & Hhead).
  exists r, w'. split; [exact Heq|]. split; [exact Hlen|].
  apply (Hhead Example.o3confirmed Example.o3 Example.o3confirmed);
    [reflexivity | reflexivity | reflexivity | vm_compute; discriminate].
Defined.



Lemma balance_history_witness :
  shouldRefreshBalanceHistoryCache (Example.bucket 100 [5; 13])
    (Example.bucket 100 [5; 12]) = true ∧
  shouldRefreshBalanceHistoryCache (Example.bucket 100 [5; 12])
    (Example.bucket 100 [5; 12]) = false.
Proof.
  split.
  - apply (proj1 (balance_history_refresh_decision
                    (Example.bucket 100 [5; 13]) (Example.bucket 100 [5; 12]))).
    right. right. vm_compute. repeat split; discriminate.
  - apply not_true_is_false. intros Hs.
    apply (proj1 (balance_history_refresh_decision
                    (Example.bucket 100 [5; 12]) (Example.bucket 100 [5; 12])))
      in Hs.
    destruct Hs as [Hd|[Hl|(_ & _ & Hv)]];
      [by apply Hd | by apply Hl | by apply Hv].
Defined.

(** Another id: the account is rebuilt from the snapshot, and the patch
    returns it. *)
Lemma id_change_witness :
  let raw := Example.accountRawOf "js:2:bitcoin:xpub2:" 1 (Some "12"%string) in
  acc_id (Example.account "bitcoin") ≠ raw_id raw ∧
  ∃ a1 w1,
    patchAccount (Example.account "bitcoin") raw Example.world = Ok (a1, w1) ∧
    ¬ allocated Example.world (acc_ref a1) ∧
    ¬ allocated Example.world (acc_operations a1) ∧
    acc_id a1 = "js:2:bitcoin:xpub2:"%string ∧
    acc_balance a1 = "12"%string ∧
    acc_bitcoinResources a1 = None ∧
    length (items w1 (acc_operations a1)) = 2%nat.
Proof.
  intros raw.
  assert (acc_id (Example.account "bitcoin") ≠ raw_id raw) as Hid
    by (vm_compute; discriminate).
  split; [exact Hid|].
  destruct (proj1 (id_change_rebuilds_from_raw
                     (Example.account "bitcoin") raw
                     None (Example.subAccountRaw "TokenAccountRaw")
                     Example.world) Hid)
    as (_ & _ & Hrebuilt & Hreturns).
  destruct Hreturns as (a1 & w1 & Heq).
  - split.
    + intros name _. discriminate.
    + intros op id subs. by exists op.
  - by exists "bitcoin"%string.
  - intros rs Hrs. discriminate Hrs.
  - destruct (Hrebuilt a1 w1 Heq) as (res & Hres & ->).
    destruct Hres as (_ & Href & Hops & _ & _ & Hdecoded & _ & _ & Hid1 & _
                      & Hbal & _ & _ & _ & _ & _ & _ & _ & _ & _ & _ & Hbtc & _).
    exists res, w1. split; [exact Heq|]. split; [exact Href|].
    split; [exact Hops|]. split; [exact Hid1|]. split; [exact Hbal|].
    split; [exact Hbtc|].
    apply Forall2_length in Hdecoded. exact Hdecoded.
Defined.

Lemma invalid_discriminant_witness :
  fromSubAccountRaw (Example.subAccountRaw "TokenAccount") Example.world
  = Throw "invalid raw.type=TokenAccount".
Proof.
  apply (proj1 (fromSubAccountRaw_discriminant
                  (Example.subAccountRaw "TokenAccount") Example.world));
    vm_compute; discriminate.
Defined.

Lemma empty_walk_witness :
  allocated Example.world 0%nat ∧
  ∃ r w',
    minimalOperationsBuilderSync sameOp ([] : list Operation) 0%nat Some
      Example.world = Ok (r, w') ∧
    r = 10%nat ∧ items w' r = [] ∧ items w' 0%nat = [Example.o2; Example.o1].
Proof.
  assert (allocated Example.world 0%nat) as Hex
    by (unfold allocated; simpl; lia).
  split; [exact Hex|].
  destruct (empty_walk_discards_cache sameOp ([] : list Operation) Some None
              Example.world 0%nat Hex)
    as (r & w' & Hs & _ & Hne & _).
  { intros co Hco. inversion Hco. }
  exists r, w'. split; [exact Hs|].
  destruct Hne as (Hr & _ & _ & Hnil & Hkeep); [vm_compute; discriminate|].
  split; [exact Hr|]. split; [exact Hnil|]. rewrite Hkeep. reflexivity.
Defined.
